(* ===== verification/_CoqProject ===== *)
-Q . S2P
Prelude.v
CString.v
Paging1.v
Mem1.v
Paging1Spec.v
Paging1Refine.v
Paging1Props.v
Paging2.v
Mem2.v
Paging2Inv.v
Paging2Write.v
Paging2Evict.v
Paging2Free.v
Paging2Load.v
Paging2Ops.v
Paging2Props.v
Queue.v
Drivers.v
DriversOps.v
DriversInv.v
DriversSteps.v
DriversSafe.v
DriversProps.v
DriversEq.v
DriversStarve.v
DriversProgress.v
Pirates.v
PiratesInv.v
PiratesSteps.v
PiratesStart.v
PiratesLost.v
PiratesRuns.v
PiratesBook.v
PiratesBill.v
PiratesProps.v
Shell.v
Shell0.v
Shell1.v
Shell2.v
ShellWords.v
ShellInput.v
ShellJobs.v
Shell2Race.v
Shell2RaceInv.v
Shell2RaceExit.v
Shell2RaceProps.v
ShellProps.v
ShellSession.v
Interceptor.v
InterceptorProps.v
Ancestry.v
AncestryProps.v
SysBase.v
SysCred.v
SysCredProps.v
SysPrio.v
SysPrioProps.v
SysPgrp.v
SysPgrpProps.v
SysRlimit.v
SysRlimitProps.v
SysUts.v
SysUtsProps.v
SysInfo.v
SysInfoProps.v
SysMm.v
SysMmProps.v
SysPrctl.v
SysPrctlProps.v
SysEntry.v
SysTable.v
SysEntryProps.v
Programs.v
