(* ===== verification/Prelude.v ===== *)
(** * Verification of the CS3013 operating-systems projects

    The repository holds five course projects in C, and this library models all of
    their logic:

    - Project4/Part1 and Project4/Part2: a simulator of paged virtual memory, first
      without and then with a backing store, each driven by a command loop;
    - Project3/Drivers: twenty car threads at an intersection of four quadrants;
    - Project3/PiratesVNinjas: pirate and ninja threads that share a costume
      department, and the bill at the end;
    - Project1/v0, v1, v2: three versions of a menu shell, the last with background
      jobs and a second thread that waits for them;
    - Project2: a kernel module that intercepts system calls, the ancestry system
      call, and the programs procAncestry and goodbye;
    - Project0: the files sys.c and syscalls.h of the Linux kernel with three calls added
      by the course, the program testcalls that makes them, and a small module.

    ** How the code is modelled

    An operation is an executable definition in the monad [M E S] of this file: it
    takes a state of type [S] and returns [Done] with a value, a new state and the
    lines printed (of type [E]), or [Undef] (undefined behaviour: an access outside
    an array, a NULL or dangling pointer, unlocking a lock one does not hold), or
    [NoFuel] (a loop or a recursion that the fuel did not cover).  C arrays are lists
    with the checked accesses [zget] and [zset], or functions of the index where the
    code cannot leave the array; machine integers are [Z] with the wrap-around of
    their type written out ([to_uchar], [to_int]); a pointer is the number of the
    object, NULL is [None].  [wp] is the weakest precondition of an operation that must
    return, with the tactic [wp_step]; [wlp] only speaks of the operations that do.

    Threads are step relations.  One step is one critical section of the code (or the
    piece between two blocking calls), so that the interleavings are those the locks
    allow; sleeping times are dropped, which leaves every interleaving possible.  The
    department of PiratesVNinjas reads queues without their semaphore; such a read may see
    an earlier state of a queue that grows meanwhile ([Pirates.glimpse]).  The wait thread of Project1/v2 works outside its lock: [Shell2] takes an iteration of
    the main loop and a report of the wait thread as one step each, and [Shell2Race]
    takes every statement on shared data as a step and shows what overlapping does; there
    fork is assumed not to return a process number that the table of jobs still holds.
    What the environment answers is an argument of the definitions: the input stream,
    the clock, random numbers, the results of fork and wait3, the kernel's functions
    and memory, the contents of memory that malloc returns.  malloc does not fail.
    Project0 has a monad of its own ([SysBase.K]): a system call returns a value or a
    negative errno, with the state it leaves in either case.  The functions of other
    kernel files are arguments; what is relied on is a class: [HookSpec] (security hooks
    change no identity and give no capability), [DropSpec] (and take them from who leaves
    root, unless the task keeps them), [PidSpec] (the tables of process numbers), [Bitwidth] (an
    unsigned long has 32 or 64 bits), [Typedefs] (the types that other headers name),
    [NoArch] (an architecture without the optional functions of prctl).

    ** Files

    - [Prelude]: arrays, bits, the monad and its logic, sums, tactics, hint databases.
    - [CString]: fgets, strtok, atoi and cleanNewline, with the lemmas on lines and
      numbers that the command loops and the shells use.

    Project4/Part1 ([pageTable.c], [mem.c])
    - [Paging1]: the state ([phys_mem], [procTable]) and every function of
      pageTable.c; [Mem1]: main of mem.c.
    - [Paging1Spec]: the invariant [wf]; [Paging1Refine]: the abstract memory and the
      simulation; [Paging1Props]: the properties.

    Project4/Part2 ([pageTable.c], [mem.c])
    - [Paging2]: memory, backing store, round-robin counter and every function of
      pageTable.c; [Mem2]: main of mem.c.
    - [Paging2Inv]: the invariant [inv], the condition [clean] (nobody uses page 0) and
      the processes' [view]; [Paging2Write]: what each kind of write changes;
      [Paging2Evict], [Paging2Free]: moving frames out; [Paging2Load]: bringing them
      back; [Paging2Ops]: map, store and load; [Paging2Props]: the properties.

    Project3
    - [Queue]: the linked queues both programs use.
    - [Drivers]: carThread.c, intersection.c, constants.c and main as a step
      relation; [DriversOps], [DriversInv], [DriversSteps], [DriversSafe]: operations,
      invariant, its preservation, reachable states; [DriversProps]: the properties.
      [DriversEq]: states that agree at every index, an equivalence that every step
      respects; [DriversStarve]: a fair run in which a car starves; [DriversProgress]: a
      measure that bounds the steps by the crossings.
    - [Pirates]: human.c, department.c, normDist.c and pvn.c; [PiratesInv],
      [PiratesSteps], [PiratesStart], [PiratesRuns]: invariant, preservation, the
      initial state, runs; [PiratesLost]: humans the queues have lost; [PiratesBook],
      [PiratesBill]: visits and totals; [PiratesProps]: the properties.

    Project1
    - [Shell]: what v1 and v2 share; [Shell0], [Shell1], [Shell2]: mc0.c; mc1.c and
      option.c; mc2.c, option.c, cprocess.c and waitthread.c.
    - [ShellWords]: words of a line; [ShellInput]: consumption of the input;
      [ShellJobs]: the invariant of the job table; [ShellProps]: the properties;
      [ShellSession]: what v1 does with the lines of a whole session.
    - [Shell2Race]: the two threads of v2 statement by statement, as a relation and as a
      function of a schedule; [Shell2RaceInv]: their invariant; [Shell2RaceExit]: the end of the program; [Shell2RaceProps]: the
      properties.

    Project2
    - [Interceptor], [InterceptorProps]: module/mod.c except the ancestry call.
    - [Ancestry], [AncestryProps]: the ancestry call and procAncestry.c.
    - [Programs]: goodbye.c and cat of the files in virusScan, which meet the module
      through the table and the new read; also seymour.c of Project1 and hello.c of
      Project0.

    Project0 (submission/sys.c, syscalls.h, testcalls.c); each file of calls has its properties in
    the file of the same name with [Props]
    - [SysBase]: errno, the monad and its logic.
    - [SysCred]: setuid, setreuid, setresuid, setfsuid and their group versions;
      [SysPrio]: setpriority, getpriority; [SysPgrp]: setpgid, getpgid, getpgrp,
      getsid, setsid, getpid, gettid, getppid; [SysRlimit]: the calls on resource limits and their compat versions.
    - [SysUts]: the uname calls, host and domain name; [SysInfo]: sysinfo, getrusage,
      times, getcpu, umask, the three calls of the course and testcalls.c; [SysMm]: the part
      of prctl that changes the memory layout; [SysPrctl]: prctl.
    - [SysEntry]: the macros of syscalls.h that make the entry and the description of a
      call, and the calls of sys.c in that form; [SysTable]: the prototypes of syscalls.h;
      [SysEntryProps]: their properties.

    ** What the theorems show

    - Paging: sequences of operations return what an abstract memory without frames
      (and, in part 2, without swapping) returns; the invariants; a stored byte is read
      back after any other operations; a frame search answers a free frame; every
      operation returns; the recorded session of part 2 prints the recorded transcript;
      printed commands are parsed back, and a session of them runs the operations and fails
      at the end of the input, where the code uses a line it has not read.  Part 2 loses
      page 0 once it is swapped out, so its refinement is for sequences that do not map
      page 0.
    - Drivers: cars that cross use disjoint quadrants; no deadlock, no lost wake-up;
      every step is defined; the queues are the lists of the waiting cars.  There is no
      livelock: the number of steps is bounded by the number of crossings.  But there is
      starvation: a fair run in which the front car of a queue, which wants to turn left, never
      crosses and seventeen cars behind it never move.
    - PiratesVNinjas: the department is never shared by both teams; the chairs; when
      the program counts zero visits left, everybody was served; the bill is the sum
      over all visits (and over what malloc left in the lists), if it fits an int.  Two reachable failures are proved: a customer that is removed
      from the queue and never served, and a queue that becomes circular.
    - Shells: the words of a line; the argument vector and its bound; the job numbers
      of v2 when its threads do not overlap, for any menu; v1 serves the requests of a session
      and exits; the menu choice after the last entry and added commands fail.  With overlapping threads: the only places where v2
      can crash, and runs that reach them; job numbers that are lost; the exit ends, unless
      a fork has failed, and then it never does.
    - Interceptor: contstr is substring search; loading changes five entries of the
      table and unloading restores the memory; what the new read reports; what
      procAncestry prints; what goodbye logs before, while and after the module is loaded;
      that cat of a file with the word is reported twice.
    - Kernel calls: a task without privileges gains no identity, and one that has given
      up root, and does not keep its capabilities, stays without; process groups stay inside one session; limits stay
      consistent but for the CPU limit 0; what is set is read back (priorities, unless a
      security module answers -ESRCH; limits, names); sysinfo changes units without losing or overflowing; the recorded memory
      layout stays ordered, except that on 32 bits one check compares values that are
      cut off afterwards; a failed call on identities changes nothing; getcpu writes what it
      can also when it fails; times can return the number of an error.
    - Entry of the calls: an argument passes through the entry unchanged exactly if the
      macro accepts its type; the arguments of every call of sys.c reach its body as its
      prototype says, on 32 and 64 bits, and whatever is in the registers the body gets
      values of the declared types; the descriptions for tracing are right and their events distinct.

    ** Fuel

    - [Paging2.FUEL] = 6: [free_frame] skips a frame at most once per round of four, and
      [check_backing_store], [init_table] and [find_page] call each other at most once
      for a page and once for its table; [Paging2Props] proves that no in-range
      operation runs out.
    - The loops of mem.c do not end: [Mem1.session] and [Mem2.session] are their first [n]
      iterations; that each iteration ends is proved in [Paging1Props] and [Paging2Props].
      The loop of mc1.c has [S (length stdin)] iterations at most, since every one reads a
      character or leaves; proved enough in [ShellProps].
    - Queue walks: the number of cars, and [walk_fuel] = 100, the most humans the two
      arrays of pvn.c hold.  A walk that exceeds it is circular; for cars it is proved that this
      does not happen, for humans that it can.
    - [SysInfo.scale_fuel] = 33, since a memory unit, an unsigned int, is shifted at most 32
      times; proved enough in [SysInfoProps].
    - [collect_amp]: the length of the line; [find_sys_call_table]: the property of the
      interceptor holds for every fuel with which the search has ended.
    - [Programs]: the loop of seymour.c needs one step more than its bound; cat needs two
      reads of a file that fits its buffer.

    ** Not modelled

    - The code of other kernel files and headers that sys.c and syscalls.h use; it is an
      argument.  The generated file hello.mod.c.
    - Locks and RCU of sys.c: a call runs alone.
    - Sleeping times, the _DEBUG output, the child process whose exec fails, failures of
      malloc. *)

From stdpp Require Export base tactics list list_numbers numbers strings pretty functions relations.
From Stdlib Require Export Lia ZArith.

#[global] Open Scope Z_scope.
Set Default Goal Selector "!".

#[global] Arguments seqZ : simpl never.

(** ** Hint databases of the development *)

Create HintDb c_arr discriminated.
Create HintDb c_bits discriminated.
Create HintDb c_wp discriminated.

(** ** C arrays

    A C array is a list; an index is a C [int], that is a [Z].  A read or a
    write outside the bounds has no defined result: [None]. *)

Section arrays.
Context {A : Type}.
Implicit Types (l : list A) (i j : Z) (x : A).

Definition zget l i : option A :=
  if decide (0 ≤ i) then l !! Z.to_nat i else None.

Definition zset l i x : option (list A) :=
  if decide (0 ≤ i < Z.of_nat (length l)) then Some (<[Z.to_nat i := x]> l) else None.

Definition zlen l : Z := Z.of_nat (length l).

Lemma zget_Some_bound l i x : zget l i = Some x → 0 ≤ i < zlen l.
Proof.
  unfold zget, zlen. case_decide; [|done]. intros ?%lookup_lt_Some. lia.
Qed.

Lemma zget_is_Some l i : 0 ≤ i < zlen l → is_Some (zget l i).
Proof.
  unfold zget, zlen. intros ?. rewrite decide_True by lia.
  apply lookup_lt_is_Some. lia.
Qed.

Lemma zget_None l i : zget l i = None ↔ ¬ (0 ≤ i < zlen l).
Proof.
  split.
  - intros H Hb. destruct (zget_is_Some l i Hb). congruence.
  - intros Hb. destruct (zget l i) eqn:E; [|done].
    by apply zget_Some_bound in E.
Qed.

Lemma zset_Some l i x : 0 ≤ i < zlen l → zset l i x = Some (<[Z.to_nat i := x]> l).
Proof. unfold zset, zlen. intros ?. by rewrite decide_True. Qed.

Lemma zset_inv l i x l' : zset l i x = Some l' →
  0 ≤ i < zlen l ∧ l' = <[Z.to_nat i := x]> l.
Proof. unfold zset, zlen. case_decide; intros; by simplify_eq. Qed.

Lemma zset_None l i x : zset l i x = None ↔ ¬ (0 ≤ i < zlen l).
Proof. unfold zset, zlen. by case_decide. Qed.

Lemma zset_length l i x l' : zset l i x = Some l' → length l' = length l.
Proof. intros [_ ->]%zset_inv. apply length_insert. Qed.

Lemma zset_zlen l i x l' : zset l i x = Some l' → zlen l' = zlen l.
Proof. unfold zlen. intros ->%zset_length. done. Qed.

Lemma zget_zset_eq l i x l' : zset l i x = Some l' → zget l' i = Some x.
Proof.
  intros [? ->]%zset_inv. unfold zget, zlen in *. rewrite decide_True by lia.
  apply list_lookup_insert_eq. lia.
Qed.

Lemma zget_zset_ne l i j x l' : zset l i x = Some l' → i ≠ j → zget l' j = zget l j.
Proof.
  intros [? ->]%zset_inv ?. unfold zget. case_decide; [|done].
  apply list_lookup_insert_ne. lia.
Qed.

Lemma zget_zset l i j x l' : zset l i x = Some l' →
  zget l' j = if decide (i = j) then Some x else zget l j.
Proof.
  intros H. case_decide; subst; eauto using zget_zset_eq, zget_zset_ne.
Qed.

Lemma zset_zset l i x y l' : zset l i x = Some l' → zset l' i y = zset l i y.
Proof.
  intros H. pose proof (zset_zlen _ _ _ _ H) as Hlen. apply zset_inv in H as [Hi ->].
  rewrite !zset_Some by (rewrite ?Hlen; done). by rewrite list_insert_insert_eq.
Qed.

Lemma zget_In l i x : zget l i = Some x → x ∈ l.
Proof.
  unfold zget. case_decide; [|done]. apply list_elem_of_lookup_2.
Qed.

Lemma zget_middle l1 x l2 : zget (l1 ++ x :: l2) (zlen l1) = Some x.
Proof.
  unfold zget, zlen. rewrite decide_True by lia. rewrite Nat2Z.id. by apply list_lookup_middle.
Qed.

Lemma zset_middle l1 x y l2 : zset (l1 ++ x :: l2) (zlen l1) y = Some (l1 ++ y :: l2).
Proof.
  unfold zset, zlen. rewrite decide_True by (rewrite length_app; cbn [length]; lia). rewrite Nat2Z.id.
  f_equal. rewrite <-(Nat.add_0_r (length l1)). by rewrite insert_app_r.
Qed.

Lemma Forall_zset P l i x l' :
  Forall P l → P x → zset l i x = Some l' → Forall P l'.
Proof. intros ?? [_ ->]%zset_inv. by apply Forall_insert. Qed.

Lemma Forall_zget P l i x : Forall P l → zget l i = Some x → P x.
Proof. intros Hl H%zget_In. rewrite Forall_forall in Hl. auto. Qed.
End arrays.

#[export] Hint Resolve zget_zset_eq zget_Some_bound : c_arr.

(** ** Bit fields

    [uint8_t f : w] at bit offset [off] of its storage byte (GCC allocates the
    fields of a struct from the least significant bit up). *)

Definition bf_get (off w b : Z) : Z := Z.land (Z.shiftr b off) (Z.ones w).

Definition bf_set (off w b v : Z) : Z :=
  Z.lor (Z.ldiff b (Z.shiftl (Z.ones w) off)) (Z.shiftl (Z.land v (Z.ones w)) off).

(** A value of type [unsigned char] / [uint8_t]. *)
Definition is_byte (b : Z) : Prop := 0 ≤ b < 256.

#[global] Instance is_byte_dec b : Decision (is_byte b).
Proof. unfold is_byte. apply _. Defined.

(** Conversion of an [int] to [unsigned char]. *)
Definition to_uchar (v : Z) : Z := v mod 256.

(** Conversion to [int] (GCC wraps modulo [2^32]). *)
Definition to_int (v : Z) : Z := (v + 2147483648) mod 4294967296 - 2147483648.

Section bitfields.
Implicit Types off w b v n : Z.

Lemma ones_testbit w n : 0 ≤ w → 0 ≤ n → Z.testbit (Z.ones w) n = bool_decide (n < w).
Proof.
  intros. case_bool_decide.
  - apply Z.ones_spec_low. lia.
  - apply Z.ones_spec_high. lia.
Qed.

Lemma bf_get_testbit off w b n : 0 ≤ off → 0 ≤ w → 0 ≤ n →
  Z.testbit (bf_get off w b) n = Z.testbit b (n + off) && bool_decide (n < w).
Proof.
  intros. unfold bf_get. rewrite Z.land_spec, Z.shiftr_spec, ones_testbit by lia. done.
Qed.

Lemma bf_set_testbit off w b v n : 0 ≤ off → 0 ≤ w → 0 ≤ n →
  Z.testbit (bf_set off w b v) n =
    if bool_decide (off ≤ n < off + w) then Z.testbit v (n - off) else Z.testbit b n.
Proof.
  intros. unfold bf_set. rewrite Z.lor_spec, Z.ldiff_spec, !Z.shiftl_spec by lia.
  destruct (decide (n < off)).
  - rewrite !(Z.testbit_neg_r _ (n - off)) by lia.
    rewrite bool_decide_eq_false_2 by lia. destruct (Z.testbit b n); done.
  - rewrite Z.land_spec, !ones_testbit by lia.
    repeat case_bool_decide; try lia; destruct (Z.testbit b n), (Z.testbit v (n - off)); done.
Qed.

Lemma bf_get_range off w b : 0 ≤ w → 0 ≤ bf_get off w b < 2 ^ w.
Proof.
  intros. unfold bf_get. rewrite Z.land_ones by lia. apply Z.mod_pos_bound. lia.
Qed.

Lemma bf_get_set_eq off w b v : 0 ≤ off → 0 ≤ w →
  bf_get off w (bf_set off w b v) = v mod 2 ^ w.
Proof.
  intros. rewrite <-Z.land_ones by lia. apply Z.bits_inj'. intros n ?.
  rewrite bf_get_testbit, bf_set_testbit, Z.land_spec, ones_testbit by lia.
  replace (n + off - off) with n by lia.
  repeat case_bool_decide; try lia; by rewrite ?andb_false_r.
Qed.

Lemma bf_get_set_ne off w off' w' b v : 0 ≤ off → 0 ≤ w → 0 ≤ off' → 0 ≤ w' →
  off + w ≤ off' ∨ off' + w' ≤ off →
  bf_get off w (bf_set off' w' b v) = bf_get off w b.
Proof.
  intros. apply Z.bits_inj'. intros n ?.
  rewrite !bf_get_testbit, bf_set_testbit by lia.
  repeat case_bool_decide; try lia; by rewrite ?andb_false_r.
Qed.

Lemma byte_testbit b : is_byte b ↔ 0 ≤ b ∧ ∀ n, 8 ≤ n → Z.testbit b n = false.
Proof.
  unfold is_byte. split.
  - intros. split; [lia|]. intros n ?. apply Z.testbit_false; [lia|].
    rewrite Z.div_small; [done|]. split; [lia|].
    apply Z.lt_le_trans with (2 ^ 8); [lia|]. apply Z.pow_le_mono_r; lia.
  - intros [? H]. split; [lia|]. change 256 with (2 ^ 8).
    destruct (decide (b < 2 ^ 8)); [done|exfalso].
    assert (0 < b) by lia. pose proof (Z.bit_log2 b ltac:(lia)) as Hb.
    rewrite H in Hb; [done|]. apply Z.log2_le_pow2; lia.
Qed.

Lemma bf_set_byte off w b v : 0 ≤ off → 0 ≤ w → off + w ≤ 8 →
  is_byte b → is_byte (bf_set off w b v).
Proof.
  intros ??? [? Hb]%byte_testbit. apply byte_testbit. split.
  - unfold bf_set. apply Z.lor_nonneg. split; [apply Z.ldiff_nonneg; lia|].
    apply Z.shiftl_nonneg, Z.land_nonneg. right. rewrite Z.ones_equiv. lia.
  - intros n ?. rewrite bf_set_testbit, bool_decide_eq_false_2 by lia. auto.
Qed.

Lemma to_uchar_byte v : is_byte (to_uchar v).
Proof. unfold is_byte, to_uchar. apply Z.mod_pos_bound. lia. Qed.
End bitfields.

#[export] Hint Resolve bf_set_byte to_uchar_byte : c_bits.

(** The integer tests of C conditions. *)
Definition truthy (v : Z) : bool := negb (v =? 0).

Lemma truthy_true v : truthy v = true ↔ v ≠ 0.
Proof. unfold truthy. destruct (Z.eqb_spec v 0); simpl; intuition congruence. Qed.

Lemma truthy_false v : truthy v = false ↔ v = 0.
Proof. unfold truthy. destruct (Z.eqb_spec v 0); simpl; intuition congruence. Qed.

(** ** Lists *)

Lemma elem_of_middle {A} (l1 l2 : list A) x : x ∈ l1 ++ x :: l2.
Proof. apply elem_of_app. right. left. Qed.

(** ** Loops over an index range, in code that only reads

    [for_ret l body] is [for (i in l) body(i)] where [body] may [return]
    ([Some (Some r)]), fall through to the next iteration ([Some None]), or have
    undefined behaviour ([None]). *)

Fixpoint for_ret {A} (l : list Z) (body : Z → option (option A)) : option (option A) :=
  match l with
  | [] => Some None
  | i :: l' => r ← body i; match r with Some a => Some (Some a) | None => for_ret l' body end
  end.

Section for_ret.
Context {A : Type}.
Implicit Types (l : list Z) (body : Z → option (option A)).

(** The loop falls off its end exactly when every iteration falls through. *)
Lemma for_ret_None l body :
  for_ret l body = Some None ↔ ∀ i, i ∈ l → body i = Some None.
Proof.
  induction l as [|x l IH]; simpl.
  - split; [|done]. intros _ i H. by apply elem_of_nil in H.
  - split.
    + intros H i [->|Hi]%elem_of_cons.
      * destruct (body x) as [[]|]; naive_solver.
      * destruct (body x) as [[]|]; simplify_eq/=. by apply IH.
    + intros H. rewrite (H x) by left. simpl. apply IH. intros i Hi. apply H. by right.
Qed.

(** It returns the value of the first iteration that returns. *)
Lemma for_ret_Some l body a :
  for_ret l body = Some (Some a) ↔
  ∃ l1 i l2, l = l1 ++ i :: l2 ∧ body i = Some (Some a) ∧ ∀ j, j ∈ l1 → body j = Some None.
Proof.
  revert a. induction l as [|x l IH]; simpl; intros a.
  - split; [done|]. intros (l1 & ? & ? & H & _). by destruct l1.
  - split.
    + destruct (body x) as [[b|]|] eqn:E; intros H; simplify_eq/=.
      * exists [], x, l. split_and!; [done|done|]. intros j Hj. by apply elem_of_nil in Hj.
      * apply IH in H as (l1 & i & l2 & -> & Hi & H1). exists (x :: l1), i, l2.
        split_and!; [done|done|]. intros j [->|Hj]%elem_of_cons; auto.
    + intros (l1 & i & l2 & H & Hi & H1). destruct l1 as [|y l1]; simplify_eq/=.
      * by rewrite Hi.
      * rewrite (H1 y) by left. simpl. apply IH. exists l1, i, l2. split_and!; [done|done|].
        intros j Hj. apply H1. by right.
Qed.

Lemma for_ret_total l body :
  (∀ i, i ∈ l → is_Some (body i)) → is_Some (for_ret l body).
Proof.
  induction l as [|x l IH]; simpl; [by eauto|]. intros H.
  destruct (H x ltac:(left)) as [[b|] ->]; simpl; [by eauto|].
  apply IH. intros i Hi. apply H. by right.
Qed.

End for_ret.

(** A loop over a range: the first index at which the body returns. *)
Lemma for_ret_seqZ {A} lo n (body : Z → option (option A)) a :
  for_ret (seqZ lo n) body = Some (Some a) ↔
  ∃ i, lo ≤ i < lo + n ∧ body i = Some (Some a) ∧ ∀ j, lo ≤ j < i → body j = Some None.
Proof.
  rewrite for_ret_Some. split.
  - intros (l1 & i & l2 & Hl & Hi & H1).
    assert (i ∈ seqZ lo n) as Hin%elem_of_seqZ by (rewrite Hl; apply elem_of_middle).
    exists i. split_and!; [lia..|done|]. intros j Hj. apply H1.
    pose proof (f_equal (λ l, l !! length l1) Hl) as E1. simpl in E1.
    rewrite list_lookup_middle in E1 by done. apply lookup_seqZ in E1 as [E1 _].
    pose proof (f_equal (λ l, l !! Z.to_nat (j - lo)) Hl) as E. simpl in E.
    rewrite lookup_seqZ_lt in E by lia. rewrite lookup_app_l in E by lia.
    eapply list_elem_of_lookup_2. rewrite <-E. f_equal. lia.
  - intros (i & Hr & Hi & H1).
    exists (seqZ lo (i - lo)), i, (seqZ (i + 1) (lo + n - i - 1)). split_and!; [|done|].
    + replace n with ((i - lo) + (1 + (lo + n - i - 1))) at 1 by lia.
      rewrite seqZ_app by lia. f_equal.
      rewrite seqZ_app by lia. replace (lo + (i - lo)) with i by lia. done.
    + intros j Hj%elem_of_seqZ. apply H1. lia.
Qed.

Lemma for_ret_seqZ_None {A} lo n (body : Z → option (option A)) :
  for_ret (seqZ lo n) body = Some None ↔ ∀ i, lo ≤ i < lo + n → body i = Some None.
Proof. rewrite for_ret_None. by setoid_rewrite elem_of_seqZ. Qed.

Lemma for_ret_seqZ_total {A} lo n (body : Z → option (option A)) :
  (∀ i, lo ≤ i < lo + n → is_Some (body i)) → is_Some (for_ret (seqZ lo n) body).
Proof. intros H. apply for_ret_total. intros i Hi%elem_of_seqZ. by apply H. Qed.

#[global] Arguments for_ret : simpl never.

(** ** Stateful code

    A computation takes the global state and ends with a result, a new state and
    the lines it printed, or has undefined behaviour, or needs more fuel. *)

Inductive outcome (E S A : Type) : Type :=
  | Done (a : A) (s : S) (o : list E)
  | Undef
  | NoFuel.
Arguments Done {E S A} a s o.
Arguments Undef {E S A}.
Arguments NoFuel {E S A}.

Definition M (E S A : Type) : Type := S → outcome E S A.

#[global] Instance M_ret E S : MRet (M E S) := λ A a s, Done a s [].
#[global] Instance M_bind E S : MBind (M E S) := λ A B k m s,
  match m s with
  | Done a s1 o1 =>
      match k a s1 with
      | Done b s2 o2 => Done b s2 (o1 ++ o2)
      | Undef => Undef
      | NoFuel => NoFuel
      end
  | Undef => Undef
  | NoFuel => NoFuel
  end.

Section state_monad.
Context {E S : Type}.

(** Evaluate a read-only function of the state ([None]: undefined behaviour). *)
Definition reads {A} (f : S → option A) : M E S A := λ s,
  match f s with Some a => Done a s [] | None => Undef end.

(** Update the state ([None]: undefined behaviour, e.g. a write out of bounds). *)
Definition modifies (f : S → option S) : M E S unit := λ s,
  match f s with Some s' => Done tt s' [] | None => Undef end.

(** [printf] of one line. *)
Definition emit (e : E) : M E S unit := λ s, Done tt s [e].

Definition out_of_fuel {A} : M E S A := λ _, NoFuel.

Definition undefined {A} : M E S A := λ _, Undef.

(** [for (i in l) body(i);] *)
Fixpoint for_do (l : list Z) (body : Z → M E S unit) : M E S unit :=
  match l with
  | [] => mret tt
  | i :: l' => body i ≫= λ _, for_do l' body
  end.

(** Total correctness: the computation ends, and its result satisfies [Q]. *)
Definition wp {A} (m : M E S A) (s : S) (Q : A → S → Prop) : Prop :=
  match m s with Done a s' _ => Q a s' | _ => False end.

Section wp.
Context {A B : Type}.
Implicit Types (m : M E S A) (k : A → M E S B) (s : S).

Lemma wp_ret (a : A) s (Q : A → S → Prop) : Q a s → wp (mret a) s Q.
Proof. done. Qed.

Lemma wp_bind m k s (Q : B → S → Prop) :
  wp m s (λ a s1, wp (k a) s1 Q) → wp (m ≫= k) s Q.
Proof.
  unfold wp, mbind, M_bind. destruct (m s) as [a s1 o1| |]; try done.
  by destruct (k a s1).
Qed.

Lemma wp_mono m s (Q Q' : A → S → Prop) :
  wp m s Q → (∀ a s', Q a s' → Q' a s') → wp m s Q'.
Proof. unfold wp. destruct (m s); naive_solver. Qed.

Lemma wp_reads (f : S → option A) s (Q : A → S → Prop) a :
  f s = Some a → Q a s → wp (reads f) s Q.
Proof. unfold wp, reads. by intros ->. Qed.

Lemma wp_Done m s (Q : A → S → Prop) :
  wp m s Q → ∃ a s' o, m s = Done a s' o ∧ Q a s'.
Proof. unfold wp. destruct (m s); naive_solver. Qed.

Lemma Done_wp m s (Q : A → S → Prop) a s' o :
  m s = Done a s' o → Q a s' → wp m s Q.
Proof. unfold wp. by intros ->. Qed.

(** A computation has one outcome, so what [wp] says of it holds of the
    outcome at hand. *)
Lemma wp_det m s (Q : A → S → Prop) a s' o :
  wp m s Q → m s = Done a s' o → Q a s'.
Proof. unfold wp. intros H E0. by rewrite E0 in H. Qed.
End wp.

(** A read in front of a computation only supplies a value. *)
Lemma reads_bind {A B} (f : S → option A) (k : A → M E S B) s a :
  f s = Some a → (reads f ≫= k) s = k a s.
Proof.
  intros H. unfold mbind, M_bind, reads. rewrite H. by destruct (k a s).
Qed.

Lemma ret_bind {A B} (a : A) (k : A → M E S B) s : (mret a ≫= k) s = k a s.
Proof. unfold mbind, M_bind, mret, M_ret. by destruct (k a s). Qed.

(** The same for a step that ends silently in a known state. *)
Lemma bind_silent {A B} (m : M E S A) (k : A → M E S B) s a s1 :
  m s = Done a s1 [] → (m ≫= k) s = k a s1.
Proof. intros H. unfold mbind, M_bind. rewrite H. by destruct (k a s1). Qed.

Lemma bind_done {A B} (m : M E S A) (k : A → M E S B) s a s1 o1 b s2 o2 :
  m s = Done a s1 o1 → k a s1 = Done b s2 o2 → (m ≫= k) s = Done b s2 (o1 ++ o2).
Proof. intros H H'. unfold mbind, M_bind. by rewrite H, H'. Qed.

Lemma emit_bind {B} (e : E) (k : unit → M E S B) s b s' o :
  k tt s = Done b s' o → (emit e ≫= k) s = Done b s' (e :: o).
Proof. intros H. unfold mbind, M_bind, emit. by rewrite H. Qed.

Lemma for_do_cons i l (body : Z → M E S unit) s :
  for_do (i :: l) body s = (body i ≫= λ _, for_do l body) s.
Proof. done. Qed.

Lemma wp_modifies (f : S → option S) s s' (Q : unit → S → Prop) :
  f s = Some s' → Q tt s' → wp (modifies f) s Q.
Proof. unfold wp, modifies. by intros ->. Qed.

Lemma wp_emit (e : E) s (Q : unit → S → Prop) : Q tt s → wp (emit e) s Q.
Proof. done. Qed.

(** A loop keeps an invariant indexed by the iterations already done. *)
Lemma wp_for_do (l : list Z) body s (I : list Z → S → Prop) :
  I [] s →
  (∀ l1 i l2 s1, l = l1 ++ i :: l2 → I l1 s1 → wp (body i) s1 (λ _ s2, I (l1 ++ [i]) s2)) →
  wp (for_do l body) s (λ _ s', I l s').
Proof.
  intros H0 Hstep.
  assert (∀ l2 l1 s1, l = l1 ++ l2 → I l1 s1 → wp (for_do l2 body) s1 (λ _ s', I l s')) as H.
  { induction l2 as [|i l2 IH]; intros l1 s1 Hl HI; simpl.
    - rewrite app_nil_r in Hl. by subst.
    - apply wp_bind. eapply wp_mono; [by eapply Hstep|]. simpl. intros _ s2 HI2.
      eapply IH; [|done]. by rewrite <-app_assoc. }
  by apply (H l []).
Qed.
End state_monad.

(** *** Partial correctness

    Where a computation may fail to end, [wlp] says what holds if it does. *)

Section wlp.
Context {E S : Type}.

Definition wlp {A} (m : M E S A) (s : S) (Q : A → S → Prop) : Prop :=
  match m s with Done a s' _ => Q a s' | _ => True end.

Lemma wlp_ret {A} (a : A) s (Q : A → S → Prop) : Q a s → wlp (mret a) s Q.
Proof. done. Qed.
Lemma wlp_emit (e : E) s (Q : unit → S → Prop) : Q tt s → wlp (emit e) s Q.
Proof. done. Qed.
Lemma wlp_bind {A B} (m : M E S A) (k : A → M E S B) s (Q : B → S → Prop) :
  wlp m s (λ a s1, wlp (k a) s1 Q) → wlp (m ≫= k) s Q.
Proof.
  unfold wlp, mbind, M_bind. destruct (m s) as [a s1 o1| |]; try done. by destruct (k a s1).
Qed.
Lemma wlp_reads {A} (f : S → option A) s (Q : A → S → Prop) :
  (∀ a, f s = Some a → Q a s) → wlp (reads f) s Q.
Proof. unfold wlp, reads. destruct (f s); eauto. Qed.
Lemma wlp_modifies (f : S → option S) s (Q : unit → S → Prop) :
  (∀ s', f s = Some s' → Q tt s') → wlp (modifies f) s Q.
Proof. unfold wlp, modifies. destruct (f s); eauto. Qed.
Lemma wlp_mono {A} (m : M E S A) s (Q Q' : A → S → Prop) :
  wlp m s Q → (∀ a s', Q a s' → Q' a s') → wlp m s Q'.
Proof. unfold wlp. destruct (m s); naive_solver. Qed.
Lemma wlp_det {A} (m : M E S A) s (Q : A → S → Prop) a s' o :
  wlp m s Q → m s = Done a s' o → Q a s'.
Proof. unfold wlp. intros H E0. by rewrite E0 in H. Qed.
End wlp.

(** *** Code that needs no fuel *)

Definition terminates {E S A} (m : M E S A) : Prop := ∀ s, m s ≠ NoFuel.

Section terminates.
Context {E S : Type}.

Lemma terminates_ret {A} (a : A) : terminates (mret a : M E S A).
Proof. done. Qed.
Lemma terminates_bind {A B} (m : M E S A) (k : A → M E S B) :
  terminates m → (∀ a, terminates (k a)) → terminates (m ≫= k).
Proof.
  intros Hm Hk s. unfold mbind, M_bind. destruct (m s) as [a s1 o1| |] eqn:Em; try done.
  - pose proof (Hk a s1). by destruct (k a s1).
  - by destruct (Hm s).
Qed.
Lemma terminates_reads {A} (f : S → option A) : terminates (reads f : M E S A).
Proof. intros s. unfold reads. by destruct (f s). Qed.
Lemma terminates_modifies (f : S → option S) : terminates (modifies f : M E S unit).
Proof. intros s. unfold modifies. by destruct (f s). Qed.
Lemma terminates_emit (e : E) : terminates (emit e : M E S unit).
Proof. done. Qed.
Lemma terminates_undefined {A} : terminates (undefined : M E S A).
Proof. done. Qed.
Lemma terminates_for_do (l : list Z) (body : Z → M E S unit) :
  (∀ i, terminates (body i)) → terminates (for_do l body).
Proof.
  intros Hb. induction l as [|i l IH]; [done|]. simpl. by apply terminates_bind.
Qed.
End terminates.

Create HintDb c_term discriminated.
#[export] Hint Resolve terminates_ret terminates_bind terminates_reads terminates_modifies
  terminates_emit terminates_undefined terminates_for_do : c_term.

(** Discharge [terminates] goals by following the code. *)
Ltac solve_terminates :=
  repeat match goal with
  | |- terminates (mbind _ _) => apply terminates_bind
  | |- terminates (for_do _ _) => apply terminates_for_do
  | |- terminates (if ?b then _ else _) => destruct b
  | |- terminates (match ?x with _ => _ end) => destruct x
  | |- terminates (let _ := _ in _) => cbv zeta
  | |- ∀ _, terminates _ => intros ?
  | |- terminates _ => solve [eauto with c_term]
  end.

#[global] Arguments for_do : simpl never.
#[export] Hint Resolve wp_ret wp_emit : c_wp.

(** Step through straight-line code under [wp]. *)
Ltac wp_step :=
  lazymatch goal with
  | |- wp (mbind _ _) _ _ => apply wp_bind
  | |- wp (mret _) _ _ => apply wp_ret
  | |- wp (emit _) _ _ => apply wp_emit
  end.
Ltac wp_steps := repeat wp_step.

(** The same under [wlp]; a read leaves its value and the equation for it. *)
Ltac wlp_step :=
  lazymatch goal with
  | |- wlp (mbind _ _) _ _ => apply wlp_bind
  | |- wlp (mret _) _ _ => apply wlp_ret
  | |- wlp (emit _) _ _ => apply wlp_emit
  | |- wlp (reads _) _ _ => apply wlp_reads; cbn beta
  | |- wlp (modifies _) _ _ => apply wlp_modifies; cbn beta
  end.

(** ** Sums over a list of indices *)

Definition zsum (f : Z → Z) (l : list Z) : Z := foldr (λ x a, f x + a) 0 l.

Section zsum.
Implicit Types (f g : Z → Z) (l : list Z).

Lemma zsum_cons f x l : zsum f (x :: l) = f x + zsum f l.
Proof. done. Qed.

Lemma zsum_app f l1 l2 : zsum f (l1 ++ l2) = zsum f l1 + zsum f l2.
Proof. induction l1 as [|x l1 IH]; [done|]. cbn [app]. rewrite !zsum_cons, IH. lia. Qed.

Lemma zsum_ext f g l : (∀ x, x ∈ l → f x = g x) → zsum f l = zsum g l.
Proof.
  induction l as [|x l IH]; intros H; [done|]. rewrite !zsum_cons, (H x) by left.
  rewrite IH; [done|]. intros y Hy. apply H. by right.
Qed.

(** Only the term of [x] differs. *)
Lemma zsum_change f g x l : NoDup l → x ∈ l → (∀ y, y ≠ x → g y = f y) →
  zsum g l = zsum f l - f x + g x.
Proof.
  induction l as [|y l IH]; intros Hnd Hx H; [by apply elem_of_nil in Hx|].
  apply NoDup_cons in Hnd as [Hy Hnd]. rewrite !zsum_cons.
  apply elem_of_cons in Hx as [->|Hx].
  - rewrite (zsum_ext g f l); [lia|]. intros z Hz. apply H. by intros ->.
  - rewrite IH by done. rewrite (H y); [lia|]. by intros ->.
Qed.

Lemma zsum_nonneg f l : (∀ x, x ∈ l → 0 ≤ f x) → 0 ≤ zsum f l.
Proof.
  induction l as [|x l IH]; intros H; [done|]. rewrite zsum_cons.
  pose proof (H x ltac:(left)). pose proof (IH (λ y Hy, H y ltac:(by right))). lia.
Qed.

Lemma zsum_zero f l : (∀ x, x ∈ l → 0 ≤ f x) → zsum f l ≤ 0 → ∀ x, x ∈ l → f x = 0.
Proof.
  induction l as [|y l IH]; intros H Hs x Hx; [by apply elem_of_nil in Hx|].
  rewrite zsum_cons in Hs. pose proof (H y ltac:(left)).
  pose proof (zsum_nonneg f l (λ z Hz, H z ltac:(by right))).
  apply elem_of_cons in Hx as [->|Hx]; [lia|]. apply IH; [|lia|done].
  intros z Hz. apply H. by right.
Qed.

Lemma zsum_le f g l : (∀ x, x ∈ l → f x ≤ g x) → zsum f l ≤ zsum g l.
Proof.
  induction l as [|x l IH]; intros H; [done|]. rewrite !zsum_cons.
  pose proof (H x ltac:(left)). pose proof (IH (λ y Hy, H y ltac:(by right))). lia.
Qed.
End zsum.

#[global] Arguments zsum : simpl never.

(** ** Counting: distinct numbers of a range *)

Section pigeonhole.
Context (l : list Z) (n : Z).
Hypothesis l_nodup : NoDup l.
Hypothesis l_range : ∀ x, x ∈ l → 0 ≤ x < n.

Lemma pigeon_sub : l ⊆+ seqZ 0 n.
Proof using l_nodup l_range.
  apply NoDup_submseteq; [done|]. intros x Hx. apply elem_of_seqZ. specialize (l_range x Hx). lia.
Qed.

Lemma pigeon_length : (length l ≤ Z.to_nat n)%nat.
Proof using l_nodup l_range.
  rewrite <-(length_seqZ 0 n). apply submseteq_length, pigeon_sub.
Qed.

(** All numbers of the range are used exactly when there are enough of them. *)
Lemma pigeon_full : (Z.to_nat n ≤ length l)%nat ↔ ∀ x, 0 ≤ x < n → x ∈ l.
Proof using l_nodup l_range.
  split.
  - intros Hlen x Hx.
    assert (l ≡ₚ seqZ 0 n) as ->.
    { apply submseteq_length_Permutation; [apply pigeon_sub|]. by rewrite length_seqZ. }
    apply elem_of_seqZ. lia.
  - intros H. rewrite <-(length_seqZ 0 n). apply submseteq_length.
    apply NoDup_submseteq; [apply NoDup_seqZ|]. intros x Hx%elem_of_seqZ. apply H. lia.
Qed.
End pigeonhole.
