(* ===== verification/CString.v ===== *)
(** * The C string and stdio functions the programs call

    A C string is a [string] without its terminating NUL; the input stream is the
    [string] of the characters still to be read, and holds no NUL character.
    [strtok] is always called with a one-character delimiter string, so the model
    takes that character.  [util.c]'s [cleanNewline] is here too, since both
    versions of the shell use it. *)

From S2P Require Import Prelude.
From Stdlib Require Import Ascii.

Definition newline : ascii := "010"%char.

(** ** [fgets] *)

(** What one [fgets] call read, what is left of the stream, and whether the call
    met the end of the stream (the end-of-file indicator of [feof]). *)
Record fgets_result : Type := mkFgets {
  fg_line : string;
  fg_rest : string;
  fg_eof : bool;
}.

Fixpoint fgets_aux (n : nat) (inp : string) : fgets_result :=
  match n with
  | O => mkFgets EmptyString inp false
  | S n' =>
      match inp with
      | EmptyString => mkFgets EmptyString EmptyString true
      | String c r =>
          if decide (c = newline) then mkFgets (String c EmptyString) r false
          else let f := fgets_aux n' r in mkFgets (String c (fg_line f)) (fg_rest f) (fg_eof f)
      end
  end.

(** [fgets(buf, n, stdin)]: at most [n - 1] characters, through the first newline;
    [None] (NULL, and [buf] unchanged) when nothing is left to read. *)
Definition fgets (n : nat) (inp : string) : option fgets_result :=
  match inp with EmptyString => None | _ => Some (fgets_aux (n - 1) inp) end.

(** ** [strtok] *)

Fixpoint skip_delims (d : ascii) (s : string) : string :=
  match s with
  | String c r => if decide (c = d) then skip_delims d r else s
  | EmptyString => EmptyString
  end.

Fixpoint break_at (d : ascii) (s : string) : string * string :=
  match s with
  | EmptyString => (EmptyString, EmptyString)
  | String c r =>
      if decide (c = d) then (EmptyString, r)
      else let '(a, b) := break_at d r in (String c a, b)
  end.

(** One [strtok] call on the saved position [s]: the token, if any, and the new
    saved position. *)
Definition strtok (d : ascii) (s : string) : option string * string :=
  match skip_delims d s with
  | EmptyString => (None, EmptyString)
  | s' => let '(t, r) := break_at d s' in (Some t, r)
  end.

(** ** [isdigit], [isspace], [atoi] *)

Definition isdigit (c : ascii) : bool :=
  let n := Z.of_N (N_of_ascii c) in (48 <=? n) && (n <=? 57).

Definition isspace (c : ascii) : bool :=
  let n := Z.of_N (N_of_ascii c) in ((9 <=? n) && (n <=? 13)) || (n =? 32).

Definition digit_val (c : ascii) : Z := Z.of_N (N_of_ascii c) - 48.

Fixpoint digits_val (acc : Z) (s : string) : Z :=
  match s with
  | String c r => if isdigit c then digits_val (acc * 10 + digit_val c) r else acc
  | EmptyString => acc
  end.

Fixpoint skip_spaces (s : string) : string :=
  match s with
  | String c r => if isspace c then skip_spaces r else s
  | EmptyString => EmptyString
  end.

Definition INT_MIN : Z := -2147483648.
Definition INT_MAX : Z := 2147483647.

(** [atoi]: undefined ([None]) when the number is not an [int]. *)
Definition atoi (s : string) : option Z :=
  let v :=
    match skip_spaces s with
    | String "-" r => - digits_val 0 r
    | String "+" r => digits_val 0 r
    | s' => digits_val 0 s'
    end in
  if decide (INT_MIN ≤ v ≤ INT_MAX) then Some v else None.

(** ** [cleanNewline] (util.c) *)

Definition cleanNewline (str : string) : string :=
  match str with
  | String c _ =>
      if decide (c = newline) then EmptyString
      else match strtok newline str with (Some t, _) => t | (None, _) => str end
  | EmptyString => match strtok newline str with (Some t, _) => t | (None, _) => str end
  end.

(** ** Facts *)

Fixpoint has_char (d : ascii) (s : string) : Prop :=
  match s with EmptyString => False | String c r => c = d ∨ has_char d r end.

Lemma append_assoc (a b c : string) : (a +:+ b) +:+ c = a +:+ (b +:+ c).
Proof.
  induction a as [|x a IH]; [done|].
  change (String x ((a +:+ b) +:+ c) = String x (a +:+ (b +:+ c))). by rewrite IH.
Qed.

Lemma append_nil_r (a : string) : a +:+ EmptyString = a.
Proof.
  induction a as [|x a IH]; [done|]. change (String x (a +:+ EmptyString) = String x a).
  by rewrite IH.
Qed.

Lemma break_at_spec d s t r :
  break_at d s = (t, r) →
  ¬ has_char d t ∧ (s = t +:+ String d r ∨ (s = t ∧ r = EmptyString)).
Proof.
  revert t r. induction s as [|c s IH]; simpl; intros t r.
  - intros [= <- <-]. split; [by intros []|by right].
  - case_decide as Hc.
    + intros [= <- <-]. split; [by intros []|]. left. by rewrite Hc.
    + destruct (break_at d s) as [a b]. intros [= <- <-].
      destruct (IH a b eq_refl) as [Ha [->|[-> ->]]]; (split; [simpl; tauto|]); [by left|by right].
Qed.

Lemma skip_delims_head d s c r : skip_delims d s = String c r → c ≠ d.
Proof.
  induction s as [|x s IH]; simpl; [done|]. case_decide; [done|]. by intros [= -> ->].
Qed.

Lemma strtok_shorter d s t r :
  strtok d s = (Some t, r) → (String.length r < String.length s)%nat.
Proof.
  assert (∀ s1, (String.length (skip_delims d s1) ≤ String.length s1)%nat) as Hskip.
  { induction s1; simpl; [done|]. case_decide; simpl; lia. }
  assert (∀ s1 a b, break_at d s1 = (a, b) →
    (String.length b ≤ String.length s1)%nat) as Hbreak.
  { induction s1 as [|c s1 IH]; simpl; intros a b; [by intros [= <- <-]|].
    case_decide; [intros [= <- <-]; lia|].
    destruct (break_at d s1) as [a' b'] eqn:Eb. intros [= <- <-].
    specialize (IH _ _ eq_refl). lia. }
  unfold strtok. specialize (Hskip s).
  destruct (skip_delims d s) as [|c s'] eqn:E; [done|].
  apply skip_delims_head in E. simpl. rewrite decide_False by done.
  destruct (break_at d s') as [a b] eqn:Eb. intros [= <- <-].
  apply Hbreak in Eb. simpl in Hskip. lia.
Qed.

(** Reading the stream line by line terminates: a call that reads something
    consumes at least one character. *)
Lemma fgets_shorter n inp f :
  (2 ≤ n)%nat → fgets n inp = Some f → (String.length (fg_rest f) < String.length inp)%nat.
Proof.
  assert (∀ k inp, (String.length (fg_rest (fgets_aux k inp)) ≤ String.length inp)%nat) as H.
  { induction k as [|k IH]; intros [|c r]; simpl; try lia.
    case_decide; simpl; [lia|]. specialize (IH r). lia. }
  intros Hn. destruct inp as [|c r]; simpl; [done|]. intros [= <-].
  destruct (n - 1)%nat as [|k] eqn:Ek; [lia|]. simpl.
  case_decide; simpl; [lia|]. specialize (H k r). lia.
Qed.

Lemma break_at_app d t r :
  ¬ has_char d t → break_at d (t +:+ String d r) = (t, r).
Proof.
  induction t as [|c t IH]; simpl; intros H; [by rewrite decide_True|].
  rewrite decide_False by tauto. change (String.append t (String d r)) with (t +:+ String d r).
  by rewrite IH by tauto.
Qed.

Lemma break_at_none d t : ¬ has_char d t → break_at d t = (t, EmptyString).
Proof.
  induction t as [|c t IH]; simpl; intros H; [done|].
  rewrite decide_False by tauto. by rewrite IH by tauto.
Qed.

Lemma strtok_cons d c s : c ≠ d →
  strtok d (String c s) = let '(t, r) := break_at d s in (Some (String c t), r).
Proof.
  intros H. unfold strtok. simpl. rewrite decide_False by done. simpl.
  rewrite decide_False by done. by destruct (break_at d s).
Qed.

Lemma cleanNewline_line l r :
  ¬ has_char newline l → cleanNewline (l +:+ String newline r) = l.
Proof.
  intros H. destruct l as [|c l]; [done|]. simpl in H.
  change (String c l +:+ String newline r) with (String c (l +:+ String newline r)).
  unfold cleanNewline. rewrite decide_False, strtok_cons, break_at_app by tauto. done.
Qed.

(** ** Printed numbers read back *)

(** The text after a number, when it does not start with a digit. *)
Definition ends_number (r : string) : Prop :=
  match r with String c _ => isdigit c = false | EmptyString => True end.

Lemma pretty_N_go_app x s r : pretty_N_go x s +:+ r = pretty_N_go x (s +:+ r).
Proof.
  revert s. induction (N.lt_wf_0 x) as [x _ IH]; intros s.
  destruct (decide (0 < x)%N).
  - rewrite (pretty_N_go_step x s), (pretty_N_go_step x (s +:+ r)) by done. rewrite IH by (by apply N.div_lt). done.
  - assert (x = 0%N) as -> by lia. by rewrite !pretty_N_go_0.
Qed.

Lemma pretty_N_char_spec x : (x < 10)%N →
  isdigit (pretty_N_char x) = true ∧ digit_val (pretty_N_char x) = Z.of_N x.
Proof.
  intros. assert (x = 0 ∨ x = 1 ∨ x = 2 ∨ x = 3 ∨ x = 4 ∨ x = 5 ∨ x = 6 ∨ x = 7 ∨ x = 8 ∨ x = 9)%N
    as Hx by lia. by destruct_or! Hx; subst.
Qed.

Lemma digits_val_go x s : digits_val 0 (pretty_N_go x s) = digits_val (Z.of_N x) s.
Proof.
  revert s. induction (N.lt_wf_0 x) as [x _ IH]; intros s.
  destruct (decide (0 < x)%N).
  - rewrite pretty_N_go_step by done. rewrite IH by (by apply N.div_lt). simpl.
    destruct (pretty_N_char_spec (x `mod` 10)) as [-> ->]; [by apply N.mod_lt|].
    f_equal. rewrite N2Z.inj_div, N2Z.inj_mod. pose proof (Z.div_mod (Z.of_N x) 10). lia.
  - assert (x = 0%N) as -> by lia. done.
Qed.

Lemma pretty_N_head (x : N) r : ∃ c t, pretty x +:+ r = String c t ∧ isdigit c = true.
Proof.
  unfold pretty, pretty_N. case_decide as H0; [by exists "0"%char, r|].
  rewrite pretty_N_go_app. generalize (EmptyString +:+ r). revert H0.
  induction (N.lt_wf_0 x) as [x _ IH]; intros Hx s.
  rewrite pretty_N_go_step by lia. destruct (decide (x `div` 10 = 0)%N) as [->|Hd].
  - exists (pretty_N_char (x `mod` 10)), s. split; [done|].
    apply pretty_N_char_spec. by apply N.mod_lt.
  - apply IH; [apply N.div_lt; lia|done].
Qed.

Lemma digits_val_ends v r : ends_number r → digits_val v r = v.
Proof. destruct r; simpl; [done|]. by intros ->. Qed.

Lemma digits_val_pretty (x : N) r : ends_number r → digits_val 0 (pretty x +:+ r) = Z.of_N x.
Proof.
  intros Hr. unfold pretty, pretty_N. case_decide as H0.
  - subst. change ("0" +:+ r) with (String "0"%char r). simpl. by apply digits_val_ends.
  - rewrite pretty_N_go_app, digits_val_go. by apply digits_val_ends.
Qed.

Lemma atoi_digit c t : isdigit c = true →
  atoi (String c t) =
    if decide (INT_MIN ≤ digits_val 0 (String c t) ≤ INT_MAX)
    then Some (digits_val 0 (String c t)) else None.
Proof.
  intros Hc. unfold atoi.
  replace (skip_spaces (String c t)) with (String c t); [|].
  - destruct c as [[] [] [] [] [] [] [] []]; first [discriminate Hc|reflexivity].
  - destruct c as [[] [] [] [] [] [] [] []]; first [discriminate Hc|reflexivity].
Qed.

Lemma atoi_pretty_N (x : N) r : ends_number r → Z.of_N x ≤ INT_MAX →
  atoi (pretty x +:+ r) = Some (Z.of_N x).
Proof.
  intros Hr Hx. destruct (pretty_N_head x r) as (c & t & E & Hc).
  rewrite E, (atoi_digit c t Hc), <-E, digits_val_pretty by done.
  rewrite decide_True; [done|]. unfold INT_MIN. lia.
Qed.

(** [atoi] reads back the decimal numeral of every [int]. *)
Lemma atoi_pretty (z : Z) r : ends_number r → INT_MIN ≤ z ≤ INT_MAX →
  atoi (pretty z +:+ r) = Some z.
Proof.
  intros Hr Hz. destruct z as [|p|p].
  - exact (atoi_pretty_N 0 r Hr ltac:(done)).
  - change (pretty (Z.pos p)) with (pretty (N.pos p)).
    rewrite atoi_pretty_N; [done|done|]. simpl. lia.
  - change (pretty (Z.neg p)) with ("-" +:+ pretty (N.pos p)).
    change (("-" +:+ pretty (N.pos p)) +:+ r) with (String "-" (pretty (N.pos p) +:+ r)).
    unfold atoi. simpl. rewrite digits_val_pretty by done. by rewrite decide_True.
Qed.

Lemma has_char_app d a b : has_char d (a +:+ b) ↔ has_char d a ∨ has_char d b.
Proof.
  induction a as [|c a IH]; [simpl; tauto|].
  change (String c a +:+ b) with (String c (a +:+ b)). simpl. rewrite IH. tauto.
Qed.

Lemma pretty_Z_no_char d (z : Z) : isdigit d = false → d ≠ "-"%char → ¬ has_char d (pretty z).
Proof.
  intros Hd Hm.
  assert (∀ x s, ¬ has_char d s → ¬ has_char d (pretty_N_go x s)) as Hgo.
  { intros x. induction (N.lt_wf_0 x) as [x _ IH]; intros s Hs. destruct (decide (0 < x)%N).
    - rewrite pretty_N_go_step by done. apply IH; [by apply N.div_lt|]. simpl.
      intros [E|?]; [|done]. destruct (pretty_N_char_spec (x `mod` 10)) as [Hc _];
        [by apply N.mod_lt|]. congruence.
    - assert (x = 0%N) as -> by lia. done. }
  assert (∀ p, ¬ has_char d (pretty (N.pos p))) as Hpos.
  { intros p. unfold pretty, pretty_N. case_decide; [done|]. apply Hgo. by intros []. }
  destruct z as [|p|p].
  - simpl. intros [<-|[]]. done.
  - apply Hpos.
  - change (pretty (Z.neg p)) with (String "-" (pretty (N.pos p))). simpl.
    intros [?|?]; [congruence|by destruct (Hpos p)].
Qed.

(** A field followed by its delimiter is the next token. *)
Lemma strtok_field d t r : t ≠ EmptyString → ¬ has_char d t →
  strtok d (t +:+ String d r) = (Some t, r).
Proof.
  destruct t as [|c t]; [done|]. simpl. intros _ H.
  change (String c t +:+ String d r) with (String c (t +:+ String d r)).
  by rewrite strtok_cons, break_at_app by tauto.
Qed.

Lemma strtok_last d t : t ≠ EmptyString → ¬ has_char d t → strtok d t = (Some t, EmptyString).
Proof.
  destruct t as [|c t]; [done|]. simpl. intros _ H.
  by rewrite strtok_cons, break_at_none by tauto.
Qed.

Lemma pretty_Z_nonempty (z : Z) r : pretty z +:+ r ≠ EmptyString.
Proof.
  destruct z as [|p|p]; [done| |done].
  change (pretty (Z.pos p)) with (pretty (N.pos p)).
  destruct (pretty_N_head (N.pos p) r) as (c & t & -> & _). done.
Qed.

(** A line of four comma-separated fields, read by four [strtok] calls. *)
Lemma strtok_four t1 t2 t3 t4 :
  let d := ","%char in
  t1 ≠ EmptyString → ¬ has_char d t1 → t2 ≠ EmptyString → ¬ has_char d t2 →
  t3 ≠ EmptyString → ¬ has_char d t3 → t4 ≠ EmptyString → ¬ has_char d t4 →
  ∃ s1 s2 s3, strtok d (t1 +:+ String d (t2 +:+ String d (t3 +:+ String d t4))) = (Some t1, s1) ∧
    strtok d s1 = (Some t2, s2) ∧ strtok d s2 = (Some t3, s3) ∧
    strtok d s3 = (Some t4, EmptyString).
Proof.
  intros d ????????. eexists _, _, _. split_and!; [by apply strtok_field..|by apply strtok_last].
Qed.

(** ** Whole lines *)

Lemma fgets_full n l r : ¬ has_char newline l → (String.length l + 2 ≤ n)%nat →
  fgets n (l +:+ String newline r) = Some (mkFgets (l +:+ String newline EmptyString) r false).
Proof.
  intros Hl Hn. unfold fgets.
  assert (∀ k l, ¬ has_char newline l → (String.length l + 1 ≤ k)%nat →
    fgets_aux k (l +:+ String newline r) = mkFgets (l +:+ String newline EmptyString) r false) as H.
  { induction k as [|k IH]; intros l0 Hl0 Hk; [lia|]. destruct l0 as [|c l0]; [done|].
    change (String c l0 +:+ String newline r) with (String c (l0 +:+ String newline r)).
    cbn [fgets_aux]. cbn in Hl0, Hk. rewrite decide_False by tauto. by rewrite IH by (tauto || lia). }
  destruct (l +:+ String newline r) as [|c t] eqn:E; [by destruct l|]. rewrite <-E. f_equal. apply H; [done|lia].
Qed.

Lemma strlen_app a b : String.length (a +:+ b) = (String.length a + String.length b)%nat.
Proof. induction a as [|c a IH]; [done|]. change (String c a +:+ b) with (String c (a +:+ b)). cbn. by rewrite IH. Qed.

(** ** A command of the paging simulators

    [pid,instruction,address,value]; the [main] of either part reads the fields with
    [strtok] and [atoi]. *)

Definition command_line (pid : Z) (instruction : string) (address value : Z) : string :=
  pretty pid +:+ "," +:+ instruction +:+ "," +:+ pretty address +:+ "," +:+ pretty value.

Definition is_int (z : Z) : Prop := INT_MIN ≤ z ≤ INT_MAX.

Lemma atoi_int (z : Z) r : ends_number r → is_int z → atoi (pretty z +:+ r) = Some z.
Proof. intros. by apply atoi_pretty. Qed.

Lemma atoi_int_whole (z : Z) : is_int z → atoi (pretty z) = Some z.
Proof. intros. rewrite <-(append_nil_r (pretty z)). by apply atoi_int. Qed.

Lemma pretty_no_comma (z : Z) : ¬ has_char ","%char (pretty z) ∧ pretty z ≠ EmptyString.
Proof.
  split; [by apply pretty_Z_no_char|]. intros E. pose proof (pretty_Z_nonempty z EmptyString) as H. by rewrite E in H.
Qed.

(** What the four calls of [strtok] find in it. *)
Lemma command_line_fields pid ins address value :
  ins ≠ EmptyString → ¬ has_char ","%char ins →
  let d := ","%char in
  let last := pretty value +:+ String newline EmptyString in
  ∃ s1 s2 s3, strtok d (command_line pid ins address value +:+ String newline EmptyString) = (Some (pretty pid), s1) ∧
    strtok d s1 = (Some ins, s2) ∧ strtok d s2 = (Some (pretty address), s3) ∧
    strtok d s3 = (Some last, EmptyString).
Proof.
  intros Hi Hc d last. destruct (pretty_no_comma pid), (pretty_no_comma address), (pretty_no_comma value).
  assert (command_line pid ins address value +:+ String newline EmptyString =
    pretty pid +:+ String d (ins +:+ String d (pretty address +:+ String d last))) as ->.
  { unfold command_line, d, last. by rewrite !append_assoc. }
  apply strtok_four; try done; [by apply pretty_Z_nonempty|].
  unfold last. rewrite has_char_app. intros [?|[?|[]]]; done.
Qed.

(** The line of a command with small numbers fits the array of [main]. *)
Lemma pretty_small (z : Z) : 0 ≤ z < 256 → (String.length (pretty z) ≤ 3)%nat.
Proof.
  intros Hz. assert (forallb (λ z : Z, String.length (pretty z) <=? 3)%nat (seqZ 0 256) = true) as H by (by vm_compute).
  rewrite forallb_forall in H. apply Nat.leb_le, H, list_elem_of_In, elem_of_seqZ. lia.
Qed.

Lemma command_line_read pid ins address value rest :
  0 ≤ pid < 256 → 0 ≤ address < 256 → 0 ≤ value < 256 → ¬ has_char newline ins → (String.length ins ≤ 5)%nat →
  fgets 120 (command_line pid ins address value +:+ String newline rest) =
    Some (mkFgets (command_line pid ins address value +:+ String newline EmptyString) rest false).
Proof.
  intros Hp%pretty_small Ha%pretty_small Hv%pretty_small Hn Hl. unfold command_line. apply fgets_full.
  - rewrite !has_char_app. intros [H|[[H|[]]|[H|[[H|[]]|[H|[[H|[]]|H]]]]]]; try done; by apply pretty_Z_no_char in H.
  - rewrite !strlen_app. simpl. lia.
Qed.
