(* ===== verification/Paging1.v ===== *)
(** * Virtual memory, part 1 (Project4/Part1): page tables without swapping

    The model of [pageTable.c]: a physical memory of 64 bytes in 4 frames, page
    tables kept inside that memory, one byte per entry, and a table of the
    processes' page-table frames kept outside it.  The abstract specification and
    the refinement proof are in [Paging1Spec]; the command loop of [mem.c] is in
    [Mem1]. *)

From S2P Require Import Prelude.

(** ** Constants (pageTable.h) *)

Definition MAX_PROCESSES : Z := 4.
Definition PHYS_MEM_SIZE : Z := 64.
Definition VIRT_ADD_SPACE : Z := 64.
Definition PAGE_SIZE : Z := 16.
Definition PAGE_FRAMES : Z := PHYS_MEM_SIZE / PAGE_SIZE.

(** ** [page_t]: one byte, [valid:1], [write:1], [frame:6] *)

Definition page_valid (p : Z) : Z := bf_get 0 1 p.
Definition page_write (p : Z) : Z := bf_get 1 1 p.
Definition page_frame (p : Z) : Z := bf_get 2 6 p.
Definition set_valid (p v : Z) : Z := bf_set 0 1 p v.
Definition set_write (p v : Z) : Z := bf_set 1 1 p v.
Definition set_frame (p v : Z) : Z := bf_set 2 6 p v.

(** ** Global state (mem.c) *)

Record state : Type := mkState {
  mainMemory : list Z;
  procTable : list Z;
}.

(** The lines the program prints. *)
Inductive msg : Type :=
  | TablePut (pid frame : Z)
  | TableNoFrame (pid : Z)
  | NoTable (pid : Z)
  | WriteUpdated (page : Z)
  | NoFrame
  | Mapped (address page frame : Z)
  | NoPages (pid : Z)
  | NotMapped (address pid : Z)
  | WriteForbidden (address pid : Z)
  | Stored (value address phys : Z)
  | ReadValue (value address phys : Z)
  | AddressOutOfBounds
  | PidOutOfBounds
  | BadWriteFlag
  | BadInstruction
  | Prompt.

Definition render (m : msg) : string :=
  match m with
  | TablePut pid frame => "Put page table for PID " +:+ pretty pid +:+ " in physical frame " +:+ pretty frame
  | TableNoFrame pid => "Unable to find a free physical frame for PID " +:+ pretty pid +:+ " page table"
  | NoTable pid => "Unable to find page table for PID " +:+ pretty pid
  | WriteUpdated page => "Updating write permissions on page " +:+ pretty page
  | NoFrame => "Unable to find a free physical frame for new page"
  | Mapped a page frame =>
      "Mapped virtual address " +:+ pretty a +:+ " (page " +:+ pretty page +:+
      ") to physical frame " +:+ pretty frame
  | NoPages pid => "PID " +:+ pretty pid +:+ " has no pages associated with it"
  | NotMapped a pid => "Virtual address " +:+ pretty a +:+ " has no frame mapped for PID " +:+ pretty pid
  | WriteForbidden a pid =>
      "Writing is forbidden at virtual address " +:+ pretty a +:+ " for PID " +:+ pretty pid
  | Stored v a ph =>
      "Stored value " +:+ pretty v +:+ " at virtual address " +:+ pretty a +:+
      " (physical address " +:+ pretty ph +:+ ")"
  | ReadValue v a ph =>
      "Read value " +:+ pretty v +:+ " at virtual address " +:+ pretty a +:+
      " (physical address " +:+ pretty ph +:+ ")"
  | AddressOutOfBounds => "Address out of bounds"
  | PidOutOfBounds => "PID out of bounds"
  | BadWriteFlag => "Write flag may only be 0 or 1"
  | BadInstruction => "Invalid instruction. Please ensure it is in all lowercase"
  | Prompt => "cmd: "
  end.

Definition prog (A : Type) : Type := M msg state A.

(** ** Reads and writes of the two arrays *)

Definition set_mem (i b : Z) (s : state) : option state :=
  m ← zset (mainMemory s) i b; Some (mkState m (procTable s)).

Definition set_proc (i b : Z) (s : state) : option state :=
  t ← zset (procTable s) i b; Some (mkState (mainMemory s) t).

Definition upd_mem (i : Z) (f : Z → Z) (s : state) : option state :=
  b ← zget (mainMemory s) i; set_mem i (f b) s.

Definition upd_proc (i : Z) (f : Z → Z) (s : state) : option state :=
  b ← zget (procTable s) i; set_proc i (f b) s.

(** Dereference of a [page_t*] that points into [mainMemory]; [NULL] is [None]. *)
Definition deref (page : option Z) (s : state) : option Z :=
  a ← page; zget (mainMemory s) a.

Definition upd_page (page : option Z) (f : Z → Z) (s : state) : option state :=
  a ← page; upd_mem a f s.

(** ** Operations (pageTable.c) *)

(** The entry byte at [mainMemory[j]] is valid and names [frame]. *)
Definition entry_names (frame : Z) (s : state) (j : Z) : option (option bool) :=
  tmp ← zget (mainMemory s) j;
  if truthy (page_valid tmp) && (page_frame tmp =? frame)
  then Some (Some true) else Some None.

(** One iteration of the loop over the processes. *)
Definition process_names (frame : Z) (s : state) (i : Z) : option (option bool) :=
  p ← zget (procTable s) i;
  if truthy (page_valid p) then
    if page_frame p =? frame then Some (Some true)
    else for_ret (seqZ (page_frame p * PAGE_SIZE) PAGE_SIZE) (entry_names frame s)
  else Some None.

Definition frame_allocated (frame : Z) (s : state) : option bool :=
  r ← for_ret (seqZ 0 MAX_PROCESSES) (process_names frame s);
  Some (default false r).

Definition find_free_frame (s : state) : option Z :=
  r ← for_ret (seqZ 0 PAGE_FRAMES) (λ i,
    a ← frame_allocated i s;
    if (a : bool) then Some None else Some (Some i));
  Some (default (-1) r).

Definition find_page (pid n : Z) (s : state) : option (option Z) :=
  p ← zget (procTable s) pid;
  if truthy (page_valid p) then Some (Some (page_frame p * PAGE_SIZE + n)) else Some None.

Definition init_table (pid : Z) : prog unit :=
  frame ← reads find_free_frame;
  if 0 <=? frame then
    _ ← modifies (upd_proc pid (λ p, set_valid p 1));
    _ ← modifies (upd_proc pid (λ p, set_write p 1));
    _ ← modifies (upd_proc pid (λ p, set_frame p frame));
    _ ← for_do (seqZ 0 PAGE_SIZE) (λ j,
      modifies (upd_mem (frame * PAGE_SIZE + j) (λ p, set_valid p 0)));
    emit (TablePut pid frame)
  else emit (TableNoFrame pid).

Definition proc_valid (pid : Z) (s : state) : option bool :=
  p ← zget (procTable s) pid; Some (truthy (page_valid p)).

(** The part of [map_page] after the page table is known to exist. *)
Definition map_page_in_table (pid address write : Z) : prog Z :=
  page ← reads (find_page pid (address `quot` PAGE_SIZE));
  p ← reads (deref page);
  if truthy (page_valid p) then
    _ ← emit (WriteUpdated (address `quot` PAGE_SIZE));
    _ ← modifies (upd_page page (λ p, set_write p write));
    mret 0
  else
    frame ← reads find_free_frame;
    if frame <? 0 then
      _ ← emit NoFrame;
      mret 0
    else
      _ ← modifies (upd_page page (λ p, set_frame p frame));
      _ ← modifies (upd_page page (λ p, set_valid p 1));
      _ ← modifies (upd_page page (λ p, set_write p write));
      _ ← emit (Mapped address (address `quot` PAGE_SIZE) frame);
      mret 1.

Definition map_page (pid address write : Z) : prog Z :=
  v ← reads (proc_valid pid);
  if negb v then
    _ ← init_table pid;
    v' ← reads (proc_valid pid);
    if negb v' then
      _ ← emit (NoTable pid);
      mret 0
    else map_page_in_table pid address write
  else map_page_in_table pid address write.

Definition store (pid address value : Z) : prog Z :=
  v ← reads (proc_valid pid);
  if negb v then
    _ ← emit (NoPages pid);
    mret 0
  else
    page ← reads (find_page pid (address `quot` PAGE_SIZE));
    let offset := address `rem` PAGE_SIZE in
    p ← reads (deref page);
    if negb (truthy (page_valid p)) then
      _ ← emit (NotMapped address pid);
      mret 0
    else if negb (truthy (page_write p)) then
      _ ← emit (WriteForbidden address pid);
      mret 0
    else
      _ ← modifies (set_mem (page_frame p * PAGE_SIZE + offset) value);
      q ← reads (deref page);
      _ ← emit (Stored value address (page_frame q * PAGE_SIZE + offset));
      mret 1.

(** [load] returns its [int] and what it wrote through [out], if anything. *)
Definition load (pid address : Z) : prog (Z * option Z) :=
  v ← reads (proc_valid pid);
  if negb v then
    _ ← emit (NoPages pid);
    mret (0, None)
  else
    page ← reads (find_page pid (address `quot` PAGE_SIZE));
    let offset := address `rem` PAGE_SIZE in
    p ← reads (deref page);
    if negb (truthy (page_valid p)) then
      _ ← emit (NotMapped address pid);
      mret (0, None)
    else
      out ← reads (λ s, zget (mainMemory s) (page_frame p * PAGE_SIZE + offset));
      _ ← emit (ReadValue out address (page_frame p * PAGE_SIZE + offset));
      mret (1, Some out).
