(* ===== verification/Mem1.v ===== *)
(** * The command loop of Project4/Part1 ([mem.c]) *)

From Stdlib Require Import Ascii.
From S2P Require Import Prelude CString Paging1.

(** The arrays are zero before [main] runs (static storage). *)
Definition static_state : state :=
  mkState (replicate (Z.to_nat PHYS_MEM_SIZE) 0) (replicate (Z.to_nat MAX_PROCESSES) 0).

(** [for (int i = 0; i < MAX_PROCESSES; i++) procTable->valid = 0;] *)
Definition startup : prog unit :=
  for_do (seqZ 0 MAX_PROCESSES) (λ _, modifies (upd_proc 0 (λ p, set_valid p 0))).

(** [if (str != NULL) v = atoi(str);] with [v] initially 0. *)
Definition number_or_zero (str : option string) : option Z :=
  match str with Some t => atoi t | None => Some 0 end.

(** The body of the input loop once the fields are read. *)
Definition dispatch (pid address value : Z) (instruction : option string) : prog unit :=
  if (VIRT_ADD_SPACE <=? address) || (address <? 0) then emit AddressOutOfBounds
  else
    _ ← (if (MAX_PROCESSES <=? pid) || (pid <? 0) then emit PidOutOfBounds else mret tt);
    match instruction with
    | None => undefined
    | Some ins =>
        if decide (ins = "map"%string) then
          if (1 <? value) || (value <? 0) then emit BadWriteFlag
          else _ ← map_page pid address value; mret tt
        else if decide (ins = "store"%string) then
          _ ← store pid address (to_uchar value); mret tt
        else if decide (ins = "load"%string) then
          _ ← load pid address; mret tt
        else emit BadInstruction
    end.

(** The body of the input loop after [fgets]. *)
Definition command (buf : string) : prog unit :=
  let '(pidstr, sv1) := strtok ","%char buf in
  let '(instruction, sv2) := strtok ","%char sv1 in
  let '(addressstr, sv3) := strtok ","%char sv2 in
  let '(valuestr, _) := strtok ","%char sv3 in
  pid ← reads (λ _, number_or_zero pidstr);
  address ← reads (λ _, number_or_zero addressstr);
  value ← reads (λ _, number_or_zero valuestr);
  dispatch pid address value instruction.

(** One iteration of the input loop; the input that has not been read.  The result of
    [fgets] is not checked: when nothing is left, the body goes on with the array [buf]
    of this iteration, which holds nothing that may be read. *)
Definition iteration (stdin : string) : prog string :=
  _ ← emit Prompt;
  match fgets 120 stdin with
  | None => undefined
  | Some f => _ ← command (fg_line f); mret (fg_rest f)
  end.

(** The first [n] iterations of [while(1)], which never ends by itself. *)
Fixpoint loop (n : nat) (stdin : string) : prog string :=
  match n with
  | O => mret stdin
  | S n' => rest ← iteration stdin; loop n' rest
  end.

Definition session (n : nat) (stdin : string) : prog string :=
  _ ← startup; loop n stdin.

Definition output_of {A} (r : outcome msg state A) : option (list string) :=
  match r with Done _ _ o => Some (render <$> o) | _ => None end.
