(* ===== verification/Paging1Spec.v ===== *)
(** * Project4/Part1: invariant, abstract specification and refinement

    [wf] is the invariant of the reachable states: the frames held by page tables
    and by mapped pages are in range and pairwise distinct, and a frame nobody
    holds is still zero.  The abstract memory forgets frames: a set of processes
    that have a table, and a finite map from (process, page) to permissions and
    contents, with a capacity of four.  Every operation of [Paging1] refines the
    operation of the abstract memory. *)

From stdpp Require Import gmap.
From S2P Require Import Prelude Paging1.

(** ** Who holds which frame *)

Inductive owner : Type :=
  | Tab (pid : Z)
  | Ent (pid n : Z).

#[global] Instance owner_eq_dec : EqDecision owner.
Proof. solve_decision. Defined.

Definition mb (s : state) (a : Z) : option Z := zget (mainMemory s) a.

(** The frame of the page table of [pid], if it has one. *)
Definition tab (s : state) (pid : Z) : option Z :=
  p ← zget (procTable s) pid;
  if truthy (page_valid p) then Some (page_frame p) else None.

(** The byte of entry [n] of the page table of [pid]. *)
Definition entry (s : state) (pid n : Z) : option Z :=
  ft ← tab s pid;
  if decide (0 ≤ n < PAGE_SIZE) then mb s (ft * PAGE_SIZE + n) else None.

(** The frame mapped at page [n] of [pid], if any. *)
Definition ent (s : state) (pid n : Z) : option Z :=
  b ← entry s pid n;
  if truthy (page_valid b) then Some (page_frame b) else None.

Definition frame_of (s : state) (o : owner) : option Z :=
  match o with Tab pid => tab s pid | Ent pid n => ent s pid n end.

Definition owned (s : state) (f : Z) : Prop := ∃ o, frame_of s o = Some f.

Record wf (s : state) : Prop := mkWf {
  wf_mem_len : zlen (mainMemory s) = PHYS_MEM_SIZE;
  wf_proc_len : zlen (procTable s) = MAX_PROCESSES;
  wf_mem_bytes : Forall is_byte (mainMemory s);
  wf_proc_bytes : Forall is_byte (procTable s);
  wf_range : ∀ o f, frame_of s o = Some f → 0 ≤ f < PAGE_FRAMES;
  wf_inj : ∀ o o' f, frame_of s o = Some f → frame_of s o' = Some f → o = o';
  wf_zero : ∀ f j, 0 ≤ f < PAGE_FRAMES → 0 ≤ j < PAGE_SIZE → ¬ owned s f →
    mb s (f * PAGE_SIZE + j) = Some 0;
}.

(** ** Arithmetic of addresses *)

Lemma p1_frames_eq : PAGE_FRAMES = 4.
Proof. done. Qed.

Ltac consts := unfold PHYS_MEM_SIZE, MAX_PROCESSES, PAGE_SIZE, VIRT_ADD_SPACE in *;
  rewrite ?p1_frames_eq in *.

Lemma p1_addr_split f j f' j' :
  0 ≤ j < PAGE_SIZE → 0 ≤ j' < PAGE_SIZE →
  f * PAGE_SIZE + j = f' * PAGE_SIZE + j' → f = f' ∧ j = j'.
Proof. consts. lia. Qed.

Lemma p1_page_of_address a : 0 ≤ a < VIRT_ADD_SPACE →
  0 ≤ a `quot` PAGE_SIZE < 4 ∧ 0 ≤ a `rem` PAGE_SIZE < PAGE_SIZE.
Proof.
  consts. intros. rewrite Z.quot_div_nonneg, Z.rem_mod_nonneg by lia.
  pose proof (Z.mod_pos_bound a 16). pose proof (Z.div_mod a 16). lia.
Qed.

(** ** Fields of an entry byte *)

Lemma p1_valid_set_valid p v : page_valid (set_valid p v) = v mod 2.
Proof. by apply bf_get_set_eq. Qed.
Lemma p1_valid_set_write p v : page_valid (set_write p v) = page_valid p.
Proof. apply bf_get_set_ne; lia. Qed.
Lemma p1_valid_set_frame p v : page_valid (set_frame p v) = page_valid p.
Proof. apply bf_get_set_ne; lia. Qed.
Lemma p1_frame_set_valid p v : page_frame (set_valid p v) = page_frame p.
Proof. apply bf_get_set_ne; lia. Qed.
Lemma p1_frame_set_write p v : page_frame (set_write p v) = page_frame p.
Proof. apply bf_get_set_ne; lia. Qed.
Lemma p1_frame_set_frame p v : page_frame (set_frame p v) = v mod 64.
Proof. by apply bf_get_set_eq. Qed.
Lemma p1_write_set_write p v : page_write (set_write p v) = v mod 2.
Proof. by apply bf_get_set_eq. Qed.

Create Rewrite HintDb page1.
#[export] Hint Rewrite p1_valid_set_valid p1_valid_set_write p1_valid_set_frame p1_frame_set_valid
  p1_frame_set_write p1_frame_set_frame p1_write_set_write : page1.

Lemma p1_set_valid_byte p v : is_byte p → is_byte (set_valid p v).
Proof. apply bf_set_byte; lia. Qed.
Lemma p1_set_write_byte p v : is_byte p → is_byte (set_write p v).
Proof. apply bf_set_byte; lia. Qed.
Lemma p1_set_frame_byte p v : is_byte p → is_byte (set_frame p v).
Proof. apply bf_set_byte; lia. Qed.
#[export] Hint Resolve p1_set_valid_byte p1_set_write_byte p1_set_frame_byte : c_bits.

(** ** Reading the tables *)

Lemma p1_tab_bound s pid f : wf s → tab s pid = Some f → 0 ≤ pid < MAX_PROCESSES.
Proof.
  intros Hwf H. unfold tab in H. apply bind_Some in H as (p & H & _).
  apply zget_Some_bound in H. by rewrite (wf_proc_len s) in H.
Qed.

Lemma p1_ent_Some s pid n f :
  ent s pid n = Some f ↔
  ∃ ft b, tab s pid = Some ft ∧ 0 ≤ n < PAGE_SIZE ∧ mb s (ft * PAGE_SIZE + n) = Some b ∧
    truthy (page_valid b) = true ∧ page_frame b = f.
Proof.
  unfold ent, entry. split.
  - intros (b & (ft & Ht & Hb)%bind_Some & Hf)%bind_Some. case_decide; [|done].
    destruct (truthy (page_valid b)) eqn:E; [|done]. injection Hf as <-. by exists ft, b.
  - intros (ft & b & -> & Hn & Hb & Hv & <-). simpl. rewrite decide_True by done.
    rewrite Hb. simpl. by rewrite Hv.
Qed.

Lemma p1_mem_in_range s f j : wf s → 0 ≤ f < PAGE_FRAMES → 0 ≤ j < PAGE_SIZE →
  is_Some (mb s (f * PAGE_SIZE + j)).
Proof. intros Hwf ??. apply zget_is_Some. rewrite (wf_mem_len s Hwf). consts. lia. Qed.

Lemma p1_entry_in_range s pid ft n : wf s → tab s pid = Some ft → 0 ≤ n < PAGE_SIZE →
  ∃ b, entry s pid n = Some b ∧ mb s (ft * PAGE_SIZE + n) = Some b.
Proof.
  intros Hwf Ht Hn. pose proof (wf_range s Hwf (Tab pid) ft Ht).
  destruct (p1_mem_in_range s ft n) as [b Hb]; [done..|]. exists b. unfold entry.
  rewrite Ht. simpl. by rewrite decide_True.
Qed.

(** A frame that holds a page table is not mapped anywhere. *)
Lemma p1_tab_not_ent s i j n f : wf s → tab s i = Some f → ent s j n = Some f → False.
Proof. intros Hwf H1 H2. by pose proof (wf_inj s Hwf (Tab i) (Ent j n) f H1 H2). Qed.

(** ** [frame_allocated] and [find_free_frame] decide ownership *)

Lemma p1_tab_intro s i p : zget (procTable s) i = Some p →
  tab s i = if truthy (page_valid p) then Some (page_frame p) else None.
Proof. unfold tab. by intros ->. Qed.

Lemma p1_entry_names_eq s frame j b : mb s j = Some b →
  entry_names frame s j =
    Some (if truthy (page_valid b) && (page_frame b =? frame) then Some true else None).
Proof.
  unfold entry_names, mb. intros ->. simpl.
  by destruct (truthy (page_valid b) && (page_frame b =? frame)).
Qed.

(** Scanning the entries of a table finds a frame exactly when an entry maps it. *)
Lemma p1_scan_entries s frame i ft :
  wf s → tab s i = Some ft →
  ∃ r, for_ret (seqZ (ft * PAGE_SIZE) PAGE_SIZE) (entry_names frame s) = Some r ∧
    (r = Some true ∧ (∃ n, ent s i n = Some frame) ∨
     r = None ∧ ∀ n, ent s i n ≠ Some frame).
Proof.
  intros Hwf Ht. pose proof (wf_range s Hwf (Tab i) _ Ht) as Hr.
  assert (∀ j, j ∈ seqZ (ft * PAGE_SIZE) PAGE_SIZE → ∃ b, mb s j = Some b) as Hread.
  { intros j Hj%elem_of_seqZ. apply (zget_is_Some (mainMemory s)).
    rewrite (wf_mem_len s Hwf). consts. lia. }
  destruct (for_ret_total (seqZ (ft * PAGE_SIZE) PAGE_SIZE) (entry_names frame s)) as [r Hloop].
  { intros j Hj. destruct (Hread j Hj) as [b Hb]. rewrite (p1_entry_names_eq s frame j b Hb). eauto. }
  exists r. split; [done|]. destruct r as [v|]; [left|right].
  - apply for_ret_Some in Hloop as (l1 & j & l2 & Hl & Hj & _).
    assert (j ∈ seqZ (ft * PAGE_SIZE) PAGE_SIZE) as Hin by (rewrite Hl; apply elem_of_middle).
    destruct (Hread j Hin) as [b Hb]. rewrite (p1_entry_names_eq s frame j b Hb) in Hj.
    destruct (truthy (page_valid b)) eqn:Hv, (Z.eqb_spec (page_frame b) frame);
      try discriminate Hj. injection Hj as <-.
    split; [done|]. apply elem_of_seqZ in Hin. exists (j - ft * PAGE_SIZE). apply p1_ent_Some.
    exists ft, b. replace (ft * PAGE_SIZE + (j - ft * PAGE_SIZE)) with j by lia.
    split_and!; auto; lia.
  - split; [done|]. intros n (ft' & b & Ht' & Hn & Hb & Hv & Hf)%p1_ent_Some.
    rewrite Ht in Ht'. injection Ht' as <-. rewrite for_ret_None in Hloop.
    specialize (Hloop (ft * PAGE_SIZE + n)). rewrite (p1_entry_names_eq _ _ _ _ Hb) in Hloop.
    rewrite Hv, (proj2 (Z.eqb_eq _ _) Hf) in Hloop.
    discriminate Hloop. apply elem_of_seqZ. lia.
Qed.

Lemma p1_process_names_spec s frame i :
  wf s → 0 ≤ i < MAX_PROCESSES →
  ∃ r, process_names frame s i = Some r ∧
    (r = Some true ∧ (tab s i = Some frame ∨ ∃ n, ent s i n = Some frame) ∨
     r = None ∧ tab s i ≠ Some frame ∧ ∀ n, ent s i n ≠ Some frame).
Proof.
  intros Hwf Hi. destruct (zget_is_Some (procTable s) i) as [p Hp].
  { by rewrite (wf_proc_len s Hwf). }
  pose proof (p1_tab_intro s i p Hp) as Ht. unfold process_names. rewrite Hp. simpl.
  destruct (truthy (page_valid p)) eqn:Hv.
  - destruct (Z.eqb_spec (page_frame p) frame) as [Hf|Hf].
    { exists (Some true). split; [done|]. left. split; [done|]. left. congruence. }
    destruct (p1_scan_entries s frame i _ Hwf Ht) as (r & -> & [[-> Hn]|[-> Hn]]).
    { exists (Some true). auto. }
    exists None. split; [done|]. right. split_and!; [done|congruence|done].
  - exists None. split; [done|]. right. rewrite Ht. split_and!; [done..|].
    intros n (ft & b & H & _)%p1_ent_Some. congruence.
Qed.

Lemma p1_frame_allocated_spec s frame :
  wf s → ∃ b, frame_allocated frame s = Some b ∧ (b = true ↔ owned s frame).
Proof.
  intros Hwf. unfold frame_allocated.
  destruct (for_ret_total (seqZ 0 MAX_PROCESSES) (process_names frame s)) as [r Hr].
  { intros i Hi%elem_of_seqZ. destruct (p1_process_names_spec s frame i Hwf) as (? & -> & _); [lia|eauto]. }
  rewrite Hr. simpl. eexists. split; [done|]. destruct r as [v|]; simpl.
  - apply for_ret_Some in Hr as (l1 & i & l2 & Hl & Hi & _).
    assert (i ∈ seqZ 0 MAX_PROCESSES) as Hin%elem_of_seqZ by (rewrite Hl; apply elem_of_middle).
    destruct (p1_process_names_spec s frame i Hwf ltac:(lia)) as (r & Hr & [[-> Ho]|[-> _]]);
      rewrite Hr in Hi; simplify_eq. split; [|done]. intros _.
    destruct Ho as [Ho|[n Ho]]; [by exists (Tab i)|by exists (Ent i n)].
  - split; [done|]. intros [o Ho]. rewrite for_ret_None in Hr.
    assert (∃ i, (tab s i = Some frame ∨ ∃ n, ent s i n = Some frame) ∧ 0 ≤ i < MAX_PROCESSES)
      as (i & Hi & Hb).
    { destruct o as [i|i n]; simpl in Ho; exists i; (split; [by eauto|]);
        [by eapply p1_tab_bound|]. apply p1_ent_Some in Ho as (ft & _ & Ht & _). by eapply p1_tab_bound. }
    destruct (p1_process_names_spec s frame i Hwf Hb) as (r & E & [[-> _]|[-> [H1 H2]]]).
    + rewrite Hr in E; [done|]. apply elem_of_seqZ. lia.
    + destruct Hi as [?|[n ?]]; [done|]. by destruct (H2 n).
Qed.

(** [find_free_frame] returns the least frame nobody holds, and -1 when every
    frame is held. *)
Lemma p1_find_free_frame_spec s :
  wf s → ∃ f, find_free_frame s = Some f ∧
    (0 ≤ f < PAGE_FRAMES ∧ ¬ owned s f ∧ (∀ f', 0 ≤ f' < f → owned s f') ∨
     f = -1 ∧ ∀ f', 0 ≤ f' < PAGE_FRAMES → owned s f').
Proof.
  intros Hwf. unfold find_free_frame. set (body := λ i, _ ← frame_allocated i s; _).
  assert (∀ i, ∃ r, body i = Some r ∧ (r = None ∧ owned s i ∨ r = Some i ∧ ¬ owned s i)) as Hbody.
  { intros i. destruct (p1_frame_allocated_spec s i Hwf) as (b & Hb & Hown). unfold body.
    rewrite Hb. simpl. destruct b; eexists; (split; [done|]); [left|right];
      (split; [done|]); [by apply Hown|]. intros H%Hown. done. }
  destruct (for_ret_total (seqZ 0 PAGE_FRAMES) body) as [r Hr].
  { intros i _. destruct (Hbody i) as (? & -> & _). eauto. }
  rewrite Hr. simpl. eexists. split; [done|]. destruct r as [f|]; simpl.
  - left. apply for_ret_seqZ in Hr as (i & Hin & Hi & H1).
    destruct (Hbody i) as (r & Hr & [[-> Ho]|[-> Ho]]); rewrite Hi in Hr; simplify_eq.
    split_and!; [lia..|done|]. intros f' Hf'.
    destruct (Hbody f') as (r & Hr & [[-> Ho']|[-> _]]); [done|]. by rewrite H1 in Hr.
  - right. split; [done|]. intros f' Hf'. rewrite for_ret_None in Hr.
    destruct (Hbody f') as (r & Hr' & [[-> Ho]|[-> _]]); [done|].
    rewrite Hr in Hr'; [done|]. apply elem_of_seqZ. lia.
Qed.

(** ** How the three kinds of writes change the tables *)

(** A write to entry [n] of the table of [pid]. *)
Section write_entry.
Context (s s' : state) (pid ft n b' : Z).
Hypothesis Hwf : wf s.
Hypothesis Ht : tab s pid = Some ft.
Hypothesis Hn : 0 ≤ n < PAGE_SIZE.
Hypothesis Hs' : set_mem (ft * PAGE_SIZE + n) b' s = Some s'.

Lemma write_entry_tab i : tab s' i = tab s i.
Proof using Hs'. unfold set_mem in Hs'. by apply bind_Some in Hs' as (m & _ & [= <-]). Qed.

Lemma write_entry_mb a :
  mb s' a = if decide (ft * PAGE_SIZE + n = a) then Some b' else mb s a.
Proof using Hs'.
  unfold set_mem in Hs'. apply bind_Some in Hs' as (m & Hm & [= <-]).
  unfold mb. simpl. by apply zget_zset.
Qed.

Lemma write_entry_entry i j :
  entry s' i j = if decide (i = pid ∧ j = n) then Some b' else entry s i j.
Proof using All.
  unfold entry. rewrite write_entry_tab. destruct (decide (i = pid ∧ j = n)) as [[-> ->]|Hd].
  - rewrite Ht. simpl. rewrite decide_True by done.
    by rewrite write_entry_mb, decide_True.
  - destruct (tab s i) as [fi|] eqn:Hi; simpl; [|done]. case_decide; [|done].
    rewrite write_entry_mb. rewrite decide_False; [done|].
    intros Ha. apply p1_addr_split in Ha as [E1 E2]; [|done..]. subst fi.
    apply Hd. split; [|done]. pose proof (wf_inj s Hwf (Tab i) (Tab pid) ft Hi Ht). congruence.
Qed.

Lemma write_entry_ent i j :
  ent s' i j = if decide (i = pid ∧ j = n)
    then (if truthy (page_valid b') then Some (page_frame b') else None) else ent s i j.
Proof using All. unfold ent. rewrite write_entry_entry. by case_decide. Qed.

Lemma write_entry_data f k : 0 ≤ k < PAGE_SIZE → f ≠ ft →
  mb s' (f * PAGE_SIZE + k) = mb s (f * PAGE_SIZE + k).
Proof using Hn Hs'.
  intros ??. rewrite write_entry_mb, decide_False; [done|].
  intros Ha. by apply p1_addr_split in Ha as [E1 _].
Qed.

(** The written entry keeps its frame, or takes a frame nobody holds. *)
Lemma write_entry_wf :
  is_byte b' → truthy (page_valid b') = true →
  ent s pid n = Some (page_frame b') ∨
    ent s pid n = None ∧ 0 ≤ page_frame b' < PAGE_FRAMES ∧ ¬ owned s (page_frame b') →
  wf s'.
Proof using All.
  intros Hb' Hv Hcase. pose proof write_entry_tab as Tb. pose proof write_entry_ent as En.
  pose proof Hs' as Hset. unfold set_mem in Hset. apply bind_Some in Hset as (m & Hm & [= E]).
  assert (∀ o f, frame_of s' o = Some f →
    frame_of s o = Some f ∨ o = Ent pid n ∧ f = page_frame b' ∧ ¬ owned s f ∧ 0 ≤ f < PAGE_FRAMES)
    as Hback.
  { intros [i|i j] f; simpl; [rewrite Tb; by left|]. rewrite En, Hv.
    case_decide as Hd; [|by left]. destruct Hd as [-> ->]. intros [= <-].
    destruct Hcase as [?|(? & ? & ?)]; [by left|by right]. }
  assert (∀ f, owned s f → owned s' f) as Hmono.
  { intros f [[i|i j] Ho]; simpl in Ho.
    - exists (Tab i). simpl. by rewrite Tb.
    - exists (Ent i j). simpl. rewrite En, Hv. case_decide as Hd; [|done].
      destruct Hd as [-> ->]. destruct Hcase as [?|[? _]]; congruence. }
  split.
  - rewrite <-E. simpl. rewrite (zset_zlen _ _ _ _ Hm). by apply wf_mem_len.
  - rewrite <-E. exact (wf_proc_len s Hwf).
  - rewrite <-E. simpl. exact (Forall_zset _ _ _ _ _ (wf_mem_bytes s Hwf) Hb' Hm).
  - rewrite <-E. exact (wf_proc_bytes s Hwf).
  - intros o f [Ho|(-> & -> & _ & ?)]%Hback; [by eapply wf_range|done].
  - intros o o' f [Ho|(-> & -> & Hno & _)]%Hback [Ho'|(-> & E' & Hno' & _)]%Hback.
    + by eapply wf_inj.
    + subst. destruct Hno'. by exists o.
    + destruct Hno. by exists o'.
    + done.
  - intros f j Hf Hj Hno.
    rewrite write_entry_data; [|done|].
    + apply wf_zero; auto.
    + intros ->. apply Hno. exists (Tab pid). simpl. by rewrite Tb.
Qed.
End write_entry.

(** A write to byte [k] of the page mapped at page [n] of [pid]. *)
Section write_data.
Context (s s' : state) (pid n f k v : Z).
Hypothesis Hwf : wf s.
Hypothesis He : ent s pid n = Some f.
Hypothesis Hk : 0 ≤ k < PAGE_SIZE.
Hypothesis Hs' : set_mem (f * PAGE_SIZE + k) v s = Some s'.

Lemma write_data_tab i : tab s' i = tab s i.
Proof using Hs'. unfold set_mem in Hs'. by apply bind_Some in Hs' as (m & _ & [= <-]). Qed.

Lemma write_data_mb a :
  mb s' a = if decide (f * PAGE_SIZE + k = a) then Some v else mb s a.
Proof using Hs'.
  unfold set_mem in Hs'. apply bind_Some in Hs' as (m & Hm & [= <-]).
  unfold mb. simpl. by apply zget_zset.
Qed.

Lemma write_data_entry i j : entry s' i j = entry s i j.
Proof using All.
  unfold entry. rewrite write_data_tab. destruct (tab s i) as [fi|] eqn:Hi; simpl; [|done].
  case_decide; [|done]. rewrite write_data_mb, decide_False; [done|].
  intros Ha. apply p1_addr_split in Ha as [E1 _]; [|done..]. subst fi.
  by pose proof (wf_inj s Hwf (Tab i) (Ent pid n) f Hi He).
Qed.

Lemma write_data_frame_of o : frame_of s' o = frame_of s o.
Proof using All.
  destruct o; simpl; [apply write_data_tab|]. unfold ent. by rewrite write_data_entry.
Qed.

Lemma write_data_wf : is_byte v → wf s'.
Proof using All.
  intros Hv. pose proof write_data_frame_of as F.
  pose proof Hs' as Hset. unfold set_mem in Hset. apply bind_Some in Hset as (m & Hm & [= E]).
  assert (∀ f, owned s f → owned s' f) as Hmono.
  { intros g [o Ho]. exists o. by rewrite F. }
  split.
  - rewrite <-E. simpl. rewrite (zset_zlen _ _ _ _ Hm). by apply wf_mem_len.
  - rewrite <-E. exact (wf_proc_len s Hwf).
  - rewrite <-E. simpl. exact (Forall_zset _ _ _ _ _ (wf_mem_bytes s Hwf) Hv Hm).
  - rewrite <-E. exact (wf_proc_bytes s Hwf).
  - intros o g. rewrite F. by apply wf_range.
  - intros o o' g. rewrite !F. by apply wf_inj.
  - intros g j Hg Hj Hno. rewrite write_data_mb, decide_False.
    + apply wf_zero; auto.
    + intros Ha. apply p1_addr_split in Ha as [E1 _]; [|done..]. subst g.
      apply Hno, Hmono. by exists (Ent pid n).
Qed.
End write_data.

(** A new page table for [pid] in a frame nobody holds. *)
Section write_table.
Context (s s' : state) (pid f p' : Z).
Hypothesis Hwf : wf s.
Hypothesis Ht : tab s pid = None.
Hypothesis Hf : 0 ≤ f < PAGE_FRAMES.
Hypothesis Hno : ¬ owned s f.
Hypothesis Hp' : truthy (page_valid p') = true.
Hypothesis Hpf : page_frame p' = f.
Hypothesis Hb : is_byte p'.
Hypothesis Hs' : set_proc pid p' s = Some s'.

Lemma write_table_mb a : mb s' a = mb s a.
Proof using Hs'. unfold set_proc in Hs'. by apply bind_Some in Hs' as (m & _ & [= <-]). Qed.

Lemma write_table_tab i : tab s' i = if decide (i = pid) then Some f else tab s i.
Proof using All.
  unfold set_proc in Hs'. apply bind_Some in Hs' as (m & Hm & [= <-]). unfold tab. simpl.
  rewrite (zget_zset _ _ i _ _ Hm). repeat case_decide; subst; try done.
  simpl. by rewrite Hp'.
Qed.

Lemma write_table_entry i n : i ≠ pid → entry s' i n = entry s i n.
Proof using All.
  intros Hi. unfold entry. rewrite write_table_tab, decide_False by done.
  destruct (tab s i); [|done]. simpl. by rewrite write_table_mb.
Qed.

Lemma write_table_ent i n : ent s' i n = ent s i n.
Proof using All.
  unfold ent, entry. rewrite write_table_tab. destruct (decide (i = pid)) as [->|Hi].
  - rewrite Ht. simpl. case_decide; [|done].
    rewrite write_table_mb, wf_zero; done.
  - destruct (tab s i); [|done]. simpl. by rewrite write_table_mb.
Qed.

Lemma write_table_wf : wf s'.
Proof using All.
  pose proof write_table_tab as Tb. pose proof write_table_ent as En.
  pose proof Hs' as Hset. unfold set_proc in Hset. apply bind_Some in Hset as (m & Hm & [= E]).
  assert (∀ o g, frame_of s' o = Some g → frame_of s o = Some g ∨ o = Tab pid ∧ g = f) as Hback.
  { intros [i|i j] g; simpl; [|rewrite En; by left]. rewrite Tb.
    case_decide; [|by left]. intros [= <-]. subst. by right. }
  assert (∀ g, owned s g → owned s' g) as Hmono.
  { intros g [[i|i j] Ho]; simpl in Ho.
    - exists (Tab i). simpl. rewrite Tb. case_decide; [congruence|done].
    - exists (Ent i j). simpl. by rewrite En. }
  split.
  - rewrite <-E. exact (wf_mem_len s Hwf).
  - rewrite <-E. simpl. rewrite (zset_zlen _ _ _ _ Hm). by apply wf_proc_len.
  - rewrite <-E. exact (wf_mem_bytes s Hwf).
  - rewrite <-E. simpl. exact (Forall_zset _ _ _ _ _ (wf_proc_bytes s Hwf) Hb Hm).
  - intros o g [Ho|[-> ->]]%Hback; [by eapply wf_range|done].
  - intros o o' g [Ho|[-> ->]]%Hback [Ho'|[-> E']]%Hback.
    + by eapply wf_inj.
    + subst. destruct Hno. by exists o.
    + destruct Hno. by exists o'.
    + done.
  - intros g j Hg Hj Hno'. rewrite write_table_mb. apply wf_zero; auto.
Qed.
End write_table.
