(* ===== verification/Paging1Refine.v ===== *)
(** * Project4/Part1: the abstract memory, and that the code implements it

    The abstract memory forgets frame numbers and the encoding of page tables: it
    is the set of the processes that have a page table and a finite map from
    (process, page) to a write permission and sixteen bytes.  Tables and pages
    together are at most four.  Each operation of [pageTable.c] returns what the
    abstract operation returns and leaves a state that represents the abstract
    result, for every well-formed state and every in-range argument. *)

From stdpp Require Import gmap.
From S2P Require Import Prelude Paging1 Paging1Spec.

(** ** The abstract memory *)

Record apage : Type := mkPage { ap_write : Z; ap_data : list Z }.

Record astate : Type := mkA { a_tabs : gset Z; a_pages : gmap (Z * Z) apage }.

Definition a_empty : astate := mkA ∅ ∅.

Definition a_used (a : astate) : nat := (size (a_tabs a) + size (a_pages a))%nat.

Definition a_full (a : astate) : bool := bool_decide (Z.to_nat PAGE_FRAMES ≤ a_used a)%nat.

Definition blank_page (write : Z) : apage := mkPage (write mod 2) (replicate 16 0).

Definition a_map_page (pid address write : Z) (a : astate) : Z * astate :=
  let n := address `quot` PAGE_SIZE in
  if bool_decide (pid ∉ a_tabs a) && a_full a then (0, a)
  else
    let a1 := mkA ({[pid]} ∪ a_tabs a) (a_pages a) in
    match a_pages a1 !! (pid, n) with
    | Some pg => (0, mkA (a_tabs a1) (<[(pid, n) := mkPage (write mod 2) (ap_data pg)]> (a_pages a1)))
    | None =>
        if a_full a1 then (0, a1)
        else (1, mkA (a_tabs a1) (<[(pid, n) := blank_page write]> (a_pages a1)))
    end.

Definition a_store (pid address value : Z) (a : astate) : Z * astate :=
  let n := address `quot` PAGE_SIZE in
  match a_pages a !! (pid, n) with
  | Some pg =>
      if ap_write pg =? 0 then (0, a)
      else (1, mkA (a_tabs a) (<[(pid, n) := mkPage (ap_write pg)
             (<[Z.to_nat (address `rem` PAGE_SIZE) := value]> (ap_data pg))]> (a_pages a)))
  | None => (0, a)
  end.

Definition a_load (pid address : Z) (a : astate) : Z * option Z :=
  match a_pages a !! (pid, address `quot` PAGE_SIZE) with
  | Some pg => (1, zget (ap_data pg) (address `rem` PAGE_SIZE))
  | None => (0, None)
  end.

(** ** Representation *)

(** Page [n] of [pid] is mapped with the permission and contents of [pg]. *)
Definition shows (s : state) (pid n : Z) (pg : apage) : Prop :=
  ∃ b, entry s pid n = Some b ∧ truthy (page_valid b) = true ∧ page_write b = ap_write pg ∧
    length (ap_data pg) = 16%nat ∧
    ∀ k, 0 ≤ k < PAGE_SIZE → zget (ap_data pg) k = mb s (page_frame b * PAGE_SIZE + k).

Record refines (s : state) (a : astate) : Prop := mkRefines {
  ref_wf : wf s;
  ref_tabs : ∀ i, i ∈ a_tabs a ↔ is_Some (tab s i);
  ref_some : ∀ i n pg, a_pages a !! (i, n) = Some pg → shows s i n pg;
  ref_none : ∀ i n, a_pages a !! (i, n) = None → ent s i n = None;
}.

Lemma shows_ent s i n pg : shows s i n pg → ∃ f, ent s i n = Some f.
Proof.
  intros (b & Hb & Hv & _). exists (page_frame b). unfold ent. rewrite Hb. simpl. by rewrite Hv.
Qed.

(** ** Capacity: all frames are held exactly when the abstract memory is full *)

Definition owners (a : astate) : list owner :=
  (Tab <$> elements (a_tabs a)) ++ ((λ k, Ent k.1 k.2) <$> elements (dom (a_pages a))).

Lemma owners_length a : length (owners a) = a_used a.
Proof.
  unfold owners, a_used. rewrite length_app, !length_fmap. f_equal.
  rewrite <-size_dom. done.
Qed.

Lemma owners_nodup a : NoDup (owners a).
Proof.
  unfold owners. apply NoDup_app. split_and!.
  - apply NoDup_fmap_2; [intros x y [=]; done|]. apply NoDup_elements.
  - intros o (i & -> & _)%list_elem_of_fmap (k & [=] & _)%list_elem_of_fmap.
  - apply NoDup_fmap_2; [|apply NoDup_elements]. intros [] [] [=]; by subst.
Qed.

Lemma owners_spec s a o : refines s a → o ∈ owners a ↔ is_Some (frame_of s o).
Proof.
  intros Hr. unfold owners. rewrite elem_of_app, !list_elem_of_fmap. split.
  - intros [(i & -> & Hi)|([i n] & -> & Hi)]; simpl.
    + apply (ref_tabs s a Hr). by apply elem_of_elements.
    + apply elem_of_elements, elem_of_dom in Hi as [pg Hpg].
      eapply shows_ent. by eapply (ref_some s a Hr).
  - destruct o as [i|i n]; simpl; intros Ho.
    + left. exists i. split; [done|]. apply elem_of_elements. by apply (ref_tabs s a Hr).
    + right. exists (i, n). split; [done|]. apply elem_of_elements, elem_of_dom.
      destruct (a_pages a !! (i, n)) eqn:E; [eauto|].
      rewrite (ref_none s a Hr i n E) in Ho. by destruct Ho.
Qed.

Lemma full_iff s a : refines s a →
  a_full a = true ↔ ∀ f, 0 ≤ f < PAGE_FRAMES → owned s f.
Proof.
  intros Hr. pose proof (ref_wf s a Hr) as Hwf.
  set (l := (λ o, default (-1) (frame_of s o)) <$> owners a).
  assert (∀ f, f ∈ l ↔ owned s f) as Hl.
  { intros f. unfold l. rewrite list_elem_of_fmap. split.
    - intros (o & -> & Ho). apply (owners_spec s a o Hr) in Ho as [g Hg].
      exists o. by rewrite Hg.
    - intros [o Ho]. exists o. rewrite Ho. split; [done|]. apply (owners_spec s a o Hr). eauto. }
  assert (NoDup l) as Hnd.
  { unfold l. apply NoDup_fmap_2_strong; [|apply owners_nodup].
    intros x y [f Hf]%(owners_spec s a x Hr) [g Hg]%(owners_spec s a y Hr).
    rewrite Hf, Hg. simpl. intros <-. by eapply (wf_inj s Hwf). }
  assert (∀ f, f ∈ l → 0 ≤ f < PAGE_FRAMES) as Hrange.
  { intros f [o Ho]%Hl. by eapply (wf_range s Hwf). }
  unfold a_full. rewrite bool_decide_eq_true, <-owners_length.
  replace (length (owners a)) with (length l) by apply length_fmap.
  rewrite (pigeon_full l PAGE_FRAMES Hnd Hrange). setoid_rewrite Hl. done.
Qed.

(** [find_free_frame] fails exactly when the abstract memory is full. *)
Lemma find_free_frame_full s a : refines s a →
  ∃ f, find_free_frame s = Some f ∧
    (a_full a = true ∧ f = -1 ∨
     a_full a = false ∧ 0 ≤ f < PAGE_FRAMES ∧ ¬ owned s f).
Proof.
  intros Hr. destruct (p1_find_free_frame_spec s (ref_wf s a Hr)) as (f & Hf & H).
  exists f. split; [done|]. destruct H as [(? & Hno & _)|(-> & Hall)].
  - right. split; [|done]. destruct (a_full a) eqn:E; [|done]. destruct Hno.
    by apply (full_iff s a Hr).
  - left. split; [|done]. by apply (full_iff s a Hr).
Qed.

(** ** The code's updates, one location at a time *)

Lemma set_mem_ok s a b : is_Some (mb s a) → ∃ s', set_mem a b s = Some s' ∧ mb s' a = Some b.
Proof.
  intros [x Hx]. apply zget_Some_bound in Hx. unfold set_mem. rewrite zset_Some by done.
  simpl. eexists. split; [done|]. unfold mb. simpl. eapply zget_zset_eq. by apply zset_Some.
Qed.

Lemma set_mem_again s a x y s1 : set_mem a x s = Some s1 → set_mem a y s1 = set_mem a y s.
Proof.
  unfold set_mem. intros (m & Hm & [= <-])%bind_Some. simpl.
  pose proof (zset_inv _ _ _ _ Hm) as [Hb ->].
  rewrite !zset_Some; [|done|unfold zlen in *; by rewrite length_insert]. simpl.
  by rewrite list_insert_insert_eq.
Qed.

Lemma upd_mem_eq s a b f : mb s a = Some b → upd_mem a f s = set_mem a (f b) s.
Proof. unfold upd_mem, mb. by intros ->. Qed.

(** One more field assignment to a location already written. *)
Lemma upd_mem_step s a x f s1 : set_mem a x s = Some s1 →
  ∃ s2, upd_mem a f s1 = Some s2 ∧ set_mem a (f x) s = Some s2.
Proof.
  intros H1. pose proof H1 as H1'. unfold set_mem in H1'. apply bind_Some in H1' as (m & Hm & [= E]).
  assert (mb s1 a = Some x) as Hg.
  { unfold mb. rewrite <-E. simpl. by eapply zget_zset_eq. }
  rewrite (upd_mem_eq _ _ _ _ Hg), (set_mem_again _ _ _ _ _ H1).
  unfold set_mem. rewrite zset_Some by (eapply zset_inv; done). by eauto.
Qed.

Lemma set_proc_again s a x y s1 : set_proc a x s = Some s1 → set_proc a y s1 = set_proc a y s.
Proof.
  unfold set_proc. intros (m & Hm & [= <-])%bind_Some. simpl.
  pose proof (zset_inv _ _ _ _ Hm) as [Hb ->].
  rewrite !zset_Some; [|done|unfold zlen in *; by rewrite length_insert]. simpl.
  by rewrite list_insert_insert_eq.
Qed.

Lemma upd_proc_eq s a b f : zget (procTable s) a = Some b → upd_proc a f s = set_proc a (f b) s.
Proof. unfold upd_proc. by intros ->. Qed.

Lemma upd_proc_step s a x f s1 : set_proc a x s = Some s1 →
  ∃ s2, upd_proc a f s1 = Some s2 ∧ set_proc a (f x) s = Some s2.
Proof.
  intros H1. pose proof H1 as H1'. unfold set_proc in H1'. apply bind_Some in H1' as (m & Hm & [= E]).
  assert (zget (procTable s1) a = Some x) as Hg.
  { rewrite <-E. simpl. by eapply zget_zset_eq. }
  rewrite (upd_proc_eq _ _ _ _ Hg), (set_proc_again _ _ _ _ _ H1).
  unfold set_proc. rewrite zset_Some by (eapply zset_inv; done). by eauto.
Qed.

(** ** [init_table] *)

Lemma clear_entries_noop s f :
  wf s → 0 ≤ f < PAGE_FRAMES → (∀ j, 0 ≤ j < PAGE_SIZE → mb s (f * PAGE_SIZE + j) = Some 0) →
  wp (E := msg) (for_do (seqZ 0 PAGE_SIZE) (λ j,
    modifies (upd_mem (f * PAGE_SIZE + j) (λ p, set_valid p 0)))) s (λ _ s', s' = s).
Proof.
  intros Hwf Hf Hz. apply (wp_for_do _ _ _ (λ _ s', s' = s)); [done|].
  intros l1 j l2 s1 Hl ->. assert (j ∈ seqZ 0 PAGE_SIZE) as Hj%elem_of_seqZ.
  { rewrite Hl. apply elem_of_middle. }
  apply wp_modifies with s; [|done]. rewrite (upd_mem_eq _ _ _ _ (Hz j ltac:(lia))).
  change (set_valid 0 0) with 0. specialize (Hz j ltac:(lia)).
  unfold set_mem. unfold mb in Hz. rewrite zset_Some by eauto with c_arr. simpl.
  rewrite list_insert_id; [by destruct s|].
  unfold zget in Hz. by case_decide.
Qed.

(** A process without a table gets one in a free frame, if there is one. *)
Lemma init_table_refines s a pid :
  refines s a → 0 ≤ pid < MAX_PROCESSES → pid ∉ a_tabs a →
  wp (init_table pid) s (λ _ s',
    if a_full a then s' = s
    else refines s' (mkA ({[pid]} ∪ a_tabs a) (a_pages a))).
Proof.
  intros Hr Hpid Hnt. pose proof (ref_wf s a Hr) as Hwf. unfold init_table.
  destruct (find_free_frame_full s a Hr) as (f & Hf & Hcase).
  apply wp_bind. eapply wp_reads; [done|].
  destruct Hcase as [[-> ->]|(-> & Hrange & Hno)]; [done|].
  rewrite (proj2 (Z.leb_le 0 f)) by lia.
  destruct (zget_is_Some (procTable s) pid) as [p0 Hp0]; [by rewrite (wf_proc_len s Hwf)|].
  assert (tab s pid = None) as Ht.
  { destruct (tab s pid) eqn:E; [|done]. destruct Hnt. apply (ref_tabs s a Hr). eauto. }
  destruct (zset (procTable s) pid (set_valid p0 1)) as [t|] eqn:Hz.
  2:{ apply zset_None in Hz. destruct Hz. eauto with c_arr. }
  assert (∃ s1, set_proc pid (set_valid p0 1) s = Some s1) as [s1 H1].
  { unfold set_proc. rewrite Hz. by eauto. }
  destruct (upd_proc_step _ _ _ (λ p, set_write p 1) _ H1) as (s2 & U2 & H2).
  destruct (upd_proc_step _ _ _ (λ p, set_frame p f) _ H2) as (s3 & U3 & H3).
  apply wp_bind, wp_modifies with s1; [by rewrite (upd_proc_eq _ _ _ _ Hp0)|].
  apply wp_bind, wp_modifies with s2; [done|].
  apply wp_bind, wp_modifies with s3; [done|].
  set (p' := set_frame _ f) in H3.
  assert (truthy (page_valid p') = true) as Hv.
  { unfold p'. by autorewrite with page1. }
  assert (page_frame p' = f) as Hpf.
  { unfold p'. autorewrite with page1. apply Z.mod_small. rewrite p1_frames_eq in Hrange. lia. }
  assert (is_byte p') as Hb.
  { pose proof (Forall_zget is_byte _ _ _ (wf_proc_bytes s Hwf) Hp0).
    unfold p'. auto with c_bits. }
  pose proof (write_table_mb s s3 pid p' H3) as Mb.
  pose proof (write_table_tab s s3 pid f p' Hwf Ht Hrange Hno Hv Hpf Hb H3) as Tb.
  pose proof (write_table_ent s s3 pid f p' Hwf Ht Hrange Hno Hv Hpf Hb H3) as En.
  pose proof (write_table_wf s s3 pid f p' Hwf Ht Hrange Hno Hv Hpf Hb H3) as Hwf3.
  apply wp_bind. eapply wp_mono; [apply clear_entries_noop; [done..|]|].
  { intros j Hj. rewrite Mb. by apply wf_zero. }
  intros [] s4 ->. apply wp_emit. split; simpl; [done|..].
  - intros i. rewrite elem_of_union, elem_of_singleton, (ref_tabs s a Hr), Tb.
    case_decide as Hi.
    + split; [by eauto|by left].
    + split; [by intros [?|?]|by right].
  - intros i n pg Hpg. destruct (ref_some s a Hr i n pg Hpg) as (b & He & Hb').
    exists b. setoid_rewrite Mb. split; [|done].
    rewrite (write_table_entry s s3 pid f p' Hwf Ht Hrange Hno Hv Hpf Hb H3); [done|].
    intros ->. unfold entry in He. by rewrite Ht in He.
  - intros i n Hn. rewrite En. by apply (ref_none s a Hr).
Qed.

(** ** [map_page] *)

Section one_page.
Context (s : state) (a : astate) (pid address : Z).
Hypothesis Hr : refines s a.
Hypothesis Ht : pid ∈ a_tabs a.
Hypothesis Haddr : 0 ≤ address < VIRT_ADD_SPACE.
Let n := address `quot` PAGE_SIZE.

Lemma page_index : 0 ≤ n < PAGE_SIZE.
Proof using Haddr. destruct (p1_page_of_address address Haddr). consts. unfold n. lia. Qed.

(** [find_page] and the first dereference, for a process that has a table. *)
Lemma find_page_entry : ∃ ft b,
  tab s pid = Some ft ∧
  find_page pid n s = Some (Some (ft * PAGE_SIZE + n)) ∧
  deref (Some (ft * PAGE_SIZE + n)) s = Some b ∧
  entry s pid n = Some b ∧ mb s (ft * PAGE_SIZE + n) = Some b ∧ is_byte b.
Proof using Hr Ht Haddr.
  pose proof (ref_wf s a Hr) as Hwf. pose proof page_index as Hn.
  apply (ref_tabs s a Hr) in Ht as [ft Hft]. exists ft.
  destruct (p1_entry_in_range s pid ft n Hwf Hft Hn) as (b & He & Hb). exists b.
  split_and!; [done| |done|done|done|by apply (Forall_zget _ _ _ _ (wf_mem_bytes s Hwf) Hb)].
  unfold find_page. unfold tab in Hft. apply bind_Some in Hft as (p & -> & Hp). simpl.
  destruct (truthy (page_valid p)); by simplify_eq.
Qed.
End one_page.

(** Entry [n] of [pid] is rewritten to [b']; what it maps is [pg]. *)
Lemma write_entry_refines s s' a pid ft n b' pg :
  refines s a → tab s pid = Some ft → 0 ≤ n < PAGE_SIZE →
  set_mem (ft * PAGE_SIZE + n) b' s = Some s' →
  is_byte b' → truthy (page_valid b') = true →
  ent s pid n = Some (page_frame b') ∨
    ent s pid n = None ∧ 0 ≤ page_frame b' < PAGE_FRAMES ∧ ¬ owned s (page_frame b') →
  page_write b' = ap_write pg → length (ap_data pg) = 16%nat →
  (∀ k, 0 ≤ k < PAGE_SIZE → zget (ap_data pg) k = mb s (page_frame b' * PAGE_SIZE + k)) →
  refines s' (mkA (a_tabs a) (<[(pid, n) := pg]> (a_pages a))).
Proof.
  intros Hr Ht Hn Hs' Hb Hv Hcase Hw Hlen Hd. pose proof (ref_wf s a Hr) as Hwf.
  pose proof (write_entry_entry s s' pid ft n b' Hwf Ht Hn Hs') as Ee.
  pose proof (write_entry_ent s s' pid ft n b' Hwf Ht Hn Hs') as En.
  pose proof (write_entry_tab s s' ft n b' Hs') as Tb.
  split; simpl.
  - by eapply write_entry_wf.
  - intros i. rewrite Tb. apply (ref_tabs s a Hr).
  - intros i j pg'. rewrite lookup_insert. case_decide as Hd'.
    + intros [= <-]. injection Hd' as <- <-. exists b'. rewrite Ee, decide_True by done.
      split_and!; [done..|]. intros k Hk. rewrite Hd by done. symmetry.
      apply (write_entry_data s s' ft n b' Hn Hs'); [done|]. intros E.
      destruct Hcase as [Hc|(_ & _ & Hc)].
      * rewrite E in Hc. by eapply p1_tab_not_ent.
      * apply Hc. exists (Tab pid). by rewrite E.
    + intros Hpg. destruct (ref_some s a Hr i j pg' Hpg) as (b & He & Hvb & Hwb & Hl & Hdb).
      exists b. rewrite Ee, decide_False by (intros [-> ->]; done). split_and!; [done..|].
      intros k Hk. rewrite Hdb by done. symmetry. apply (write_entry_data s s' ft n b' Hn Hs'); [done|].
      intros E. apply (p1_tab_not_ent s pid i j ft Hwf Ht).
      unfold ent. rewrite He. simpl. by rewrite Hvb, E.
  - intros i j. rewrite lookup_insert. case_decide as Hd'; [done|]. intros Hpg.
    rewrite En, decide_False by (intros [-> ->]; done). by apply (ref_none s a Hr).
Qed.

(** An entry that mapped nothing is filled in with a frame nobody holds. *)
Lemma fresh_entry_refines s s' a pid ft n b f write :
  refines s a → tab s pid = Some ft → 0 ≤ n < PAGE_SIZE → is_byte b →
  ent s pid n = None → 0 ≤ f < PAGE_FRAMES → ¬ owned s f →
  set_mem (ft * PAGE_SIZE + n) (set_write (set_valid (set_frame b f) 1) write) s = Some s' →
  refines s' (mkA (a_tabs a) (<[(pid, n) := blank_page write]> (a_pages a))).
Proof.
  intros Hr Ht Hn Hby Hent Hrange Hno H3.
  assert (page_frame (set_write (set_valid (set_frame b f) 1) write) = f) as Ef.
  { autorewrite with page1. apply Z.mod_small. rewrite p1_frames_eq in Hrange. lia. }
  eapply (write_entry_refines s s' a pid ft n _ _ Hr Ht Hn H3);
    rewrite ?Ef; autorewrite with page1; auto with c_bits.
  intros k Hk. rewrite (wf_zero s (ref_wf s a Hr)) by done.
  unfold blank_page, zget. cbn [ap_data]. rewrite decide_True by lia.
  apply lookup_replicate. split; [done|]. consts. lia.
Qed.

Lemma map_page_in_table_refines s a pid address write :
  refines s a → pid ∈ a_tabs a → 0 ≤ address < VIRT_ADD_SPACE →
  wp (map_page_in_table pid address write) s (λ r s',
    ∃ a', a_map_page pid address write a = (r, a') ∧ refines s' a').
Proof.
  intros Hr Htab Haddr. set (n := address `quot` PAGE_SIZE).
  destruct (find_page_entry s a pid address Hr Htab Haddr) as (ft & b & Ht & Hfp & Hde & He & Hb & Hby).
  pose proof (page_index address Haddr) as Hn. fold n in Hn, Hfp, Hde, He, Hb.
  assert ({[pid]} ∪ a_tabs a = a_tabs a) as Htabs
    by (by apply subseteq_union_1_L, singleton_subseteq_l).
  unfold map_page_in_table, a_map_page. fold n.
  rewrite (bool_decide_eq_false_2 (pid ∉ a_tabs a)) by (intros ?; done). simpl.
  apply wp_bind. eapply wp_reads; [done|]. apply wp_bind. eapply wp_reads; [done|].
  destruct (truthy (page_valid b)) eqn:Hv.
  - (* already mapped: only the permission changes *)
    destruct (a_pages a !! (pid, n)) as [pg|] eqn:Hpg.
    2:{ apply (ref_none s a Hr) in Hpg. unfold ent in Hpg. rewrite He in Hpg. simpl in Hpg.
        by rewrite Hv in Hpg. }
    destruct (ref_some s a Hr _ _ _ Hpg) as (b0 & He0 & _ & Hw & Hl & Hd).
    rewrite He in He0. injection He0 as <-.
    destruct (set_mem_ok s (ft * PAGE_SIZE + n) (set_write b write)) as (s' & Hs' & _); [by eauto|].
    apply wp_bind, wp_emit, wp_bind, wp_modifies with s'.
    { simpl. by rewrite (upd_mem_eq _ _ _ _ Hb). }
    apply wp_ret. eexists. split; [done|]. simpl. rewrite Htabs.
    eapply (write_entry_refines s s' a pid ft n _ _ Hr Ht Hn Hs');
      autorewrite with page1; auto with c_bits.
    left. unfold ent. rewrite He. simpl. by rewrite Hv.
  - (* not mapped *)
    assert (ent s pid n = None) as Hent.
    { unfold ent. rewrite He. simpl. by rewrite Hv. }
    destruct (a_pages a !! (pid, n)) as [pg|] eqn:Hpg.
    { apply (ref_some s a Hr), shows_ent in Hpg as [f Hf]. congruence. }
    destruct (find_free_frame_full s a Hr) as (f & Hf & Hcase).
    apply wp_bind. eapply wp_reads; [done|]. rewrite Htabs.
    replace (a_full {| a_tabs := a_tabs a; a_pages := a_pages a |}) with (a_full a) by by destruct a.
    destruct Hcase as [[-> ->]|(-> & Hrange & Hno)].
    { apply wp_bind, wp_emit, wp_ret. eexists. split; [done|]. by destruct a. }
    rewrite (proj2 (Z.ltb_ge f 0)) by lia.
    destruct (set_mem_ok s (ft * PAGE_SIZE + n) (set_frame b f)) as (s1 & H1 & _); [by eauto|].
    destruct (upd_mem_step _ _ _ (λ p, set_valid p 1) _ H1) as (s2 & U2 & H2).
    destruct (upd_mem_step _ _ _ (λ p, set_write p write) _ H2) as (s3 & U3 & H3).
    apply wp_bind, wp_modifies with s1; [simpl; by rewrite (upd_mem_eq _ _ _ _ Hb)|].
    apply wp_bind, wp_modifies with s2; [done|].
    apply wp_bind, wp_modifies with s3; [done|].
    apply wp_bind, wp_emit, wp_ret. eexists. split; [done|].
    by eapply fresh_entry_refines.
Qed.

Lemma proc_valid_tab s a pid : refines s a → 0 ≤ pid < MAX_PROCESSES →
  proc_valid pid s = Some (bool_decide (pid ∈ a_tabs a)).
Proof.
  intros Hr Hpid. pose proof (ref_tabs s a Hr pid) as Ht.
  destruct (zget_is_Some (procTable s) pid) as [p Hp].
  { by rewrite (wf_proc_len s (ref_wf s a Hr)). }
  pose proof (p1_tab_intro s pid p Hp) as E. rewrite E in Ht.
  unfold proc_valid. rewrite Hp. simpl. f_equal. destruct (truthy (page_valid p)); symmetry.
  - apply bool_decide_eq_true. apply Ht. by eauto.
  - apply bool_decide_eq_false. intros [? H]%Ht. done.
Qed.

Lemma map_page_refines s a pid address write :
  refines s a → 0 ≤ pid < MAX_PROCESSES → 0 ≤ address < VIRT_ADD_SPACE →
  wp (map_page pid address write) s (λ r s',
    ∃ a', a_map_page pid address write a = (r, a') ∧ refines s' a').
Proof.
  intros Hr Hpid Haddr. unfold map_page.
  apply wp_bind. eapply wp_reads; [by eapply proc_valid_tab|].
  destruct (decide (pid ∈ a_tabs a)) as [Ht|Ht].
  - rewrite bool_decide_eq_true_2 by done. by apply map_page_in_table_refines.
  - rewrite bool_decide_eq_false_2 by done. simpl.
    apply wp_bind. eapply wp_mono; [by apply init_table_refines|]. simpl. intros _ s1 H1.
    apply wp_bind. destruct (a_full a) eqn:Hfull.
    + subst s1. eapply wp_reads; [by eapply proc_valid_tab|].
      rewrite bool_decide_eq_false_2 by done. apply wp_bind, wp_emit, wp_ret.
      exists a. split; [|done]. unfold a_map_page.
      by rewrite Hfull, bool_decide_eq_true_2.
    + set (a1 := mkA ({[pid]} ∪ a_tabs a) (a_pages a)) in H1.
      assert (pid ∈ a_tabs a1) as Ht1 by (apply elem_of_union_l, elem_of_singleton; done).
      eapply wp_reads; [by eapply proc_valid_tab|]. rewrite bool_decide_eq_true_2 by done.
      eapply wp_mono; [by apply (map_page_in_table_refines s1 a1)|]. simpl.
      intros r s' (a' & Ha' & Hr'). exists a'. split; [|done]. rewrite <-Ha'.
      unfold a_map_page. rewrite Hfull, (bool_decide_eq_true_2 (pid ∉ a_tabs a)) by done.
      rewrite (bool_decide_eq_false_2 (pid ∉ a_tabs a1)) by (intros ?; done).
      unfold a1. simpl. by rewrite (assoc_L (∪)), (idemp_L (∪)).
Qed.

(** ** [store] and [load] *)

Lemma no_table_no_page s a pid n :
  refines s a → pid ∉ a_tabs a → a_pages a !! (pid, n) = None.
Proof.
  intros Hr Ht. destruct (a_pages a !! (pid, n)) as [pg|] eqn:Hpg; [|done].
  apply (ref_some s a Hr) in Hpg as (b & He & _). destruct Ht. apply (ref_tabs s a Hr).
  unfold entry in He. apply bind_Some in He as (ft & -> & _). by eauto.
Qed.

(** What the checks at the head of [store] and [load] find. *)
Lemma page_lookup s a pid address :
  refines s a → pid ∈ a_tabs a → 0 ≤ address < VIRT_ADD_SPACE →
  let n := address `quot` PAGE_SIZE in
  ∃ page b, find_page pid n s = Some page ∧ deref page s = Some b ∧
    match a_pages a !! (pid, n) with
    | Some pg =>
        truthy (page_valid b) = true ∧ page_write b = ap_write pg ∧
        ent s pid n = Some (page_frame b) ∧ 0 ≤ page_frame b < PAGE_FRAMES ∧
        length (ap_data pg) = 16%nat ∧
        ∀ k, 0 ≤ k < PAGE_SIZE → zget (ap_data pg) k = mb s (page_frame b * PAGE_SIZE + k)
    | None => truthy (page_valid b) = false
    end.
Proof.
  intros Hr Ht Haddr n.
  destruct (find_page_entry s a pid address Hr Ht Haddr) as (ft & b & Hft & Hfp & Hde & He & _).
  fold n in Hfp, Hde, He. exists (Some (ft * PAGE_SIZE + n)), b. split_and!; [done..|].
  destruct (a_pages a !! (pid, n)) as [pg|] eqn:Hpg.
  - destruct (ref_some s a Hr _ _ _ Hpg) as (b0 & He0 & Hv & Hw & Hl & Hd).
    rewrite He in He0. injection He0 as <-.
    assert (ent s pid n = Some (page_frame b)) as Hent.
    { unfold ent. rewrite He. simpl. by rewrite Hv. }
    destruct (wf_range s (ref_wf s a Hr) (Ent pid n) _ Hent). by split_and!.
  - apply (ref_none s a Hr) in Hpg. unfold ent in Hpg. rewrite He in Hpg.
    simpl in Hpg. by destruct (truthy (page_valid b)).
Qed.

(** A byte of a mapped page is overwritten. *)
Lemma write_data_refines s s' a pid n f k v pg :
  refines s a → ent s pid n = Some f → 0 ≤ k < PAGE_SIZE → is_byte v →
  set_mem (f * PAGE_SIZE + k) v s = Some s' → a_pages a !! (pid, n) = Some pg →
  refines s' (mkA (a_tabs a)
    (<[(pid, n) := mkPage (ap_write pg) (<[Z.to_nat k := v]> (ap_data pg))]> (a_pages a))).
Proof.
  intros Hr He Hk Hv Hs' Hpg. pose proof (ref_wf s a Hr) as Hwf.
  pose proof (write_data_entry s s' pid n f k v Hwf He Hk Hs') as Ee.
  pose proof (write_data_frame_of s s' pid n f k v Hwf He Hk Hs') as Fr.
  pose proof (write_data_mb s s' f k v Hs') as Mb.
  assert (∀ i j b, entry s i j = Some b → truthy (page_valid b) = true →
    frame_of s (Ent i j) = Some (page_frame b)) as Hent.
  { intros i j b H1 H2. simpl. unfold ent. rewrite H1. simpl. by rewrite H2. }
  split; simpl.
  - by eapply write_data_wf.
  - intros i. change (tab s' i) with (frame_of s' (Tab i)). rewrite Fr. apply (ref_tabs s a Hr).
  - intros i j pg'. rewrite lookup_insert. case_decide as Hd.
    + intros [= <-]. injection Hd as <- <-.
      destruct (ref_some s a Hr _ _ _ Hpg) as (b & Heb & Hvb & Hwb & Hl & Hdata).
      assert (page_frame b = f) as Ef.
      { pose proof (Hent _ _ _ Heb Hvb) as E. simpl in E. congruence. }
      exists b. rewrite Ee. simpl. split_and!; [done..|by rewrite length_insert|].
      intros k' Hk'. rewrite Mb, Ef. unfold zget. rewrite decide_True by lia.
      rewrite list_lookup_insert. consts. repeat case_decide; try lia.
      * done.
      * specialize (Hdata k' Hk'). unfold zget in Hdata. rewrite decide_True in Hdata by lia.
        by rewrite Hdata, Ef.
    + intros Hpg'. destruct (ref_some s a Hr _ _ _ Hpg') as (b & Heb & Hvb & Hwb & Hl & Hdata).
      exists b. rewrite Ee. split_and!; [done..|]. intros k' Hk'. rewrite Hdata, Mb by done.
      rewrite decide_False; [done|]. intros Ha. apply p1_addr_split in Ha as [E _]; [|done..].
      apply Hd. pose proof (Hent _ _ _ Heb Hvb) as Ho. rewrite <-E in Ho.
      by injection (wf_inj s Hwf (Ent pid n) (Ent i j) f He Ho) as -> ->.
  - intros i j. rewrite lookup_insert. case_decide; [done|]. intros Hn.
    change (ent s' i j) with (frame_of s' (Ent i j)). rewrite Fr. by apply (ref_none s a Hr).
Qed.

Lemma store_refines s a pid address value :
  refines s a → 0 ≤ pid < MAX_PROCESSES → 0 ≤ address < VIRT_ADD_SPACE → is_byte value →
  wp (store pid address value) s (λ r s',
    (r = 0 → s' = s) ∧ ∃ a', a_store pid address value a = (r, a') ∧ refines s' a').
Proof.
  intros Hr Hpid Haddr Hval. unfold store, a_store. set (n := address `quot` PAGE_SIZE).
  destruct (p1_page_of_address address Haddr) as [_ Hoff].
  apply wp_bind. eapply wp_reads; [by eapply proc_valid_tab|].
  destruct (decide (pid ∈ a_tabs a)) as [Ht|Ht].
  2:{ rewrite bool_decide_eq_false_2 by done. apply wp_bind, wp_emit, wp_ret. split; [done|]. exists a.
      by rewrite (no_table_no_page s a pid n). }
  rewrite bool_decide_eq_true_2 by done. simpl.
  destruct (page_lookup s a pid address Hr Ht Haddr) as (page & b & Hfp & Hde & Hpg).
  fold n in Hfp, Hpg.
  apply wp_bind. eapply wp_reads; [done|]. apply wp_bind. eapply wp_reads; [done|].
  destruct (a_pages a !! (pid, n)) as [pg|] eqn:Epg.
  2:{ rewrite Hpg. apply wp_bind, wp_emit, wp_ret. split; [done|]. by exists a. }
  destruct Hpg as (Hv & Hw & Hent & Hrange & Hl & Hd). rewrite Hv. simpl.
  rewrite Hw. unfold truthy at 1. rewrite negb_involutive.
  destruct (ap_write pg =? 0).
  { apply wp_bind, wp_emit, wp_ret. split; [done|]. by exists a. }
  destruct (set_mem_ok s (page_frame b * PAGE_SIZE + address `rem` PAGE_SIZE) value)
    as (s' & Hs' & _); [by eapply p1_mem_in_range; [apply (ref_wf s a Hr)|..]|].
  apply wp_bind, wp_modifies with s'; [done|].
  assert (deref page s' = Some b) as Hde'.
  { destruct (find_page_entry s a pid address Hr Ht Haddr) as (ft & b1 & Hft & Hfp1 & Hde1 & He1 & Hb1 & _).
    fold n in Hfp1, Hde1, He1, Hb1. rewrite Hfp in Hfp1. injection Hfp1 as ->.
    rewrite Hde in Hde1. injection Hde1 as <-. simpl.
    pose proof (write_data_mb s s' _ _ _ Hs' (ft * PAGE_SIZE + n)) as E. unfold mb in E.
    rewrite E, decide_False; [done|]. intros Ha.
    apply p1_addr_split in Ha as [E1 _]; [|done|by apply page_index].
    subst ft. by eapply p1_tab_not_ent; [apply (ref_wf s a Hr)|..]. }
  apply wp_bind. eapply wp_reads; [done|]. apply wp_bind, wp_emit, wp_ret.
  split; [done|]. eexists. split; [done|]. by eapply write_data_refines.
Qed.

Lemma load_refines s a pid address :
  refines s a → 0 ≤ pid < MAX_PROCESSES → 0 ≤ address < VIRT_ADD_SPACE →
  wp (load pid address) s (λ r s', r = a_load pid address a ∧ s' = s).
Proof.
  intros Hr Hpid Haddr. unfold load, a_load. set (n := address `quot` PAGE_SIZE).
  destruct (p1_page_of_address address Haddr) as [_ Hoff].
  apply wp_bind. eapply wp_reads; [by eapply proc_valid_tab|].
  destruct (decide (pid ∈ a_tabs a)) as [Ht|Ht].
  2:{ rewrite bool_decide_eq_false_2 by done. apply wp_bind, wp_emit, wp_ret. split; [|done].
      by rewrite (no_table_no_page s a pid n). }
  rewrite bool_decide_eq_true_2 by done. simpl.
  destruct (page_lookup s a pid address Hr Ht Haddr) as (page & b & Hfp & Hde & Hpg).
  fold n in Hfp, Hpg.
  apply wp_bind. eapply wp_reads; [done|]. apply wp_bind. eapply wp_reads; [done|].
  destruct (a_pages a !! (pid, n)) as [pg|] eqn:Epg.
  2:{ rewrite Hpg. by apply wp_bind, wp_emit, wp_ret. }
  destruct Hpg as (Hv & Hw & Hent & Hrange & Hl & Hd). rewrite Hv. simpl.
  destruct (p1_mem_in_range s (page_frame b) (address `rem` PAGE_SIZE) (ref_wf s a Hr) Hrange Hoff)
    as [x Hx].
  apply wp_bind. eapply wp_reads; [exact Hx|]. apply wp_bind, wp_emit, wp_ret.
  split; [|done]. by rewrite (Hd _ Hoff), Hx.
Qed.

(** ** Every well-formed state represents an abstract memory *)

Definition page_at (s : state) (i n : Z) : option apage :=
  b ← entry s i n;
  if truthy (page_valid b) then
    Some (mkPage (page_write b)
      (omap (λ k, mb s (page_frame b * PAGE_SIZE + k)) (seqZ 0 PAGE_SIZE)))
  else None.

Definition slots : gset (Z * Z) :=
  list_to_set (i ← seqZ 0 MAX_PROCESSES; n ← seqZ 0 PAGE_SIZE; [(i, n)]).

Definition abs (s : state) : astate :=
  mkA (list_to_set (filter (λ i, is_Some (tab s i)) (seqZ 0 MAX_PROCESSES)))
    (map_imap (λ k (_ : unit), page_at s k.1 k.2) (gset_to_gmap tt slots)).

Lemma elem_of_slots i n : (i, n) ∈ slots ↔ 0 ≤ i < MAX_PROCESSES ∧ 0 ≤ n < PAGE_SIZE.
Proof.
  unfold slots. rewrite elem_of_list_to_set, list_elem_of_bind.
  setoid_rewrite list_elem_of_bind. setoid_rewrite list_elem_of_singleton.
  setoid_rewrite elem_of_seqZ. split.
  - intros (i' & (n' & [= -> ->] & Hn) & Hi). lia.
  - intros [Hi Hn]. exists i. split; [|lia]. exists n. split; [done|lia].
Qed.

Lemma frame_bytes s f k : wf s → 0 ≤ f < PAGE_FRAMES → 0 ≤ k < PAGE_SIZE →
  zget (omap (λ k, mb s (f * PAGE_SIZE + k)) (seqZ 0 PAGE_SIZE)) k = mb s (f * PAGE_SIZE + k).
Proof.
  intros Hwf Hf Hk.
  assert (∀ l : list Z, (∀ j, j ∈ l → 0 ≤ j < PAGE_SIZE) →
    ∀ m : nat, omap (λ k, mb s (f * PAGE_SIZE + k)) l !! m = (j ← l !! m; mb s (f * PAGE_SIZE + j))) as H.
  { induction l as [|j l IH]; intros Hl m; [done|]. simpl.
    destruct (p1_mem_in_range s f j Hwf Hf) as [b Hb]; [apply Hl; by left|]. rewrite Hb.
    destruct m as [|m]; simpl; [done|]. apply IH. intros x Hx. apply Hl. by right. }
  unfold zget. rewrite decide_True by lia. rewrite H.
  - rewrite lookup_seqZ_lt by lia. simpl. f_equal. lia.
  - intros j Hj%elem_of_seqZ. lia.
Qed.

Lemma frame_bytes_length s f : wf s → 0 ≤ f < PAGE_FRAMES →
  length (omap (λ k, mb s (f * PAGE_SIZE + k)) (seqZ 0 PAGE_SIZE)) = 16%nat.
Proof.
  intros Hwf Hf. change 16%nat with (length (seqZ 0 PAGE_SIZE)).
  assert (∀ l : list Z, (∀ j, j ∈ l → 0 ≤ j < PAGE_SIZE) →
    length (omap (λ k, mb s (f * PAGE_SIZE + k)) l) = length l) as H.
  { induction l as [|j l IH]; intros Hl; [done|]. simpl.
    destruct (p1_mem_in_range s f j Hwf Hf) as [b Hb]; [apply Hl; by left|]. rewrite Hb. simpl.
    f_equal. apply IH. intros x Hx. apply Hl. by right. }
  apply H. intros j Hj%elem_of_seqZ. lia.
Qed.

Lemma abs_page s i n : wf s → a_pages (abs s) !! (i, n) = page_at s i n.
Proof.
  intros Hwf. unfold abs. simpl. rewrite map_lookup_imap, lookup_gset_to_gmap.
  destruct (decide ((i, n) ∈ slots)) as [Hs|Hs].
  - rewrite option_guard_True by done. done.
  - rewrite option_guard_False by done. simpl. symmetry. unfold page_at, entry.
    destruct (tab s i) as [ft|] eqn:Ht; [|done]. simpl. case_decide; [|done].
    destruct Hs. apply elem_of_slots. split; [by eapply p1_tab_bound|done].
Qed.

Lemma abs_refines s : wf s → refines s (abs s).
Proof.
  intros Hwf. split; [done|..].
  - intros i. unfold abs. simpl. rewrite elem_of_list_to_set, list_elem_of_filter, elem_of_seqZ.
    split; [by intros [? _]|]. intros [f Hf]. split; [by eauto|].
    apply p1_tab_bound in Hf; [lia|done].
  - intros i n pg. rewrite abs_page by done. unfold page_at.
    intros (b & Hb & Hpg)%bind_Some. destruct (truthy (page_valid b)) eqn:Hv; simplify_eq.
    assert (0 ≤ page_frame b < PAGE_FRAMES) as Hf.
    { apply (wf_range s Hwf (Ent i n)). simpl. unfold ent. rewrite Hb. simpl. by rewrite Hv. }
    exists b. simpl. split_and!; [done..|by apply frame_bytes_length|].
    intros k Hk. by apply frame_bytes.
  - intros i n. rewrite abs_page by done. unfold page_at, ent.
    destruct (entry s i n) as [b|]; [|done]. simpl. by destruct (truthy (page_valid b)).
Qed.
