(* ===== verification/Paging1Props.v ===== *)
(** * Project4/Part1: the properties of the paging simulator

    Sequences of operations, the command loop, and what the refinement of
    [Paging1Refine] gives a user of the program. *)

From stdpp Require Import gmap.
From Stdlib Require Import Ascii.
From S2P Require Import Prelude CString Paging1 Mem1 Paging1Spec Paging1Refine.

(** ** Sequences of operations *)

Inductive op : Type :=
  | OMap (pid address write : Z)
  | OStore (pid address value : Z)
  | OLoad (pid address : Z).

Definition exec (o : op) : prog (Z * option Z) :=
  match o with
  | OMap pid address write => r ← map_page pid address write; mret (r, None)
  | OStore pid address value => r ← store pid address value; mret (r, None)
  | OLoad pid address => load pid address
  end.

Definition aexec (o : op) (a : astate) : (Z * option Z) * astate :=
  match o with
  | OMap pid address write => let '(r, a') := a_map_page pid address write a in ((r, None), a')
  | OStore pid address value => let '(r, a') := a_store pid address value a in ((r, None), a')
  | OLoad pid address => (a_load pid address a, a)
  end.

Fixpoint run_ops (l : list op) : prog (list (Z * option Z)) :=
  match l with
  | [] => mret []
  | o :: l' => r ← exec o; rs ← run_ops l'; mret (r :: rs)
  end.

Fixpoint arun_ops (l : list op) (a : astate) : list (Z * option Z) * astate :=
  match l with
  | [] => ([], a)
  | o :: l' =>
      let '(r, a1) := aexec o a in
      let '(rs, a2) := arun_ops l' a1 in (r :: rs, a2)
  end.

Definition op_pid (o : op) : Z :=
  match o with OMap pid _ _ | OStore pid _ _ | OLoad pid _ => pid end.
Definition op_address (o : op) : Z :=
  match o with OMap _ a _ | OStore _ a _ | OLoad _ a => a end.

(** The arguments [main] checks, the process number included. *)
Definition op_ok (o : op) : Prop :=
  0 ≤ op_pid o < MAX_PROCESSES ∧ 0 ≤ op_address o < VIRT_ADD_SPACE ∧
  match o with OMap _ _ w => 0 ≤ w ≤ 1 | OStore _ _ v => is_byte v | OLoad _ _ => True end.

#[global] Instance op_ok_dec o : Decision (op_ok o).
Proof. unfold op_ok. destruct o; apply _. Defined.

Lemma exec_refines s a o : refines s a → op_ok o →
  wp (exec o) s (λ r s', ∃ a', aexec o a = (r, a') ∧ refines s' a').
Proof.
  intros Hr (Hpid & Haddr & Hval). destruct o as [pid address w|pid address v|pid address]; simpl in *.
  - apply wp_bind. eapply wp_mono; [by apply map_page_refines|]. simpl.
    intros r s' (a' & Ha & Hr'). apply wp_ret. exists a'. by rewrite Ha.
  - apply wp_bind. eapply wp_mono; [by apply store_refines|]. simpl.
    intros r s' (_ & a' & Ha & Hr'). apply wp_ret. exists a'. by rewrite Ha.
  - eapply wp_mono; [by apply load_refines|]. simpl. intros r s' [-> ->]. by exists a.
Qed.

Lemma run_ops_refines s a l : refines s a → Forall op_ok l →
  wp (run_ops l) s (λ rs s', ∃ a', arun_ops l a = (rs, a') ∧ refines s' a').
Proof.
  intros Hr Hl. revert s a Hr. induction Hl as [|o l Ho Hl IH]; intros s a Hr; simpl.
  - apply wp_ret. by exists a.
  - apply wp_bind. eapply wp_mono; [by apply exec_refines|]. simpl.
    intros r s1 (a1 & Ha1 & Hr1). apply wp_bind. eapply wp_mono; [by apply IH|]. simpl.
    intros rs s2 (a2 & Ha2 & Hr2). apply wp_ret. exists a2. by rewrite Ha1, Ha2.
Qed.

(** ** The initial state *)

Lemma static_tab i : tab static_state i = None.
Proof.
  unfold tab. destruct (zget (procTable static_state) i) as [p|] eqn:E; [|done]. simpl.
  apply zget_In in E. assert (p = 0) as ->; [|done]. by apply elem_of_replicate_inv in E.
Qed.

Lemma static_wf : wf static_state.
Proof.
  assert (∀ o, frame_of static_state o = None) as Hno.
  { intros [i|i n]; simpl; [apply static_tab|]. unfold ent, entry. by rewrite static_tab. }
  split; try done.
  - by apply Forall_replicate.
  - by apply Forall_replicate.
  - intros o f. by rewrite Hno.
  - intros o o' f. by rewrite Hno.
  - intros f j Hf Hj _. unfold mb, zget. consts. rewrite decide_True by lia.
    apply lookup_replicate. split; [done|]. consts. lia.
Qed.

Lemma static_refines : refines static_state a_empty.
Proof.
  split; [apply static_wf|..].
  - intros i. rewrite static_tab. simpl. rewrite elem_of_empty. split; [done|by intros [? ?]].
  - intros i n pg. unfold a_empty. simpl. by rewrite lookup_empty.
  - intros i n _. unfold ent, entry. by rewrite static_tab.
Qed.

Lemma startup_static : startup static_state = Done tt static_state [].
Proof. by vm_compute. Qed.

(** ** Properties *)

(** C4. Refinement: every sequence of operations with in-range arguments, run from
    the start of [main], returns call by call what the abstract memory returns,
    and ends in a well-formed state that represents the abstract memory. *)
Theorem paging1_refinement (l : list op) :
  Forall op_ok l →
  wp (_ ← startup; run_ops l) static_state (λ rs s',
    rs = (arun_ops l a_empty).1 ∧ refines s' (arun_ops l a_empty).2).
Proof.
  intros Hl. apply wp_bind. eapply Done_wp; [apply startup_static|]. simpl.
  eapply wp_mono; [by apply run_ops_refines; [apply static_refines|]|]. simpl.
  intros rs s' (a' & -> & Hr). done.
Qed.

Definition sample_ops : list op :=
  [OMap 0 1 1; OStore 0 1 25; OMap 1 23 1; OStore 1 23 7; OLoad 0 1; OLoad 1 23; OMap 2 1 1].

Lemma paging1_refinement_witness :
  wp (_ ← startup; run_ops sample_ops) static_state (λ rs s',
    rs = (arun_ops sample_ops a_empty).1 ∧ refines s' (arun_ops sample_ops a_empty).2).
Proof. apply (paging1_refinement sample_ops). apply (bool_decide_unpack _). by vm_compute. Defined.

(** Invariant: an operation with in-range arguments keeps the state well formed
    (memory of 64 bytes, frames of tables and pages in range and pairwise distinct,
    frames nobody holds still zero). *)
Theorem paging1_wf_preserved (s : state) (o : op) :
  wf s → op_ok o → wp (exec o) s (λ _ s', wf s').
Proof.
  intros Hwf Ho. eapply wp_mono; [by apply exec_refines; [apply abs_refines|]|]. simpl.
  intros r s' (a' & _ & Hr). apply Hr.
Qed.

Lemma paging1_wf_preserved_witness : wp (exec (OMap 3 63 1)) static_state (λ _ s', wf s').
Proof.
  apply (paging1_wf_preserved static_state (OMap 3 63 1)); [apply static_wf|].
  apply (bool_decide_unpack _). by vm_compute.
Defined.

(** Store, then load: after a successful [store] the address reads back the
    value, and every other address of every process reads what it read before; a
    failed [store] changes nothing. *)
Theorem paging1_store_load (s : state) (pid address value : Z) :
  wf s → 0 ≤ pid < MAX_PROCESSES → 0 ≤ address < VIRT_ADD_SPACE → is_byte value →
  wp (store pid address value) s (λ r s',
    (r = 0 ∧ s' = s) ∨
    (r = 1 ∧ wp (load pid address) s' (λ v _, v = (1, Some value)) ∧
      ∀ pid' address', 0 ≤ pid' < MAX_PROCESSES → 0 ≤ address' < VIRT_ADD_SPACE →
        (pid', address') ≠ (pid, address) →
        ∃ v, wp (load pid' address') s (λ v' _, v' = v) ∧
             wp (load pid' address') s' (λ v' _, v' = v))).
Proof.
  intros Hwf Hpid Haddr Hv. pose proof (abs_refines s Hwf) as Hr.
  generalize dependent (abs s). intros a Hr. eapply wp_mono; [by apply store_refines|]. simpl. intros r s' (Hsame & a' & Ha & Hr').
  unfold a_store in Ha.
  destruct (a_pages a !! (pid, address `quot` PAGE_SIZE)) as [pg|] eqn:Hpg.
  2:{ injection Ha as <- _. left. auto. }
  destruct (ap_write pg =? 0); [injection Ha as <- _; left; auto|].
  injection Ha as <- <-. right. split; [done|].
  destruct (ref_some s _ Hr _ _ _ Hpg) as (_ & _ & _ & _ & Hlen & _).
  destruct (p1_page_of_address address Haddr) as [_ Hoff]. split.
  - eapply wp_mono; [by apply (load_refines s' _ pid address Hr')|]. simpl. intros v _ [-> _].
    unfold a_load. simpl. rewrite lookup_insert_eq. simpl. f_equal. unfold zget.
    consts. rewrite decide_True by lia. apply list_lookup_insert_eq. lia.
  - intros pid' address' Hpid' Haddr' Hne. exists (a_load pid' address' a).
    destruct (p1_page_of_address address' Haddr') as [_ Hoff'].
    split; (eapply wp_mono; [by apply load_refines|]); simpl; intros v s1 [-> _]; [done|].
    unfold a_load. simpl. rewrite lookup_insert. case_decide as Hd; [|done].
    injection Hd as <- Hq. rewrite <-Hq, Hpg. simpl. f_equal. unfold zget.
    rewrite !decide_True by lia. apply list_lookup_insert_ne.
    intros E. apply Hne. f_equal.
    rewrite (Z.quot_rem' address PAGE_SIZE), (Z.quot_rem' address' PAGE_SIZE). lia.
Qed.

(** A concrete state: two processes with one writable page each. *)
Definition two_pages : state :=
  Eval vm_compute in
    match run_ops [OMap 0 1 1; OMap 1 17 1] static_state with
    | Done _ s _ => s | _ => static_state
    end.

Lemma two_pages_wf : wf two_pages.
Proof.
  assert (wp (run_ops [OMap 0 1 1; OMap 1 17 1]) static_state (λ _ s, wf s)) as H.
  { eapply wp_mono; [apply run_ops_refines; [apply static_refines|]|].
    - apply (bool_decide_unpack _). by vm_compute.
    - intros rs s' (a' & _ & Hr). apply Hr. }
  eapply (wp_det _ _ _ _ two_pages _ H). vm_compute. reflexivity.
Qed.

Lemma paging1_store_load_witness :
  wp (store 1 20 200) two_pages (λ r s',
    (r = 0 ∧ s' = two_pages) ∨
    (r = 1 ∧ wp (load 1 20) s' (λ v _, v = (1, Some 200)) ∧
      ∀ pid' address', 0 ≤ pid' < MAX_PROCESSES → 0 ≤ address' < VIRT_ADD_SPACE →
        (pid', address') ≠ (1, 20) →
        ∃ v, wp (load pid' address') two_pages (λ v' _, v' = v) ∧
             wp (load pid' address') s' (λ v' _, v' = v))).
Proof. apply (paging1_store_load two_pages 1 20 200); [apply two_pages_wf|done|done|done]. Defined.

(** Allocation: [find_free_frame] answers with the least frame that no page
    table and no mapped page holds, and with -1 exactly when all four are held. *)
Theorem paging1_find_free_frame (s : state) :
  wf s → ∃ f, find_free_frame s = Some f ∧
    (0 ≤ f < PAGE_FRAMES ∧ ¬ owned s f ∧ (∀ f', 0 ≤ f' < f → owned s f') ∨
     f = -1 ∧ ∀ f', 0 ≤ f' < PAGE_FRAMES → owned s f').
Proof. apply p1_find_free_frame_spec. Qed.

Lemma paging1_find_free_frame_witness :
  ∃ f, find_free_frame two_pages = Some f ∧
    (0 ≤ f < PAGE_FRAMES ∧ ¬ owned two_pages f ∧ (∀ f', 0 ≤ f' < f → owned two_pages f') ∨
     f = -1 ∧ ∀ f', 0 ≤ f' < PAGE_FRAMES → owned two_pages f').
Proof. apply (paging1_find_free_frame two_pages), two_pages_wf. Defined.

(** Error path: a process number outside the table is not rejected ([main]
    prints a message and goes on), and every operation then reads [procTable] out of
    bounds. *)
Theorem paging1_bad_pid_undefined (s : state) (o : op) :
  wf s → ¬ (0 ≤ op_pid o < MAX_PROCESSES) → exec o s = Undef.
Proof.
  intros Hwf Hpid. assert (proc_valid (op_pid o) s = None) as H.
  { unfold proc_valid. rewrite (proj2 (zget_None _ _)); [done|]. by rewrite (wf_proc_len s Hwf). }
  destruct o; simpl in *; unfold map_page, store, load, mbind, M_bind, reads; by rewrite H.
Qed.

Lemma paging1_bad_pid_undefined_witness : exec (OLoad 9 1) static_state = Undef.
Proof. apply (paging1_bad_pid_undefined static_state (OLoad 9 1)); [apply static_wf|by intros []]. Defined.

(** ** The command line *)

Definition op_name (o : op) : string :=
  match o with OMap _ _ _ => "map" | OStore _ _ _ => "store" | OLoad _ _ => "load" end.
Definition op_value (o : op) : Z :=
  match o with OMap _ _ w => w | OStore _ _ v => v | OLoad _ _ => 0 end.

Definition print_op (o : op) : string := command_line (op_pid o) (op_name o) (op_address o) (op_value o).

Definition op_ints (o : op) : Prop := is_int (op_pid o) ∧ is_int (op_address o) ∧ is_int (op_value o).

Lemma op_ok_small o : op_ok o → 0 ≤ op_pid o < 256 ∧ 0 ≤ op_address o < 256 ∧ 0 ≤ op_value o < 256.
Proof. intros (? & ? & ?). consts. destruct o; simpl in *; unfold is_byte in *; lia. Qed.

Lemma op_ok_ints o : op_ok o → op_ints o.
Proof. intros ?%op_ok_small. unfold op_ints, is_int, INT_MIN, INT_MAX. lia. Qed.

Lemma op_name_ok o : op_name o ≠ EmptyString ∧ ¬ has_char ","%char (op_name o) ∧ ¬ has_char newline (op_name o) ∧
  (String.length (op_name o) ≤ 5)%nat.
Proof. destruct o; simpl; split_and!; try done; try lia; clear; intuition discriminate. Qed.

(** The fields of a command are read back. *)
Lemma command_dispatch (o : op) (s : state) : op_ints o →
  command (print_op o +:+ String newline EmptyString) s =
  dispatch (op_pid o) (op_address o) (op_value o) (Some (op_name o)) s.
Proof.
  intros (Hp & Ha & Hv). destruct (op_name_ok o) as (Hne & Hnc & _).
  destruct (command_line_fields (op_pid o) (op_name o) (op_address o) (op_value o) Hne Hnc)
    as (s1 & s2 & s3 & E1 & E2 & E3 & E4). unfold command, print_op. rewrite E1, E2, E3, E4. unfold number_or_zero, prog.
  rewrite (reads_bind _ _ _ (op_pid o)) by (by apply atoi_int_whole).
  rewrite (reads_bind _ _ _ (op_address o)) by (by apply atoi_int_whole).
  by rewrite (reads_bind _ _ _ (op_value o)) by (by apply atoi_int).
Qed.

Lemma command_print (o : op) (s : state) : op_ok o →
  command (print_op o +:+ String newline EmptyString) s = (_ ← exec o; mret tt) s.
Proof.
  intros Hok. rewrite command_dispatch by (by apply op_ok_ints). destruct Hok as (Hpid & Haddr & Hval).
  unfold dispatch. rewrite (proj2 (Z.leb_gt _ _)), (proj2 (Z.ltb_ge (op_address o) 0)) by lia. simpl.
  rewrite (proj2 (Z.leb_gt _ _)), (proj2 (Z.ltb_ge (op_pid o) 0)) by lia. simpl.
  rewrite ret_bind. destruct o as [pid address w|pid address v|pid address]; simpl in *.
  - rewrite (proj2 (Z.ltb_ge _ _)), (proj2 (Z.ltb_ge w 0)) by lia. simpl.
    unfold mbind, M_bind, mret, M_ret. destruct (map_page pid address w s); try done.
    by rewrite !app_nil_r.
  - unfold to_uchar. rewrite Z.mod_small by (unfold is_byte in Hval; lia).
    unfold mbind, M_bind, mret, M_ret. destruct (store pid address v s); try done.
    by rewrite !app_nil_r.
  - done.
Qed.

(** C26. Round trip: the line printed for an operation with numbers in the range of an
    [int] is parsed back by the loop body of [main] (four [strtok] calls, [atoi]).  If
    process, address and value are in the range that [main] checks, exactly that
    operation is run; if the address is not, an error is printed and nothing is run. *)
Theorem paging1_command_roundtrip (o : op) (s : state) :
  op_ints o →
  (op_ok o → command (print_op o +:+ String newline EmptyString) s = (_ ← exec o; mret tt) s) ∧
  (¬ (0 ≤ op_address o < VIRT_ADD_SPACE) →
     command (print_op o +:+ String newline EmptyString) s = Done tt s [AddressOutOfBounds]).
Proof.
  intros Hi. split; [by apply command_print|]. intros Ha. rewrite command_dispatch by done. unfold dispatch.
  destruct (Z.leb_spec VIRT_ADD_SPACE (op_address o)), (Z.ltb_spec (op_address o) 0); try done. lia.
Qed.

Lemma paging1_command_roundtrip_witness :
  command ("1,store,23,43" +:+ String newline EmptyString) two_pages =
    (_ ← exec (OStore 1 23 43); mret tt) two_pages ∧
  command ("1,load,64,0" +:+ String newline EmptyString) two_pages = Done tt two_pages [AddressOutOfBounds].
Proof.
  split.
  - apply (paging1_command_roundtrip (OStore 1 23 43) two_pages);
      [by vm_compute|apply (bool_decide_unpack _); by vm_compute].
  - apply (paging1_command_roundtrip (OLoad 1 64) two_pages); [by vm_compute|by intros []].
Defined.

(** ** The whole session *)

Lemma map_page_terminates pid address w : terminates (map_page pid address w).
Proof. unfold map_page, map_page_in_table, init_table. solve_terminates. Qed.
Lemma store_terminates pid address v : terminates (store pid address v).
Proof. unfold store. solve_terminates. Qed.
Lemma load_terminates pid address : terminates (load pid address).
Proof. unfold load. solve_terminates. Qed.
#[local] Hint Resolve map_page_terminates store_terminates load_terminates : c_term.

Lemma command_terminates buf : terminates (command buf).
Proof. unfold command, dispatch. solve_terminates. Qed.

(** The lines of a list of operations. *)
Definition script (l : list op) : string := foldr (λ o r, print_op o +:+ String newline r) EmptyString l.

(** The operations with the prompts between them. *)
Fixpoint prompted (l : list op) : prog string :=
  match l with [] => mret EmptyString | o :: l' => _ ← emit Prompt; _ ← exec o; prompted l' end.

Lemma script_read o l : op_ok o →
  fgets 120 (script (o :: l)) = Some (mkFgets (print_op o +:+ String newline EmptyString) (script l) false).
Proof.
  intros Ho. destruct (op_ok_small o Ho) as (? & ? & ?). destruct (op_name_ok o) as (_ & _ & Hn & Hlen).
  by apply command_line_read.
Qed.

Lemma loop_script l s : Forall op_ok l → loop (length l) (script l) s = prompted l s.
Proof.
  intros Hl. revert s. induction Hl as [|o l Ho Hl IH]; intros s; [done|]. cbn [length loop prompted].
  unfold iteration. rewrite script_read by done. cbn [fg_line fg_rest].
  pose proof (command_print o s Ho) as Hc. unfold mbind, M_bind in *. cbn [emit] in *. unfold emit. rewrite Hc.
  destruct (exec o s) as [r s1 o1| |]; try done. cbn [mret M_ret]. unfold mret, M_ret. rewrite (IH s1).
  destruct (prompted l s1); try done. by rewrite !app_nil_r, <-?app_assoc.
Qed.

(** A session of in-range commands: the loop of [main] runs exactly the operations, each
    after a prompt, and reads everything; the iteration after the last line is undefined,
    because the result of [fgets] is not checked.  No iteration on any input, whatever
    it is, runs for ever. *)
Theorem paging1_session (l : list op) (n : nat) (stdin : string) (s : state) :
  (Forall op_ok l →
   session (length l) (script l) static_state = prompted l static_state) ∧
  (fgets 120 stdin = None → iteration stdin s = Undef) ∧
  session n stdin s ≠ NoFuel.
Proof.
  split_and!.
  - intros Hl. unfold session. rewrite (bind_silent _ _ _ _ _ startup_static). by apply loop_script.
  - intros E. unfold iteration. rewrite E. done.
  - assert (∀ n stdin, terminates (loop n stdin)) as H.
    { clear. induction n as [|n IH]; intros stdin; [apply terminates_ret|]. cbn [loop].
      apply terminates_bind; [|done]. unfold iteration. apply terminates_bind; [apply terminates_emit|]. intros _.
      destruct (fgets 120 stdin) as [f|]; [|done]. apply terminates_bind; [apply command_terminates|]. intros _.
      apply terminates_ret. }
    apply terminates_bind; [unfold startup; solve_terminates|]. intros _. apply H.
Qed.

(** The transcript of the run recorded beside the code ([tcases], [tout]). *)
Definition tcases : string := foldr (λ l r, l +:+ String newline r) "2,map,1,1"
  ["0,map,1,1"; "0,store,1,25"; "0,store,2,43"; "0,map,1,0"; "0,store,1,1"; "0,load,1,0";
   "0,load,2,0"; "1,map,23,1"; "1,map,32,1"; "2,store,1,1"; "3,load,1,1"].

(** The recorded session: the command loop, run on the recorded commands, prints
    the recorded lines (the terminal's echo of the commands apart). *)
Theorem paging1_transcript : output_of (session 12 tcases static_state) = Some
  ["cmd: "; "Put page table for PID 0 in physical frame 0";
   "Mapped virtual address 1 (page 0) to physical frame 1";
   "cmd: "; "Stored value 25 at virtual address 1 (physical address 17)";
   "cmd: "; "Stored value 43 at virtual address 2 (physical address 18)";
   "cmd: "; "Updating write permissions on page 0";
   "cmd: "; "Writing is forbidden at virtual address 1 for PID 0";
   "cmd: "; "Read value 25 at virtual address 1 (physical address 17)";
   "cmd: "; "Read value 43 at virtual address 2 (physical address 18)";
   "cmd: "; "Put page table for PID 1 in physical frame 2";
   "Mapped virtual address 23 (page 1) to physical frame 3";
   "cmd: "; "Unable to find a free physical frame for new page";
   "cmd: "; "PID 2 has no pages associated with it";
   "cmd: "; "PID 3 has no pages associated with it";
   "cmd: "; "Unable to find a free physical frame for PID 2 page table";
   "Unable to find page table for PID 2"]%string.
Proof. by vm_compute. Qed.
