(* ===== verification/Paging2.v ===== *)
(** * Virtual memory, part 2 (Project4/Part2): page tables with swapping

    The model of [pageTable.c] of the second part: when no physical frame is free,
    a round-robin victim is moved to a backing store of 64 slots and loaded again
    on demand; the page tables themselves live in frames and are swapped too.
    Recursive calls carry fuel; [FUEL] is enough for every call
    ([Paging2Props]). *)

From S2P Require Import Prelude.

(** ** Constants (pageTable.h) *)

Definition MAX_PROCESSES : Z := 4.
Definition PHYS_MEM_SIZE : Z := 64.
Definition VIRT_ADD_SPACE : Z := 64.
Definition STORE_FRAMES : Z := 64.
Definition PAGE_SIZE : Z := 16.
Definition PAGE_FRAMES : Z := PHYS_MEM_SIZE / PAGE_SIZE.

(** ** [page_t]: one byte, [valid:1], [write:1], [frame:4], [procc:2] *)

Definition page_valid (p : Z) : Z := bf_get 0 1 p.
Definition page_write (p : Z) : Z := bf_get 1 1 p.
Definition page_frame (p : Z) : Z := bf_get 2 4 p.
Definition page_procc (p : Z) : Z := bf_get 6 2 p.
Definition set_valid (p v : Z) : Z := bf_set 0 1 p v.
Definition set_write (p v : Z) : Z := bf_set 1 1 p v.
Definition set_frame (p v : Z) : Z := bf_set 2 4 p v.
Definition set_procc (p v : Z) : Z := bf_set 6 2 p v.

(** [storedFrame_t] *)
Record storedFrame : Type := mkStored {
  sf_data : list Z;
  sf_pid : Z;
  sf_page : Z;
  sf_write : Z;
}.

(** ** Global state: the arrays of [mem.c] and the static [robin] of [free_frame] *)

Record state : Type := mkState {
  mainMemory : list Z;
  procTable : list Z;
  backingStore : list storedFrame;
  robin : Z;
}.

(** A [page_t*]: [NULL], [&procTable[i]] or [(page_t* )&mainMemory[a]]. *)
Inductive ptr : Type :=
  | PNull
  | PProc (i : Z)
  | PMem (a : Z).

#[global] Instance ptr_eq_dec : EqDecision ptr.
Proof. solve_decision. Defined.

Inductive msg : Type :=
  | Skipped (frame : Z)
  | Unloading (pid : Z)
  | Moved (frame slot : Z)
  | LoadedTable (pid frame : Z)
  | LoadedPage (page pid frame : Z)
  | TablePut (pid frame : Z)
  | TableNoFrame (pid : Z)
  | WriteUpdated (page : Z)
  | NoFrame
  | Mapped (address page frame : Z)
  | NoPages (pid : Z)
  | NotMapped (address pid : Z)
  | WriteForbidden (address pid : Z)
  | Stored (value address phys : Z)
  | ReadValue (value address phys : Z)
  | AddressOutOfBounds
  | PidOutOfBounds
  | BadWriteFlag
  | BadInstruction
  | Prompt.

Definition render (m : msg) : string :=
  match m with
  | Skipped f => "Skipped moving physical frame " +:+ pretty f +:+ " to the backing store"
  | Unloading pid => "Unloading contents of page table for PID " +:+ pretty pid
  | Moved f slot => "Moved physical frame " +:+ pretty f +:+ " to backing store slot " +:+ pretty slot
  | LoadedTable pid f =>
      "Loaded page table for PID " +:+ pretty pid +:+
      " from the backing store into physical frame " +:+ pretty f
  | LoadedPage n pid f =>
      "Loaded page " +:+ pretty n +:+ " for PID " +:+ pretty pid +:+
      " from the backing store into physical frame " +:+ pretty f
  | TablePut pid f => "Put page table for PID " +:+ pretty pid +:+ " in physical frame " +:+ pretty f
  | TableNoFrame pid => "Unable to find a free physical frame for PID " +:+ pretty pid +:+ " page table"
  | WriteUpdated n => "Updating write permissions on page " +:+ pretty n
  | NoFrame => "Unable to find a free physical frame for new page"
  | Mapped a n f =>
      "Mapped virtual address " +:+ pretty a +:+ " (page " +:+ pretty n +:+
      ") to physical frame " +:+ pretty f
  | NoPages pid => "PID " +:+ pretty pid +:+ " has no pages associated with it"
  | NotMapped a pid => "Virtual address " +:+ pretty a +:+ " has no frame mapped for PID " +:+ pretty pid
  | WriteForbidden a pid =>
      "Writing is forbidden at virtual address " +:+ pretty a +:+ " for PID " +:+ pretty pid
  | Stored v a ph =>
      "Stored value " +:+ pretty v +:+ " at virtual address " +:+ pretty a +:+
      " (physical address " +:+ pretty ph +:+ ")"
  | ReadValue v a ph =>
      "Read value " +:+ pretty v +:+ " at virtual address " +:+ pretty a +:+
      " (physical address " +:+ pretty ph +:+ ")"
  | AddressOutOfBounds => "Address out of bounds"
  | PidOutOfBounds => "PID out of bounds"
  | BadWriteFlag => "Write flag may only be 0 or 1"
  | BadInstruction => "Invalid instruction. Please ensure it is in all lowercase"
  | Prompt => "cmd: "
  end.

Definition prog (A : Type) : Type := M msg state A.

(** ** Reads and writes *)

Definition set_mem (i b : Z) (s : state) : option state :=
  m ← zset (mainMemory s) i b; Some (mkState m (procTable s) (backingStore s) (robin s)).

Definition set_proc (i b : Z) (s : state) : option state :=
  t ← zset (procTable s) i b; Some (mkState (mainMemory s) t (backingStore s) (robin s)).

Definition set_slot (i : Z) (x : storedFrame) (s : state) : option state :=
  b ← zset (backingStore s) i x; Some (mkState (mainMemory s) (procTable s) b (robin s)).

Definition set_robin (r : Z) (s : state) : option state :=
  Some (mkState (mainMemory s) (procTable s) (backingStore s) r).

(** [*page] and [page->field = ...] *)
Definition deref (page : ptr) (s : state) : option Z :=
  match page with
  | PNull => None
  | PProc i => zget (procTable s) i
  | PMem a => zget (mainMemory s) a
  end.

Definition upd_page (page : ptr) (f : Z → Z) (s : state) : option state :=
  b ← deref page s;
  match page with
  | PNull => None
  | PProc i => set_proc i (f b) s
  | PMem a => set_mem a (f b) s
  end.

(** The sixteen bytes of a frame. *)
Definition frame_data (frame : Z) (s : state) : option (list Z) :=
  mapM (λ j, zget (mainMemory s) (frame * PAGE_SIZE + j)) (seqZ 0 PAGE_SIZE).

(** ** [frame_allocated], [get_page_num] *)

Definition entry_names (frame : Z) (s : state) (j : Z) : option (option ptr) :=
  tmp ← zget (mainMemory s) j;
  if truthy (page_valid tmp) && (page_frame tmp =? frame)
  then Some (Some (PMem j)) else Some None.

Definition process_names (frame : Z) (s : state) (i : Z) : option (option ptr) :=
  p ← zget (procTable s) i;
  if truthy (page_valid p) then
    if page_frame p =? frame then Some (Some (PProc i))
    else for_ret (seqZ (page_frame p * PAGE_SIZE) PAGE_SIZE) (entry_names frame s)
  else Some None.

Definition frame_allocated (frame : Z) (s : state) : option ptr :=
  r ← for_ret (seqZ 0 MAX_PROCESSES) (process_names frame s);
  Some (default PNull r).

(** One iteration of [get_page_num]; the scan of the entries starts at 1. *)
Definition page_num_in (page : ptr) (s : state) (i : Z) : option (option Z) :=
  if decide (page = PProc i) then Some (Some (-1))
  else
    p ← zget (procTable s) i;
    if truthy (page_valid p) then
      for_ret (seqZ 1 (PAGE_SIZE - 1)) (λ j,
        if decide (page = PMem (page_frame p * PAGE_SIZE + j)) then Some (Some j) else Some None)
    else Some None.

Definition get_page_num (page : ptr) (s : state) : option Z :=
  r ← for_ret (seqZ 0 MAX_PROCESSES) (page_num_in page s);
  Some (default (-2) r).

(** ** [free_specific_frame], [free_frame], [find_free_frame] *)

(** The first slot of the backing store with a negative [pid], if any. *)
Definition unused_slot (s : state) : option (option Z) :=
  for_ret (seqZ 0 STORE_FRAMES) (λ i,
    x ← zget (backingStore s) i;
    if sf_pid x <? 0 then Some (Some i) else Some None).

Definition free_specific_frame (page : ptr) : prog unit :=
  _ ← modifies (upd_page page (λ p, set_valid p 0));
  p ← reads (deref page);
  let frame := page_frame p in
  slot ← reads unused_slot;
  match slot with
  | Some i =>
      n ← reads (get_page_num page);
      data ← reads (frame_data (page_frame p));
      _ ← modifies (set_slot i (mkStored data (page_procc p) n (page_write p)));
      emit (Moved frame i)
  | None => emit (Moved frame STORE_FRAMES)
  end.

(** [robin++; if (robin >= PAGE_FRAMES) robin = 0;] *)
Definition next_robin (r : Z) : Z := if PAGE_FRAMES <=? r + 1 then 0 else r + 1.

Definition advance_robin : prog unit := modifies (λ s, set_robin (next_robin (robin s)) s).

(** The pages of another process's table are moved out before the table. *)
Definition unload_table (page : ptr) : prog unit :=
  p ← reads (deref page);
  _ ← emit (Unloading (page_procc p));
  for_do (seqZ 0 PAGE_SIZE) (λ i,
    p ← reads (deref page);
    q ← reads (deref (PMem (page_frame p * PAGE_SIZE + i)));
    if truthy (page_valid q)
    then free_specific_frame (PMem (page_frame p * PAGE_SIZE + i))
    else mret tt).

Fixpoint free_frame (fuel : nat) (pid : Z) : prog Z :=
  match fuel with
  | O => out_of_fuel
  | S fuel' =>
      r ← reads (λ s, Some (robin s));
      page ← reads (frame_allocated r);
      if decide (page = PProc pid) then
        _ ← emit (Skipped r);
        _ ← advance_robin;
        free_frame fuel' pid
      else
        _ ← (match page with PProc _ => unload_table page | _ => mret tt end);
        _ ← free_specific_frame page;
        ret ← reads (λ s, Some (robin s));
        _ ← advance_robin;
        mret ret
  end.

Definition FUEL : nat := 6.

Definition find_free_frame (pid : Z) : prog Z :=
  r ← reads (λ s, for_ret (seqZ 0 PAGE_FRAMES) (λ i,
    a ← frame_allocated i s;
    if decide (a = PNull) then Some (Some i) else Some None));
  match r with
  | Some i => mret i
  | None => free_frame FUEL pid
  end.

(** ** [check_backing_store], [init_table], [find_page] *)

Definition stored_slot (pid pageNum : Z) (s : state) : option (option Z) :=
  for_ret (seqZ 0 STORE_FRAMES) (λ i,
    x ← zget (backingStore s) i;
    if (sf_pid x =? pid) && (sf_page x =? pageNum) then Some (Some i) else Some None).

(** Fill in the four fields of a page-table entry. *)
Definition fill_page (page : ptr) (frame procc write : Z) : prog unit :=
  _ ← modifies (upd_page page (λ p, set_frame p frame));
  _ ← modifies (upd_page page (λ p, set_procc p procc));
  _ ← modifies (upd_page page (λ p, set_valid p 1));
  modifies (upd_page page (λ p, set_write p write)).

Fixpoint check_backing_store (fuel : nat) (pid pageNum : Z) : prog Z :=
  match fuel with
  | O => out_of_fuel
  | S fuel' =>
      slot ← reads (stored_slot pid pageNum);
      match slot with
      | None => mret 0
      | Some i =>
          frame ← find_free_frame pid;
          _ ← for_do (seqZ 0 PAGE_SIZE) (λ j,
            b ← reads (λ s, x ← zget (backingStore s) i; zget (sf_data x) j);
            modifies (set_mem (frame * PAGE_SIZE + j) b));
          x ← reads (λ s, zget (backingStore s) i);
          _ ← (if pageNum =? -1 then fill_page (PProc pid) frame pid (sf_write x)
               else
                 tmp ← find_page fuel' pid pageNum;
                 fill_page tmp frame pid (sf_write x));
          _ ← (if pageNum =? -1 then emit (LoadedTable pid frame)
               else emit (LoadedPage pageNum pid frame));
          x ← reads (λ s, zget (backingStore s) i);
          _ ← modifies (set_slot i (mkStored (sf_data x) (-1) (sf_page x) (sf_write x)));
          mret 1
      end
  end

with init_table (fuel : nat) (pid : Z) : prog unit :=
  match fuel with
  | O => out_of_fuel
  | S fuel' =>
      found ← check_backing_store fuel' pid (-1);
      if truthy found then mret tt
      else
        frame ← find_free_frame pid;
        if 0 <=? frame then
          _ ← modifies (upd_page (PProc pid) (λ p, set_valid p 1));
          _ ← modifies (upd_page (PProc pid) (λ p, set_procc p pid));
          _ ← modifies (upd_page (PProc pid) (λ p, set_write p 1));
          _ ← modifies (upd_page (PProc pid) (λ p, set_frame p frame));
          _ ← for_do (seqZ 0 PAGE_SIZE) (λ j,
            _ ← modifies (upd_page (PMem (frame * PAGE_SIZE + j)) (λ p, set_valid p 0));
            modifies (upd_page (PMem (frame * PAGE_SIZE + j)) (λ p, set_procc p pid)));
          emit (TablePut pid frame)
        else emit (TableNoFrame pid)
  end

with find_page (fuel : nat) (pid n : Z) : prog ptr :=
  match fuel with
  | O => out_of_fuel
  | S fuel' =>
      p ← reads (λ s, zget (procTable s) pid);
      _ ← (if negb (truthy (page_valid p)) then init_table fuel' pid else mret tt);
      p ← reads (λ s, zget (procTable s) pid);
      mret (PMem (page_frame p * PAGE_SIZE + n))
  end.

(** ** [map_page], [store], [load] *)

Definition map_page (pid address write : Z) : prog Z :=
  page ← find_page FUEL pid (address `quot` PAGE_SIZE);
  p ← reads (deref page);
  if truthy (page_valid p) then
    _ ← emit (WriteUpdated (address `quot` PAGE_SIZE));
    _ ← modifies (upd_page page (λ p, set_write p write));
    mret 0
  else
    found ← check_backing_store FUEL pid (address `quot` PAGE_SIZE);
    stop ← (if truthy found then mret false
      else
        frame ← find_free_frame pid;
        if frame <? 0 then
          _ ← emit NoFrame;
          mret true
        else
          _ ← modifies (upd_page page (λ p, set_frame p frame));
          _ ← modifies (upd_page page (λ p, set_valid p 1));
          _ ← modifies (upd_page page (λ p, set_write p write));
          _ ← emit (Mapped address (address `quot` PAGE_SIZE) frame);
          mret false);
    if (stop : bool) then mret 0
    else
      p ← reads (deref page);
      _ ← (if page_write p =? write then mret tt
           else
             _ ← emit (WriteUpdated (address `quot` PAGE_SIZE));
             modifies (upd_page page (λ p, set_write p write)));
      mret 1.

(** [!procTable[pid].valid && !check_backing_store(pid, -1)] *)
Definition no_table (pid : Z) : prog bool :=
  p ← reads (λ s, zget (procTable s) pid);
  if truthy (page_valid p) then mret false
  else found ← check_backing_store FUEL pid (-1); mret (negb (truthy found)).

(** [!page->valid && !check_backing_store(pid, n)] *)
Definition not_mapped (page : ptr) (pid n : Z) : prog bool :=
  p ← reads (deref page);
  if truthy (page_valid p) then mret false
  else found ← check_backing_store FUEL pid n; mret (negb (truthy found)).

Definition store (pid address value : Z) : prog Z :=
  nt ← no_table pid;
  if (nt : bool) then
    _ ← emit (NoPages pid);
    mret 0
  else
    page ← find_page FUEL pid (address `quot` PAGE_SIZE);
    let offset := address `rem` PAGE_SIZE in
    nm ← not_mapped page pid (address `quot` PAGE_SIZE);
    if (nm : bool) then
      _ ← emit (NotMapped address pid);
      mret 0
    else
      p ← reads (deref page);
      if negb (truthy (page_write p)) then
        _ ← emit (WriteForbidden address pid);
        mret 0
      else
        _ ← modifies (set_mem (page_frame p * PAGE_SIZE + offset) value);
        q ← reads (deref page);
        _ ← emit (Stored value address (page_frame q * PAGE_SIZE + offset));
        mret 1.

Definition load (pid address : Z) : prog (Z * option Z) :=
  nt ← no_table pid;
  if (nt : bool) then
    _ ← emit (NoPages pid);
    mret (0, None)
  else
    page ← find_page FUEL pid (address `quot` PAGE_SIZE);
    let offset := address `rem` PAGE_SIZE in
    nm ← not_mapped page pid (address `quot` PAGE_SIZE);
    if (nm : bool) then
      _ ← emit (NotMapped address pid);
      mret (0, None)
    else
      p ← reads (deref page);
      out ← reads (λ s, zget (mainMemory s) (page_frame p * PAGE_SIZE + offset));
      _ ← emit (ReadValue out address (page_frame p * PAGE_SIZE + offset));
      mret (1, Some out).
