(* ===== verification/Paging2Inv.v ===== *)
(** * Project4/Part2: the invariant of the swapping memory

    [inv] says what holds of every reachable state: frames held by resident tables
    and pages are in range and distinct, entries carry their process number, a
    page is never resident and stored at once, and no two stored frames have the
    same key.  [clean] says that no process uses page 0, whose stored copies lose
    their key ([get_page_num] starts at entry 1), and that every stored page has a
    table somewhere.  [view] is what a process sees of its memory, wherever the
    bytes are. *)

From S2P Require Import Prelude Paging2.

(** ** Observations *)

Inductive owner : Type :=
  | Tab (pid : Z)
  | Ent (pid n : Z).

#[global] Instance owner_eq_dec : EqDecision owner.
Proof. solve_decision. Defined.

Definition mb (s : state) (a : Z) : option Z := zget (mainMemory s) a.
Definition slot (s : state) (k : Z) : option storedFrame := zget (backingStore s) k.

Definition tab (s : state) (pid : Z) : option Z :=
  p ← zget (procTable s) pid;
  if truthy (page_valid p) then Some (page_frame p) else None.

Definition entry (s : state) (pid n : Z) : option Z :=
  ft ← tab s pid;
  if decide (0 ≤ n < PAGE_SIZE) then mb s (ft * PAGE_SIZE + n) else None.

Definition ent (s : state) (pid n : Z) : option Z :=
  b ← entry s pid n;
  if truthy (page_valid b) then Some (page_frame b) else None.

Definition frame_of (s : state) (o : owner) : option Z :=
  match o with Tab pid => tab s pid | Ent pid n => ent s pid n end.

Definition owned (s : state) (f : Z) : Prop := ∃ o, frame_of s o = Some f.

(** Slot [k] holds page [n] of [pid] ([-1]: its page table). *)
Definition holds (s : state) (k pid n : Z) (x : storedFrame) : Prop :=
  slot s k = Some x ∧ sf_pid x = pid ∧ sf_page x = n ∧ 0 ≤ pid.

Definition has_table (s : state) (pid : Z) : Prop :=
  is_Some (tab s pid) ∨ ∃ k x, holds s k pid (-1) x.

(** What [pid] sees at page [n]: the permission and the bytes. *)
Definition view (s : state) (pid n w : Z) (d : list Z) : Prop :=
  (∃ b, entry s pid n = Some b ∧ truthy (page_valid b) = true ∧ page_write b = w ∧
    frame_data (page_frame b) s = Some d) ∨
  (∃ k x, holds s k pid n x ∧ sf_write x = w ∧ sf_data x = d).

(** A stored page-table entry: not valid, and of process [pid]. *)
Definition dead_entry (pid b : Z) : Prop := page_valid b = 0 ∧ page_procc b = pid.

Record slot_ok (x : storedFrame) : Prop := {
  so_len : length (sf_data x) = 16%nat;
  so_bytes : Forall is_byte (sf_data x);
  so_pid : sf_pid x < MAX_PROCESSES;
  so_write : 0 ≤ sf_write x < 2;
  so_page : 0 ≤ sf_pid x → sf_page x = -2 ∨ sf_page x = -1 ∨ 1 ≤ sf_page x ≤ 3;
}.

Record inv (s : state) : Prop := mkInv {
  i_mem : zlen (mainMemory s) = PHYS_MEM_SIZE;
  i_proc : zlen (procTable s) = MAX_PROCESSES;
  i_store : zlen (backingStore s) = STORE_FRAMES;
  i_mem_bytes : Forall is_byte (mainMemory s);
  i_proc_bytes : Forall is_byte (procTable s);
  i_robin : 0 ≤ robin s < PAGE_FRAMES;
  i_range : ∀ o f, frame_of s o = Some f → 0 ≤ f < PAGE_FRAMES;
  i_inj : ∀ o o' f, frame_of s o = Some f → frame_of s o' = Some f → o = o';
  i_tab_procc : ∀ i p, zget (procTable s) i = Some p → truthy (page_valid p) = true →
    page_procc p = i;
  i_ent_procc : ∀ i n b, entry s i n = Some b → page_procc b = i;
  i_ent_page : ∀ i n f, ent s i n = Some f → n ≤ 3;
  i_slot : ∀ k x, slot s k = Some x → slot_ok x;
  i_unique : ∀ k k' i n x x', holds s k i n x → holds s k' i n x' → n ≠ -2 → k = k';
  i_stored_table : ∀ k i x, holds s k i (-1) x →
    tab s i = None ∧ Forall (dead_entry i) (sf_data x);
  i_stored_page : ∀ k i n x, holds s k i n x → 1 ≤ n → ent s i n = None;
}.

Record clean (s : state) : Prop := mkClean {
  c_page0 : ∀ i, ent s i 0 = None;
  c_keys : ∀ k i n x, holds s k i n x → n ≠ -2;
  c_table : ∀ k i n x, holds s k i n x → has_table s i;
}.

(** ** Arithmetic and fields *)

Lemma frames_eq : PAGE_FRAMES = 4.
Proof. done. Qed.

Ltac consts := unfold PHYS_MEM_SIZE, MAX_PROCESSES, PAGE_SIZE, VIRT_ADD_SPACE, STORE_FRAMES in *;
  rewrite ?frames_eq in *.

Lemma addr_split f j f' j' :
  0 ≤ j < PAGE_SIZE → 0 ≤ j' < PAGE_SIZE →
  f * PAGE_SIZE + j = f' * PAGE_SIZE + j' → f = f' ∧ j = j'.
Proof. consts. lia. Qed.

Lemma page_of_address a : 0 ≤ a < VIRT_ADD_SPACE →
  0 ≤ a `quot` PAGE_SIZE ≤ 3 ∧ 0 ≤ a `rem` PAGE_SIZE < PAGE_SIZE.
Proof.
  consts. intros. rewrite Z.quot_div_nonneg, Z.rem_mod_nonneg by lia.
  pose proof (Z.mod_pos_bound a 16). pose proof (Z.div_mod a 16). lia.
Qed.

Section fields.
Implicit Types p v : Z.
Lemma valid_set_valid p v : page_valid (set_valid p v) = v mod 2.
Proof. by apply bf_get_set_eq. Qed.
Lemma valid_set_write p v : page_valid (set_write p v) = page_valid p.
Proof. apply bf_get_set_ne; lia. Qed.
Lemma valid_set_frame p v : page_valid (set_frame p v) = page_valid p.
Proof. apply bf_get_set_ne; lia. Qed.
Lemma valid_set_procc p v : page_valid (set_procc p v) = page_valid p.
Proof. apply bf_get_set_ne; lia. Qed.
Lemma frame_set_valid p v : page_frame (set_valid p v) = page_frame p.
Proof. apply bf_get_set_ne; lia. Qed.
Lemma frame_set_write p v : page_frame (set_write p v) = page_frame p.
Proof. apply bf_get_set_ne; lia. Qed.
Lemma frame_set_procc p v : page_frame (set_procc p v) = page_frame p.
Proof. apply bf_get_set_ne; lia. Qed.
Lemma frame_set_frame p v : page_frame (set_frame p v) = v mod 16.
Proof. by apply bf_get_set_eq. Qed.
Lemma write_set_write p v : page_write (set_write p v) = v mod 2.
Proof. by apply bf_get_set_eq. Qed.
Lemma write_set_valid p v : page_write (set_valid p v) = page_write p.
Proof. apply bf_get_set_ne; lia. Qed.
Lemma procc_set_procc p v : page_procc (set_procc p v) = v mod 4.
Proof. by apply bf_get_set_eq. Qed.
Lemma procc_set_valid p v : page_procc (set_valid p v) = page_procc p.
Proof. apply bf_get_set_ne; lia. Qed.
Lemma procc_set_write p v : page_procc (set_write p v) = page_procc p.
Proof. apply bf_get_set_ne; lia. Qed.
Lemma procc_set_frame p v : page_procc (set_frame p v) = page_procc p.
Proof. apply bf_get_set_ne; lia. Qed.

Lemma set_valid_byte p v : is_byte p → is_byte (set_valid p v).
Proof. apply bf_set_byte; lia. Qed.
Lemma set_write_byte p v : is_byte p → is_byte (set_write p v).
Proof. apply bf_set_byte; lia. Qed.
Lemma set_frame_byte p v : is_byte p → is_byte (set_frame p v).
Proof. apply bf_set_byte; lia. Qed.
Lemma set_procc_byte p v : is_byte p → is_byte (set_procc p v).
Proof. apply bf_set_byte; lia. Qed.

Lemma page_write_range p : 0 ≤ page_write p < 2.
Proof. by apply (bf_get_range 1 1 p). Qed.
End fields.

Create Rewrite HintDb page2.
#[export] Hint Rewrite valid_set_valid valid_set_write valid_set_frame valid_set_procc
  frame_set_valid frame_set_write frame_set_procc frame_set_frame write_set_write
  write_set_valid procc_set_procc procc_set_valid procc_set_write procc_set_frame : page2.
#[export] Hint Resolve set_valid_byte set_write_byte set_frame_byte set_procc_byte
  page_write_range : c_bits.

(** ** Reading *)

Section reading.
Context (s : state).
Hypothesis Hinv : inv s.

Lemma tab_bound pid f : tab s pid = Some f → 0 ≤ pid < MAX_PROCESSES.
Proof using Hinv.
  intros H. unfold tab in H. apply bind_Some in H as (p & H & _).
  apply zget_Some_bound in H. by rewrite (i_proc s Hinv) in H.
Qed.

Lemma proc_in_range pid : 0 ≤ pid < MAX_PROCESSES → ∃ p, zget (procTable s) pid = Some p ∧
  is_byte p.
Proof using Hinv.
  intros H. destruct (zget_is_Some (procTable s) pid) as [p Hp]; [by rewrite (i_proc s Hinv)|].
  exists p. split; [done|]. exact (Forall_zget _ _ _ _ (i_proc_bytes s Hinv) Hp).
Qed.

Lemma mem_in_range f j : 0 ≤ f < PAGE_FRAMES → 0 ≤ j < PAGE_SIZE →
  ∃ b, mb s (f * PAGE_SIZE + j) = Some b ∧ is_byte b.
Proof using Hinv.
  intros ??. destruct (zget_is_Some (mainMemory s) (f * PAGE_SIZE + j)) as [b Hb].
  { rewrite (i_mem s Hinv). consts. lia. }
  exists b. split; [done|]. exact (Forall_zget _ _ _ _ (i_mem_bytes s Hinv) Hb).
Qed.

Lemma entry_in_range pid ft n : tab s pid = Some ft → 0 ≤ n < PAGE_SIZE →
  ∃ b, entry s pid n = Some b ∧ mb s (ft * PAGE_SIZE + n) = Some b ∧ is_byte b.
Proof using Hinv.
  intros Ht Hn. pose proof (i_range s Hinv (Tab pid) ft Ht) as Hr.
  destruct (mem_in_range ft n Hr Hn) as (b & Hb & Hby). exists b. unfold entry.
  rewrite Ht. simpl. by rewrite decide_True.
Qed.

Lemma tab_not_ent i j n f : tab s i = Some f → ent s j n = Some f → False.
Proof using Hinv. intros H1 H2. by pose proof (i_inj s Hinv (Tab i) (Ent j n) f H1 H2). Qed.

Lemma ent_range pid n f : ent s pid n = Some f → 0 ≤ f < PAGE_FRAMES.
Proof using Hinv. apply (i_range s Hinv (Ent pid n)). Qed.
End reading.

Lemma tab_intro s i p : zget (procTable s) i = Some p →
  tab s i = if truthy (page_valid p) then Some (page_frame p) else None.
Proof. unfold tab. by intros ->. Qed.

Lemma entry_Some s pid n b :
  entry s pid n = Some b ↔
  ∃ ft, tab s pid = Some ft ∧ 0 ≤ n < PAGE_SIZE ∧ mb s (ft * PAGE_SIZE + n) = Some b.
Proof.
  unfold entry. split.
  - intros (ft & Ht & Hb)%bind_Some. case_decide; [|done]. by exists ft.
  - intros (ft & -> & Hn & Hb). simpl. by rewrite decide_True.
Qed.

Lemma ent_Some s pid n f :
  ent s pid n = Some f ↔
  ∃ b, entry s pid n = Some b ∧ truthy (page_valid b) = true ∧ page_frame b = f.
Proof.
  unfold ent. split.
  - intros (b & Hb & Hf)%bind_Some. exists b.
    destruct (truthy (page_valid b)) eqn:E; [|done]. by injection Hf as <-.
  - intros (b & -> & Hv & <-). simpl. by rewrite Hv.
Qed.

Lemma ent_None s pid n b :
  entry s pid n = Some b → truthy (page_valid b) = false → ent s pid n = None.
Proof. intros Hb Hv. unfold ent. rewrite Hb. simpl. by rewrite Hv. Qed.

Lemma ent_page_bound s pid n f : ent s pid n = Some f → 0 ≤ n < PAGE_SIZE.
Proof. intros (b & (ft & _ & Hn & _)%entry_Some & _)%ent_Some. done. Qed.

(** The bytes of a frame, one by one. *)
Lemma frame_data_Some s f d :
  frame_data f s = Some d ↔
  length d = 16%nat ∧ ∀ k, 0 ≤ k < PAGE_SIZE → zget d k = mb s (f * PAGE_SIZE + k) ∧ is_Some (zget d k).
Proof.
  unfold frame_data. rewrite mapM_Some, Forall2_lookup.
  split.
  - intros H. assert (length d = 16%nat) as Hlen.
    { change 16%nat with (length (seqZ 0 PAGE_SIZE)). symmetry. by eapply Forall2_length, Forall2_lookup. }
    split; [done|]. intros k Hk. specialize (H (Z.to_nat k)).
    rewrite lookup_seqZ_lt in H by lia. unfold zget. rewrite decide_True by lia.
    destruct (d !! Z.to_nat k) as [b|] eqn:E.
    + split; [|by eauto]. inversion_clear H as [? ? Hb|]. unfold mb. rewrite <-Hb. f_equal. lia.
    + apply lookup_ge_None in E. consts. lia.
  - intros [Hlen H] i. destruct (decide (i < 16)%nat).
    + rewrite lookup_seqZ_lt by (consts; lia).
      destruct (H (Z.of_nat i)) as [H1 [b Hb]]; [consts; lia|]. unfold zget in Hb, H1.
      rewrite decide_True in Hb by lia. rewrite Nat2Z.id in Hb. rewrite Hb. constructor.
      rewrite decide_True in H1 by lia. rewrite Nat2Z.id, Hb in H1. unfold mb in H1.
      rewrite H1. done.
    + rewrite lookup_seqZ_ge by (consts; lia). rewrite lookup_ge_None_2 by lia. constructor.
Qed.

Lemma frame_data_total s f : inv s → 0 ≤ f < PAGE_FRAMES →
  ∃ d, frame_data f s = Some d ∧ length d = 16%nat ∧ Forall is_byte d.
Proof.
  intros Hinv Hf. assert (is_Some (frame_data f s)) as [d Hd].
  { unfold frame_data. apply mapM_is_Some_2, Forall_forall. intros j Hj%elem_of_seqZ.
    destruct (mem_in_range s Hinv f j Hf) as (b & Hb & _); [lia|]. unfold mb in Hb. eauto. }
  exists d. split; [done|]. apply frame_data_Some in Hd as [Hlen Hd]. split; [done|].
  apply Forall_lookup. intros i b Hi. pose proof (lookup_lt_Some _ _ _ Hi).
  destruct (Hd (Z.of_nat i)) as [E _]; [consts; lia|].
  unfold zget in E at 1. rewrite decide_True, Nat2Z.id, Hi in E by lia.
  symmetry in E. exact (Forall_zget _ _ _ _ (i_mem_bytes s Hinv) E).
Qed.

Lemma frame_data_ext s s' f :
  (∀ k, 0 ≤ k < PAGE_SIZE → mb s' (f * PAGE_SIZE + k) = mb s (f * PAGE_SIZE + k)) →
  frame_data f s' = frame_data f s.
Proof.
  intros H. unfold frame_data.
  assert (∀ l, (∀ j, j ∈ l → 0 ≤ j < PAGE_SIZE) →
    mapM (λ j, zget (mainMemory s') (f * PAGE_SIZE + j)) l =
    mapM (λ j, zget (mainMemory s) (f * PAGE_SIZE + j)) l) as Hl.
  { induction l as [|j l IH]; intros Hj; [done|]. simpl.
    pose proof (H j ltac:(apply Hj; left)) as E. unfold mb in E. rewrite E.
    rewrite IH; [done|]. intros x Hx. apply Hj. by right. }
  apply Hl. intros j Hj%elem_of_seqZ. lia.
Qed.

(** A page looks the same when its entry, its frame and its stored copies are the
    same. *)
Lemma view_ext s s' i j w d :
  entry s' i j = entry s i j →
  (∀ b, entry s i j = Some b → truthy (page_valid b) = true →
    frame_data (page_frame b) s' = frame_data (page_frame b) s) →
  (∀ k x, holds s' k i j x ↔ holds s k i j x) →
  view s' i j w d ↔ view s i j w d.
Proof.
  intros He Hd Hh. unfold view. rewrite He.
  split; (intros [(b & Hb & Hv & Hw & Hx)|(k & x & Hk & Hx)];
    [left; exists b; split_and!; try done|right; exists k, x; split; [by apply Hh|done]]).
  - by rewrite <-(Hd b Hb Hv).
  - by rewrite (Hd b Hb Hv).
Qed.
