(* ===== verification/Paging2Write.v ===== *)
(** * Project4/Part2: how each kind of write changes the observations

    One section per kind of write the code performs: a page-table entry, a slot of
    the backing store, an entry of [procTable], a frame nobody holds, a byte of a
    resident page, the round-robin counter. *)

From S2P Require Import Prelude Paging2 Paging2Inv.

(** ** Frames: holders may disappear, and one holder may take a free frame *)

Lemma frames_sub s s' : inv s →
  (∀ o g, frame_of s' o = Some g → frame_of s o = Some g) →
  (∀ o f, frame_of s' o = Some f → 0 ≤ f < PAGE_FRAMES) ∧
  (∀ o o' f, frame_of s' o = Some f → frame_of s' o' = Some f → o = o').
Proof.
  intros Hinv H. split.
  - intros o f Ho. by eapply (i_range s Hinv), H.
  - intros o o' f Ho Ho'. by eapply (i_inj s Hinv); eapply H.
Qed.

Lemma frames_grow s s' o0 f0 : inv s →
  (∀ o g, frame_of s' o = Some g → frame_of s o = Some g ∨ o = o0 ∧ g = f0) →
  ¬ owned s f0 → 0 ≤ f0 < PAGE_FRAMES →
  (∀ o f, frame_of s' o = Some f → 0 ≤ f < PAGE_FRAMES) ∧
  (∀ o o' f, frame_of s' o = Some f → frame_of s' o' = Some f → o = o').
Proof.
  intros Hinv H Hno Hf. split.
  - intros o f [Ho|[-> ->]]%H; [by eapply (i_range s Hinv)|done].
  - intros o o' f [Ho|[-> ->]]%H [Ho'|[-> E]]%H.
    + by eapply (i_inj s Hinv).
    + subst. destruct Hno. by exists o.
    + destruct Hno. by exists o'.
    + done.
Qed.

(** ** A page-table entry *)

Section write_entry.
Context (s s' : state) (pid ft n b' : Z).
Hypothesis Hinv : inv s.
Hypothesis Ht : tab s pid = Some ft.
Hypothesis Hn : 0 ≤ n < PAGE_SIZE.
Hypothesis Hs' : set_mem (ft * PAGE_SIZE + n) b' s = Some s'.

Lemma we_parts : ∃ m, zset (mainMemory s) (ft * PAGE_SIZE + n) b' = Some m ∧
  s' = mkState m (procTable s) (backingStore s) (robin s).
Proof using Hs'.
  unfold set_mem in Hs'. apply bind_Some in Hs' as (m & Hm & [= <-]). eauto.
Qed.

Lemma we_tab i : tab s' i = tab s i.
Proof using Hs'. destruct we_parts as (m & _ & ->). done. Qed.

Lemma we_slot k : slot s' k = slot s k.
Proof using Hs'. destruct we_parts as (m & _ & ->). done. Qed.

Lemma we_holds k i j x : holds s' k i j x ↔ holds s k i j x.
Proof using Hs'. unfold holds. by rewrite we_slot. Qed.

Lemma we_has_table i : has_table s' i ↔ has_table s i.
Proof using Hs'. unfold has_table. rewrite we_tab. setoid_rewrite we_holds. done. Qed.

Lemma we_mb a : mb s' a = if decide (ft * PAGE_SIZE + n = a) then Some b' else mb s a.
Proof using Hs'. destruct we_parts as (m & Hm & ->). unfold mb. simpl. by apply zget_zset. Qed.

Lemma we_entry i j : entry s' i j = if decide (i = pid ∧ j = n) then Some b' else entry s i j.
Proof using Hinv Ht Hn Hs'.
  unfold entry. rewrite we_tab. destruct (decide (i = pid ∧ j = n)) as [[-> ->]|Hd].
  - rewrite Ht. simpl. rewrite decide_True by done. by rewrite we_mb, decide_True.
  - destruct (tab s i) as [fi|] eqn:Hi; simpl; [|done]. case_decide; [|done].
    rewrite we_mb. rewrite decide_False; [done|].
    intros Ha. apply addr_split in Ha as [E1 E2]; [|done..]. subst fi.
    apply Hd. split; [|done]. pose proof (i_inj s Hinv (Tab i) (Tab pid) ft Hi Ht). congruence.
Qed.

Lemma we_ent i j : ent s' i j = if decide (i = pid ∧ j = n)
    then (if truthy (page_valid b') then Some (page_frame b') else None) else ent s i j.
Proof using Hinv Ht Hn Hs'. unfold ent. rewrite we_entry. by case_decide. Qed.

Lemma we_frame_data f : f ≠ ft → frame_data f s' = frame_data f s.
Proof using Hn Hs'.
  intros Hf. apply frame_data_ext. intros k Hk. rewrite we_mb, decide_False; [done|].
  intros Ha. by apply addr_split in Ha as [E1 _].
Qed.

(** What the other pages show is unchanged. *)
Lemma we_view i j w d : (i, j) ≠ (pid, n) → view s' i j w d ↔ view s i j w d.
Proof using Hinv Ht Hn Hs'.
  intros Hne. apply view_ext; [| |intros; apply we_holds].
  - rewrite we_entry, decide_False; [done|]. intros [-> ->]. done.
  - intros b Hb Hv. apply we_frame_data. intros E.
    apply (tab_not_ent s Hinv pid i j ft Ht). apply ent_Some. by exists b.
Qed.

Lemma we_shape : is_byte b' →
  zlen (mainMemory s') = PHYS_MEM_SIZE ∧ zlen (procTable s') = MAX_PROCESSES ∧
  zlen (backingStore s') = STORE_FRAMES ∧ Forall is_byte (mainMemory s') ∧
  Forall is_byte (procTable s') ∧ 0 ≤ robin s' < PAGE_FRAMES.
Proof using Hinv Hs'.
  intros Hb. destruct we_parts as (m & Hm & ->). simpl. destruct Hinv. split_and!; try done.
  - by rewrite (zset_zlen _ _ _ _ Hm).
  - exact (Forall_zset _ _ _ _ _ i_mem_bytes Hb Hm).
  - lia.
  - lia.
Qed.

(** Invalidating the entry, rewriting a valid entry in place, or giving it a frame
    nobody holds, keeps the invariant. *)
Lemma we_inv :
  is_byte b' → page_procc b' = pid →
  truthy (page_valid b') = false ∨
  ent s pid n = Some (page_frame b') ∨
  (n ≤ 3 ∧ 0 ≤ page_frame b' < PAGE_FRAMES ∧ ¬ owned s (page_frame b') ∧
    ∀ k x, ¬ holds s k pid n x) →
  inv s'.
Proof using Hinv Ht Hn Hs'.
  intros Hb Hproc Hcase. destruct (we_shape Hb) as (S1 & S2 & S3 & S4 & S5 & S6).
  assert (∀ o g, frame_of s' o = Some g →
    frame_of s o = Some g ∨
    o = Ent pid n ∧ g = page_frame b' ∧ n ≤ 3 ∧ 0 ≤ g < PAGE_FRAMES ∧ ¬ owned s g ∧
      ∀ k x, ¬ holds s k pid n x) as Hback.
  { intros [i|i j] g; simpl; [rewrite we_tab; by left|]. rewrite we_ent.
    case_decide as Hd; [|by left]. destruct Hd as [-> ->].
    destruct (truthy (page_valid b')); [|done]. intros [= <-].
    destruct Hcase as [?|[?|(? & ? & ? & ?)]]; [done|by left|by right]. }
  assert ((∀ o f, frame_of s' o = Some f → 0 ≤ f < PAGE_FRAMES) ∧
    (∀ o o' f, frame_of s' o = Some f → frame_of s' o' = Some f → o = o')) as [Hr Hi].
  { destruct (decide (frame_of s' (Ent pid n) = Some (page_frame b') ∧
      frame_of s (Ent pid n) ≠ Some (page_frame b'))) as [[H1 H2]|H1].
    - destruct (Hback _ _ H1) as [?|(_ & _ & _ & Hrange & Hno & _)]; [done|].
      apply (frames_grow s s' (Ent pid n) (page_frame b')); [done| |done|done].
      intros o g [?|(-> & -> & _)]%Hback; [by left|by right].
    - apply (frames_sub s s'); [done|]. intros o g Ho.
      destruct (Hback _ _ Ho) as [?|(-> & -> & _)]; [done|].
      destruct (decide (frame_of s (Ent pid n) = Some (page_frame b'))); [done|].
      by destruct H1. }
  split; try done.
  - intros i p. destruct we_parts as (m & _ & ->). simpl. by apply (i_tab_procc s Hinv).
  - intros i j b. rewrite we_entry. case_decide as Hd.
    + intros [= <-]. by destruct Hd as [-> _].
    + by apply (i_ent_procc s Hinv).
  - intros i j f Hf. destruct (Hback (Ent i j) f Hf) as [?|([= -> ->] & _ & ? & _)]; [|done].
    by eapply (i_ent_page s Hinv).
  - intros k x. rewrite we_slot. by apply (i_slot s Hinv).
  - intros k k' i j x x'. rewrite !we_holds. by apply (i_unique s Hinv).
  - intros k i x. rewrite we_holds, we_tab. by apply (i_stored_table s Hinv).
  - intros k i j x Hh Hj. rewrite we_holds in Hh. destruct (ent s' i j) as [f|] eqn:E; [|done].
    destruct (Hback (Ent i j) f E) as [Ho|([= -> ->] & _ & _ & _ & _ & Hnh)].
    + simpl in Ho. by rewrite (i_stored_page s Hinv k i j x Hh Hj) in Ho.
    + by destruct (Hnh k x).
Qed.
End write_entry.

(** ** A slot of the backing store *)

Section write_slot.
Context (s s' : state) (k0 : Z) (x0 : storedFrame).
Hypothesis Hs' : set_slot k0 x0 s = Some s'.

Lemma ws_parts : ∃ b, zset (backingStore s) k0 x0 = Some b ∧
  s' = mkState (mainMemory s) (procTable s) b (robin s).
Proof using Hs'.
  unfold set_slot in Hs'. apply bind_Some in Hs' as (m & Hm & [= <-]). eauto.
Qed.

Lemma ws_tab i : tab s' i = tab s i.
Proof using Hs'. destruct ws_parts as (m & _ & ->). done. Qed.
Lemma ws_mb a : mb s' a = mb s a.
Proof using Hs'. destruct ws_parts as (m & _ & ->). done. Qed.
Lemma ws_entry i j : entry s' i j = entry s i j.
Proof using Hs'. destruct ws_parts as (m & _ & ->). done. Qed.
Lemma ws_ent i j : ent s' i j = ent s i j.
Proof using Hs'. destruct ws_parts as (m & _ & ->). done. Qed.
Lemma ws_frame_of o : frame_of s' o = frame_of s o.
Proof using Hs'. destruct o; [apply ws_tab|apply ws_ent]. Qed.
Lemma ws_frame_data f : frame_data f s' = frame_data f s.
Proof using Hs'. destruct ws_parts as (m & _ & ->). done. Qed.

Lemma ws_slot k : slot s' k = if decide (k0 = k) then Some x0 else slot s k.
Proof using Hs'. destruct ws_parts as (m & Hm & ->). unfold slot. simpl. by apply zget_zset. Qed.

Lemma ws_holds k i j x : holds s' k i j x ↔
  if decide (k0 = k) then x = x0 ∧ sf_pid x0 = i ∧ sf_page x0 = j ∧ 0 ≤ i else holds s k i j x.
Proof using Hs'.
  unfold holds. rewrite ws_slot. case_decide; [|done]. split.
  - intros ([= <-] & ? & ? & ?). done.
  - intros (-> & ? & ? & ?). done.
Qed.

Lemma ws_shape : inv s → zlen (backingStore s') = STORE_FRAMES.
Proof using Hs'.
  intros Hinv. destruct ws_parts as (m & Hm & ->). simpl. rewrite (zset_zlen _ _ _ _ Hm).
  apply (i_store s Hinv).
Qed.

(** Freeing a slot, or filling it with a frame that is no longer resident and not
    stored elsewhere, keeps the invariant. *)
Lemma ws_inv :
  inv s → slot_ok x0 →
  (0 ≤ sf_pid x0 →
    (sf_page x0 ≠ -2 → ∀ k x, k ≠ k0 → ¬ holds s k (sf_pid x0) (sf_page x0) x) ∧
    (sf_page x0 = -1 → tab s (sf_pid x0) = None ∧ Forall (dead_entry (sf_pid x0)) (sf_data x0)) ∧
    (1 ≤ sf_page x0 → ent s (sf_pid x0) (sf_page x0) = None)) →
  inv s'.
Proof using Hs'.
  intros Hinv Hok Hx. pose proof (ws_shape Hinv) as Hlen.
  pose proof ws_parts as (m & Hm & E).
  destruct (frames_sub s s' Hinv) as [Hr Hi]; [intros o g; by rewrite ws_frame_of|].
  split; try (rewrite E; simpl; by destruct Hinv); try done.
  - intros k x. rewrite ws_slot. case_decide; [by intros [= <-]|by apply (i_slot s Hinv)].
  - intros k k' i j x x'. rewrite !ws_holds.
    repeat case_decide; subst; try done.
    + intros (-> & <- & <- & Hp) Hh Hj. destruct (Hx Hp) as [H2 _]. by destruct (H2 Hj k' x').
    + intros Hh (-> & <- & <- & Hp) Hj. destruct (Hx Hp) as [H2 _]. by destruct (H2 Hj k x).
    + by apply (i_unique s Hinv).
  - intros k i x. rewrite ws_holds, ws_tab. case_decide.
    + intros (-> & <- & Hj & Hp). by apply (Hx Hp).
    + by apply (i_stored_table s Hinv).
  - intros k i j x. rewrite ws_holds, ws_ent. case_decide.
    + intros (-> & <- & <- & Hp). by apply (Hx Hp).
    + by apply (i_stored_page s Hinv).
Qed.
End write_slot.

(** ** Bytes of a frame that holds no page table *)

Section write_frame.
Context (s s' : state) (f : Z).
Hypothesis Hinv : inv s.
Hypothesis Hnt : ∀ i, tab s i ≠ Some f.
Hypothesis Hproc : procTable s' = procTable s.
Hypothesis Hstore : backingStore s' = backingStore s.
Hypothesis Hrobin : robin s' = robin s.
Hypothesis Hlen : length (mainMemory s') = length (mainMemory s).
Hypothesis Hbytes : Forall is_byte (mainMemory s').
Hypothesis Hmb : ∀ g k, 0 ≤ k < PAGE_SIZE → g ≠ f →
  mb s' (g * PAGE_SIZE + k) = mb s (g * PAGE_SIZE + k).

Lemma wf_tab i : tab s' i = tab s i.
Proof using Hproc. unfold tab. by rewrite Hproc. Qed.
Lemma wf_slot k : slot s' k = slot s k.
Proof using Hstore. unfold slot. by rewrite Hstore. Qed.
Lemma wf_holds k i j x : holds s' k i j x ↔ holds s k i j x.
Proof using Hstore. unfold holds. by rewrite wf_slot. Qed.
Lemma wf_has_table i : has_table s' i ↔ has_table s i.
Proof using Hstore Hproc. unfold has_table. rewrite wf_tab. setoid_rewrite wf_holds. done. Qed.

Lemma wf_entry i j : entry s' i j = entry s i j.
Proof using Hproc Hmb Hnt.
  unfold entry. rewrite wf_tab. destruct (tab s i) as [ft|] eqn:Ht; [|done]. simpl.
  case_decide; [|done]. apply Hmb; [done|]. intros ->. by eapply Hnt.
Qed.
Lemma wf_ent i j : ent s' i j = ent s i j.
Proof using Hproc Hmb Hnt. unfold ent. by rewrite wf_entry. Qed.
Lemma wf_frame_of o : frame_of s' o = frame_of s o.
Proof using Hproc Hmb Hnt. destruct o; [apply wf_tab|apply wf_ent]. Qed.
Lemma wf_frame_data g : g ≠ f → frame_data g s' = frame_data g s.
Proof using Hmb. intros Hg. apply frame_data_ext. intros k Hk. by apply Hmb. Qed.

Lemma wf_view i j w d : ent s i j ≠ Some f → view s' i j w d ↔ view s i j w d.
Proof using Hproc Hmb Hnt Hstore.
  intros Hne. apply view_ext; [apply wf_entry| |intros; apply wf_holds].
  intros b Hb Hv. apply wf_frame_data. intros E. apply Hne, ent_Some. by exists b.
Qed.

Lemma wf_inv : inv s'.
Proof using All.
  destruct (frames_sub s s' Hinv) as [Hr Hi]; [intros o g; by rewrite wf_frame_of|].
  pose proof Hinv as [S1 S2 S3 S4 S5 S6 _ _ S7 _ _ _ _ _ _].
  split; try done.
  - unfold zlen in *. by rewrite Hlen.
  - by rewrite Hproc.
  - by rewrite Hstore.
  - by rewrite Hproc.
  - by rewrite Hrobin.
  - intros i p. rewrite Hproc. apply S7.
  - intros i j b. rewrite wf_entry. by apply (i_ent_procc s Hinv).
  - intros i j g. rewrite wf_ent. by apply (i_ent_page s Hinv).
  - intros k x. rewrite wf_slot. by apply (i_slot s Hinv).
  - intros k k' i j x x'. rewrite !wf_holds. by apply (i_unique s Hinv).
  - intros k i x. rewrite wf_holds, wf_tab. by apply (i_stored_table s Hinv).
  - intros k i j x. rewrite wf_holds, wf_ent. by apply (i_stored_page s Hinv).
Qed.

Lemma wf_clean : clean s → clean s'.
Proof using Hproc Hmb Hnt Hstore.
  intros [H1 H2 H3]. split.
  - intros i. by rewrite wf_ent.
  - intros k i j x. rewrite wf_holds. apply H2.
  - intros k i j x. rewrite wf_holds, wf_has_table. apply H3.
Qed.
End write_frame.

(** ** An entry of [procTable] *)

Section write_proc.
Context (s s' : state) (pid p' : Z).
Hypothesis Hinv : inv s.
Hypothesis Hs' : set_proc pid p' s = Some s'.
Hypothesis Hbyte : is_byte p'.

Lemma wp_parts : ∃ t, zset (procTable s) pid p' = Some t ∧
  s' = mkState (mainMemory s) t (backingStore s) (robin s).
Proof using Hs'.
  unfold set_proc in Hs'. apply bind_Some in Hs' as (m & Hm & [= <-]). eauto.
Qed.

Lemma wp_mb a : mb s' a = mb s a.
Proof using Hs'. destruct wp_parts as (m & _ & ->). done. Qed.
Lemma wp_slot k : slot s' k = slot s k.
Proof using Hs'. destruct wp_parts as (m & _ & ->). done. Qed.
Lemma wp_holds k i j x : holds s' k i j x ↔ holds s k i j x.
Proof using Hs'. unfold holds. by rewrite wp_slot. Qed.
Lemma wp_frame_data f : frame_data f s' = frame_data f s.
Proof using Hs'. destruct wp_parts as (m & _ & ->). done. Qed.

Lemma wp_tab i : tab s' i =
  if decide (i = pid) then (if truthy (page_valid p') then Some (page_frame p') else None)
  else tab s i.
Proof using Hs'.
  destruct wp_parts as (m & Hm & ->). unfold tab. simpl. rewrite (zget_zset _ _ i _ _ Hm).
  destruct (decide (i = pid)) as [->|]; [by rewrite decide_True|]. by rewrite decide_False.
Qed.

Lemma wp_entry i j : i ≠ pid → entry s' i j = entry s i j.
Proof using Hs'.
  intros Hi. unfold entry. rewrite wp_tab, decide_False by done.
  destruct (tab s i); [|done]. simpl. by rewrite wp_mb.
Qed.

(** Both uses below: the entries of [pid] are not valid before nor after. *)
Hypothesis Hdead : ∀ n, ent s pid n = None.
Hypothesis Hdead' : ∀ n, ent s' pid n = None.

Lemma wp_ent i j : ent s' i j = ent s i j.
Proof using Hs' Hdead Hdead'.
  destruct (decide (i = pid)) as [->|Hi]; [by rewrite Hdead, Hdead'|].
  unfold ent. by rewrite wp_entry.
Qed.

Lemma ent_None_absurd t i j b : ent t i j = None → entry t i j = Some b →
  truthy (page_valid b) = true → False.
Proof. unfold ent. intros H E Hv. rewrite E in H. simpl in H. by rewrite Hv in H. Qed.

Lemma wp_view i j w d : view s' i j w d ↔ view s i j w d.
Proof using Hs' Hdead Hdead'.
  split; (intros [(b & Hb & Hv & Hw & Hd)|(k & x & Hh & Hx)];
    [left|right; exists k, x; by rewrite wp_holds in *]).
  - destruct (decide (i = pid)) as [->|Hi]; [by destruct (ent_None_absurd _ _ _ _ (Hdead' j) Hb)|].
    exists b. rewrite wp_entry in Hb by done. by rewrite wp_frame_data in Hd.
  - destruct (decide (i = pid)) as [->|Hi]; [by destruct (ent_None_absurd _ _ _ _ (Hdead j) Hb)|].
    exists b. rewrite wp_entry by done. by rewrite wp_frame_data.
Qed.

Hypothesis Hprocc : truthy (page_valid p') = true → page_procc p' = pid.
Hypothesis Hentries : ∀ n b, entry s' pid n = Some b → page_procc b = pid.
(** Either the table disappears, or it takes a frame nobody holds and is not
    stored. *)
Hypothesis Hcase :
  truthy (page_valid p') = false ∨
  0 ≤ page_frame p' < PAGE_FRAMES ∧ ¬ owned s (page_frame p') ∧ ∀ k x, ¬ holds s k pid (-1) x.

Lemma wp_inv : inv s'.
Proof using All.
  assert ((∀ o f, frame_of s' o = Some f → 0 ≤ f < PAGE_FRAMES) ∧
    (∀ o o' f, frame_of s' o = Some f → frame_of s' o' = Some f → o = o')) as [Hr Hi].
  { destruct Hcase as [Hv|(Hf & Hno & _)].
    - apply (frames_sub s s'); [done|]. intros [i|i j] g; simpl; [|by rewrite wp_ent].
      rewrite wp_tab, Hv. by case_decide.
    - apply (frames_grow s s' (Tab pid) (page_frame p')); [done| |done|done].
      intros [i|i j] g; simpl; [|rewrite wp_ent; by left]. rewrite wp_tab.
      case_decide; [|by left]. destruct (truthy (page_valid p')); [|done].
      intros [= <-]. right. by subst. }
  pose proof wp_parts as (t & Hset & E). pose proof Hinv as [S1 S2 S3 S4 S5 S6 _ _ S7 _ _ _ _ _ _].
  split; try done.
  - by rewrite E.
  - rewrite E. simpl. by rewrite (zset_zlen _ _ _ _ Hset).
  - by rewrite E.
  - by rewrite E.
  - rewrite E. simpl. exact (Forall_zset _ _ _ _ _ S5 Hbyte Hset).
  - by rewrite E.
  - intros i p. rewrite E. simpl. rewrite (zget_zset _ _ i _ _ Hset).
    case_decide; [|by apply S7]. subst i. intros [= <-]. done.
  - intros i j b. destruct (decide (i = pid)) as [->|Hne]; [by apply Hentries|].
    rewrite wp_entry by done. by apply (i_ent_procc s Hinv).
  - intros i j g. rewrite wp_ent. by apply (i_ent_page s Hinv).
  - intros k x. rewrite wp_slot. by apply (i_slot s Hinv).
  - intros k k' i j x x'. rewrite !wp_holds. by apply (i_unique s Hinv).
  - intros k i x. rewrite wp_holds. intros Hh.
    destruct (i_stored_table s Hinv k i x Hh) as [Ht Hd]. split; [|done].
    rewrite wp_tab. case_decide as Hip; [|done]. subst i.
    destruct Hcase as [->|(_ & _ & Hnh)]; [done|]. by destruct (Hnh k x).
  - intros k i j x. rewrite wp_holds, wp_ent. by apply (i_stored_page s Hinv).
Qed.
End write_proc.

(** ** The round-robin counter *)

Lemma set_robin_inv s r s' : inv s → 0 ≤ r < PAGE_FRAMES → set_robin r s = Some s' → inv s'.
Proof.
  intros Hinv Hr [= <-]. pose proof Hinv as [S1 S2 S3 S4 S5 S6 S7 S8 S9 S10 S11 S12 S13 S14 S15].
  by split.
Qed.

Lemma next_robin_range r : 0 ≤ r < PAGE_FRAMES → 0 ≤ next_robin r < PAGE_FRAMES.
Proof. unfold next_robin. intros. destruct (Z.leb_spec PAGE_FRAMES (r + 1)); consts; lia. Qed.

Lemma next_robin_neq r : next_robin r ≠ r.
Proof. unfold next_robin. destruct (Z.leb_spec PAGE_FRAMES (r + 1)); consts; lia. Qed.
