(* ===== verification/Paging2Evict.v ===== *)
(** * Project4/Part2: moving frames to the backing store

    What [frame_allocated], [get_page_num], [free_specific_frame], [free_frame] and
    [find_free_frame] do.  Moving a frame out keeps the invariant; in a [clean]
    state it also keeps every process's [view]: the bytes only change place. *)

From S2P Require Import Prelude Paging2 Paging2Inv Paging2Write.

(** The [page_t] that names the frame of a holder. *)
Definition ptr_of (s : state) (o : owner) : ptr :=
  match o with
  | Tab i => PProc i
  | Ent i n => PMem (default 0 (tab s i) * PAGE_SIZE + n)
  end.

(** ** [frame_allocated] finds the holder of a frame *)

Lemma entry_names_eq s frame j b : mb s j = Some b →
  entry_names frame s j =
    Some (if truthy (page_valid b) && (page_frame b =? frame) then Some (PMem j) else None).
Proof.
  unfold entry_names, mb. intros ->. simpl.
  by destruct (truthy (page_valid b) && (page_frame b =? frame)).
Qed.

Lemma scan_entries s frame i ft :
  inv s → tab s i = Some ft →
  (∃ n, ent s i n = Some frame ∧
    for_ret (seqZ (ft * PAGE_SIZE) PAGE_SIZE) (entry_names frame s) = Some (Some (ptr_of s (Ent i n)))) ∨
  ((∀ n, ent s i n ≠ Some frame) ∧
    for_ret (seqZ (ft * PAGE_SIZE) PAGE_SIZE) (entry_names frame s) = Some None).
Proof.
  intros Hinv Ht.
  assert (∀ j, ft * PAGE_SIZE ≤ j < ft * PAGE_SIZE + PAGE_SIZE →
    ∃ b, entry s i (j - ft * PAGE_SIZE) = Some b ∧ mb s j = Some b) as Hread.
  { intros j Hj. destruct (entry_in_range s Hinv i ft (j - ft * PAGE_SIZE) Ht) as (b & He & Hb & _);
      [lia|]. exists b. split; [done|]. rewrite <-Hb. f_equal. lia. }
  destruct (for_ret_seqZ_total (ft * PAGE_SIZE) PAGE_SIZE (entry_names frame s)) as [[p|] Hr].
  { intros j Hj. destruct (Hread j Hj) as (b & _ & Hb). rewrite (entry_names_eq _ _ _ _ Hb). eauto. }
  - left. pose proof Hr as Hr'. apply for_ret_seqZ in Hr' as (j & Hj & Hb & _).
    destruct (Hread j Hj) as (b & He & Hmb). rewrite (entry_names_eq _ _ _ _ Hmb) in Hb.
    destruct (truthy (page_valid b)) eqn:Hv, (Z.eqb_spec (page_frame b) frame); try discriminate Hb.
    injection Hb as <-. exists (j - ft * PAGE_SIZE). split; [apply ent_Some; by exists b|].
    rewrite Hr. unfold ptr_of. rewrite Ht. simpl. do 2 f_equal. f_equal. lia.
  - right. split; [|done]. rewrite for_ret_seqZ_None in Hr.
    intros n (b & (ft' & Ht' & Hn & Hb)%entry_Some & Hv & Hf)%ent_Some. rewrite Ht in Ht'.
    injection Ht' as <-. specialize (Hr (ft * PAGE_SIZE + n) ltac:(lia)).
    rewrite (entry_names_eq _ _ _ _ Hb), Hv, (proj2 (Z.eqb_eq _ _) Hf) in Hr. discriminate Hr.
Qed.

Lemma process_names_spec s frame i :
  inv s → 0 ≤ i < MAX_PROCESSES →
  (∃ o, frame_of s o = Some frame ∧ process_names frame s i = Some (Some (ptr_of s o))) ∨
  (tab s i ≠ Some frame ∧ (∀ n, ent s i n ≠ Some frame) ∧ process_names frame s i = Some None).
Proof.
  intros Hinv Hi. destruct (proc_in_range s Hinv i Hi) as (p & Hp & _).
  pose proof (tab_intro s i p Hp) as Ht. unfold process_names. rewrite Hp. simpl.
  destruct (truthy (page_valid p)) eqn:Hv.
  - destruct (Z.eqb_spec (page_frame p) frame) as [Hf|Hf].
    { left. exists (Tab i). simpl. split; [congruence|done]. }
    destruct (scan_entries s frame i _ Hinv Ht) as [(n & Hn & ->)|[Hn ->]].
    + left. by exists (Ent i n).
    + right. split_and!; [congruence|done..].
  - right. rewrite Ht. split_and!; [done| |done].
    intros n (b & (ft & H & _)%entry_Some & _)%ent_Some. congruence.
Qed.

Lemma frame_allocated_spec s frame :
  inv s →
  (∃ o, frame_of s o = Some frame ∧ frame_allocated frame s = Some (ptr_of s o)) ∨
  (¬ owned s frame ∧ frame_allocated frame s = Some PNull).
Proof.
  intros Hinv. unfold frame_allocated.
  destruct (for_ret_seqZ_total 0 MAX_PROCESSES (process_names frame s)) as [[p|] Hr].
  { intros i Hi. destruct (process_names_spec s frame i Hinv ltac:(lia)) as [(o & _ & ->)|(_ & _ & ->)];
      eauto. }
  - left. rewrite Hr. simpl. apply for_ret_seqZ in Hr as (i & Hi & Hb & _).
    destruct (process_names_spec s frame i Hinv ltac:(lia)) as [(o & Ho & E)|(_ & _ & E)];
      rewrite Hb in E; [|done]. injection E as ->. by exists o.
  - right. rewrite Hr. split; [|done]. intros [o Ho]. rewrite for_ret_seqZ_None in Hr.
    assert (∃ i, (tab s i = Some frame ∨ ∃ n, ent s i n = Some frame) ∧ 0 ≤ i < MAX_PROCESSES)
      as (i & Hi & Hb).
    { destruct o as [i|i n]; simpl in Ho; exists i; (split; [by eauto|]);
        [by eapply tab_bound|]. apply ent_Some in Ho as (b & (ft & Ht & _)%entry_Some & _).
      by eapply tab_bound. }
    destruct (process_names_spec s frame i Hinv Hb) as [(o' & _ & E)|(H1 & H2 & _)].
    + rewrite Hr in E; [done|lia].
    + destruct Hi as [?|[n ?]]; [done|]. by destruct (H2 n).
Qed.

Lemma ptr_of_not_null s o : ptr_of s o ≠ PNull.
Proof. by destruct o. Qed.

(** ** [get_page_num]: the key a frame is stored under *)

(** Entry 0 is never found. *)
Definition page_key (n : Z) : Z := if decide (n = 0) then -2 else n.

Lemma get_page_num_proc s i : inv s → 0 ≤ i < MAX_PROCESSES →
  get_page_num (PProc i) s = Some (-1).
Proof.
  intros Hinv Hi. unfold get_page_num.
  assert (for_ret (seqZ 0 MAX_PROCESSES) (page_num_in (PProc i) s) = Some (Some (-1))) as ->; [|done].
  apply for_ret_seqZ. exists i. split; [lia|]. split.
  - unfold page_num_in. by rewrite decide_True.
  - intros j Hj. unfold page_num_in. rewrite decide_False by (intros [=]; lia).
    destruct (proc_in_range s Hinv j) as (p & -> & _); [lia|]. simpl.
    destruct (truthy (page_valid p)); [|done]. by apply for_ret_seqZ_None.
Qed.

Lemma page_num_in_mem s j p a : zget (procTable s) j = Some p →
  page_num_in (PMem a) s j =
    if truthy (page_valid p) then
      Some (let n := a - page_frame p * PAGE_SIZE in
            if decide (1 ≤ n < PAGE_SIZE) then Some n else None)
    else Some None.
Proof.
  intros Hp. unfold page_num_in. rewrite decide_False by done. rewrite Hp. simpl.
  destruct (truthy (page_valid p)); [|done]. cbv zeta. case_decide as Hn.
  - apply for_ret_seqZ. exists (a - page_frame p * PAGE_SIZE). split; [consts; lia|].
    split; [by rewrite decide_True by (f_equal; lia)|].
    intros k Hk. rewrite decide_False; [done|]. intros [=]. lia.
  - apply for_ret_seqZ_None. intros k Hk. rewrite decide_False; [done|].
    intros [= E]. apply Hn. consts. lia.
Qed.

Lemma get_page_num_entry s i ft n : inv s → tab s i = Some ft → 0 ≤ n < PAGE_SIZE →
  get_page_num (PMem (ft * PAGE_SIZE + n)) s = Some (page_key n).
Proof.
  intros Hinv Ht Hn. unfold get_page_num, page_key.
  pose proof (tab_bound s Hinv i ft Ht) as Hi.
  assert (∀ j, 0 ≤ j < MAX_PROCESSES → j ≠ i ∨ n = 0 →
    page_num_in (PMem (ft * PAGE_SIZE + n)) s j = Some None) as Hother.
  { intros j Hj Hne. destruct (proc_in_range s Hinv j Hj) as (p & Hp & _).
    rewrite (page_num_in_mem _ _ _ _ Hp). pose proof (tab_intro s j p Hp) as Htj.
    destruct (truthy (page_valid p)); [|done]. cbv zeta. rewrite decide_False; [done|].
    intros Hr. assert (page_frame p = ft) as Ef by (consts; lia).
    rewrite Ef in Htj, Hr. destruct Hne as [Hne| ->]; [|lia].
    apply Hne. by injection (i_inj s Hinv (Tab j) (Tab i) ft Htj Ht). }
  case_decide as H0.
  - assert (for_ret (seqZ 0 MAX_PROCESSES) (page_num_in (PMem (ft * PAGE_SIZE + n)) s) = Some None)
      as ->; [|done].
    apply for_ret_seqZ_None. intros j Hj. apply Hother; [lia|by right].
  - assert (for_ret (seqZ 0 MAX_PROCESSES) (page_num_in (PMem (ft * PAGE_SIZE + n)) s) = Some (Some n))
      as ->; [|done].
    apply for_ret_seqZ. exists i. split; [lia|]. split.
    + destruct (proc_in_range s Hinv i Hi) as (p & Hp & _). rewrite (page_num_in_mem _ _ _ _ Hp).
      pose proof (tab_intro s i p Hp) as Hti. rewrite Ht in Hti.
      destruct (truthy (page_valid p)); [|done]. injection Hti as <-. cbv zeta.
      replace (ft * PAGE_SIZE + n - ft * PAGE_SIZE) with n by lia.
      rewrite decide_True by lia. done.
    + intros j Hj. apply Hother; [lia|]. left. lia.
Qed.

(** ** Free slots *)

Lemma unused_slot_spec s : inv s →
  (∃ k x, unused_slot s = Some (Some k) ∧ slot s k = Some x ∧ sf_pid x < 0) ∨
  (unused_slot s = Some None ∧ ∀ k, 0 ≤ k < STORE_FRAMES → ∃ i n x, holds s k i n x).
Proof.
  intros Hinv. unfold unused_slot. set (body := λ i, _ ← zget (backingStore s) i; _).
  assert (∀ k, 0 ≤ k < STORE_FRAMES → ∃ x, slot s k = Some x ∧
    body k = Some (if sf_pid x <? 0 then Some k else None)) as Hbody.
  { intros k Hk. destruct (zget_is_Some (backingStore s) k) as [x Hx]; [by rewrite (i_store s Hinv)|].
    exists x. split; [done|]. unfold body. rewrite Hx. simpl. by destruct (sf_pid x <? 0). }
  destruct (for_ret_seqZ_total 0 STORE_FRAMES body) as [[k|] Hr].
  { intros k Hk. destruct (Hbody k) as (x & _ & ->); [lia|]. eauto. }
  - left. pose proof Hr as Hr'. apply for_ret_seqZ in Hr' as (i & Hi & Hb & _).
    destruct (Hbody i) as (x & Hx & E); [lia|]. rewrite Hb in E.
    destruct (Z.ltb_spec (sf_pid x) 0); [|discriminate E]. injection E as ->. by exists i, x.
  - right. split; [done|]. intros k Hk. rewrite for_ret_seqZ_None in Hr.
    destruct (Hbody k Hk) as (x & Hx & E). rewrite Hr in E by lia.
    destruct (Z.ltb_spec (sf_pid x) 0); [discriminate E|]. by exists (sf_pid x), (sf_page x), x.
Qed.

(** Without page 0 there are at most 16 keys for the 64 slots. *)
Lemma slot_available s : inv s → (∀ k i n x, holds s k i n x → n ≠ -2) →
  ∃ k x, unused_slot s = Some (Some k) ∧ slot s k = Some x ∧ sf_pid x < 0.
Proof.
  intros Hinv Hkeys. destruct (unused_slot_spec s Hinv) as [?|[_ Hfull]]; [done|exfalso].
  set (code := λ k, match slot s k with
    | Some x => sf_pid x * 4 + (if decide (sf_page x = -1) then 0 else sf_page x) | None => 0 end).
  assert (∀ k, 0 ≤ k < STORE_FRAMES → ∃ i n x, holds s k i n x ∧ 0 ≤ i < 4 ∧
    (n = -1 ∨ 1 ≤ n ≤ 3) ∧ code k = i * 4 + (if decide (n = -1) then 0 else n)) as Hcode.
  { intros k Hk. destruct (Hfull k Hk) as (i & n & x & Hh). exists i, n, x. split; [done|].
    pose proof (Hkeys _ _ _ _ Hh) as Hn. destruct Hh as (Hx & <- & <- & Hp).
    destruct (i_slot s Hinv k x Hx) as [_ _ Hlt _ Hpg]. unfold code. rewrite Hx.
    consts. specialize (Hpg Hp). split_and!; [lia..|lia|done]. }
  pose proof (pigeon_length (code <$> seqZ 0 STORE_FRAMES) 16) as Hlen.
  rewrite length_fmap, length_seqZ in Hlen. consts.
  assert (64 ≤ 16)%nat; [|lia]. apply Hlen.
  - apply NoDup_fmap_2_strong; [|apply NoDup_seqZ]. intros k k' Hk%elem_of_seqZ Hk'%elem_of_seqZ E.
    destruct (Hcode k) as (i & n & x & Hh & Hi & Hn & Ec); [lia|].
    destruct (Hcode k') as (i' & n' & x' & Hh' & Hi' & Hn' & Ec'); [lia|].
    rewrite Ec, Ec' in E.
    assert (i = i' ∧ n = n') as [<- <-] by (repeat case_decide; lia).
    eapply (i_unique s Hinv); [done..|lia].
  - intros z (k & -> & Hk%elem_of_seqZ)%list_elem_of_fmap.
    destruct (Hcode k) as (i & n & x & _ & Hi & Hn & ->); [lia|]. case_decide; lia.
Qed.

(** ** What moving frames out preserves *)

(** Who holds the frame that is stored under page number [n]. *)
Definition key_owner (i n : Z) : owner := if decide (n = -1) then Tab i else Ent i n.

Record evicted (s s' : state) : Prop := mkEvicted {
  ev_inv : inv s';
  ev_back : ∀ o g, frame_of s' o = Some g → frame_of s o = Some g;
  ev_slots : ∀ k i n x, holds s k i n x → holds s' k i n x;
  ev_new : ∀ k i n x, holds s' k i n x → n ≠ -2 →
    holds s k i n x ∨ is_Some (frame_of s (key_owner i n));
  ev_keys : (∀ i, ent s i 0 = None) → (∀ k i n x, holds s k i n x → n ≠ -2) →
    ∀ k i n x, holds s' k i n x → n ≠ -2;
  ev_view : clean s → ∀ i n w d, 0 ≤ n → view s' i n w d ↔ view s i n w d;
  ev_table : clean s → ∀ i, has_table s' i ↔ has_table s i;
  ev_clean : clean s → clean s';
}.

Lemma evicted_refl s : inv s → evicted s s.
Proof. split; auto. Qed.

Lemma evicted_trans s1 s2 s3 : evicted s1 s2 → evicted s2 s3 → evicted s1 s3.
Proof.
  intros [I1 B1 S1 N1 K1 V1 T1 C1] [I2 B2 S2 N2 K2 V2 T2 C2]. split; auto.
  - intros k i n x Hh Hn. destruct (N2 _ _ _ _ Hh Hn) as [?|[g Hg]]; [by apply (N1 k i n x)|].
    right. eauto.
  - intros H0 Hk. apply K2; [|by apply K1]. intros i. destruct (ent s2 i 0) eqn:E; [|done].
    apply (B1 (Ent i 0)) in E. simpl in E. by rewrite H0 in E.
  - intros Hc i n w d Hn. rewrite V2, V1; auto.
  - intros Hc i. rewrite T2, T1; auto.
Qed.

(** What [free_specific_frame] does to [s]: the holder is invalidated ([s1]), then
    its frame is copied to an unused slot; when there is none the frame is lost. *)
Lemma free_specific_wp page s s1 p1 key d (Q : unit → state → Prop) :
  upd_page page (λ p, set_valid p 0) s = Some s1 → inv s1 →
  deref page s1 = Some p1 → get_page_num page s1 = Some key →
  frame_data (page_frame p1) s1 = Some d →
  (∀ k x s2, slot s1 k = Some x → sf_pid x < 0 →
    set_slot k (mkStored d (page_procc p1) key (page_write p1)) s1 = Some s2 → Q tt s2) →
  ((∀ k, 0 ≤ k < STORE_FRAMES → ∃ i n x, holds s1 k i n x) → Q tt s1) →
  wp (free_specific_frame page) s Q.
Proof.
  intros H1 Hinv1 Hp1 Hkey Hd Hslot Hfull. unfold free_specific_frame.
  apply wp_bind, wp_modifies with s1; [done|].
  apply wp_bind, (wp_reads _ _ _ p1); [done|]. cbv zeta. apply wp_bind.
  destruct (unused_slot_spec s1 Hinv1) as [(k & x & Hu & Hx & Hneg)|[Hu Hf]];
    (eapply wp_reads; [done|]).
  - apply wp_bind, (wp_reads _ _ _ key); [done|]. apply wp_bind, (wp_reads _ _ _ d); [done|].
    apply wp_bind. unfold modifies.
    destruct (set_slot k (mkStored d (page_procc p1) key (page_write p1)) s1) as [s2|] eqn:H2.
    + apply wp_modifies with s2; [done|]. apply wp_emit. by eapply Hslot.
    + exfalso. unfold set_slot in H2. rewrite zset_Some in H2; [done|].
      by apply (zget_Some_bound _ _ x).
  - apply wp_emit. by apply Hfull.
Qed.

(** *** A resident page *)

Section evict_page.
Context (s s1 : state) (i ft n b : Z).
Hypothesis Hinv : inv s.
Hypothesis Ht : tab s i = Some ft.
Hypothesis He : entry s i n = Some b.
Hypothesis Hv : truthy (page_valid b) = true.
Hypothesis H1 : set_mem (ft * PAGE_SIZE + n) (set_valid b 0) s = Some s1.

Lemma ep_mb : 0 ≤ n < PAGE_SIZE ∧ mb s (ft * PAGE_SIZE + n) = Some b.
Proof using Ht He.
  apply entry_Some in He as (ft' & Ht' & Hn & Hb). rewrite Ht in Ht'. by injection Ht' as <-.
Qed.

Lemma ep_ent : ent s i n = Some (page_frame b).
Proof using He Hv. apply ent_Some. eauto. Qed.

Lemma ep_dead : truthy (page_valid (set_valid b 0)) = false.
Proof. by autorewrite with page2. Qed.

Lemma ep_procc : page_procc b = i.
Proof using Hinv He. by eapply (i_ent_procc s Hinv). Qed.

Lemma ep_inv1 : inv s1.
Proof using All.
  destruct ep_mb as [Hn Hb]. eapply (we_inv s s1 i ft n (set_valid b 0)); auto.
  - apply set_valid_byte. exact (Forall_zget _ _ _ _ (i_mem_bytes s Hinv) Hb).
  - autorewrite with page2. apply ep_procc.
  - left. apply ep_dead.
Qed.

Lemma ep_frame_of1 o : frame_of s1 o = if decide (o = Ent i n) then None else frame_of s o.
Proof using Hinv Ht He H1.
  destruct ep_mb as [Hn _]. destruct o as [j|j m]; simpl.
  { rewrite (we_tab s s1 ft n _ H1). done. }
  rewrite (we_ent s s1 i ft n _ Hinv Ht Hn H1), ep_dead.
  destruct (decide (j = i ∧ m = n)) as [[-> ->]|Hne]; [by rewrite decide_True|].
  rewrite decide_False; [done|]. intros [= -> ->]. by apply Hne.
Qed.

Lemma ep_data : frame_data (page_frame b) s1 = frame_data (page_frame b) s.
Proof using All.
  destruct ep_mb as [Hn _]. apply (we_frame_data s s1 ft n _ Hn H1).
  intros E. pose proof ep_ent as Hent. rewrite E in Hent. exact (tab_not_ent s Hinv i i n ft Ht Hent).
Qed.

Lemma ep_not_stored k x : ¬ holds s k i n x.
Proof using Hinv Ht He Hv.
  intros Hh. destruct (decide (1 ≤ n)).
  - pose proof ep_ent as Hent. by rewrite (i_stored_page s Hinv k i n x Hh) in Hent.
  - destruct ep_mb as [Hn _]. destruct Hh as (Hy & Hp & Hpg & ?).
    destruct (i_slot s Hinv k x Hy) as [_ _ _ _ Hs]. rewrite Hp, Hpg in Hs. lia.
Qed.

(** The page is lost when the store is full. *)
Lemma ep_lost : (∀ k, 0 ≤ k < STORE_FRAMES → ∃ j m x, holds s1 k j m x) → evicted s s1.
Proof using All.
  intros Hfull. pose proof ep_inv1 as Hinv1.
  pose proof (we_holds s s1 ft n _ H1) as Hholds1.
  assert (clean s → False) as Hnc.
  { intros Hc. destruct (slot_available s1 Hinv1) as (k & x & E & Hx & Hneg).
    { intros k j m x. rewrite Hholds1. apply (c_keys s Hc). }
    destruct (Hfull k) as (j & m & y & Hy & Hp & _ & ?).
    { rewrite <-(i_store s1 Hinv1). by apply (zget_Some_bound _ _ x). }
    rewrite Hx in Hy. simplify_eq. lia. }
  split; try (intros Hc; by destruct (Hnc Hc)); [done|..].
  - intros o g. rewrite ep_frame_of1. by case_decide.
  - intros k j m x. by rewrite Hholds1.
  - intros k j m x Hk _. left. by rewrite <-Hholds1.
  - intros _ Hk k j m x. rewrite Hholds1. apply Hk.
Qed.

Context (s2 : state) (k : Z) (x : storedFrame) (d : list Z).
Hypothesis Hx : slot s1 k = Some x.
Hypothesis Hneg : sf_pid x < 0.
Hypothesis Hd : frame_data (page_frame b) s = Some d.
Hypothesis H2 : set_slot k (mkStored d i (page_key n) (page_write b)) s1 = Some s2.

Lemma ep_holds k' j m y : holds s2 k' j m y ↔
  (k' = k ∧ y = mkStored d i (page_key n) (page_write b) ∧ j = i ∧ m = page_key n) ∨
  holds s k' j m y.
Proof using All.
  rewrite (ws_holds s1 s2 k _ H2). pose proof (we_holds s s1 ft n _ H1) as Hh. case_decide as E.
  - subst k'. simpl. pose proof (tab_bound s Hinv i ft Ht). split.
    + intros (-> & <- & <- & _). by left.
    + intros [(_ & -> & -> & ->)|Hk]; [by split_and!; try lia|].
      apply Hh in Hk as (Hk & <- & _ & ?). rewrite Hx in Hk. simplify_eq. lia.
  - rewrite Hh. split; [by right|]. intros [(-> & _)|?]; done.
Qed.

Lemma ep_inv2 : inv s2.
Proof using All.
  pose proof ep_inv1 as Hinv1. destruct ep_mb as [Hn _]. pose proof ep_ent as Hent.
  pose proof (i_ent_page s Hinv i n _ Hent) as Hn3.
  destruct (frame_data_total s (page_frame b) Hinv) as (d' & Hd' & Hlen & Hby);
    [exact (ent_range s Hinv i n _ Hent)|]. rewrite Hd in Hd'. injection Hd' as <-.
  pose proof (tab_bound s Hinv i ft Ht).
  eapply (ws_inv s1 s2 k _ H2 Hinv1); simpl.
  - split; simpl; [done|done|lia|auto with c_bits|]. intros _. unfold page_key. case_decide; lia.
  - intros _. split_and!.
    + intros Hk k' y _ Hh. apply (we_holds s s1 ft n _ H1) in Hh. unfold page_key in *.
      case_decide; [done|]. by eapply ep_not_stored.
    + unfold page_key. case_decide; lia.
    + intros Hk. unfold page_key in *. case_decide; [done|].
      pose proof (ep_frame_of1 (Ent i n)) as Hf. by rewrite decide_True in Hf.
Qed.

Lemma ep_frame_of2 o : frame_of s2 o = if decide (o = Ent i n) then None else frame_of s o.
Proof using All. rewrite (ws_frame_of s1 s2 k _ H2). apply ep_frame_of1. Qed.

Lemma ep_table j : has_table s2 j ↔ has_table s j.
Proof using All.
  unfold has_table. pose proof (ep_frame_of2 (Tab j)) as Hf. rewrite decide_False in Hf by done.
  simpl in Hf. rewrite Hf. destruct ep_mb as [Hn _].
  split; (intros [?|(k' & y & Hh)]; [by left|right; exists k', y]).
  - apply ep_holds in Hh as [(_ & _ & _ & E)|?]; [|done]. unfold page_key in E. case_decide; lia.
  - apply ep_holds. by right.
Qed.

Lemma ep_clean : clean s → clean s2.
Proof using All.
  intros [H0 Hkeys Htab]. split.
  - intros j. pose proof (ep_frame_of2 (Ent j 0)) as Hf. simpl in Hf. rewrite Hf.
    by case_decide.
  - intros k' j m y [(_ & _ & -> & ->)|Hh]%ep_holds; [|by eapply Hkeys].
    unfold page_key. case_decide as E; [|destruct ep_mb; lia].
    pose proof ep_ent as Hent. rewrite E, H0 in Hent. done.
  - intros k' j m y [(_ & _ & -> & _)|Hh]%ep_holds; apply ep_table; [|by eapply Htab].
    left. rewrite Ht. eauto.
Qed.

Lemma ep_view : clean s → ∀ j m w d', 0 ≤ m → view s2 j m w d' ↔ view s j m w d'.
Proof using All.
  intros Hc j m w d' Hm. destruct ep_mb as [Hn _].
  assert (n ≠ 0) as Hn0.
  { intros E. pose proof ep_ent as Hent. by rewrite E, (c_page0 s Hc) in Hent. }
  assert (page_key n = n) as Hkey by (unfold page_key; by rewrite decide_False).
  destruct (decide ((j, m) = (i, n))) as [E|Hne].
  - injection E as -> ->. unfold view. rewrite (ws_entry s1 s2 k _ H2).
    rewrite (we_entry s s1 i ft n _ Hinv Ht Hn H1), decide_True by done. split.
    + intros [(b' & [= <-] & Hv' & _)|(k' & y & Hh & <- & <-)]; [by rewrite ep_dead in Hv'|].
      apply ep_holds in Hh as [(_ & -> & _)|Hh]; [|by destruct (ep_not_stored k' y)].
      left. exists b. by rewrite Hd.
    + intros [(b' & Hb' & Hv' & <- & Hd')|(k' & y & Hh & _)]; [|by destruct (ep_not_stored k' y)].
      rewrite He in Hb'. injection Hb' as <-. right. exists k. eexists. split; [|split].
      * apply ep_holds. left. by rewrite Hkey.
      * done.
      * simpl. congruence.
  - rewrite <-(we_view s s1 i ft n _ Hinv Ht Hn H1 j m w d' Hne).
    apply view_ext; [apply (ws_entry s1 s2 k _ H2)|intros; apply (ws_frame_data s1 s2 k _ H2)|].
    intros k' y. rewrite (we_holds s s1 ft n _ H1), ep_holds, Hkey.
    split; [|by right]. intros [(_ & _ & -> & ->)|?]; done.
Qed.

Lemma ep_evicted : evicted s s2.
Proof using All.
  split; [apply ep_inv2|..|apply ep_view|intros _; apply ep_table|apply ep_clean].
  - intros o g. rewrite ep_frame_of2. by case_decide.
  - intros k' j m y Hh. apply ep_holds. by right.
  - intros k' j m y [(_ & _ & -> & ->)|Hh]%ep_holds Hm; [right|by left].
    unfold page_key, key_owner in *. destruct ep_mb.
    destruct (decide (n = 0)); [done|]. rewrite decide_False by lia. simpl. rewrite ep_ent. eauto.
  - intros H0 Hk k' j m y [(_ & _ & _ & ->)|Hh]%ep_holds; [|by eapply Hk].
    unfold page_key. destruct ep_mb. case_decide as E; [|lia]. pose proof ep_ent as Hent.
    by rewrite E, H0 in Hent.
Qed.
End evict_page.

Lemma free_entry s i ft n b :
  inv s → tab s i = Some ft → entry s i n = Some b → truthy (page_valid b) = true →
  wp (free_specific_frame (PMem (ft * PAGE_SIZE + n))) s (λ _ s',
    evicted s s' ∧ (∀ o, frame_of s' o = if decide (o = Ent i n) then None else frame_of s o) ∧
    robin s' = robin s).
Proof.
  intros Hinv Ht He Hv. destruct (ep_mb s i ft n b Ht He) as [Hn Hb].
  assert (∃ s1, set_mem (ft * PAGE_SIZE + n) (set_valid b 0) s = Some s1) as [s1 H1].
  { unfold set_mem. rewrite zset_Some by eauto with c_arr. eauto. }
  pose proof (ep_inv1 s s1 i ft n b Hinv Ht He Hv H1) as Hinv1.
  pose proof (ep_procc s i n b Hinv He) as Hproc.
  destruct (frame_data_total s (page_frame b) Hinv) as (d & Hd & _).
  { exact (ent_range s Hinv i n _ (ep_ent s i n b He Hv)). }
  apply (free_specific_wp _ s s1 (set_valid b 0) (page_key n) d); autorewrite with page2.
  - unfold upd_page. simpl. unfold mb in Hb. by rewrite Hb.
  - done.
  - simpl. change (mb s1 (ft * PAGE_SIZE + n) = Some (set_valid b 0)).
    rewrite (we_mb s s1 ft n _ H1). by rewrite decide_True.
  - apply (get_page_num_entry s1 i ft n Hinv1); [by rewrite (we_tab s s1 ft n _ H1)|done].
  - by rewrite (ep_data s s1 i ft n b Hinv Ht He Hv H1).
  - intros k x s2 Hx Hneg H2. rewrite Hproc in H2. split; [|split].
    + by eapply (ep_evicted s s1 i ft n b Hinv Ht He Hv H1 s2 k x d).
    + intros o. by rewrite (ws_frame_of s1 s2 k _ H2), (ep_frame_of1 s s1 i ft n b).
    + destruct (ws_parts s1 s2 k _ H2) as (m & _ & ->).
      by destruct (we_parts s s1 ft n _ H1) as (m' & _ & ->).
  - intros Hfull. split; [by eapply (ep_lost s s1 i ft n b)|split].
    + intros o. by rewrite (ep_frame_of1 s s1 i ft n b).
    + by destruct (we_parts s s1 ft n _ H1) as (m' & _ & ->).
Qed.

(** *** A resident page table none of whose pages is resident *)

Section evict_table.
Context (s s1 : state) (i p : Z).
Hypothesis Hinv : inv s.
Hypothesis Hp : zget (procTable s) i = Some p.
Hypothesis Hv : truthy (page_valid p) = true.
Hypothesis Hdead : ∀ n, ent s i n = None.
Hypothesis H1 : set_proc i (set_valid p 0) s = Some s1.

Lemma et_tab : tab s i = Some (page_frame p).
Proof using Hp Hv. rewrite (tab_intro s i p Hp). by rewrite Hv. Qed.

Lemma et_tab1 j : tab s1 j = if decide (j = i) then None else tab s j.
Proof using H1. rewrite (wp_tab s s1 i _ H1). by autorewrite with page2. Qed.

Lemma et_entry1 n : entry s1 i n = None.
Proof using H1. unfold entry. by rewrite et_tab1, decide_True. Qed.

Lemma et_ent1 n : ent s1 i n = None.
Proof using H1. unfold ent. by rewrite et_entry1. Qed.

Lemma et_frame_of1 o : frame_of s1 o = if decide (o = Tab i) then None else frame_of s o.
Proof using H1 Hdead.
  destruct o as [j|j m]; cbn [frame_of].
  - rewrite et_tab1. destruct (decide (j = i)) as [->|]; [by rewrite decide_True|].
    by rewrite decide_False by congruence.
  - rewrite decide_False by done. apply (wp_ent s s1 i _ H1 Hdead), et_ent1.
Qed.

Lemma et_inv1 : inv s1.
Proof using All.
  apply (wp_inv s s1 i (set_valid p 0) Hinv H1); auto.
  - apply set_valid_byte. exact (Forall_zget _ _ _ _ (i_proc_bytes s Hinv) Hp).
  - apply et_ent1.
  - by autorewrite with page2.
  - intros n b. by rewrite et_entry1.
  - left. by autorewrite with page2.
Qed.

Lemma et_procc : page_procc p = i.
Proof using Hinv Hp Hv. by eapply (i_tab_procc s Hinv). Qed.

Lemma et_not_stored k x : ¬ holds s k i (-1) x.
Proof using Hinv Hp Hv.
  intros Hh. destruct (i_stored_table s Hinv k i x Hh) as [E _]. by rewrite et_tab in E.
Qed.

Lemma et_lost : (∀ k, 0 ≤ k < STORE_FRAMES → ∃ j m x, holds s1 k j m x) → evicted s s1.
Proof using All.
  intros Hfull. pose proof et_inv1 as Hinv1.
  pose proof (wp_holds s s1 i _ H1) as Hholds1.
  assert (clean s → False) as Hnc.
  { intros Hc. destruct (slot_available s1 Hinv1) as (k & x & E & Hx & Hneg).
    { intros k j m x. rewrite Hholds1. apply (c_keys s Hc). }
    destruct (Hfull k) as (j & m & y & Hy & Hpid & _ & ?).
    { rewrite <-(i_store s1 Hinv1). by apply (zget_Some_bound _ _ x). }
    rewrite Hx in Hy. simplify_eq. lia. }
  split; try (intros Hc; by destruct (Hnc Hc)); [done|..].
  - intros o g. rewrite et_frame_of1. by case_decide.
  - intros k j m x. by rewrite Hholds1.
  - intros k j m x Hk _. left. by rewrite <-Hholds1.
  - intros _ Hk k j m x. rewrite Hholds1. apply Hk.
Qed.

Context (s2 : state) (k : Z) (x : storedFrame) (d : list Z).
Hypothesis Hx : slot s1 k = Some x.
Hypothesis Hneg : sf_pid x < 0.
Hypothesis Hd : frame_data (page_frame p) s = Some d.
Hypothesis H2 : set_slot k (mkStored d i (-1) (page_write p)) s1 = Some s2.

Lemma et_holds k' j m y : holds s2 k' j m y ↔
  (k' = k ∧ y = mkStored d i (-1) (page_write p) ∧ j = i ∧ m = -1) ∨ holds s k' j m y.
Proof using All.
  rewrite (ws_holds s1 s2 k _ H2). pose proof (wp_holds s s1 i _ H1) as Hh. case_decide as E.
  - subst k'. simpl. pose proof (tab_bound s Hinv i _ et_tab). split.
    + intros (-> & <- & <- & _). by left.
    + intros [(_ & -> & -> & ->)|Hk]; [by split_and!; try lia|].
      apply Hh in Hk as (Hk & <- & _ & ?). rewrite Hx in Hk. simplify_eq. lia.
  - rewrite Hh. split; [by right|]. intros [(-> & _)|?]; done.
Qed.

Lemma et_frame_of2 o : frame_of s2 o = if decide (o = Tab i) then None else frame_of s o.
Proof using All. rewrite (ws_frame_of s1 s2 k _ H2). apply et_frame_of1. Qed.

(** The stored bytes are entries that are not valid. *)
Lemma et_data_dead : Forall (dead_entry i) d.
Proof using All.
  apply frame_data_Some in Hd as [Hlen Hget]. apply Forall_lookup. intros m b Hm.
  pose proof (lookup_lt_Some _ _ _ Hm) as Hlt.
  destruct (Hget (Z.of_nat m)) as [E _]; [consts; lia|].
  unfold zget in E at 1. rewrite decide_True, Nat2Z.id, Hm in E by lia. symmetry in E.
  assert (entry s i (Z.of_nat m) = Some b) as He.
  { apply entry_Some. exists (page_frame p). split_and!; [apply et_tab|consts; lia..|done]. }
  split; [|by eapply (i_ent_procc s Hinv)].
  apply truthy_false. destruct (truthy (page_valid b)) eqn:E'; [|done].
  by destruct (ent_None_absurd s i _ b (Hdead (Z.of_nat m)) He).
Qed.

Lemma et_inv2 : inv s2.
Proof using All.
  pose proof et_inv1 as Hinv1. pose proof (tab_bound s Hinv i _ et_tab).
  destruct (frame_data_total s (page_frame p) Hinv) as (d' & Hd' & Hlen & Hby).
  { exact (i_range s Hinv (Tab i) _ et_tab). }
  rewrite Hd in Hd'. injection Hd' as <-.
  eapply (ws_inv s1 s2 k _ H2 Hinv1); simpl.
  - split; simpl; [done|done|lia|auto with c_bits|lia].
  - intros _. split_and!; [|split; [by rewrite et_tab1, decide_True|apply et_data_dead]|lia].
    intros _ k' y _ Hh. apply (wp_holds s s1 i _ H1) in Hh. by eapply et_not_stored.
Qed.

Lemma et_table j : has_table s2 j ↔ has_table s j.
Proof using All.
  destruct (decide (j = i)) as [->|Hne].
  - split; intros _; [left; rewrite et_tab; eauto|].
    right. exists k. eexists. apply et_holds. by left.
  - unfold has_table. pose proof (et_frame_of2 (Tab j)) as Hf. simpl in Hf.
    rewrite decide_False in Hf by congruence. rewrite Hf.
    split; (intros [?|(k' & y & Hh)]; [by left|right; exists k', y]).
    + by apply et_holds in Hh as [(_ & _ & -> & _)|?].
    + apply et_holds. by right.
Qed.

Lemma et_clean : clean s → clean s2.
Proof using All.
  intros [H0 Hkeys Htab]. split.
  - intros j. pose proof (et_frame_of2 (Ent j 0)) as Hf. simpl in Hf. by rewrite Hf.
  - intros k' j m y [(_ & _ & -> & ->)|Hh]%et_holds; [done|by eapply Hkeys].
  - intros k' j m y [(_ & _ & -> & _)|Hh]%et_holds; apply et_table; [|by eapply Htab].
    left. rewrite et_tab. eauto.
Qed.

Lemma et_view j m w d' : 0 ≤ m → view s2 j m w d' ↔ view s j m w d'.
Proof using All.
  intros Hm. rewrite <-(wp_view s s1 i _ H1 Hdead et_ent1 j m w d').
  apply view_ext; [apply (ws_entry s1 s2 k _ H2)|intros; apply (ws_frame_data s1 s2 k _ H2)|].
  intros k' y. rewrite (wp_holds s s1 i _ H1), et_holds.
  split; [|by right]. intros [(_ & _ & -> & ->)|?]; [lia|done].
Qed.

Lemma et_evicted : evicted s s2.
Proof using All.
  split; [apply et_inv2|..|intros _; apply et_view|intros _; apply et_table|apply et_clean].
  - intros o g. rewrite et_frame_of2. by case_decide.
  - intros k' j m y Hh. apply et_holds. by right.
  - intros k' j m y [(_ & _ & -> & ->)|Hh]%et_holds Hm; [right|by left].
    unfold key_owner. rewrite decide_True by done. simpl. rewrite et_tab. eauto.
  - intros H0 Hk k' j m y [(_ & _ & _ & ->)|Hh]%et_holds; [done|by eapply Hk].
Qed.
End evict_table.

Lemma free_table s i ft :
  inv s → tab s i = Some ft → (∀ n, ent s i n = None) →
  wp (free_specific_frame (PProc i)) s (λ _ s',
    evicted s s' ∧ (∀ o, frame_of s' o = if decide (o = Tab i) then None else frame_of s o) ∧
    robin s' = robin s).
Proof.
  intros Hinv Ht Hdead. pose proof (tab_bound s Hinv i ft Ht) as Hi.
  destruct (proc_in_range s Hinv i Hi) as (p & Hp & _).
  pose proof (tab_intro s i p Hp) as E. rewrite Ht in E.
  destruct (truthy (page_valid p)) eqn:Hv; [|done]. injection E as ->.
  assert (∃ s1, set_proc i (set_valid p 0) s = Some s1) as [s1 H1].
  { unfold set_proc. rewrite zset_Some; [eauto|]. by apply (zget_Some_bound _ _ p). }
  pose proof (et_inv1 s s1 i p Hinv Hp Hv Hdead H1) as Hinv1.
  pose proof (et_procc s i p Hinv Hp Hv) as Hproc.
  destruct (frame_data_total s (page_frame p) Hinv) as (d & Hd & _).
  { exact (i_range s Hinv (Tab i) _ Ht). }
  apply (free_specific_wp _ s s1 (set_valid p 0) (-1) d); autorewrite with page2.
  - unfold upd_page. simpl. by rewrite Hp.
  - done.
  - simpl. destruct (wp_parts s s1 i _ H1) as (t & Hset & ->). simpl.
    by rewrite (zget_zset _ _ i _ _ Hset), decide_True.
  - by apply get_page_num_proc.
  - by rewrite (wp_frame_data s s1 i _ H1).
  - intros k x s2 Hx Hneg H2. rewrite Hproc in H2. split; [|split].
    + by eapply (et_evicted s s1 i p Hinv Hp Hv Hdead H1 s2 k x d).
    + intros o. by rewrite (ws_frame_of s1 s2 k _ H2), (et_frame_of1 s s1 i p).
    + destruct (ws_parts s1 s2 k _ H2) as (m & _ & ->).
      by destruct (wp_parts s s1 i _ H1) as (m' & _ & ->).
  - intros Hfull. split; [by eapply (et_lost s s1 i p)|split].
    + intros o. by rewrite (et_frame_of1 s s1 i p).
    + by destruct (wp_parts s s1 i _ H1) as (m' & _ & ->).
Qed.
