(* ===== verification/Paging2Free.v ===== *)
(** * Project4/Part2: finding a frame

    [free_frame] and [find_free_frame] always end with a frame that nobody holds,
    having moved other frames out if needed, and never move the page table of the
    process that asks. *)

From S2P Require Import Prelude Paging2 Paging2Inv Paging2Write Paging2Evict.

(** ** Emptying a page table *)

(** The holders left after the pages [l] of [i] have been moved out. *)
Definition without (s : state) (i : Z) (l : list Z) (o : owner) : option Z :=
  match o with
  | Tab j => tab s j
  | Ent j m => if decide (j = i ∧ m ∈ l) then None else ent s j m
  end.

Lemma tab_page s i ft : inv s → tab s i = Some ft →
  ∃ p, zget (procTable s) i = Some p ∧ truthy (page_valid p) = true ∧ page_frame p = ft.
Proof.
  intros Hinv Ht. destruct (proc_in_range s Hinv i) as (p & Hp & _); [by eapply tab_bound|].
  exists p. pose proof (tab_intro s i p Hp) as E. rewrite Ht in E.
  destruct (truthy (page_valid p)); [|done]. by injection E as ->.
Qed.

Lemma without_step s s1 i l n :
  (∀ o, frame_of s1 o = without s i l o) →
  ∀ s2, (∀ o, frame_of s2 o = if decide (o = Ent i n) then None else frame_of s1 o) →
  ∀ o, frame_of s2 o = without s i (l ++ [n]) o.
Proof.
  intros H1 s2 H2 o. rewrite H2, H1. destruct o as [j|j m]; cbn [without]; [done|].
  destruct (decide (Ent j m = Ent i n)) as [E|Hne].
  - injection E as -> ->. rewrite decide_True; [done|]. split; [done|]. apply elem_of_app. right. by apply list_elem_of_singleton.
  - destruct (decide (j = i ∧ m ∈ l)) as [[-> Hm]|Hnot].
    + rewrite decide_True; [done|]. split; [done|]. apply elem_of_app. by left.
    + rewrite decide_False; [done|]. intros [-> Hm].
      apply elem_of_app in Hm as [?| ->%list_elem_of_singleton]; [by apply Hnot|done].
Qed.

Lemma without_skip s s1 i l n :
  (∀ o, frame_of s1 o = without s i l o) → ent s1 i n = None →
  ∀ o, frame_of s1 o = without s i (l ++ [n]) o.
Proof.
  intros H1 Hn. apply (without_step s s1 i l n H1). intros o.
  destruct (decide (o = Ent i n)) as [->|]; done.
Qed.

Lemma unload_table_spec s i ft :
  inv s → tab s i = Some ft →
  wp (unload_table (PProc i)) s (λ _ s',
    evicted s s' ∧ (∀ o, frame_of s' o = without s i (seqZ 0 PAGE_SIZE) o) ∧ robin s' = robin s).
Proof.
  intros Hinv Ht. unfold unload_table. destruct (tab_page s i ft Hinv Ht) as (p & Hp & _).
  apply wp_bind, (wp_reads _ _ _ p); [done|]. apply wp_bind, wp_emit.
  apply (wp_for_do _ _ _ (λ l s1, evicted s s1 ∧
    (∀ o, frame_of s1 o = without s i l o) ∧ robin s1 = robin s)).
  { split; [by apply evicted_refl|]. split; [|done]. intros [j|j m]; [done|]. cbn [without].
    rewrite decide_False; [done|]. intros [_ H]. by apply elem_of_nil in H. }
  intros l n l' s1 Hl (Hev & Hfo & Hrob).
  assert (0 ≤ n < PAGE_SIZE) as Hn.
  { assert (n ∈ seqZ 0 PAGE_SIZE) as H%elem_of_seqZ by (rewrite Hl; apply elem_of_middle). lia. }
  pose proof (ev_inv _ _ Hev) as Hinv1.
  assert (tab s1 i = Some ft) as Ht1 by (rewrite <-Ht; exact (Hfo (Tab i))).
  destruct (tab_page s1 i ft Hinv1 Ht1) as (p1 & Hp1 & _ & Hf1).
  destruct (entry_in_range s1 Hinv1 i ft n Ht1 Hn) as (b & He & Hb & _).
  apply wp_bind, (wp_reads _ _ _ p1); [done|]. rewrite Hf1.
  apply wp_bind, (wp_reads _ _ _ b); [done|].
  destruct (truthy (page_valid b)) eqn:Hv.
  - eapply wp_mono; [by eapply (free_entry s1 i ft n b)|]. simpl. intros _ s2 (Hev2 & Hfo2 & Hrob2).
    split; [by eapply evicted_trans|]. split; [|congruence]. by apply (without_step s s1).
  - apply wp_ret. split; [done|]. split; [|done]. apply without_skip; [done|]. by eapply ent_None.
Qed.

(** ** [free_frame] *)

Lemma evicted_robin s s' r s'' : evicted s s' → 0 ≤ r < PAGE_FRAMES → set_robin r s' = Some s'' →
  evicted s s''.
Proof.
  intros [I B S N K V T C] Hr Hs. split.
  - by eapply set_robin_inv.
  - injection Hs as <-. exact B.
  - injection Hs as <-. exact S.
  - injection Hs as <-. exact N.
  - injection Hs as <-. exact K.
  - injection Hs as <-. exact V.
  - injection Hs as <-. exact T.
  - injection Hs as <-. intros Hc. destruct (C Hc) as [C1 C2 C3]. by split.
Qed.

(** A frame is available, and the table of [pid] is where it was. *)
Definition freed (s : state) (pid : Z) (f : Z) (s' : state) : Prop :=
  evicted s s' ∧ 0 ≤ f < PAGE_FRAMES ∧ ¬ owned s' f ∧ tab s' pid = tab s pid.

(** The end of [free_frame], after the victim has been moved out. *)
Lemma free_frame_end s s' pid r :
  evicted s s' → robin s' = r → 0 ≤ r < PAGE_FRAMES → ¬ owned s' r → tab s' pid = tab s pid →
  wp (ret ← reads (λ s, Some (robin s)); _ ← advance_robin; mret ret) s' (freed s pid).
Proof.
  intros Hev Hrob Hr Hno Ht. apply wp_bind, (wp_reads _ _ _ r); [by rewrite Hrob|].
  unfold advance_robin. apply wp_bind. eapply wp_modifies; [done|]. apply wp_ret.
  split_and!; [|lia..|exact Hno|exact Ht].
  eapply evicted_robin; [done| |done]. apply next_robin_range. by rewrite Hrob.
Qed.

Lemma free_frame_victim fuel s pid o :
  inv s → frame_of s o = Some (robin s) → o ≠ Tab pid →
  wp (free_frame (S fuel) pid) s (freed s pid).
Proof.
  intros Hinv Ho Hne. pose proof (i_robin s Hinv) as Hr. simpl.
  apply wp_bind, (wp_reads _ _ _ (robin s)); [done|].
  destruct (frame_allocated_spec s (robin s) Hinv) as [(o' & Ho' & Hfa)|[Hno _]];
    [|by destruct Hno; exists o].
  assert (o' = o) as -> by exact (i_inj s Hinv _ _ _ Ho' Ho).
  apply wp_bind, (wp_reads _ _ _ (ptr_of s o)); [done|].
  destruct o as [i|i n]; cbn [ptr_of].
  - rewrite decide_False by congruence. apply wp_bind.
    eapply wp_mono; [by eapply (unload_table_spec s i (robin s))|]. simpl.
    intros _ s1 (Hev1 & Hfo1 & Hrob1). pose proof (ev_inv _ _ Hev1) as Hinv1.
    apply wp_bind. eapply wp_mono; [apply (free_table s1 i (robin s) Hinv1)|].
    + by rewrite (Hfo1 (Tab i) : tab s1 i = _).
    + intros n. rewrite (Hfo1 (Ent i n) : ent s1 i n = _). cbn [without].
      destruct (decide (i = i ∧ n ∈ seqZ 0 PAGE_SIZE)) as [|Hnot]; [done|].
      destruct (ent s i n) eqn:E; [|done]. apply ent_page_bound in E.
      destruct Hnot. split; [done|]. apply elem_of_seqZ. lia.
    + simpl. intros _ s2 (Hev2 & Hfo2 & Hrob2).
      apply (free_frame_end s s2 pid (robin s)); [by eapply evicted_trans|congruence|done| |].
      * intros [o Hf]. rewrite Hfo2 in Hf. destruct (decide (o = Tab i)) as [|Hoi]; [done|].
        apply (ev_back _ _ Hev1) in Hf. by apply Hoi, (i_inj s Hinv _ _ _ Hf Ho).
      * rewrite (Hfo2 (Tab pid) : tab s2 pid = _). rewrite decide_False by congruence.
        apply (Hfo1 (Tab pid)).
  - rewrite decide_False by done. apply wp_bind, wp_ret. apply wp_bind.
    pose proof Ho as (b & He & Hv & Hf)%ent_Some. pose proof He as (ft & Ht & Hn & _)%entry_Some.
    rewrite Ht. simpl. eapply wp_mono; [by eapply (free_entry s i ft n b)|]. simpl.
    intros _ s2 (Hev2 & Hfo2 & Hrob2). apply (free_frame_end s s2 pid (robin s)); [done..| |].
    + intros [o Hfo]. rewrite Hfo2 in Hfo. destruct (decide (o = Ent i n)) as [|Hoi]; [done|].
      by apply Hoi, (i_inj s Hinv _ _ _ Hfo Ho).
    + rewrite (Hfo2 (Tab pid) : tab s2 pid = _). done.
Qed.

(** At most one frame is skipped: the next one holds something else. *)
Lemma free_frame_spec fuel s pid :
  inv s → (∀ f, 0 ≤ f < PAGE_FRAMES → owned s f) →
  wp (free_frame (S (S fuel)) pid) s (freed s pid).
Proof.
  intros Hinv Hall. pose proof (i_robin s Hinv) as Hr. destruct (Hall (robin s) Hr) as [o Ho].
  destruct (decide (o = Tab pid)) as [->|Hne]; [|by apply (free_frame_victim _ s pid o)].
  pose proof (next_robin_range _ Hr) as Hr'.
  set (s1 := mkState (mainMemory s) (procTable s) (backingStore s) (next_robin (robin s))).
  assert (inv s1) as Hinv1 by by eapply (set_robin_inv s (next_robin (robin s)) s1).
  cbn [free_frame]. apply wp_bind, (wp_reads _ _ _ (robin s)); [done|].
  destruct (frame_allocated_spec s (robin s) Hinv) as [(o' & Ho' & Hfa)|[Hno _]];
    [|by destruct Hno; exists (Tab pid)].
  assert (o' = Tab pid) as -> by exact (i_inj s Hinv _ _ _ Ho' Ho).
  apply wp_bind, (wp_reads _ _ _ (ptr_of s (Tab pid))); [done|]. cbn [ptr_of].
  rewrite decide_True by done. apply wp_bind, wp_emit. unfold advance_robin.
  apply wp_bind, wp_modifies with s1; [done|].
  destruct (Hall _ Hr') as [o2 Ho2]. eapply wp_mono; [apply (free_frame_victim fuel s1 pid o2 Hinv1)|].
  - exact Ho2.
  - intros ->. pose proof Ho as Ho1. rewrite Ho2 in Ho1. injection Ho1. apply next_robin_neq.
  - intros f s' (Hev & Hf & Hno & Ht). split_and!; [|lia..|done|exact Ht].
    eapply evicted_trans; [|exact Hev].
    exact (evicted_robin s s _ s1 (evicted_refl s Hinv) Hr' eq_refl).
Qed.

Lemma find_free_frame_spec s pid : inv s → wp (find_free_frame pid) s (freed s pid).
Proof.
  intros Hinv. unfold find_free_frame. apply wp_bind. set (body := λ s i, a ← frame_allocated i s; if decide (a = PNull) then Some (Some i) else Some None).
  assert (∀ i, (owned s i ∧ body s i = Some None) ∨ (¬ owned s i ∧ body s i = Some (Some i))) as Hbody.
  { intros i. unfold body. destruct (frame_allocated_spec s i Hinv) as [(o & Ho & ->)|[Hno ->]]; cbn [mbind option_bind].
    - left. split; [by exists o|]. rewrite decide_False; [done|]. apply ptr_of_not_null.
    - right. by rewrite decide_True. }
  destruct (for_ret_seqZ_total 0 PAGE_FRAMES (body s)) as [[i|] Hr].
  { intros i _. destruct (Hbody i) as [[_ ->]|[_ ->]]; eauto. }
  - eapply wp_reads; [exact Hr|]. apply wp_ret. apply for_ret_seqZ in Hr as (j & Hj & Hb & _).
    destruct (Hbody j) as [[_ E]|[Hno E]]; rewrite Hb in E; [done|]. injection E as ->.
    split_and!; [by apply evicted_refl|lia..|done|done].
  - eapply wp_reads; [exact Hr|]. apply (free_frame_spec 4 s pid Hinv). intros f Hf.
    rewrite for_ret_seqZ_None in Hr. destruct (Hbody f) as [[? _]|[_ E]]; [done|].
    rewrite Hr in E; [done|lia].
Qed.
