(* ===== verification/Paging2Load.v ===== *)
(** * Project4/Part2: bringing frames back

    [check_backing_store], [init_table] and [find_page]: after a call the table or
    page asked for is resident if it exists anywhere, and no process sees a
    difference in its memory. *)

From S2P Require Import Prelude Paging2 Paging2Inv Paging2Write Paging2Evict Paging2Free.

(** ** Operations no process can see *)

Record moved (s s' : state) : Prop := mkMoved {
  mv_inv : inv s';
  mv_clean : clean s → clean s';
  mv_view : clean s → ∀ i n w d, 0 ≤ n → view s' i n w d ↔ view s i n w d;
}.

Lemma moved_refl s : inv s → moved s s.
Proof. by split. Qed.

Lemma moved_trans s1 s2 s3 : moved s1 s2 → moved s2 s3 → moved s1 s3.
Proof.
  intros [I1 C1 V1] [I2 C2 V2]. split; auto.
  intros Hc i n w d Hn. rewrite V2, V1; auto.
Qed.

Lemma evicted_moved s s' : evicted s s' → moved s s'.
Proof. intros [I _ _ _ _ V _ C]. by split. Qed.

(** ** Looking up a key *)

Lemma stored_slot_spec s pid n : inv s → 0 ≤ pid →
  (∃ k x, stored_slot pid n s = Some (Some k) ∧ holds s k pid n x) ∨
  (stored_slot pid n s = Some None ∧ ∀ k x, ¬ holds s k pid n x).
Proof.
  intros Hinv Hpid. unfold stored_slot. set (body := λ i, x ← zget (backingStore s) i;
    if (sf_pid x =? pid) && (sf_page x =? n) then Some (Some i) else Some None).
  assert (∀ k, 0 ≤ k < STORE_FRAMES → ∃ x, slot s k = Some x ∧
    body k = Some (if (sf_pid x =? pid) && (sf_page x =? n) then Some k else None)) as Hbody.
  { intros k Hk. destruct (zget_is_Some (backingStore s) k) as [x Hx]; [by rewrite (i_store s Hinv)|].
    exists x. split; [done|]. unfold body. rewrite Hx. simpl. by destruct (_ && _). }
  destruct (for_ret_seqZ_total 0 STORE_FRAMES body) as [[k|] Hr].
  { intros k Hk. destruct (Hbody k) as (x & _ & ->); [lia|]. eauto. }
  - left. pose proof Hr as Hr'. apply for_ret_seqZ in Hr' as (i & Hi & Hb & _).
    destruct (Hbody i) as (x & Hx & E); [lia|]. rewrite Hb in E.
    destruct (Z.eqb_spec (sf_pid x) pid), (Z.eqb_spec (sf_page x) n); try discriminate E.
    injection E as ->. by exists i, x.
  - right. split; [done|]. intros k x (Hx & Hp & Hn & _). rewrite for_ret_seqZ_None in Hr.
    assert (0 ≤ k < STORE_FRAMES) as Hk.
    { rewrite <-(i_store s Hinv). by apply (zget_Some_bound _ _ x). }
    destruct (Hbody k Hk) as (x' & Hx' & E). rewrite Hr in E by lia.
    rewrite Hx in Hx'. injection Hx' as <-.
    by rewrite (proj2 (Z.eqb_eq _ _) Hp), (proj2 (Z.eqb_eq _ _) Hn) in E.
Qed.

(** ** Filling a frame *)

Record filled (s : state) (f : Z) (val : Z → Z) (s' : state) : Prop := mkFilled {
  fi_proc : procTable s' = procTable s;
  fi_store : backingStore s' = backingStore s;
  fi_robin : robin s' = robin s;
  fi_len : length (mainMemory s') = length (mainMemory s);
  fi_other : ∀ g k, 0 ≤ k < PAGE_SIZE → g ≠ f → mb s' (g * PAGE_SIZE + k) = mb s (g * PAGE_SIZE + k);
  fi_in : ∀ k, 0 ≤ k < PAGE_SIZE → mb s' (f * PAGE_SIZE + k) = Some (val k);
}.

(** A loop over a frame that writes one byte per iteration. *)
Lemma wp_fill_frame s f val (body : Z → prog unit) :
  zlen (mainMemory s) = PHYS_MEM_SIZE → 0 ≤ f < PAGE_FRAMES →
  (∀ j t, 0 ≤ j < PAGE_SIZE → backingStore t = backingStore s → procTable t = procTable s →
    mb t (f * PAGE_SIZE + j) = mb s (f * PAGE_SIZE + j) →
    zlen (mainMemory t) = PHYS_MEM_SIZE →
    wp (body j) t (λ _ t', set_mem (f * PAGE_SIZE + j) (val j) t = Some t')) →
  wp (for_do (seqZ 0 PAGE_SIZE) body) s (λ _ s', filled s f val s').
Proof.
  intros Hlen Hf Hbody.
  eapply wp_mono; [apply (wp_for_do _ _ _ (λ l t,
    procTable t = procTable s ∧ backingStore t = backingStore s ∧ robin t = robin s ∧
    length (mainMemory t) = length (mainMemory s) ∧
    (∀ g k, 0 ≤ k < PAGE_SIZE → g ≠ f → mb t (g * PAGE_SIZE + k) = mb s (g * PAGE_SIZE + k)) ∧
    (∀ k, 0 ≤ k < PAGE_SIZE → mb t (f * PAGE_SIZE + k) =
      if decide (k ∈ l) then Some (val k) else mb s (f * PAGE_SIZE + k))))|].
  - split_and!; try done.
  - intros l1 j l2 t Hl (Hp & Hs & Hr & Hm & Ho & Hi).
    assert (j ∈ seqZ 0 PAGE_SIZE) as Hj%elem_of_seqZ by (rewrite Hl; apply elem_of_middle).
    assert (j ∉ l1) as Hfresh.
    { pose proof (NoDup_seqZ 0 PAGE_SIZE) as Hnd. rewrite Hl in Hnd.
      apply NoDup_app in Hnd as (_ & Hnd & _). intros Hin. apply (Hnd j Hin). by left. }
    eapply wp_mono; [apply Hbody; [lia|done|done| |unfold zlen in *; by rewrite Hm]|].
    { rewrite Hi by lia. by rewrite decide_False. }
    simpl. intros _ t' Ht'. pose proof (we_mb t t' f j _ Ht') as Hmb.
    destruct (we_parts t t' f j _ Ht') as (m & Hset & E).
    split_and!; [by rewrite E..| | |].
    + rewrite E. simpl. pose proof (zset_zlen _ _ _ _ Hset). unfold zlen in *. lia.
    + intros g k Hk Hg. rewrite Hmb, decide_False; [by apply Ho|].
      intros Ha. apply addr_split in Ha as [E1 _]; [done|lia|done].
    + intros k Hk. rewrite Hmb. destruct (decide (k = j)) as [->|Hkj].
      * rewrite !decide_True; [done| |done]. apply elem_of_app. right. by left.
      * rewrite decide_False by (intros Ha; apply addr_split in Ha; lia).
        rewrite Hi by done. destruct (decide (k ∈ l1)) as [Hin|Hin].
        -- rewrite decide_True; [done|]. apply elem_of_app. by left.
        -- rewrite decide_False; [done|].
           intros [?| ->%list_elem_of_singleton]%elem_of_app; done.
  - simpl. intros _ t (Hp & Hs & Hr & Hm & Ho & Hi). split; try done.
    intros k Hk. rewrite Hi by done. rewrite decide_True; [done|]. apply elem_of_seqZ. lia.
Qed.

Section filled.
Context (s s' : state) (f : Z) (val : Z → Z).
Hypothesis Hinv : inv s.
Hypothesis Hfree : ¬ owned s f.
Hypothesis Hf : 0 ≤ f < PAGE_FRAMES.
Hypothesis Hfi : filled s f val s'.
Hypothesis Hval : ∀ k, 0 ≤ k < PAGE_SIZE → is_byte (val k).

Lemma fi_no_table i : tab s i ≠ Some f.
Proof using Hfree. intros H. apply Hfree. by exists (Tab i). Qed.

Lemma fi_bytes : Forall is_byte (mainMemory s').
Proof using Hinv Hf Hfi Hval.
  apply Forall_lookup. intros a b Ha. pose proof (lookup_lt_Some _ _ _ Ha) as Hlt.
  pose proof (i_mem s Hinv) as Hlen. unfold zlen in Hlen. rewrite (fi_len _ _ _ _ Hfi) in Hlt.
  pose proof (Z.div_mod (Z.of_nat a) PAGE_SIZE ltac:(consts; lia)) as Hdm.
  pose proof (Z.mod_pos_bound (Z.of_nat a) PAGE_SIZE ltac:(consts; lia)) as Hmod.
  set (g := Z.of_nat a / PAGE_SIZE) in *. set (k := Z.of_nat a mod PAGE_SIZE) in *.
  assert (mb s' (g * PAGE_SIZE + k) = Some b) as Hb.
  { unfold mb, zget. replace (g * PAGE_SIZE + k) with (Z.of_nat a) by lia.
    by rewrite decide_True, Nat2Z.id by lia. }
  destruct (decide (g = f)) as [E|Hne].
  - rewrite E, (fi_in _ _ _ _ Hfi k Hmod) in Hb. injection Hb as <-. by apply Hval.
  - rewrite (fi_other _ _ _ _ Hfi g k Hmod Hne) in Hb.
    exact (Forall_zget _ _ _ _ (i_mem_bytes s Hinv) Hb).
Qed.

Lemma fi_inv : inv s'.
Proof using All.
  destruct Hfi. apply (wf_inv s s' f); auto; [apply fi_no_table|apply fi_bytes].
Qed.

Lemma fi_frame_of o : frame_of s' o = frame_of s o.
Proof using Hfree Hfi. destruct Hfi. apply (wf_frame_of s s' f); auto. apply fi_no_table. Qed.

Lemma fi_holds k i n x : holds s' k i n x ↔ holds s k i n x.
Proof using Hfi. destruct Hfi. by apply (wf_holds s s'). Qed.

Lemma fi_free : ¬ owned s' f.
Proof using Hfree Hfi. intros [o Ho]. apply Hfree. exists o. by rewrite <-fi_frame_of. Qed.

Lemma fi_clean : clean s → clean s'.
Proof using Hfree Hfi. destruct Hfi. apply (wf_clean s s' f); auto. apply fi_no_table. Qed.

Lemma fi_view i n w d : view s' i n w d ↔ view s i n w d.
Proof using Hfree Hfi.
  destruct Hfi. apply (wf_view s s' f); auto; [apply fi_no_table|].
  intros H. apply Hfree. by exists (Ent i n).
Qed.

End filled.

(** ** Assigning to the fields of a [page_t] *)

Definition put_page (page : ptr) (b : Z) (s : state) : option state :=
  match page with
  | PNull => None
  | PProc i => set_proc i b s
  | PMem a => set_mem a b s
  end.

Lemma put_page_put page b b' s s1 : put_page page b s = Some s1 → put_page page b' s1 = put_page page b' s.
Proof.
  destruct page as [|i|a]; simpl; [done|..].
  - unfold set_proc. intros (t & Ht & [= <-])%bind_Some. simpl. by rewrite (zset_zset _ _ _ _ _ Ht).
  - unfold set_mem. intros (m & Hm & [= <-])%bind_Some. simpl. by rewrite (zset_zset _ _ _ _ _ Hm).
Qed.

Lemma put_page_deref page b s s1 : put_page page b s = Some s1 → deref page s1 = Some b.
Proof.
  destruct page as [|i|a]; simpl; [done|..].
  - unfold set_proc. intros (t & Ht & [= <-])%bind_Some. simpl. eauto with c_arr.
  - unfold set_mem. intros (m & Hm & [= <-])%bind_Some. simpl. eauto with c_arr.
Qed.

Lemma deref_put_page page b b' s : deref page s = Some b → ∃ s', put_page page b' s = Some s'.
Proof.
  destruct page as [|i|a]; simpl; [done|..]; intros H%zget_Some_bound.
  - unfold set_proc. rewrite zset_Some by done. simpl. eauto.
  - unfold set_mem. rewrite zset_Some by done. simpl. eauto.
Qed.

(** Consecutive assignments to one [page_t]: the last state is [s] with the last
    byte. *)
Lemma wp_upd_first page g s b (Q : unit → state → Prop) :
  deref page s = Some b → (∀ s', put_page page (g b) s = Some s' → Q tt s') →
  wp (modifies (upd_page page g) : prog unit) s Q.
Proof.
  intros Hb HQ. destruct (deref_put_page page b (g b) s Hb) as [s' Hs'].
  apply wp_modifies with s'; [|by apply HQ]. unfold upd_page. rewrite Hb. by destruct page.
Qed.

Lemma wp_upd_next page g s0 s b (Q : unit → state → Prop) :
  put_page page b s0 = Some s → (∀ s', put_page page (g b) s0 = Some s' → Q tt s') →
  wp (modifies (upd_page page g) : prog unit) s Q.
Proof.
  intros Hb HQ. apply (wp_upd_first page g s b); [by eapply put_page_deref|].
  intros s' Hs'. apply HQ. by rewrite <-(put_page_put _ _ _ _ _ Hb).
Qed.

Lemma fill_page_wp page f procc w s b (Q : unit → state → Prop) :
  deref page s = Some b →
  (∀ s', put_page page (set_write (set_valid (set_procc (set_frame b f) procc) 1) w) s = Some s' →
    Q tt s') →
  wp (fill_page page f procc w) s Q.
Proof.
  intros Hb HQ. unfold fill_page. apply wp_bind.
  eapply wp_upd_first; [done|]. intros s1 H1. apply wp_bind.
  eapply wp_upd_next; [done|]. intros s2 H2. apply wp_bind.
  eapply wp_upd_next; [done|]. intros s3 H3.
  by eapply wp_upd_next.
Qed.

(** Writing a [page_t] and freeing a slot commute. *)
Lemma put_page_slot page b k x s s1 s2 :
  put_page page b s = Some s1 → set_slot k x s1 = Some s2 →
  ∃ s1', set_slot k x s = Some s1' ∧ put_page page b s1' = Some s2.
Proof.
  unfold set_slot. intros H (st & Hst & [= <-])%bind_Some.
  assert (backingStore s1 = backingStore s) as E.
  { destruct page; simpl in H; [done|..].
    - unfold set_proc in H. by apply bind_Some in H as (? & _ & [= <-]).
    - unfold set_mem in H. by apply bind_Some in H as (? & _ & [= <-]). }
  rewrite E in Hst. rewrite Hst. simpl. eexists. split; [done|].
  destruct page; simpl in *; [done|..].
  - unfold set_proc in *. apply bind_Some in H as (t & Ht & [= <-]). simpl. by rewrite Ht.
  - unfold set_mem in *. apply bind_Some in H as (t & Ht & [= <-]). simpl. by rewrite Ht.
Qed.

(** ** Freeing the slot of a frame that was copied back *)

Section release.
Context (s s' : state) (k0 : Z) (x0 : storedFrame) (pid n0 : Z).
Hypothesis Hinv : inv s.
Hypothesis Hh0 : holds s k0 pid n0 x0.
Hypothesis Hs' : set_slot k0 (mkStored (sf_data x0) (-1) (sf_page x0) (sf_write x0)) s = Some s'.

Lemma rl_holds k i n x : holds s' k i n x ↔ holds s k i n x ∧ k ≠ k0.
Proof using Hs' Hh0.
  rewrite (ws_holds s s' k0 _ Hs'). case_decide as E; simpl.
  - subst. split; [|by intros [_ ?]]. intros (_ & <- & _ & ?). lia.
  - split; [by split|by intros [? _]].
Qed.

Lemma rl_inv : inv s'.
Proof using All.
  destruct Hh0 as (Hx & _). destruct (i_slot s Hinv k0 x0 Hx) as [L B _ W _].
  apply (ws_inv s s' k0 _ Hs' Hinv); simpl; [|lia].
  split; simpl; [done|done|consts; lia|done|lia].
Qed.

Lemma rl_gone k x : n0 ≠ -2 → ¬ holds s' k pid n0 x.
Proof using Hs' Hinv Hh0.
  intros Hn [Hh Hk]%rl_holds. apply Hk. exact (i_unique s Hinv _ _ _ _ _ _ Hh Hh0 Hn).
Qed.

Lemma rl_other k i n x : (i, n) ≠ (pid, n0) → holds s' k i n x ↔ holds s k i n x.
Proof using Hs' Hh0.
  intros Hne. rewrite rl_holds. split; [by intros [? _]|]. intros Hh. split; [done|].
  intros ->. destruct Hh as (Hx & <- & <- & _), Hh0 as (Hx0 & <- & <- & _).
  rewrite Hx in Hx0. by injection Hx0 as ->.
Qed.

Lemma rl_view i n w d : (i, n) ≠ (pid, n0) → view s' i n w d ↔ view s i n w d.
Proof using Hs' Hh0.
  intros Hne. apply view_ext; [apply (ws_entry s s' k0 _ Hs')
    |intros; apply (ws_frame_data s s' k0 _ Hs')|]. intros k x. by apply rl_other.
Qed.
End release.

Lemma stored_bytes s k pid n x j : inv s → holds s k pid n x → 0 ≤ j < PAGE_SIZE →
  zget (sf_data x) j = Some (default 0 (zget (sf_data x) j)) ∧ is_byte (default 0 (zget (sf_data x) j)).
Proof.
  intros Hinv (Hx & _) Hj. destruct (i_slot s Hinv k x Hx) as [L B _ _ _].
  destruct (zget_is_Some (sf_data x) j) as [v Hv].
  { unfold zlen. rewrite L. consts. lia. }
  rewrite Hv. split; [done|]. simpl. exact (Forall_zget _ _ _ _ B Hv).
Qed.

(** ** A page comes back *)

Section load_page.
(** [s1]: a frame [f] was found; [s2]: the bytes were copied; [s4]: the slot was
    freed and the entry filled in. *)
Context (s1 s2 s3 s4 : state) (pid n ft f k b : Z) (x : storedFrame).
Hypothesis Hinv : inv s1.
Hypothesis Ht : tab s1 pid = Some ft.
Hypothesis Hn : 1 ≤ n ≤ 3.
Hypothesis Hfree : ¬ owned s1 f.
Hypothesis Hf : 0 ≤ f < PAGE_FRAMES.
Hypothesis Hh : holds s1 k pid n x.
Hypothesis Hfill : filled s1 f (λ j, default 0 (zget (sf_data x) j)) s2.
Hypothesis Hb : entry s2 pid n = Some b.
Hypothesis H3 : set_slot k (mkStored (sf_data x) (-1) (sf_page x) (sf_write x)) s2 = Some s3.
Hypothesis H4 : set_mem (ft * PAGE_SIZE + n)
  (set_write (set_valid (set_procc (set_frame b f) pid) 1) (sf_write x)) s3 = Some s4.

Lemma lp_inv2 : inv s2.
Proof using Hinv Hfree Hf Hh Hfill.
  apply (fi_inv s1 s2 f _ Hinv Hfree Hf Hfill). intros j Hj. by eapply stored_bytes.
Qed.

Lemma lp_holds2 : holds s2 k pid n x.
Proof using Hh Hfill. by rewrite (fi_holds s1 s2 f _ Hfill). Qed.

Lemma lp_inv3 : inv s3.
Proof using Hinv Hfree Hf Hh Hfill H3. exact (rl_inv s2 s3 k x pid n lp_inv2 lp_holds2 H3). Qed.

Lemma lp_tab3 : tab s3 pid = Some ft.
Proof using Ht Hfree Hfill H3.
  rewrite (ws_tab s2 s3 k _ H3), <-Ht. exact (fi_frame_of s1 s2 f _ Hfree Hfill (Tab pid)).
Qed.

Lemma lp_entry3 : entry s3 pid n = Some b.
Proof using Hb H3. by rewrite (ws_entry s2 s3 k _ H3). Qed.

Lemma lp_free3 : ¬ owned s3 f.
Proof using Hfree Hfill H3.
  intros [o Ho]. rewrite (ws_frame_of s2 s3 k _ H3) in Ho.
  apply (fi_free s1 s2 f _ Hfree Hfill). by exists o.
Qed.

Lemma lp_pid : 0 ≤ pid < MAX_PROCESSES.
Proof using Hinv Ht. by eapply tab_bound. Qed.

Lemma lp_new : page_frame (set_write (set_valid (set_procc (set_frame b f) pid) 1) (sf_write x)) = f.
Proof using Hf. autorewrite with page2. apply Z.mod_small. consts. lia. Qed.

Lemma lp_inv4 : inv s4.
Proof using All.
  assert (0 ≤ n < PAGE_SIZE) as Hn' by (consts; lia).
  apply (we_inv s3 s4 pid ft n _ lp_inv3 lp_tab3 Hn' H4).
  - destruct (entry_in_range s3 lp_inv3 pid ft n lp_tab3 Hn') as (b' & Hb' & _ & Hby).
    rewrite lp_entry3 in Hb'. injection Hb' as <-. auto with c_bits.
  - autorewrite with page2. apply Z.mod_small. pose proof lp_pid. consts. lia.
  - right. right. rewrite lp_new. split_and!; [lia..|apply lp_free3|].
    intros k' x' Hk'. eapply (rl_gone s2 s3 k x pid n lp_inv2 lp_holds2 H3); [|exact Hk']. lia.
Qed.

Lemma lp_ent4 i m : ent s4 i m = if decide (i = pid ∧ m = n) then Some f else ent s1 i m.
Proof using Hinv Ht Hn Hfree Hf Hh Hfill H3 H4.
  rewrite (we_ent s3 s4 pid ft n _ lp_inv3 lp_tab3 ltac:(consts; lia) H4).
  case_decide.
  - autorewrite with page2. simpl. f_equal. apply Z.mod_small. consts. lia.
  - rewrite (ws_ent s2 s3 k _ H3). exact (fi_frame_of s1 s2 f _ Hfree Hfill (Ent i m)).
Qed.

Lemma lp_tab4 i : tab s4 i = tab s1 i.
Proof using Hfree Hfill H3 H4.
  rewrite (we_tab s3 s4 ft n _ H4), (ws_tab s2 s3 k _ H3).
  exact (fi_frame_of s1 s2 f _ Hfree Hfill (Tab i)).
Qed.

Lemma lp_holds4 k' i m y : holds s4 k' i m y ↔ holds s1 k' i m y ∧ k' ≠ k.
Proof using Hh Hfill H3 H4.
  rewrite (we_holds s3 s4 ft n _ H4), (rl_holds s2 s3 k x pid n lp_holds2 H3).
  by rewrite (fi_holds s1 s2 f _ Hfill).
Qed.

Lemma lp_data : frame_data f s4 = Some (sf_data x).
Proof using Hinv Ht Hn Hfree Hf Hh Hfill H3 H4.
  assert (f ≠ ft) as Hne by (intros ->; apply Hfree; by exists (Tab pid)).
  rewrite (we_frame_data s3 s4 ft n _ ltac:(consts; lia) H4 f Hne), (ws_frame_data s2 s3 k _ H3).
  apply frame_data_Some.
  split; [by destruct (i_slot s1 Hinv k x (proj1 Hh))|]. intros j Hj.
  rewrite (fi_in _ _ _ _ Hfill j Hj). destruct (stored_bytes s1 k pid n x j Hinv Hh Hj) as [E _]. rewrite E. eauto.
Qed.

(** The page shows the same bytes, now from memory. *)
Lemma lp_view i m w d : view s4 i m w d ↔ view s1 i m w d.
Proof using All.
  destruct (decide ((i, m) = (pid, n))) as [E|Hne].
  - injection E as -> ->. unfold view.
    rewrite (we_entry s3 s4 pid ft n _ lp_inv3 lp_tab3 ltac:(consts; lia) H4), decide_True by done.
    pose proof (proj1 Hh) as Hx. destruct (i_slot s1 Hinv k x Hx) as [_ _ _ Hw _]. split.
    + intros [(b' & [= <-] & _ & <- & Hd)|(k' & y & Hk & _)].
      * right. exists k, x. split; [done|]. autorewrite with page2. rewrite lp_new, lp_data in Hd.
        rewrite Z.mod_small by done. by injection Hd as ->.
      * apply lp_holds4 in Hk as [Hk Hkk]. destruct Hkk.
        eapply (i_unique s1 Hinv); [done..|lia].
    + intros [(b' & Hb' & Hv' & _)|(k' & y & Hk & <- & <-)].
      * destruct (ent_None_absurd s1 pid n b'); [|done..].
        apply (i_stored_page s1 Hinv k pid n x Hh). lia.
      * assert (k' = k) as -> by (eapply (i_unique s1 Hinv); [done..|lia]).
        destruct Hk as (Hy & _). rewrite Hx in Hy. injection Hy as <-.
        left. eexists. split; [done|]. split; [by autorewrite with page2|].
        split; [autorewrite with page2; by apply Z.mod_small|]. by rewrite lp_new, lp_data.
  - rewrite (we_view s3 s4 pid ft n _ lp_inv3 lp_tab3 ltac:(consts; lia) H4) by done.
    rewrite (rl_view s2 s3 k x pid n lp_holds2 H3) by done. apply (fi_view s1 s2 f _ Hfree Hfill).
Qed.

Lemma lp_clean : clean s1 → clean s4.
Proof using All.
  intros [H0 Hkeys Htab].
  assert (∀ i, has_table s1 i → has_table s4 i) as Hhas.
  { intros i [Hi|(k' & y & Hk)]; [left; by rewrite lp_tab4|].
    right. exists k', y. apply lp_holds4. split; [done|]. intros ->.
    destruct Hk as (Hy & _ & E & _), Hh as (Hx & _ & E' & _). rewrite Hx in Hy. simplify_eq. lia. }
  split.
  - intros i. rewrite lp_ent4, decide_False by lia. apply H0.
  - intros k' i m y [Hk _]%lp_holds4. by eapply Hkeys.
  - intros k' i m y [Hk _]%lp_holds4. by eapply Hhas, Htab.
Qed.

Lemma lp_moved : moved s1 s4.
Proof using All. split; [apply lp_inv4|apply lp_clean|]. intros _ i m w d _. apply lp_view. Qed.
End load_page.

(** ** A page table is attached to its process *)

Section attach.
Context (s s' : state) (pid p' f : Z).
Hypothesis Hinv : inv s.
Hypothesis Ht : tab s pid = None.
Hypothesis Hfree : ¬ owned s f.
Hypothesis Hf : 0 ≤ f < PAGE_FRAMES.
Hypothesis Hns : ∀ k x, ¬ holds s k pid (-1) x.
Hypothesis Hdead : ∀ j, 0 ≤ j < PAGE_SIZE → ∃ b, mb s (f * PAGE_SIZE + j) = Some b ∧ dead_entry pid b.
Hypothesis Hbyte : is_byte p'.
Hypothesis Hv : truthy (page_valid p') = true.
Hypothesis Hpf : page_frame p' = f.
Hypothesis Hpp : page_procc p' = pid.
Hypothesis Hs' : set_proc pid p' s = Some s'.

Lemma at_tab i : tab s' i = if decide (i = pid) then Some f else tab s i.
Proof using Hv Hpf Hs'. by rewrite (wp_tab s s' pid p' Hs'), Hv, Hpf. Qed.

Lemma at_entry n b : entry s' pid n = Some b → dead_entry pid b.
Proof using Hv Hpf Hs' Hdead.
  intros (ft & Hft & Hn & Hb)%entry_Some. rewrite at_tab, decide_True in Hft by done.
  injection Hft as <-. destruct (Hdead n Hn) as (b' & Hb' & Hd).
  rewrite (wp_mb s s' pid p' Hs'), Hb' in Hb. by injection Hb as <-.
Qed.

Lemma at_ent_pid n : ent s' pid n = None.
Proof using Hv Hpf Hs' Hdead.
  destruct (ent s' pid n) as [g|] eqn:E; [|done].
  apply ent_Some in E as (b & [Hb _]%at_entry & Hvb & _). by rewrite Hb in Hvb.
Qed.

Lemma ent_no_table n : ent s pid n = None.
Proof using Ht. unfold ent, entry. by rewrite Ht. Qed.

Lemma at_ent i n : ent s' i n = ent s i n.
Proof using Hv Hpf Hs' Hdead Ht.
  apply (wp_ent s s' pid p' Hs'); [apply ent_no_table|apply at_ent_pid].
Qed.

Lemma at_inv : inv s'.
Proof using All.
  apply (wp_inv s s' pid p' Hinv Hs' Hbyte); [apply ent_no_table|apply at_ent_pid|done| |].
  - intros n b [_ ?]%at_entry. done.
  - right. by rewrite Hpf.
Qed.

Lemma at_view i n w d : view s' i n w d ↔ view s i n w d.
Proof using Hv Hpf Hs' Hdead Ht.
  apply (wp_view s s' pid p' Hs'); [apply ent_no_table|apply at_ent_pid].
Qed.

Lemma at_clean :
  (∀ i, ent s i 0 = None) → (∀ k i n x, holds s k i n x → n ≠ -2) →
  (∀ k i n x, holds s k i n x → i = pid ∨ has_table s i) → clean s'.
Proof using Hv Hpf Hs' Hdead Ht.
  intros H0 Hkeys Htab. split.
  - intros i. by rewrite at_ent.
  - intros k i n x Hh. apply (wp_holds s s' pid p' Hs') in Hh. by eapply Hkeys.
  - intros k i n x Hh. apply (wp_holds s s' pid p' Hs') in Hh.
    destruct (decide (i = pid)) as [->|Hne].
    { left. rewrite at_tab, decide_True by done. eauto. }
    destruct (Htab _ _ _ _ Hh) as [?|[Hi|(k' & y & Hk)]]; [done|..].
    + left. by rewrite at_tab, decide_False.
    + right. exists k', y. by apply (wp_holds s s' pid p' Hs').
Qed.
End attach.

(** *** From the backing store *)

Section load_table.
Context (s1 s2 s3 s4 : state) (pid f k p : Z) (x : storedFrame).
Hypothesis Hinv : inv s1.
Hypothesis Hpid : 0 ≤ pid < MAX_PROCESSES.
Hypothesis Hfree : ¬ owned s1 f.
Hypothesis Hf : 0 ≤ f < PAGE_FRAMES.
Hypothesis Hh : holds s1 k pid (-1) x.
Hypothesis Hfill : filled s1 f (λ j, default 0 (zget (sf_data x) j)) s2.
Hypothesis H3 : set_slot k (mkStored (sf_data x) (-1) (sf_page x) (sf_write x)) s2 = Some s3.
Hypothesis Hp : is_byte p.
Hypothesis H4 : set_proc pid (set_write (set_valid (set_procc (set_frame p f) pid) 1) (sf_write x)) s3
  = Some s4.

Lemma lt_inv2 : inv s2.
Proof using Hinv Hfree Hf Hh Hfill.
  apply (fi_inv s1 s2 f _ Hinv Hfree Hf Hfill). intros j Hj. by eapply stored_bytes.
Qed.

Lemma lt_holds2 : holds s2 k pid (-1) x.
Proof using Hh Hfill. by rewrite (fi_holds s1 s2 f _ Hfill). Qed.

Lemma lt_inv3 : inv s3.
Proof using Hinv Hfree Hf Hh Hfill H3. exact (rl_inv s2 s3 k x pid (-1) lt_inv2 lt_holds2 H3). Qed.

Lemma lt_frame_of3 o : frame_of s3 o = frame_of s1 o.
Proof using Hfree Hfill H3.
  rewrite (ws_frame_of s2 s3 k _ H3). exact (fi_frame_of s1 s2 f _ Hfree Hfill o).
Qed.

Lemma lt_tab3 : tab s3 pid = None.
Proof using Hinv Hfree Hh Hfill H3.
  rewrite (lt_frame_of3 (Tab pid) : tab s3 pid = tab s1 pid). exact (proj1 (i_stored_table s1 Hinv k pid x Hh)).
Qed.

Lemma lt_free3 : ¬ owned s3 f.
Proof using Hfree Hfill H3. intros [o Ho]. apply Hfree. exists o. by rewrite <-lt_frame_of3. Qed.

Lemma lt_gone3 k' y : ¬ holds s3 k' pid (-1) y.
Proof using Hinv Hfree Hf Hh Hfill H3. by apply (rl_gone s2 s3 k x pid (-1) lt_inv2 lt_holds2 H3). Qed.

Lemma lt_dead3 j : 0 ≤ j < PAGE_SIZE →
  ∃ b, mb s3 (f * PAGE_SIZE + j) = Some b ∧ dead_entry pid b.
Proof using Hinv Hh Hfill H3.
  intros Hj. exists (default 0 (zget (sf_data x) j)).
  rewrite (ws_mb s2 s3 k _ H3), (fi_in _ _ _ _ Hfill j Hj). split; [done|].
  destruct (stored_bytes s1 k pid (-1) x j Hinv Hh Hj) as [E _].
  destruct (i_stored_table s1 Hinv k pid x Hh) as [_ Hd]. exact (Forall_zget _ _ _ _ Hd E).
Qed.

Lemma lt_new_frame :
  page_frame (set_write (set_valid (set_procc (set_frame p f) pid) 1) (sf_write x)) = f.
Proof using Hf. autorewrite with page2. apply Z.mod_small. consts. lia. Qed.
Lemma lt_new_procc :
  page_procc (set_write (set_valid (set_procc (set_frame p f) pid) 1) (sf_write x)) = pid.
Proof using Hpid Hf. autorewrite with page2. apply Z.mod_small. consts. lia. Qed.
Lemma lt_new_valid :
  truthy (page_valid (set_write (set_valid (set_procc (set_frame p f) pid) 1) (sf_write x))) = true.
Proof. by autorewrite with page2. Qed.

Lemma lt_tab4 i : tab s4 i = if decide (i = pid) then Some f else tab s1 i.
Proof using Hfree Hf Hfill H3 H4.
  rewrite (at_tab s3 s4 pid _ f lt_new_valid lt_new_frame H4).
  case_decide; [done|]. apply (lt_frame_of3 (Tab i)).
Qed.

Lemma lt_clean : clean s1 → clean s4.
Proof using All.
  intros [H0 Hkeys Htab].
  apply (at_clean s3 s4 pid _ f lt_tab3 lt_dead3 lt_new_valid lt_new_frame H4).
  - intros i. rewrite (lt_frame_of3 (Ent i 0) : ent s3 i 0 = _). apply H0.
  - intros k' i n y [Hk _]%(rl_holds s2 s3 k x pid (-1) lt_holds2 H3).
    apply (fi_holds s1 s2 f _ Hfill) in Hk. by eapply Hkeys.
  - intros k' i n y [Hk _]%(rl_holds s2 s3 k x pid (-1) lt_holds2 H3).
    apply (fi_holds s1 s2 f _ Hfill) in Hk. destruct (decide (i = pid)) as [->|Hne]; [by left|].
    right. destruct (Htab _ _ _ _ Hk) as [Hi|(k2 & z & Hz)].
    + left. by rewrite (lt_frame_of3 (Tab i) : tab s3 i = _).
    + right. exists k2, z. apply (rl_other s2 s3 k x pid (-1) lt_holds2 H3); [congruence|].
      by apply (fi_holds s1 s2 f _ Hfill).
Qed.

Lemma lt_moved : moved s1 s4.
Proof using All.
  split; [|apply lt_clean|].
  - refine (at_inv s3 s4 pid _ f lt_inv3 lt_tab3 lt_free3 Hf lt_gone3 lt_dead3 _
      lt_new_valid lt_new_frame lt_new_procc H4). auto with c_bits.
  - intros _ i n w d Hn.
    rewrite (at_view s3 s4 pid _ f lt_tab3 lt_dead3 lt_new_valid lt_new_frame H4).
    rewrite (rl_view s2 s3 k x pid (-1) lt_holds2 H3) by (intros [=]; lia).
    apply (fi_view s1 s2 f _ Hfree Hfill).
Qed.
End load_table.

(** *** A new table *)

Lemma filled_proc s sp s5 pid p' f val :
  set_proc pid p' s = Some sp → filled sp f val s5 →
  ∃ s2, filled s f val s2 ∧ set_proc pid p' s2 = Some s5.
Proof.
  unfold set_proc. intros (t & Ht & [= <-])%bind_Some [F1 F2 F3 F4 F5 F6]. simpl in *.
  exists (mkState (mainMemory s5) (procTable s) (backingStore s) (robin s)). split; [by split|].
  simpl. rewrite Ht. simpl. destruct s5. simpl in *. by subst.
Qed.

Section new_table.
Context (s1 s2 s4 : state) (pid f p : Z) (old : Z → Z).
Hypothesis Hinv : inv s1.
Hypothesis Hpid : 0 ≤ pid < MAX_PROCESSES.
Hypothesis Ht : tab s1 pid = None.
Hypothesis Hfree : ¬ owned s1 f.
Hypothesis Hf : 0 ≤ f < PAGE_FRAMES.
Hypothesis Hns : ∀ k x, ¬ holds s1 k pid (-1) x.
Hypothesis Hold : ∀ j, 0 ≤ j < PAGE_SIZE → is_byte (old j).
Hypothesis Hfill : filled s1 f (λ j, set_procc (set_valid (old j) 0) pid) s2.
Hypothesis Hp : is_byte p.
Hypothesis H4 : set_proc pid (set_frame (set_write (set_procc (set_valid p 1) pid) 1) f) s2 = Some s4.

Lemma nt_inv2 : inv s2.
Proof using Hinv Hfree Hf Hfill Hold.
  apply (fi_inv s1 s2 f _ Hinv Hfree Hf Hfill). intros j Hj.
  apply set_procc_byte, set_valid_byte. by apply Hold.
Qed.

Lemma nt_tab2 : tab s2 pid = None.
Proof using Ht Hfree Hfill. rewrite <-Ht. exact (fi_frame_of s1 s2 f _ Hfree Hfill (Tab pid)). Qed.

Lemma nt_dead2 j : 0 ≤ j < PAGE_SIZE →
  ∃ b, mb s2 (f * PAGE_SIZE + j) = Some b ∧ dead_entry pid b.
Proof using Hpid Hfill Hf.
  intros Hj. eexists. split; [exact (fi_in _ _ _ _ Hfill j Hj)|].
  split; autorewrite with page2; [done|]. apply Z.mod_small. consts. lia.
Qed.

Lemma nt_valid : truthy (page_valid (set_frame (set_write (set_procc (set_valid p 1) pid) 1) f)) = true.
Proof. by autorewrite with page2. Qed.
Lemma nt_frame : page_frame (set_frame (set_write (set_procc (set_valid p 1) pid) 1) f) = f.
Proof using Hf Hpid. autorewrite with page2. apply Z.mod_small. consts. lia. Qed.
Lemma nt_procc : page_procc (set_frame (set_write (set_procc (set_valid p 1) pid) 1) f) = pid.
Proof using Hf Hpid. autorewrite with page2. apply Z.mod_small. consts. lia. Qed.

Lemma nt_tab4 i : tab s4 i = if decide (i = pid) then Some f else tab s1 i.
Proof using Hpid Hfree Hf Hfill H4.
  rewrite (at_tab s2 s4 pid _ f nt_valid nt_frame H4).
  case_decide; [done|]. exact (fi_frame_of s1 s2 f _ Hfree Hfill (Tab i)).
Qed.

Lemma nt_moved : moved s1 s4.
Proof using All.
  split.
  - refine (at_inv s2 s4 pid _ f nt_inv2 nt_tab2 (fi_free s1 s2 f _ Hfree Hfill) Hf _ nt_dead2 _
      nt_valid nt_frame nt_procc H4); [|auto with c_bits].
    intros k x Hk. apply (fi_holds s1 s2 f _ Hfill) in Hk. by eapply Hns.
  - intros Hc. pose proof (fi_clean s1 s2 f _ Hfree Hfill Hc) as [H0 Hkeys Htab].
    apply (at_clean s2 s4 pid _ f nt_tab2 nt_dead2 nt_valid nt_frame H4); [done..|].
    intros k i n x Hh. right. by eapply Htab.
  - intros _ i n w d _.
    rewrite (at_view s2 s4 pid _ f nt_tab2 nt_dead2 nt_valid nt_frame H4).
    apply (fi_view s1 s2 f _ Hfree Hfill).
Qed.
End new_table.
