(* ===== verification/Paging2Ops.v ===== *)
(** * Project4/Part2: the operations

    What [check_backing_store], [init_table], [find_page], [map_page], [store] and
    [load] do, for every in-range argument: they return, they keep the invariant,
    and in a [clean] state their effect on the processes' views is exactly the
    intended one. *)

From S2P Require Import Prelude Paging2 Paging2Inv Paging2Write Paging2Evict Paging2Free Paging2Load.

(** ** [check_backing_store] *)

Lemma copy_back s k pid n x f :
  inv s → holds s k pid n x → 0 ≤ f < PAGE_FRAMES →
  wp (for_do (seqZ 0 PAGE_SIZE) (λ j,
       b ← reads (λ s, x ← zget (backingStore s) k; zget (sf_data x) j);
       modifies (set_mem (f * PAGE_SIZE + j) b)) : prog unit) s
    (λ _ s', filled s f (λ j, default 0 (zget (sf_data x) j)) s').
Proof.
  intros Hinv Hh Hf. apply wp_fill_frame; [apply (i_mem s Hinv)|done|].
  intros j t Hj Hst _ _ Hlen. destruct (stored_bytes s k pid n x j Hinv Hh Hj) as [E _].
  apply wp_bind, (wp_reads _ _ _ (default 0 (zget (sf_data x) j))).
  { rewrite Hst. destruct Hh as (Hx & _). unfold slot in Hx. rewrite Hx. simpl. by rewrite <-E. }
  destruct (deref_put_page (PMem (f * PAGE_SIZE + j)) (default 0 (mb t (f * PAGE_SIZE + j)))
    (default 0 (zget (sf_data x) j)) t) as [t' Ht'].
  { simpl. destruct (zget_is_Some (mainMemory t) (f * PAGE_SIZE + j)) as [v Hv].
    - rewrite Hlen. consts. lia.
    - unfold mb. by rewrite Hv. }
  by apply wp_modifies with t'.
Qed.

Lemma set_slot_total s k x y : slot s k = Some x → ∃ s', set_slot k y s = Some s'.
Proof. intros H%zget_Some_bound. unfold set_slot. rewrite zset_Some by done. simpl. eauto. Qed.

Lemma filled_slot s f val s' k : filled s f val s' → slot s' k = slot s k.
Proof. intros H. unfold slot. by rewrite (fi_store _ _ _ _ H). Qed.

(** The end of [check_backing_store]: the slot is freed. *)
Lemma release_wp (m : msg) s k x (Q : Z → state → Prop) :
  slot s k = Some x →
  (∀ s', set_slot k (mkStored (sf_data x) (-1) (sf_page x) (sf_write x)) s = Some s' → Q 1 s') →
  wp (_ ← emit m; x ← reads (λ s, zget (backingStore s) k);
      _ ← modifies (set_slot k (mkStored (sf_data x) (-1) (sf_page x) (sf_write x))); mret 1) s Q.
Proof.
  intros Hx HQ. apply wp_bind, wp_emit. apply wp_bind, (wp_reads _ _ _ x); [done|]. apply wp_bind.
  destruct (set_slot_total s k x (mkStored (sf_data x) (-1) (sf_page x) (sf_write x)) Hx) as [s' Hs'].
  apply wp_modifies with s'; [done|]. apply wp_ret. by apply HQ.
Qed.

Lemma put_page_keeps_slot page b s s' k : put_page page b s = Some s' → slot s' k = slot s k.
Proof.
  destruct page; simpl; [done|..].
  - unfold set_proc. by intros (? & _ & [= <-])%bind_Some.
  - unfold set_mem. by intros (? & _ & [= <-])%bind_Some.
Qed.

Lemma check_table fuel s pid :
  inv s → 0 ≤ pid < MAX_PROCESSES → tab s pid = None →
  wp (check_backing_store (S fuel) pid (-1)) s (λ r s',
    (r = 1 ∧ moved s s' ∧ is_Some (tab s' pid) ∧ has_table s pid) ∨
    (r = 0 ∧ s' = s ∧ ∀ k x, ¬ holds s k pid (-1) x)).
Proof.
  intros Hinv Hpid Ht. cbn [check_backing_store]. apply wp_bind.
  destruct (stored_slot_spec s pid (-1) Hinv) as [(k & x & E & Hh)|[E Hno]]; [lia|..];
    (eapply wp_reads; [exact E|]); [|apply wp_ret; right; by split_and!].
  apply wp_bind. eapply wp_mono; [by apply find_free_frame_spec|].
  intros f s1 (Hev & Hf & Hfree & Ht1). pose proof (ev_inv _ _ Hev) as Hinv1.
  pose proof (ev_slots _ _ Hev _ _ _ _ Hh) as Hh1.
  apply wp_bind. eapply wp_mono; [by eapply (copy_back s1 k pid (-1) x f)|]. simpl.
  intros _ s2 Hfill. assert (slot s2 k = Some x) as Hx2.
  { rewrite (filled_slot _ _ _ _ _ Hfill). apply Hh1. }
  apply wp_bind, (wp_reads _ _ _ x); [done|]. apply wp_bind.
  destruct (proc_in_range s1 Hinv1 pid Hpid) as (p & Hp & Hby).
  apply (fill_page_wp (PProc pid) f pid (sf_write x) s2 p).
  { simpl. by rewrite (fi_proc _ _ _ _ Hfill). }
  intros s3 H3. apply (release_wp _ s3 k x).
  { by rewrite (put_page_keeps_slot _ _ _ _ k H3). }
  intros s4 H4. left. split; [done|]. destruct (put_page_slot _ _ _ _ _ _ _ H3 H4) as (s3' & H3' & H4').
  split_and!.
  - eapply moved_trans; [by apply evicted_moved|].
    by eapply (lt_moved s1 s2 s3' s4 pid f k p x).
  - rewrite (lt_tab4 s1 s2 s3' s4 pid f k p x Hfree Hf Hfill H3' H4'), decide_True by done. eauto.
  - right. eauto.
Qed.

Lemma find_page_resident fuel s pid ft n :
  inv s → tab s pid = Some ft →
  wp (find_page (S fuel) pid n) s (λ r s', r = PMem (ft * PAGE_SIZE + n) ∧ s' = s).
Proof.
  intros Hinv Ht. destruct (tab_page s pid ft Hinv Ht) as (p & Hp & Hv & Hf). cbn [find_page].
  apply wp_bind, (wp_reads _ _ _ p); [done|]. rewrite Hv. simpl. apply wp_bind, wp_ret.
  apply wp_bind, (wp_reads _ _ _ p); [done|]. apply wp_ret. by rewrite Hf.
Qed.

Lemma check_page fuel s pid ft n :
  inv s → tab s pid = Some ft → 0 ≤ n ≤ 3 →
  wp (check_backing_store (S (S fuel)) pid n) s (λ r s',
    (r = 1 ∧ moved s s' ∧ tab s' pid = Some ft ∧ is_Some (ent s' pid n)) ∨
    (r = 0 ∧ s' = s ∧ ∀ k x, ¬ holds s k pid n x)).
Proof.
  intros Hinv Ht Hn. pose proof (tab_bound s Hinv pid ft Ht) as Hpid. cbn [check_backing_store].
  apply wp_bind.
  destruct (stored_slot_spec s pid n Hinv) as [(k & x & E & Hh)|[E Hno]]; [lia|..];
    (eapply wp_reads; [exact E|]); [|apply wp_ret; right; by split_and!].
  assert (1 ≤ n ≤ 3) as Hn1.
  { destruct Hh as (Hx & Hp & Hpg & _). destruct (i_slot s Hinv k x Hx) as [_ _ _ _ Hs]. lia. }
  rewrite (proj2 (Z.eqb_neq n (-1))) by lia.
  apply wp_bind. eapply wp_mono; [by apply find_free_frame_spec|].
  intros f s1 (Hev & Hf & Hfree & Ht1). pose proof (ev_inv _ _ Hev) as Hinv1. rewrite Ht in Ht1.
  pose proof (ev_slots _ _ Hev _ _ _ _ Hh) as Hh1.
  apply wp_bind. eapply wp_mono; [by eapply (copy_back s1 k pid n x f)|]. simpl.
  intros _ s2 Hfill. assert (slot s2 k = Some x) as Hx2.
  { rewrite (filled_slot _ _ _ _ _ Hfill). apply Hh1. }
  apply wp_bind, (wp_reads _ _ _ x); [done|]. do 2 apply wp_bind.
  pose proof (lp_inv2 s1 s2 pid n f k x Hinv1 Hfree Hf Hh1 Hfill) as Hinv2.
  assert (tab s2 pid = Some ft) as Ht2.
  { rewrite <-Ht1. exact (fi_frame_of s1 s2 f _ Hfree Hfill (Tab pid)). }
  eapply wp_mono; [by eapply (find_page_resident fuel s2 pid ft n)|]. intros ? ? [-> ->].
  destruct (entry_in_range s2 Hinv2 pid ft n Ht2) as (b & Hb & Hmb & _); [consts; lia|].
  apply (fill_page_wp _ f pid (sf_write x) s2 b); [done|]. intros s3 H3.
  apply (release_wp _ s3 k x).
  { by rewrite (put_page_keeps_slot _ _ _ _ k H3). }
  intros s4 H4. left. split; [done|]. destruct (put_page_slot _ _ _ _ _ _ _ H3 H4) as (s3' & H3' & H4').
  simpl in H4'. split_and!.
  - eapply moved_trans; [by apply evicted_moved|].
    by eapply (lp_moved s1 s2 s3' s4 pid n ft f k b x).
  - by rewrite (lp_tab4 s1 s2 s3' s4 pid n ft f k b x Hfree Hfill H3' H4').
  - rewrite (lp_ent4 s1 s2 s3' s4 pid n ft f k b x), decide_True by done. eauto.
Qed.

(** ** [init_table], [find_page] *)

Lemma init_entries s f pid : inv s → 0 ≤ f < PAGE_FRAMES →
  ∀ sp, mainMemory sp = mainMemory s →
  wp (for_do (seqZ 0 PAGE_SIZE) (λ j,
       _ ← modifies (upd_page (PMem (f * PAGE_SIZE + j)) (λ p, set_valid p 0));
       modifies (upd_page (PMem (f * PAGE_SIZE + j)) (λ p, set_procc p pid))) : prog unit) sp
    (λ _ s', filled sp f (λ j, set_procc (set_valid (default 0 (mb s (f * PAGE_SIZE + j))) 0) pid) s').
Proof.
  intros Hinv Hf sp Hm. apply wp_fill_frame; [rewrite Hm; apply (i_mem s Hinv)|done|].
  intros j t Hj _ _ Hmb _. destruct (mem_in_range s Hinv f j Hf Hj) as (b & Hb & _).
  assert (mb t (f * PAGE_SIZE + j) = Some b) as Hbt by (rewrite Hmb; unfold mb in *; by rewrite Hm).
  rewrite Hb. simpl. apply wp_bind. eapply wp_upd_first; [exact Hbt|]. intros t1 H1.
  eapply wp_upd_next; [done|]. intros t2 H2. exact H2.
Qed.

(** What was neither resident nor stored is not stored after an eviction. *)
Lemma evicted_not_stored s s' i n : evicted s s' → n ≠ -2 → frame_of s (key_owner i n) = None →
  (∀ k x, ¬ holds s k i n x) → ∀ k x, ¬ holds s' k i n x.
Proof.
  intros Hev Hn Hf Hno k x Hh. destruct (ev_new _ _ Hev _ _ _ _ Hh Hn) as [?|[g Hg]].
  - by eapply Hno.
  - by rewrite Hf in Hg.
Qed.

Lemma init_table_spec fuel s pid :
  inv s → 0 ≤ pid < MAX_PROCESSES → tab s pid = None →
  wp (init_table (S (S fuel)) pid) s (λ _ s', moved s s' ∧ is_Some (tab s' pid)).
Proof.
  intros Hinv Hpid Ht. cbn [init_table]. apply wp_bind.
  eapply wp_mono; [by apply check_table|]. intros r s0 [(-> & Hmv & Hs & _)|(-> & -> & Hns)]; simpl.
  { by apply wp_ret. }
  (* no stored table: take a frame *)
  apply wp_bind. eapply wp_mono; [by apply find_free_frame_spec|].
  intros f s1 (Hev & Hf & Hfree & Ht1). rewrite (proj2 (Z.leb_le 0 f)) by lia. simpl.
  pose proof (ev_inv _ _ Hev) as Hinv1. rewrite Ht in Ht1.
  destruct (proc_in_range s1 Hinv1 pid Hpid) as (p & Hp & Hby).
  apply wp_bind. eapply wp_upd_first; [exact Hp|]. intros t1 H1.
  apply wp_bind. eapply wp_upd_next; [done|]. intros t2 H2.
  apply wp_bind. eapply wp_upd_next; [done|]. intros t3 H3.
  apply wp_bind. eapply wp_upd_next; [done|]. intros t4 H4.
  apply wp_bind. eapply wp_mono; [apply (init_entries s1 f pid Hinv1 Hf t4)|].
  { destruct (wp_parts s1 t4 pid _ H4) as (t & _ & ->). done. }
  simpl. intros _ s5 Hfill. destruct (filled_proc s1 t4 s5 pid _ f _ H4 Hfill) as (s2 & Hfill2 & H5).
  apply wp_emit. split.
  - eapply moved_trans; [by apply evicted_moved|].
    apply (nt_moved s1 s2 s5 pid f p (λ j, default 0 (mb s1 (f * PAGE_SIZE + j)))); try done;
      [by apply (evicted_not_stored s)|].
    intros j Hj. destruct (mem_in_range s1 Hinv1 f j Hf Hj) as (b & -> & Hb). done.
  - rewrite (nt_tab4 s1 s2 s5 pid f p _ Hpid Hfree Hf Hfill2 H5), decide_True by done. eauto.
Qed.

(** [find_page] makes the table resident and returns the address of the entry. *)
Lemma find_page_spec fuel s pid n :
  inv s → 0 ≤ pid < MAX_PROCESSES →
  wp (find_page (S (S (S fuel))) pid n) s (λ r s', moved s s' ∧
    ∃ ft, tab s' pid = Some ft ∧ r = PMem (ft * PAGE_SIZE + n)).
Proof.
  intros Hinv Hpid. destruct (tab s pid) as [ft|] eqn:Ht.
  { eapply wp_mono; [by eapply find_page_resident|]. intros r s' [-> ->].
    split; [by apply moved_refl|]. eauto. }
  remember (S (S fuel)) as fuel2 eqn:Ef. cbn [find_page].
  destruct (proc_in_range s Hinv pid Hpid) as (p & Hp & _).
  apply wp_bind, (wp_reads _ _ _ p); [done|].
  pose proof (tab_intro s pid p Hp) as E. rewrite Ht in E.
  destruct (truthy (page_valid p)); [done|]. simpl. apply wp_bind. rewrite Ef.
  eapply wp_mono; [by apply init_table_spec|]. simpl. intros _ s1 [Hmv [ft Ht1]].
  destruct (tab_page s1 pid ft (mv_inv _ _ Hmv) Ht1) as (p1 & Hp1 & _ & Hf1).
  apply wp_bind, (wp_reads _ _ _ p1); [done|]. apply wp_ret. rewrite Hf1. eauto.
Qed.

(** ** The two tests of [store] and [load] *)

Lemma no_table_spec s pid :
  inv s → 0 ≤ pid < MAX_PROCESSES →
  wp (no_table pid) s (λ r s', moved s s' ∧
    (r = true ∧ s' = s ∧ ¬ has_table s pid ∨ r = false ∧ is_Some (tab s' pid))).
Proof.
  intros Hinv Hpid. unfold no_table. destruct (proc_in_range s Hinv pid Hpid) as (p & Hp & _).
  apply wp_bind, (wp_reads _ _ _ p); [done|]. pose proof (tab_intro s pid p Hp) as Ht.
  destruct (truthy (page_valid p)).
  { apply wp_ret. split; [by apply moved_refl|]. right. rewrite Ht. eauto. }
  apply wp_bind. eapply wp_mono; [by apply check_table|].
  intros r s' [(-> & Hmv & Hs & _)|(-> & -> & Hns)]; apply wp_ret.
  - split; [done|]. by right.
  - split; [by apply moved_refl|]. left. split_and!; [done..|]. intros [[g Hg]|(k & x & Hh)].
    + by rewrite Ht in Hg.
    + by eapply Hns.
Qed.

Lemma not_mapped_spec s pid ft n :
  inv s → tab s pid = Some ft → 0 ≤ n ≤ 3 →
  wp (not_mapped (PMem (ft * PAGE_SIZE + n)) pid n) s (λ r s', moved s s' ∧ tab s' pid = Some ft ∧
    (r = true ∧ s' = s ∧ ent s pid n = None ∧ (∀ k x, ¬ holds s k pid n x) ∨
     r = false ∧ is_Some (ent s' pid n))).
Proof.
  intros Hinv Ht Hn. unfold not_mapped.
  destruct (entry_in_range s Hinv pid ft n Ht) as (b & He & Hb & _); [consts; lia|].
  apply wp_bind, (wp_reads _ _ _ b); [done|]. destruct (truthy (page_valid b)) eqn:Hv.
  { apply wp_ret. split; [by apply moved_refl|]. split; [done|]. right. split; [done|].
    exists (page_frame b). apply ent_Some. eauto. }
  apply wp_bind. eapply wp_mono; [by eapply check_page|].
  intros r s' [(-> & Hmv & Ht' & Hs)|(-> & -> & Hns)]; apply wp_ret.
  - split_and!; [done..|]. by right.
  - split_and!; [by apply moved_refl|done|]. left. split_and!; [done..| |done]. by eapply ent_None.
Qed.

(** ** What a process sees after an operation *)

Definition same_views (s s' : state) : Prop :=
  ∀ i m w d, 0 ≤ m → view s' i m w d ↔ view s i m w d.

(** Page [n] of [pid] shows [w] and [d]; all other pages are as before. *)
Definition updated (s s' : state) (pid n w : Z) (d : list Z) : Prop :=
  ∀ i m w' d', 0 ≤ m → view s' i m w' d' ↔
    if decide ((i, m) = (pid, n)) then w' = w ∧ d' = d else view s i m w' d'.

Lemma updated_same s s1 s' pid n w d : same_views s s1 → updated s1 s' pid n w d → updated s s' pid n w d.
Proof.
  intros Hs Hu i m w' d' Hm. rewrite (Hu i m w' d' Hm). case_decide; [done|]. by apply Hs.
Qed.

Lemma moved_same s s' : moved s s' → clean s → same_views s s'.
Proof. intros H Hc i m w d Hm. by apply (mv_view _ _ H Hc). Qed.

Lemma view_resident s pid n b w d :
  inv s → entry s pid n = Some b → truthy (page_valid b) = true →
  view s pid n w d ↔ w = page_write b ∧ frame_data (page_frame b) s = Some d.
Proof.
  intros Hinv He Hv. pose proof He as (ft & Ht & _)%entry_Some. split.
  - intros [(b' & Hb' & _ & <- & Hd)|(k & x & Hh & _)].
    + rewrite He in Hb'. by injection Hb' as <-.
    + by destruct (ep_not_stored s pid ft n b Hinv Ht He Hv k x).
  - intros [-> Hd]. left. by exists b.
Qed.

Lemma view_absent s pid n ft w d :
  tab s pid = Some ft → ent s pid n = None → (∀ k x, ¬ holds s k pid n x) → ¬ view s pid n w d.
Proof.
  intros Ht He Hno [(b & Hb & Hv & _)|(k & x & Hh & _)]; [|by eapply Hno].
  by destruct (ent_None_absurd s pid n b He Hb).
Qed.

Lemma view_no_table s pid n w d : clean s → ¬ has_table s pid → ¬ view s pid n w d.
Proof.
  intros Hc Hno [(b & Hb & _)|(k & x & Hh & _)]; apply Hno.
  - apply entry_Some in Hb as (ft & Ht & _). left. eauto.
  - exact (c_table s Hc _ _ _ _ Hh).
Qed.

(** *** A byte of a resident page *)

Section write_byte.
Context (s s' : state) (pid n b off v : Z).
Hypothesis Hinv : inv s.
Hypothesis He : entry s pid n = Some b.
Hypothesis Hv : truthy (page_valid b) = true.
Hypothesis Hoff : 0 ≤ off < PAGE_SIZE.
Hypothesis Hbyte : is_byte v.
Hypothesis Hs' : set_mem (page_frame b * PAGE_SIZE + off) v s = Some s'.

Lemma wb_ent : ent s pid n = Some (page_frame b).
Proof using He Hv. apply ent_Some. eauto. Qed.

Lemma wb_no_table i : tab s i ≠ Some (page_frame b).
Proof using Hinv He Hv. intros Hi. exact (tab_not_ent s Hinv i pid n _ Hi wb_ent). Qed.

Lemma wb_parts : procTable s' = procTable s ∧ backingStore s' = backingStore s ∧
  robin s' = robin s ∧ length (mainMemory s') = length (mainMemory s) ∧
  Forall is_byte (mainMemory s').
Proof using Hinv Hbyte Hs'.
  destruct (we_parts s s' _ _ _ Hs') as (m & Hm & ->). simpl.
  split_and!; [done..|by eapply zset_length|].
  exact (Forall_zset _ _ _ _ _ (i_mem_bytes s Hinv) Hbyte Hm).
Qed.

Lemma wb_other g k : 0 ≤ k < PAGE_SIZE → g ≠ page_frame b →
  mb s' (g * PAGE_SIZE + k) = mb s (g * PAGE_SIZE + k).
Proof using Hoff Hs'.
  intros Hk Hg. rewrite (we_mb s s' _ _ _ Hs'), decide_False; [done|].
  intros Ha. by apply addr_split in Ha as [E _].
Qed.

Lemma wb_inv : inv s'.
Proof using All.
  destruct wb_parts as (P1 & P2 & P3 & P4 & P5).
  apply (wf_inv s s' (page_frame b)); auto; [apply wb_no_table|apply wb_other].
Qed.

Lemma wb_clean : clean s → clean s'.
Proof using All.
  destruct wb_parts as (P1 & P2 & P3 & P4 & P5).
  apply (wf_clean s s' (page_frame b)); auto; [apply wb_no_table|apply wb_other].
Qed.

Lemma wb_entry i m : entry s' i m = entry s i m.
Proof using All.
  destruct wb_parts as (P1 & P2 & P3 & P4 & P5).
  apply (wf_entry s s' (page_frame b)); auto; [apply wb_no_table|apply wb_other].
Qed.

Lemma wb_data d : frame_data (page_frame b) s = Some d →
  frame_data (page_frame b) s' = Some (<[Z.to_nat off := v]> d).
Proof using Hinv Hoff Hs'.
  intros [Hlen Hd]%frame_data_Some. apply frame_data_Some. rewrite length_insert.
  split; [done|]. intros k Hk. rewrite (we_mb s s' _ _ _ Hs').
  destruct (decide (k = off)) as [->|Hne].
  - rewrite decide_True by done. unfold zget. rewrite decide_True by lia.
    rewrite list_lookup_insert_eq by (consts; lia). eauto.
  - rewrite decide_False by (intros Ha; apply addr_split in Ha; lia).
    assert (zget (<[Z.to_nat off:=v]> d) k = zget d k) as ->; [|by apply Hd].
    unfold zget. rewrite !decide_True by lia. apply list_lookup_insert_ne. lia.
Qed.

Lemma wb_updated d : frame_data (page_frame b) s = Some d →
  updated s s' pid n (page_write b) (<[Z.to_nat off := v]> d).
Proof using All.
  intros Hd i m w' d' Hm. case_decide as E.
  - injection E as -> ->. rewrite (view_resident s' pid n b w' d' wb_inv); [|by rewrite wb_entry|done].
    rewrite (wb_data d Hd). split; [|by intros [-> ->]]. by intros [-> [= <-]].
  - destruct wb_parts as (P1 & P2 & P3 & P4 & P5).
    apply (wf_view s s' (page_frame b)); auto; [apply wb_no_table|apply wb_other|].
    intros Hent. apply E. by injection (i_inj s Hinv (Ent i m) (Ent pid n) _ Hent wb_ent) as -> ->.
Qed.
End write_byte.

(** *** The permission of a resident page *)

Section write_permission.
Context (s s' : state) (pid ft n b w : Z).
Hypothesis Hinv : inv s.
Hypothesis Ht : tab s pid = Some ft.
Hypothesis He : entry s pid n = Some b.
Hypothesis Hv : truthy (page_valid b) = true.
Hypothesis Hw : 0 ≤ w ≤ 1.
Hypothesis Hs' : set_mem (ft * PAGE_SIZE + n) (set_write b w) s = Some s'.

Lemma wr_range : 0 ≤ n < PAGE_SIZE ∧ is_byte b.
Proof using Hinv Ht He.
  destruct (ep_mb s pid ft n b Ht He) as [Hn Hb]. split; [done|].
  exact (Forall_zget _ _ _ _ (i_mem_bytes s Hinv) Hb).
Qed.

Lemma wr_inv : inv s'.
Proof using All.
  destruct wr_range as [Hn Hb]. apply (we_inv s s' pid ft n _ Hinv Ht Hn Hs').
  - by apply set_write_byte.
  - autorewrite with page2. by eapply (i_ent_procc s Hinv).
  - right. left. autorewrite with page2. by apply (ep_ent s pid n b).
Qed.

Lemma wr_ent i m : ent s' i m = ent s i m.
Proof using All.
  destruct wr_range as [Hn Hb]. rewrite (we_ent s s' pid ft n _ Hinv Ht Hn Hs').
  case_decide as E; [|done]. destruct E as [-> ->]. autorewrite with page2.
  rewrite Hv. symmetry. by apply (ep_ent s pid n b).
Qed.

Lemma wr_clean : clean s → clean s'.
Proof using All.
  intros [H0 Hkeys Htab]. split.
  - intros i. by rewrite wr_ent.
  - intros k i m x. rewrite (we_holds s s' ft n _ Hs'). apply Hkeys.
  - intros k i m x. rewrite (we_holds s s' ft n _ Hs'), (we_has_table s s' ft n _ Hs'). apply Htab.
Qed.

Lemma wr_updated d : frame_data (page_frame b) s = Some d → updated s s' pid n w d.
Proof using All.
  intros Hd i m w' d' Hm. destruct wr_range as [Hn Hb]. case_decide as E.
  - injection E as -> ->. rewrite (view_resident s' pid n (set_write b w) w' d' wr_inv).
    + autorewrite with page2. rewrite (Z.mod_small w) by lia.
      rewrite (we_frame_data s s' ft n _ Hn Hs'), Hd.
      * split; [|by intros [-> ->]]. by intros [-> [= <-]].
      * intros Ef. apply (tab_not_ent s Hinv pid pid n ft Ht). rewrite <-Ef.
        by apply (ep_ent s pid n b).
    + by rewrite (we_entry s s' pid ft n _ Hinv Ht Hn Hs'), decide_True.
    + by autorewrite with page2.
  - by apply (we_view s s' pid ft n _ Hinv Ht Hn Hs').
Qed.
End write_permission.

(** *** A new page *)

Section new_page.
Context (s s' : state) (pid ft n b f w : Z).
Hypothesis Hinv : inv s.
Hypothesis Ht : tab s pid = Some ft.
Hypothesis Hn : 0 ≤ n ≤ 3.
Hypothesis He : entry s pid n = Some b.
Hypothesis Hf : 0 ≤ f < PAGE_FRAMES.
Hypothesis Hfree : ¬ owned s f.
Hypothesis Hno : ∀ k x, ¬ holds s k pid n x.
Hypothesis Hw : 0 ≤ w ≤ 1.
Hypothesis Hs' : set_mem (ft * PAGE_SIZE + n) (set_write (set_valid (set_frame b f) 1) w) s = Some s'.

Lemma np_range : 0 ≤ n < PAGE_SIZE.
Proof using Hn. clear -Hn. consts. lia. Qed.

Lemma np_frame : page_frame (set_write (set_valid (set_frame b f) 1) w) = f.
Proof using Hf. autorewrite with page2. apply Z.mod_small. clear -Hf. consts. lia. Qed.

Lemma np_entry : entry s' pid n = Some (set_write (set_valid (set_frame b f) 1) w).
Proof using Hinv Ht Hn Hs'.
  by rewrite (we_entry s s' pid ft n _ Hinv Ht np_range Hs'), decide_True.
Qed.

Lemma np_inv : inv s'.
Proof using All.
  apply (we_inv s s' pid ft n _ Hinv Ht np_range Hs').
  - destruct (ep_mb s pid ft n b Ht He) as [_ Hb].
    pose proof (Forall_zget _ _ _ _ (i_mem_bytes s Hinv) Hb). auto with c_bits.
  - autorewrite with page2. by eapply (i_ent_procc s Hinv).
  - right. right. rewrite np_frame. split_and!; [lia..|done|done].
Qed.

Lemma np_clean : 1 ≤ n → clean s → clean s'.
Proof using All.
  intros Hn1 [H0 Hkeys Htab]. split.
  - intros i. rewrite (we_ent s s' pid ft n _ Hinv Ht np_range Hs'), decide_False by lia. apply H0.
  - intros k i m x. rewrite (we_holds s s' ft n _ Hs'). apply Hkeys.
  - intros k i m x. rewrite (we_holds s s' ft n _ Hs'), (we_has_table s s' ft n _ Hs'). apply Htab.
Qed.

Lemma np_updated d : frame_data f s = Some d → updated s s' pid n w d.
Proof using All.
  intros Hd i m w' d' Hm. case_decide as E.
  - injection E as -> ->. rewrite (view_resident s' pid n _ w' d' np_inv np_entry).
    + rewrite np_frame. autorewrite with page2. rewrite (Z.mod_small w) by lia.
      rewrite (we_frame_data s s' ft n _ np_range Hs'), Hd.
      * split; [|by intros [-> ->]]. by intros [-> [= <-]].
      * intros ->. apply Hfree. by exists (Tab pid).
    + by autorewrite with page2.
  - by apply (we_view s s' pid ft n _ Hinv Ht np_range Hs').
Qed.
End new_page.

(** ** [map_page] *)

Lemma ent_entry s pid ft n : inv s → tab s pid = Some ft → is_Some (ent s pid n) →
  ∃ b d, entry s pid n = Some b ∧ mb s (ft * PAGE_SIZE + n) = Some b ∧ truthy (page_valid b) = true ∧
    frame_data (page_frame b) s = Some d ∧ length d = 16%nat ∧ Forall is_byte d.
Proof.
  intros Hinv Ht [f (b & He & Hv & Hf)%ent_Some]. pose proof (ep_mb s pid ft n b Ht He) as [_ Hb].
  destruct (frame_data_total s (page_frame b) Hinv) as (d & Hd & Hl & Hby).
  { apply (ent_range s Hinv pid n). apply ent_Some. eauto. }
  exists b, d. by split_and!.
Qed.

(** An operation that sets the permission of a page [pid] already has. *)
Definition repermitted (s s' : state) (pid n w : Z) : Prop :=
  inv s' ∧ (clean s → clean s') ∧ ∃ w0 d, view s pid n w0 d ∧ updated s s' pid n w d.

Lemma repermitted_same s pid n b d :
  inv s → entry s pid n = Some b → truthy (page_valid b) = true →
  frame_data (page_frame b) s = Some d → repermitted s s pid n (page_write b).
Proof.
  intros Hinv He Hv Hd. split_and!; [done..|]. exists (page_write b), d.
  assert (∀ w' d', view s pid n w' d' ↔ w' = page_write b ∧ d' = d) as Hview.
  { intros w' d'. rewrite (view_resident s pid n b w' d' Hinv He Hv), Hd.
    split; [|by intros [-> ->]]. by intros [-> [= ->]]. }
  split; [by apply Hview|]. intros i m w' d' Hm. case_decide as E; [|done].
  injection E as -> ->. apply Hview.
Qed.

Lemma permission_wp s pid ft n w (Q : unit → state → Prop) :
  inv s → tab s pid = Some ft → is_Some (ent s pid n) → 0 ≤ w ≤ 1 →
  (∀ s', repermitted s s' pid n w → Q tt s') →
  wp (modifies (upd_page (PMem (ft * PAGE_SIZE + n)) (λ p, set_write p w)) : prog unit) s Q.
Proof.
  intros Hinv Ht Hs Hw HQ. destruct (ent_entry s pid ft n Hinv Ht Hs) as (b & d & He & Hb & Hv & Hd & _).
  apply (wp_upd_first _ _ s b); [done|]. intros s' Hs'. apply HQ. simpl in Hs'. split_and!.
  - by eapply (wr_inv s s' pid ft n b w).
  - by eapply (wr_clean s s' pid ft n b w).
  - exists (page_write b), d. split; [by apply (view_resident s pid n b)|].
    by eapply (wr_updated s s' pid ft n b w).
Qed.

(** The end of [map_page]. *)
Lemma map_tail s pid ft n w (m : msg) :
  inv s → tab s pid = Some ft → is_Some (ent s pid n) → 0 ≤ w ≤ 1 →
  wp (p ← reads (deref (PMem (ft * PAGE_SIZE + n)));
      _ ← (if page_write p =? w then mret tt
           else _ ← emit m; modifies (upd_page (PMem (ft * PAGE_SIZE + n)) (λ p, set_write p w)));
      mret 1) s (λ r s', r = 1 ∧ repermitted s s' pid n w).
Proof.
  intros Hinv Ht Hs Hw. destruct (ent_entry s pid ft n Hinv Ht Hs) as (b & d & He & Hb & Hv & Hd & _).
  apply wp_bind, (wp_reads _ _ _ b); [done|]. apply wp_bind.
  destruct (Z.eqb_spec (page_write b) w) as [E|_].
  - apply wp_ret, wp_ret. split; [done|]. rewrite <-E. by eapply repermitted_same.
  - apply wp_bind, wp_emit. apply (permission_wp s pid ft n w); [done..|]. intros s' Hs'. by apply wp_ret.
Qed.

(** What [map_page] promises in a clean state for page [n]. *)
Definition mapped (s s' : state) (pid n w r : Z) : Prop :=
  (∃ w0 d, view s pid n w0 d ∧ updated s s' pid n w d) ∨
  (r = 1 ∧ (∀ w0 d, ¬ view s pid n w0 d) ∧
    ∃ d, length d = 16%nat ∧ Forall is_byte d ∧ updated s s' pid n w d).

Lemma repermitted_mapped s s1 s' pid n w r :
  0 ≤ n → moved s s1 → repermitted s1 s' pid n w → clean s → mapped s s' pid n w r.
Proof.
  intros Hn Hmv (_ & _ & w0 & d & Hvw & Hup) Hc. left. exists w0, d. split.
  - by apply (mv_view _ _ Hmv Hc).
  - eapply updated_same; [by apply moved_same|done].
Qed.

Lemma updated_twice s s1 s' pid n w w' d w0 d0 : 0 ≤ n →
  updated s s1 pid n w d → view s1 pid n w0 d0 → updated s1 s' pid n w' d0 → updated s s' pid n w' d.
Proof.
  intros Hn H1 Hv H2. apply (H1 pid n w0 d0 Hn) in Hv. rewrite decide_True in Hv by done.
  destruct Hv as [-> ->]. intros i m w2 d2 Hm. rewrite (H2 i m w2 d2 Hm). case_decide; [done|].
  rewrite (H1 i m w2 d2 Hm). by rewrite decide_False.
Qed.

Definition map_post (s : state) (pid n w : Z) (r : Z) (s' : state) : Prop :=
  inv s' ∧ (r = 0 ∨ r = 1) ∧ (clean s → 1 ≤ n → clean s' ∧ mapped s s' pid n w r).

(** The branch of [map_page] for a page that is neither resident nor stored. *)
Lemma map_new s pid ft n w (m1 : Z → msg) (m2 : msg) :
  inv s → tab s pid = Some ft → 0 ≤ n ≤ 3 → ent s pid n = None → (∀ k x, ¬ holds s k pid n x) →
  0 ≤ w ≤ 1 →
  wp (stop ← (frame ← find_free_frame pid;
        if frame <? 0 then _ ← emit NoFrame; mret true
        else
          _ ← modifies (upd_page (PMem (ft * PAGE_SIZE + n)) (λ p, set_frame p frame));
          _ ← modifies (upd_page (PMem (ft * PAGE_SIZE + n)) (λ p, set_valid p 1));
          _ ← modifies (upd_page (PMem (ft * PAGE_SIZE + n)) (λ p, set_write p w));
          _ ← emit (m1 frame);
          mret false);
      if (stop : bool) then mret 0
      else
        p ← reads (deref (PMem (ft * PAGE_SIZE + n)));
        _ ← (if page_write p =? w then mret tt
             else _ ← emit m2; modifies (upd_page (PMem (ft * PAGE_SIZE + n)) (λ p, set_write p w)));
        mret 1) s (map_post s pid n w).
Proof.
  intros Hinv Ht Hn Hent Hno Hw. do 2 apply wp_bind.
  eapply wp_mono; [by apply find_free_frame_spec|]. intros f s1 (Hev & Hf & Hfree & Ht1).
  rewrite (proj2 (Z.ltb_ge f 0)) by lia. pose proof (ev_inv _ _ Hev) as Hinv1. rewrite Ht in Ht1.
  assert (∀ k x, ¬ holds s1 k pid n x) as Hno1.
  { apply (evicted_not_stored s s1 pid n Hev); [lia| |done]. unfold key_owner.
    rewrite decide_False by lia. exact Hent. }
  destruct (entry_in_range s1 Hinv1 pid ft n Ht1) as (b & He & Hb & _); [consts; lia|].
  apply wp_bind. eapply wp_upd_first; [exact Hb|]. intros t1 H1.
  apply wp_bind. eapply wp_upd_next; [done|]. intros t2 H2.
  apply wp_bind. eapply wp_upd_next; [done|]. intros s2 H3. simpl in H3.
  apply wp_bind, wp_emit, wp_ret.
  pose proof (np_inv s1 s2 pid ft n b f w Hinv1 Ht1 Hn He Hf Hfree Hno1 Hw H3) as Hinv2.
  destruct (frame_data_total s1 f Hinv1 Hf) as (d & Hd & Hlen & Hby).
  pose proof (np_updated s1 s2 pid ft n b f w Hinv1 Ht1 Hn He Hf Hfree Hno1 Hw H3 d Hd) as Hup.
  eapply wp_mono; [eapply (map_tail s2 pid ft n w m2 Hinv2)|].
  - by rewrite (we_tab s1 s2 ft n _ H3).
  - exists f. apply ent_Some. eexists. split; [by eapply (np_entry s1 s2 pid ft n b f w)|].
    split; [by autorewrite with page2|]. by apply np_frame.
  - done.
  - intros r s3 [-> (Hinv3 & Hc3 & w0 & d0 & Hv0 & Hup3)]. split; [done|]. split; [by right|].
    intros Hc Hn1. pose proof (evicted_moved _ _ Hev) as Hmv. split.
    + apply Hc3. eapply (np_clean s1 s2 pid ft n b f w); try done. by apply (mv_clean _ _ Hmv).
    + right. split; [done|]. split; [intros w' d'; by eapply view_absent|]. exists d. split_and!; [done..|].
      eapply updated_same; [by apply moved_same|].
      eapply updated_twice; [|exact Hup|exact Hv0|exact Hup3]. lia.
Qed.

Lemma map_page_spec s pid address w :
  inv s → 0 ≤ pid < MAX_PROCESSES → 0 ≤ address < VIRT_ADD_SPACE → 0 ≤ w ≤ 1 →
  wp (map_page pid address w) s (map_post s pid (address `quot` PAGE_SIZE) w).
Proof.
  intros Hinv Hpid Haddr Hw. destruct (page_of_address address Haddr) as [Hn _].
  unfold map_page. generalize dependent (address `quot` PAGE_SIZE). intros n Hn. apply wp_bind.
  eapply wp_mono; [by apply (find_page_spec 3)|]. intros page s1 [Hmv (ft & Ht & ->)].
  pose proof (mv_inv _ _ Hmv) as Hinv1.
  destruct (entry_in_range s1 Hinv1 pid ft n Ht) as (b & He & Hb & _); [consts; lia|].
  apply wp_bind, (wp_reads _ _ _ b); [done|]. destruct (truthy (page_valid b)) eqn:Hv.
  { apply wp_bind, wp_emit, wp_bind. eapply (permission_wp s1 pid ft n w); [done..| |done|].
    { exists (page_frame b). apply ent_Some. eauto. }
    intros s2 Hre. apply wp_ret. split; [by apply Hre|]. split; [by left|]. intros Hc _.
    split; [by apply Hre, (mv_clean _ _ Hmv)|]. eapply repermitted_mapped; [lia|done..]. }
  apply wp_bind. eapply wp_mono; [by eapply (check_page 4)|].
  intros r s2 [(-> & Hmv2 & Ht2 & Hs)|(-> & -> & Hno)]; simpl.
  - apply wp_bind, wp_ret. pose proof (moved_trans _ _ _ Hmv Hmv2) as Hmv'.
    eapply wp_mono; [by apply map_tail; [apply Hmv2|..]|]. intros r s3 [-> Hre].
    split; [by apply Hre|]. split; [by right|]. intros Hc _.
    split; [by apply Hre, (mv_clean _ _ Hmv')|]. eapply repermitted_mapped; [lia|done..].
  - eapply wp_mono; [eapply (map_new s1 pid ft n w (Mapped address n)); try done; by eapply ent_None|].
    intros r s2 (Hi & Hr & Hpost). split; [done|]. split; [done|]. intros Hc Hn1.
    destruct (Hpost (mv_clean _ _ Hmv Hc) Hn1) as [Hc2 Hm]. split; [done|].
    destruct Hm as [(w0 & d & Hvw & Hup)|(-> & Hnv & d & Hl & Hby & Hup)].
    + left. exists w0, d. split; [by apply (mv_view _ _ Hmv Hc); [lia|]|].
      eapply updated_same; [by apply moved_same|done].
    + right. split; [done|]. split.
      * intros w0 d0 Hvw. apply (Hnv w0 d0). by apply (mv_view _ _ Hmv Hc); [lia|].
      * exists d. split_and!; [done..|]. eapply updated_same; [by apply moved_same|done].
Qed.

(** ** [store] and [load] *)

Definition store_post (s : state) (pid n off v : Z) (r : Z) (s' : state) : Prop :=
  inv s' ∧ (clean s → clean s' ∧
    (r = 0 ∧ same_views s s' ∧ (∀ w d, view s pid n w d → w = 0) ∨
     r = 1 ∧ ∃ w d, w ≠ 0 ∧ view s pid n w d ∧ updated s s' pid n w (<[Z.to_nat off := v]> d))).

Definition load_post (s : state) (pid n off : Z) (r : Z * option Z) (s' : state) : Prop :=
  inv s' ∧ (clean s → clean s' ∧ same_views s s' ∧
    (r = (0, None) ∧ (∀ w d, ¬ view s pid n w d) ∨
     ∃ w d v, r = (1, Some v) ∧ view s pid n w d ∧ zget d off = Some v)).

(** The table and the page are made resident, or the operation fails. *)
Lemma resident_wp {A} s pid n (fail1 fail2 : prog A) (k : ptr → prog A) (Q : A → state → Prop) :
  inv s → 0 ≤ pid < MAX_PROCESSES → 0 ≤ n ≤ 3 →
  (∀ s', moved s s' → (clean s → ∀ w d, ¬ view s pid n w d) → wp fail1 s' Q ∧ wp fail2 s' Q) →
  (∀ s' ft, moved s s' → tab s' pid = Some ft → is_Some (ent s' pid n) →
    wp (k (PMem (ft * PAGE_SIZE + n))) s' Q) →
  wp (nt ← no_table pid;
      if (nt : bool) then fail1
      else
        page ← find_page FUEL pid n;
        nm ← not_mapped page pid n;
        if (nm : bool) then fail2 else k page) s Q.
Proof.
  intros Hinv Hpid Hn Hfail Hk. apply wp_bind. eapply wp_mono; [by apply no_table_spec|].
  intros r s1 [Hmv [(-> & -> & Hnt)|(-> & [ft Ht])]].
  { apply (Hfail s Hmv). intros Hc w d. by apply view_no_table. }
  apply wp_bind. eapply wp_mono; [by apply (find_page_resident 5); [apply Hmv|]|].
  intros page s2 [-> ->]. apply wp_bind.
  eapply wp_mono; [by apply not_mapped_spec; [apply Hmv|..]|].
  intros r s2 (Hmv2 & Ht2 & [(-> & -> & Hent & Hno)|(-> & Hs)]).
  - apply (Hfail s1 Hmv). intros Hc w d Hvw.
    apply (view_absent s1 pid n ft w d Ht Hent Hno), (mv_view _ _ Hmv Hc); [lia|done].
  - apply Hk; [by eapply moved_trans|done|done].
Qed.

Lemma store_spec s pid address v :
  inv s → 0 ≤ pid < MAX_PROCESSES → 0 ≤ address < VIRT_ADD_SPACE → is_byte v →
  wp (store pid address v) s (store_post s pid (address `quot` PAGE_SIZE) (address `rem` PAGE_SIZE) v).
Proof.
  intros Hinv Hpid Haddr Hv. destruct (page_of_address address Haddr) as [Hn Hoff]. unfold store.
  cbv zeta. generalize dependent (address `quot` PAGE_SIZE). intros n Hn.
  generalize dependent (address `rem` PAGE_SIZE). intros off Hoff.
  apply (resident_wp s pid n _ _ (λ page, p ← reads (deref page); _)); [done..| |].
  - intros s' Hmv Hnv. assert (∀ m : msg, wp (_ ← emit m; mret 0) s' (store_post s pid n off v)) as H.
    { intros m. apply wp_bind, wp_emit, wp_ret. split; [by apply Hmv|]. intros Hc.
      split; [by apply Hmv|]. left. split; [done|]. split; [by apply moved_same|].
      intros w d Hvw. by destruct (Hnv Hc w d). }
    split; apply H.
  - intros s1 ft Hmv Ht Hs. pose proof (mv_inv _ _ Hmv) as Hinv1.
    destruct (ent_entry s1 pid ft n Hinv1 Ht Hs) as (b & d & He & Hb & Hvb & Hd & _).
    assert (∀ w d', clean s → view s pid n w d' ↔ w = page_write b ∧ d' = d) as Hview.
    { intros w d' Hc. rewrite <-(mv_view _ _ Hmv Hc) by lia.
      rewrite (view_resident s1 pid n b w d' Hinv1 He Hvb), Hd.
      split; [|by intros [-> ->]]. by intros [-> [= ->]]. }
    apply wp_bind, (wp_reads _ _ _ b); [done|]. destruct (truthy (page_write b)) eqn:Hw; simpl.
    + pose proof (ent_range s1 Hinv1 pid n (page_frame b) (ep_ent s1 pid n b He Hvb)) as Hfr.
      destruct (mem_in_range s1 Hinv1 (page_frame b) off Hfr Hoff) as (old & Hold & _).
      destruct (deref_put_page (PMem (page_frame b * PAGE_SIZE + off)) old v s1 Hold) as [s2 H2].
      simpl in H2. apply wp_bind, wp_modifies with s2; [done|].
      apply wp_bind, (wp_reads _ _ _ b).
      { pose proof (wb_entry s1 s2 pid n b off v Hinv1 He Hvb Hoff Hv H2 pid n) as E.
        rewrite He in E. apply (ep_mb s2 pid ft n b); [|done]. by rewrite (we_tab s1 s2 _ _ _ H2). }
      apply wp_bind, wp_emit, wp_ret. split; [by eapply (wb_inv s1 s2 pid n b off v)|]. intros Hc.
      split; [by eapply (wb_clean s1 s2 pid n b off v), Hmv|]. right. split; [done|].
      exists (page_write b), d. split; [by apply truthy_true|]. split; [by apply Hview|].
      eapply updated_same; [by apply moved_same|]. by eapply (wb_updated s1 s2 pid n b off v).
    + apply wp_bind, wp_emit, wp_ret. split; [done|]. intros Hc. split; [by apply Hmv|].
      left. split; [done|]. split; [by apply moved_same|]. intros w d' Hvw.
      apply Hview in Hvw as [-> _]; [|done]. by apply truthy_false.
Qed.

Lemma load_spec s pid address :
  inv s → 0 ≤ pid < MAX_PROCESSES → 0 ≤ address < VIRT_ADD_SPACE →
  wp (load pid address) s (load_post s pid (address `quot` PAGE_SIZE) (address `rem` PAGE_SIZE)).
Proof.
  intros Hinv Hpid Haddr. destruct (page_of_address address Haddr) as [Hn Hoff]. unfold load.
  cbv zeta. generalize dependent (address `quot` PAGE_SIZE). intros n Hn.
  generalize dependent (address `rem` PAGE_SIZE). intros off Hoff.
  apply (resident_wp s pid n _ _ (λ page, p ← reads (deref page); _)); [done..| |].
  - intros s' Hmv Hnv. assert (∀ m : msg, wp (_ ← emit m; mret (0, None)) s' (load_post s pid n off)) as H.
    { intros m. apply wp_bind, wp_emit, wp_ret. split; [by apply Hmv|]. intros Hc.
      split; [by apply Hmv|]. split; [by apply moved_same|]. left. by split; [|apply Hnv]. }
    split; apply H.
  - intros s1 ft Hmv Ht Hs. pose proof (mv_inv _ _ Hmv) as Hinv1.
    destruct (ent_entry s1 pid ft n Hinv1 Ht Hs) as (b & d & He & Hb & Hvb & Hd & _).
    apply wp_bind, (wp_reads _ _ _ b); [done|].
    pose proof Hd as [_ Hget]%frame_data_Some. destruct (Hget off Hoff) as [E [v Hv]].
    apply wp_bind, (wp_reads _ _ _ v); [by rewrite <-Hv|]. apply wp_bind, wp_emit, wp_ret.
    split; [done|]. intros Hc. split; [by apply Hmv|]. split; [by apply moved_same|]. right.
    exists (page_write b), d, v. split; [done|]. split; [|done].
    apply (mv_view _ _ Hmv Hc); [lia|]. by apply (view_resident s1 pid n b).
Qed.
