(* ===== verification/Paging2Props.v ===== *)
(** * Project4/Part2: the properties of the swapping simulator

    Sequences of operations from the start of [main]; the abstract memory they
    implement; the command loop. *)

From stdpp Require Import gmap.
From Stdlib Require Import Ascii.
From S2P Require Import Prelude CString Paging2 Mem2 Paging2Inv Paging2Write Paging2Evict Paging2Free Paging2Load Paging2Ops.

(** ** Sequences of operations *)

Inductive op : Type :=
  | OMap (pid address write : Z)
  | OStore (pid address value : Z)
  | OLoad (pid address : Z).

#[global] Instance op_eq_dec : EqDecision op.
Proof. solve_decision. Defined.

Definition exec (o : op) : prog (Z * option Z) :=
  match o with
  | OMap pid address write => r ← map_page pid address write; mret (r, None)
  | OStore pid address value => r ← store pid address value; mret (r, None)
  | OLoad pid address => load pid address
  end.

Fixpoint run_ops (l : list op) : prog (list (Z * option Z)) :=
  match l with
  | [] => mret []
  | o :: l' => r ← exec o; rs ← run_ops l'; mret (r :: rs)
  end.

Definition op_pid (o : op) : Z :=
  match o with OMap pid _ _ | OStore pid _ _ | OLoad pid _ => pid end.
Definition op_address (o : op) : Z :=
  match o with OMap _ a _ | OStore _ a _ | OLoad _ a => a end.

Definition op_ok (o : op) : Prop :=
  0 ≤ op_pid o < MAX_PROCESSES ∧ 0 ≤ op_address o < VIRT_ADD_SPACE ∧
  match o with OMap _ _ w => 0 ≤ w ≤ 1 | OStore _ _ v => is_byte v | OLoad _ _ => True end.

(** The operation does not map page 0. *)
Definition not_page0 (o : op) : Prop :=
  match o with OMap _ a _ => PAGE_SIZE ≤ a | _ => True end.

#[global] Instance op_ok2_dec o : Decision (op_ok o).
Proof. unfold op_ok. destruct o; apply _. Defined.
#[global] Instance not_page0_dec o : Decision (not_page0 o).
Proof. unfold not_page0. destruct o; apply _. Defined.

(** ** The abstract memory

    A process sees pages with a permission and sixteen bytes; there are no frames
    and no backing store.  A new page has unspecified contents. *)

Record apage : Type := mkPage { ap_write : Z; ap_data : list Z }.

Definition page_no (o : op) : Z := op_address o `quot` PAGE_SIZE.
Definition offset (o : op) : Z := op_address o `rem` PAGE_SIZE.
Definition key (o : op) : Z * Z := (op_pid o, page_no o).

Inductive astep : op → Z * option Z → gmap (Z * Z) apage → gmap (Z * Z) apage → Prop :=
  | A_map_old pid address w r a pg :
      a !! key (OMap pid address w) = Some pg → r = 0 ∨ r = 1 →
      astep (OMap pid address w) (r, None) a
        (<[key (OMap pid address w) := mkPage w (ap_data pg)]> a)
  | A_map_new pid address w d a :
      a !! key (OMap pid address w) = None → length d = 16%nat → Forall is_byte d →
      astep (OMap pid address w) (1, None) a (<[key (OMap pid address w) := mkPage w d]> a)
  | A_store pid address v a pg :
      a !! key (OStore pid address v) = Some pg → ap_write pg ≠ 0 →
      astep (OStore pid address v) (1, None) a
        (<[key (OStore pid address v) := mkPage (ap_write pg)
          (<[Z.to_nat (offset (OStore pid address v)) := v]> (ap_data pg))]> a)
  | A_store_fail pid address v a :
      (∀ pg, a !! key (OStore pid address v) = Some pg → ap_write pg = 0) →
      astep (OStore pid address v) (0, None) a a
  | A_load pid address v a pg :
      a !! key (OLoad pid address) = Some pg →
      zget (ap_data pg) (offset (OLoad pid address)) = Some v →
      astep (OLoad pid address) (1, Some v) a a
  | A_load_fail pid address a :
      a !! key (OLoad pid address) = None →
      astep (OLoad pid address) (0, None) a a.

Inductive asteps : list op → list (Z * option Z) → gmap (Z * Z) apage → gmap (Z * Z) apage → Prop :=
  | A_nil a : asteps [] [] a a
  | A_cons o l r rs a1 a2 a3 :
      astep o r a1 a2 → asteps l rs a2 a3 → asteps (o :: l) (r :: rs) a1 a3.

(** The concrete state shows each process exactly the abstract pages. *)
Record rep (s : state) (a : gmap (Z * Z) apage) : Prop := mkRep {
  rep_inv : inv s;
  rep_clean : clean s;
  rep_pages : ∀ i n w d, 0 ≤ n → view s i n w d ↔ a !! (i, n) = Some (mkPage w d);
}.

Lemma rep_same s s' a : rep s a → inv s' → clean s' → same_views s s' → rep s' a.
Proof.
  intros Hr Hi Hc Hv. split; [done..|]. intros i n w d Hn. rewrite (Hv i n w d Hn).
  by apply (rep_pages _ _ Hr).
Qed.

Lemma rep_updated s s' a pid n w d : 0 ≤ n → rep s a → inv s' → clean s' →
  updated s s' pid n w d → rep s' (<[(pid, n) := mkPage w d]> a).
Proof.
  intros Hn Hr Hi Hc Hu. split; [done..|]. intros i m w' d' Hm. rewrite (Hu i m w' d' Hm).
  rewrite lookup_insert. case_decide as E.
  - injection E as -> ->. rewrite decide_True by done. split; [by intros [-> ->]|by intros [= -> ->]].
  - rewrite decide_False by congruence. by apply (rep_pages _ _ Hr).
Qed.

Lemma rep_none s a i n : 0 ≤ n → rep s a → (∀ w d, ¬ view s i n w d) → a !! (i, n) = None.
Proof.
  intros Hn Hr Hno. destruct (a !! (i, n)) as [[w d]|] eqn:E; [|done].
  apply (rep_pages _ _ Hr) in E; [|done]. by destruct (Hno w d).
Qed.

Lemma exec_inv s o : inv s → op_ok o → wp (exec o) s (λ _ s', inv s').
Proof.
  intros Hinv (Hp & Ha & Hv). destruct o as [pid a w|pid a v|pid a]; simpl in *.
  - apply wp_bind. eapply wp_mono; [by apply map_page_spec|]. intros r s' [Hi _]. by apply wp_ret.
  - apply wp_bind. eapply wp_mono; [by apply store_spec|]. intros r s' [Hi _]. by apply wp_ret.
  - eapply wp_mono; [by apply load_spec|]. intros r s' [Hi _]. done.
Qed.

Lemma page_no_pos o : op_ok o → 0 ≤ page_no o.
Proof. intros (_ & Ha & _). destruct (page_of_address _ Ha) as [? _]. unfold page_no. lia. Qed.

Lemma exec_rep s a o : rep s a → op_ok o → not_page0 o →
  wp (exec o) s (λ r s', ∃ a', astep o r a a' ∧ rep s' a').
Proof.
  intros Hr Hok H0. pose proof (page_no_pos o Hok) as Hn. destruct Hok as (Hp & Ha & Hv).
  pose proof (rep_inv _ _ Hr) as Hinv. pose proof (rep_clean _ _ Hr) as Hc.
  destruct o as [pid addr w|pid addr v|pid addr]; simpl in *.
  - apply wp_bind. eapply wp_mono; [by apply map_page_spec|]. intros r s' (Hi & Hr01 & Hpost).
    apply wp_ret. destruct (Hpost Hc) as [Hc' Hm].
    { clear -H0 Ha. rewrite Z.quot_div_nonneg by (consts; lia).
      apply Z.div_le_lower_bound; consts; lia. }
    destruct Hm as [(w0 & d & Hvw & Hup)|(-> & Hno & d & Hl & Hb & Hup)].
    + apply (rep_pages _ _ Hr) in Hvw; [|done]. eexists.
      split; [by apply (A_map_old pid addr w r a _ Hvw)|]. by eapply rep_updated.
    + eexists. split; [apply (A_map_new pid addr w d a); [by eapply rep_none|done..]|].
      by eapply rep_updated.
  - apply wp_bind. eapply wp_mono; [by apply store_spec|]. intros r s' (Hi & Hpost).
    apply wp_ret. destruct (Hpost Hc) as [Hc' [(-> & Hsame & Hw)|(-> & w & d & Hw & Hvw & Hup)]].
    + exists a. split; [|by eapply rep_same]. apply A_store_fail. intros [w d] Hpg.
      apply (rep_pages _ _ Hr) in Hpg; [|done]. by apply (Hw w d).
    + apply (rep_pages _ _ Hr) in Hvw; [|done]. eexists.
      split; [by apply (A_store pid addr v a _ Hvw)|]. by eapply rep_updated.
  - eapply wp_mono; [by apply load_spec|]. intros r s' (Hi & Hpost).
    destruct (Hpost Hc) as (Hc' & Hsame & [(-> & Hno)|(w & d & v & -> & Hvw & Hg)]); exists a;
      (split; [|by eapply rep_same]).
    + apply A_load_fail. by eapply rep_none.
    + apply (rep_pages _ _ Hr) in Hvw; [|done]. by apply (A_load pid addr v a _ Hvw).
Qed.

Lemma run_ops_rep s a l : rep s a → Forall op_ok l → Forall not_page0 l →
  wp (run_ops l) s (λ rs s', ∃ a', asteps l rs a a' ∧ rep s' a').
Proof.
  intros Hr Hl. revert s a Hr. induction Hl as [|o l Ho Hl IH]; intros s a Hr H0; simpl.
  - apply wp_ret. exists a. split; [constructor|done].
  - apply Forall_cons in H0 as [H0 H0']. apply wp_bind.
    eapply wp_mono; [by apply exec_rep|]. simpl. intros r s1 (a1 & Ha1 & Hr1).
    apply wp_bind. eapply wp_mono; [by apply IH|]. simpl. intros rs s2 (a2 & Ha2 & Hr2).
    apply wp_ret. exists a2. split; [by econstructor|done].
Qed.

(** ** The initial state *)

Definition started : state :=
  mkState (replicate (Z.to_nat PHYS_MEM_SIZE) 0) (replicate (Z.to_nat MAX_PROCESSES) 0)
    (replicate (Z.to_nat STORE_FRAMES) (mkStored (replicate 16 0) (-1) 0 0)) 0.

Lemma startup_started : startup static_state = Done tt started [].
Proof. by vm_compute. Qed.

Lemma started_tab i : tab started i = None.
Proof.
  unfold tab. destruct (zget (procTable started) i) as [p|] eqn:E; [|done]. simpl.
  apply zget_In in E. assert (p = 0) as ->; [|done]. by apply elem_of_replicate_inv in E.
Qed.

Lemma started_frame_of o : frame_of started o = None.
Proof. destruct o as [i|i n]; simpl; [apply started_tab|]. unfold ent, entry. by rewrite started_tab. Qed.

Lemma started_slot k x : slot started k = Some x → x = mkStored (replicate 16 0) (-1) 0 0.
Proof. intros H%zget_In. by apply elem_of_replicate_inv in H. Qed.

Lemma started_holds k i n x : ¬ holds started k i n x.
Proof. intros (Hx & Hp & _ & ?). apply started_slot in Hx. subst. simpl in *. lia. Qed.

Lemma started_inv : inv started.
Proof.
  split; try done.
  - by apply Forall_replicate.
  - by apply Forall_replicate.
  - intros o f. by rewrite started_frame_of.
  - intros o o' f. by rewrite started_frame_of.
  - intros i p Hp Hv. apply zget_In in Hp. assert (p = 0) as -> by (by apply elem_of_replicate_inv in Hp).
    done.
  - intros i n b. unfold entry. by rewrite started_tab.
  - intros i n f. by rewrite (started_frame_of (Ent i n) : ent started i n = None).
  - intros k x ->%started_slot. split; cbn [sf_data sf_pid sf_write sf_page]; [done| |done|lia|lia].
    by apply Forall_replicate.
  - intros k k' i n x x' H. by destruct (started_holds k i n x).
  - intros k i x H. by destruct (started_holds k i (-1) x).
  - intros k i n x H. by destruct (started_holds k i n x).
Qed.

Lemma started_rep : rep started ∅.
Proof.
  split; [apply started_inv|split|].
  - intros i. apply (started_frame_of (Ent i 0)).
  - intros k i n x H. by destruct (started_holds k i n x).
  - intros k i n x H. by destruct (started_holds k i n x).
  - intros i n w d _. rewrite lookup_empty. split; [|done].
    intros [(b & Hb & _)|(k & x & H & _)].
    + unfold entry in Hb. by rewrite started_tab in Hb.
    + by destruct (started_holds k i n x).
Qed.

(** ** Properties *)

(** C1. Transparency of swapping: run from the start of [main], any sequence of
    in-range operations that does not map page 0 returns, call by call, results an
    abstract memory without frames and swapping allows, and ends in a state whose
    resident and stored frames together represent that memory. *)
Theorem paging2_refinement (l : list op) :
  Forall op_ok l → Forall not_page0 l →
  wp (_ ← startup; run_ops l) static_state (λ rs s', ∃ a, asteps l rs ∅ a ∧ rep s' a).
Proof.
  intros Hl H0. apply wp_bind. eapply Done_wp; [apply startup_started|].
  apply run_ops_rep; [apply started_rep|done..].
Qed.

Definition sample_ops : list op :=
  [OMap 0 16 1; OStore 0 17 25; OMap 1 20 1; OMap 2 33 1; OStore 2 34 7; OMap 3 63 1; OLoad 0 17;
   OLoad 2 34].

Lemma paging2_refinement_witness :
  wp (_ ← startup; run_ops sample_ops) static_state (λ rs s', ∃ a, asteps sample_ops rs ∅ a ∧ rep s' a).
Proof.
  apply (paging2_refinement sample_ops); apply (bool_decide_unpack _); by vm_compute.
Defined.

(** C20. Invariant: every in-range operation, page 0 included, returns without
    undefined behaviour and without running out of fuel, and keeps the invariant
    (frames in range and pairwise distinct, entries tagged with their process, no
    page resident and stored at once, no key stored twice). *)
Theorem paging2_inv_preserved (s : state) (o : op) :
  inv s → op_ok o → wp (exec o) s (λ _ s', inv s').
Proof. apply exec_inv. Qed.

Lemma paging2_inv_preserved_witness : wp (exec (OStore 3 5 200)) started (λ _ s', inv s').
Proof.
  apply (paging2_inv_preserved started (OStore 3 5 200)); [apply started_inv|].
  apply (bool_decide_unpack _). by vm_compute.
Defined.

(** *** The last value stored is the value loaded *)

Definition stores_at (pid address : Z) (o : op) : bool :=
  match o with OStore p a _ => bool_decide (p = pid ∧ a = address) | _ => false end.

(** The abstract memory has [v] at [address] of [pid]. *)
Definition has_value (pid address v : Z) (a : gmap (Z * Z) apage) : Prop :=
  ∃ pg, a !! (pid, address `quot` PAGE_SIZE) = Some pg ∧
    zget (ap_data pg) (address `rem` PAGE_SIZE) = Some v.

Lemma astep_has_value pid address v o r a a' :
  0 ≤ address < VIRT_ADD_SPACE → op_ok o → stores_at pid address o = false →
  has_value pid address v a → astep o r a a' → has_value pid address v a'.
Proof.
  intros Ha (_ & Hoa & _) Hns (pg & Hpg & Hv) Hstep. unfold has_value.
  destruct Hstep as [pid' a' w r a pg' Hk _|pid' a' w d a Hk _ _|pid' a' v' a pg' Hk Hw|?|?|?];
    try (by exists pg); rewrite lookup_insert; unfold key, page_no in *; simpl in *;
    (destruct (decide ((pid', a' `quot` PAGE_SIZE) = (pid, address `quot` PAGE_SIZE))) as [E|E];
      [injection E as -> E; rewrite E, Hpg in Hk|by exists pg]).
  - injection Hk as <-. eexists. by split.
  - done.
  - injection Hk as <-. eexists. split; [done|]. simpl. rewrite <-Hv.
    rewrite bool_decide_eq_false in Hns. unfold offset, zget. simpl.
    destruct (page_of_address address Ha) as [_ ?]. destruct (page_of_address a' Hoa) as [_ ?].
    rewrite !decide_True by lia. apply list_lookup_insert_ne. intros Eo. apply Hns. split; [done|].
    rewrite (Z.quot_rem' address PAGE_SIZE), (Z.quot_rem' a' PAGE_SIZE). lia.
Qed.

Lemma asteps_has_value pid address v l rs a a' :
  0 ≤ address < VIRT_ADD_SPACE → Forall op_ok l → Forall (λ o, stores_at pid address o = false) l →
  has_value pid address v a → asteps l rs a a' → has_value pid address v a'.
Proof.
  intros Ha Hok Hns Hv Hsteps. revert Hok Hns Hv.
  induction Hsteps as [|o l r rs a1 a2 a3 Ho _ IH]; intros Hok Hns Hv; [done|].
  apply Forall_cons in Hok as [Ho1 Hok]. apply Forall_cons in Hns as [Ho2 Hns].
  apply IH; [done..|]. by eapply astep_has_value.
Qed.

Lemma store_then_load_rep (s : state) (a : gmap (Z * Z) apage) (pid address v : Z) (l : list op) :
  rep s a → op_ok (OStore pid address v) → Forall op_ok l → Forall not_page0 l →
  Forall (λ o, stores_at pid address o = false) l →
  wp (r ← store pid address v; _ ← run_ops l; x ← load pid address; mret (r, x)) s
    (λ '(r, x) _, r = 1 → x = (1, Some v)).
Proof.
  intros Hr Ho Hl H0 Hns. pose proof Ho as (Hp & Ha & Hv). simpl in Hp, Ha, Hv.
  apply wp_bind. pose proof (exec_rep s a (OStore pid address v) Hr Ho I) as Hstore.
  simpl in Hstore. unfold wp at 1, mbind, M_bind, mret, M_ret in Hstore. unfold wp at 1.
  destruct (store pid address v s) as [r s1 o1| |]; [|done..].
  destruct Hstore as (a1 & Hstep & Hr1). apply wp_bind.
  eapply wp_mono; [by apply run_ops_rep|]. simpl. intros rs s2 (a2 & Hsteps & Hr2).
  apply wp_bind. eapply wp_mono; [by apply (exec_rep s2 a2 (OLoad pid address) Hr2)|]. simpl.
  intros x s3 (a3 & Hload & _). apply wp_ret. intros ->.
  assert (has_value pid address v a1) as Hv1.
  { inversion Hstep as [| |? ? ? ? pg Hk _| | |]; subst. eexists. split; [apply lookup_insert_eq|].
    simpl. destruct (page_of_address address Ha) as [Hn Hoff]. unfold offset, zget. simpl.
    rewrite decide_True by lia. apply list_lookup_insert_eq.
    destruct pg as [w d]. apply (rep_pages _ _ Hr) in Hk; [|simpl; unfold page_no; simpl; lia].
    assert (length d = 16%nat) as Hlen; [|simpl; consts; lia].
    destruct Hk as [(b & Hb & Hvb & _ & Hd)|(k & y & (Hy & _) & _ & <-)].
    - by apply frame_data_Some in Hd as [? _].
    - by destruct (i_slot s (rep_inv _ _ Hr) k y Hy). }
  destruct (asteps_has_value pid address v l rs a1 a2 Ha Hl Hns Hv1 Hsteps) as (pg & Hpg & Hg).
  inversion Hload as [| | | |? ? v' ? pg' Hk Hg'|? ? ? Hk]; subst; unfold key, page_no, offset in *; simpl in *.
  - rewrite Hpg in Hk. injection Hk as <-. by rewrite Hg in Hg'; injection Hg' as <-.
  - by rewrite Hpg in Hk.
Qed.

(** C7. Read your writes across swapping, as long as nobody uses page 0: run from the start
    of [main] any in-range operations [l0] and then a [store] that succeeds, then any
    in-range operations [l] of any process that do not store at that address; if none of
    [l0] and [l] maps page 0, [load] returns the stored value, however often the page has
    moved to the backing store and back.  (Page 0 is lost, see [paging2_page0_lost].) *)
Theorem paging2_store_then_load (l0 l : list op) (pid address v : Z) :
  Forall op_ok l0 → Forall not_page0 l0 → op_ok (OStore pid address v) → Forall op_ok l → Forall not_page0 l →
  Forall (λ o, stores_at pid address o = false) l →
  wp (_ ← startup; _ ← run_ops l0; r ← store pid address v; _ ← run_ops l; x ← load pid address; mret (r, x))
    static_state (λ '(r, x) _, r = 1 → x = (1, Some v)).
Proof.
  intros Hl0 H00 Ho Hl H0 Hns. apply wp_bind. eapply Done_wp; [apply startup_started|].
  apply wp_bind. eapply wp_mono; [apply run_ops_rep; [apply started_rep|done..]|]. simpl.
  intros rs s (a & _ & Hr). by apply (store_then_load_rep s a).
Qed.

(** Four processes with one page each: more frames than physical memory has. *)
Definition crowded_ops : list op := [OMap 0 16 1; OMap 1 16 1; OMap 2 16 1; OMap 3 16 1].

Definition crowded : state :=
  Eval vm_compute in
    match run_ops crowded_ops started with Done _ s _ => s | _ => started end.

Lemma crowded_rep : ∃ a, rep crowded a.
Proof.
  assert (wp (run_ops crowded_ops) started (λ rs s, ∃ a, asteps crowded_ops rs ∅ a ∧ rep s a)) as H.
  { apply run_ops_rep; [apply started_rep|apply (bool_decide_unpack _); by vm_compute..]. }
  assert (∃ rs o, run_ops crowded_ops started = Done rs crowded o) as (rs & o & E).
  { eexists _, _. vm_compute. reflexivity. }
  destruct (wp_det _ _ _ _ _ _ H E) as (a & _ & Ha). by exists a.
Qed.

Lemma crowded_inv : inv crowded.
Proof. destruct crowded_rep as [a Ha]. apply Ha. Qed.

Definition crowded_run : prog (Z * (Z * option Z)) :=
  _ ← startup; _ ← run_ops crowded_ops; r ← store 0 18 99; _ ← run_ops crowded_ops; x ← load 0 18; mret (r, x).

Lemma crowded_stored : match crowded_run static_state with Done (r, _) _ _ => r | _ => 0 end = 1.
Proof. by vm_compute. Qed.

Lemma paging2_store_then_load_witness : wp crowded_run static_state (λ '(r, x) _, r = 1 ∧ x = (1, Some 99)).
Proof.
  assert (wp crowded_run static_state (λ '(r, x) _, r = 1 → x = (1, Some 99))) as H.
  { apply (paging2_store_then_load crowded_ops crowded_ops 0 18 99); apply (bool_decide_unpack _); by vm_compute. }
  pose proof crowded_stored as Hr. unfold wp in *. destruct (crowded_run static_state) as [[r x] s o| |]; try done.
  split; [exact Hr|by apply H].
Defined.

(** Replacement: [find_free_frame] always returns (two rounds of [free_frame] are
    enough), with a frame that no table and no page holds any more; the page table of
    the process that asks stays where it is, nothing stored is overwritten, and no
    process without page 0 sees a change. *)
Theorem paging2_find_free_frame (s : state) (pid : Z) :
  inv s → wp (find_free_frame pid) s (λ f s',
    0 ≤ f < PAGE_FRAMES ∧ ¬ owned s' f ∧ tab s' pid = tab s pid ∧ inv s' ∧
    (∀ k i n x, holds s k i n x → holds s' k i n x) ∧
    (clean s → same_views s s')).
Proof.
  intros Hinv. eapply wp_mono; [by apply find_free_frame_spec|].
  intros f s' (Hev & Hf & Hno & Ht). split_and!; [lia..|done|done|apply Hev| |].
  - intros k i n x. apply (ev_slots _ _ Hev).
  - intros Hc. by apply moved_same; [apply evicted_moved|].
Qed.

Lemma paging2_find_free_frame_witness :
  wp (find_free_frame 2) crowded (λ f s',
    0 ≤ f < PAGE_FRAMES ∧ ¬ owned s' f ∧ tab s' 2 = tab crowded 2 ∧ inv s' ∧
    (∀ k i n x, holds crowded k i n x → holds s' k i n x) ∧
    (clean crowded → same_views crowded s')).
Proof. apply (paging2_find_free_frame crowded 2), crowded_inv. Defined.

Lemma page0_not_found (s : state) (pid : Z) (fuel : nat) :
  inv s → 0 ≤ pid → check_backing_store (S fuel) pid 0 s = Done 0 s [].
Proof.
  intros Hinv Hpid. cbn [check_backing_store].
  destruct (stored_slot_spec s pid 0 Hinv Hpid) as [(k & x & _ & Hx & Hp & Hn & _)|[E _]].
  - destruct (i_slot s Hinv k x Hx) as [_ _ _ _ Hs]. rewrite Hp, Hn in Hs. lia.
  - by rewrite (reads_bind _ _ _ None).
Qed.

Lemma run_ops_inv s l : inv s → Forall op_ok l → wp (run_ops l) s (λ _ s', inv s').
Proof.
  intros Hs Hl. revert s Hs. induction Hl as [|o l Ho Hl IH]; intros s Hs; cbn [run_ops]; [by apply wp_ret|].
  apply wp_bind. eapply wp_mono; [by apply exec_inv|]. intros r s1 H1. apply wp_bind.
  eapply wp_mono; [by apply IH|]. intros rs s2 H2. by apply wp_ret.
Qed.

(** A value is stored in page 0 of process 0, then the page is pushed out. *)
Definition page0_ops : list op := [OMap 0 1 1; OStore 0 1 25; OMap 1 17 1; OMap 2 17 1; OLoad 0 1].

(** C25. Page 0 is lost when it is moved out.  After any in-range operations from the
    start of [main]: [get_page_num] gives a resident page [n] of a process the key [n] for
    [n] from 1 to 15, but -2 for [n = 0], because its scan starts at entry 1; and
    [check_backing_store] does not find page 0 of any process.  So in the run
    [page0_ops] a store to page 0 succeeds and the later load of the same address finds
    nothing mapped. *)
Theorem paging2_page0_lost :
  (∀ l, Forall op_ok l →
   wp (_ ← startup; run_ops l) static_state (λ _ s,
     (∀ i ft n, tab s i = Some ft → 0 ≤ n < PAGE_SIZE →
        get_page_num (PMem (ft * PAGE_SIZE + n)) s = Some (if n =? 0 then -2 else n)) ∧
     ∀ pid fuel, 0 ≤ pid → check_backing_store (S fuel) pid 0 s = Done 0 s [])) ∧
  Forall op_ok page0_ops ∧
  ∃ s o, (_ ← startup; run_ops page0_ops) static_state =
    Done [(1, None); (1, None); (1, None); (1, None); (0, None)] s o.
Proof.
  split_and!.
  - intros l Hl. apply wp_bind. eapply Done_wp; [apply startup_started|].
    eapply wp_mono; [by apply run_ops_inv; [apply started_inv|]|]. intros rs s Hs. split.
    + intros i ft n Ht Hn. rewrite (get_page_num_entry s i) by done. unfold page_key.
      by destruct (Z.eqb_spec n 0), (decide (n = 0)).
    + intros pid fuel Hp. by apply page0_not_found.
  - apply (bool_decide_unpack _). by vm_compute.
  - eexists _, _. vm_compute. reflexivity.
Qed.

(** Capacity: while page 0 is not used, at most 16 of the 64 slots are taken, so
    [free_specific_frame] always finds one and never drops a frame. *)
Theorem paging2_store_never_full (s : state) :
  inv s → clean s → ∃ k x, unused_slot s = Some (Some k) ∧ slot s k = Some x ∧ sf_pid x < 0.
Proof. intros Hinv Hc. apply slot_available; [done|apply (c_keys s Hc)]. Qed.

Lemma paging2_store_never_full_witness :
  ∃ k x, unused_slot crowded = Some (Some k) ∧ slot crowded k = Some x ∧ sf_pid x < 0.
Proof.
  destruct crowded_rep as [a Ha].
  apply (paging2_store_never_full crowded); [apply (rep_inv _ _ Ha)|apply (rep_clean _ _ Ha)].
Defined.

(** ** The command loop *)

Lemma bad_pid_undefined s o : inv s → ¬ (0 ≤ op_pid o < MAX_PROCESSES) → exec o s = Undef.
Proof.
  intros Hinv Hpid. assert (zget (procTable s) (op_pid o) = None) as H.
  { apply zget_None. by rewrite (i_proc s Hinv). }
  destruct o as [pid a w|pid a v|pid a]; simpl in *; unfold map_page, store, load, no_table, FUEL;
    cbn [find_page]; unfold mbind, M_bind, reads; by rewrite H.
Qed.

(** A computation that has a defined result keeps the invariant. *)
Definition safe {A} (m : prog A) : Prop := ∀ s, inv s →
  match m s with Done _ s' _ => inv s' | Undef => True | NoFuel => False end.

Lemma safe_bind {A B} (m : prog A) (k : A → prog B) : safe m → (∀ a, safe (k a)) → safe (m ≫= k).
Proof.
  intros Hm Hk s Hs. specialize (Hm s Hs). unfold mbind, M_bind.
  destruct (m s) as [a s1 o1| |]; [|done..]. specialize (Hk a s1 Hm). by destruct (k a s1).
Qed.

Lemma safe_reads {A} (f : state → option A) : safe (reads f).
Proof. intros s Hs. unfold reads. by destruct (f s). Qed.

Lemma safe_exec o : 0 ≤ op_address o < VIRT_ADD_SPACE →
  match o with OMap _ _ w => 0 ≤ w ≤ 1 | OStore _ _ v => is_byte v | OLoad _ _ => True end →
  safe (exec o).
Proof.
  intros Ha Hv s Hs. destruct (decide (0 ≤ op_pid o < MAX_PROCESSES)) as [Hp|Hp].
  - assert (op_ok o) as Ho by exact (conj Hp (conj Ha Hv)). pose proof (exec_inv s o Hs Ho) as H. unfold wp in H.
    by destruct (exec o s).
  - by rewrite bad_pid_undefined.
Qed.

Lemma safe_drop {A B} (m : prog A) (f : A → B) : safe (a ← m; mret (f a)) → safe (_ ← m; mret tt).
Proof.
  intros H s Hs. specialize (H s Hs). unfold mbind, M_bind, mret, M_ret in *. by destruct (m s).
Qed.

Lemma safe_command buf : safe (command buf).
Proof.
  unfold command, dispatch. destruct (strtok ","%char buf) as [pidstr sv1].
  destruct (strtok ","%char sv1) as [instruction sv2], (strtok ","%char sv2) as [addressstr sv3].
  destruct (strtok ","%char sv3) as [valuestr sv4].
  apply safe_bind; [apply safe_reads|]. intros pid. apply safe_bind; [apply safe_reads|]. intros address.
  apply safe_bind; [apply safe_reads|]. intros value.
  destruct (Z.leb_spec VIRT_ADD_SPACE address), (Z.ltb_spec address 0); cbn [orb];
    try (intros s Hs; exact Hs).
  apply safe_bind; [destruct (_ || _); intros s Hs; exact Hs|]. intros _. destruct instruction as [ins|]; [|done].
  destruct (decide (ins = "map"%string)).
  { destruct (Z.ltb_spec 1 value), (Z.ltb_spec value 0); cbn [orb]; try (intros s Hs; exact Hs).
    apply (safe_drop _ (λ r, (r, None : option Z))). apply (safe_exec (OMap pid address value)); simpl; lia. }
  destruct (decide (ins = "store"%string)).
  { apply (safe_drop _ (λ r, (r, None : option Z))).
    apply (safe_exec (OStore pid address (to_uchar value))); simpl; [lia|].
    apply Z.mod_pos_bound. lia. }
  destruct (decide (ins = "load"%string)); [|intros s Hs; exact Hs].
  apply (safe_drop _ id). intros s Hs. pose proof (safe_exec (OLoad pid address)) as Hl. simpl in Hl.
  specialize (Hl ltac:(lia) I s Hs). unfold mbind, M_bind, mret, M_ret. by destruct (load pid address s).
Qed.

(** *** Sessions *)

Definition op_name (o : op) : string :=
  match o with OMap _ _ _ => "map" | OStore _ _ _ => "store" | OLoad _ _ => "load" end.
Definition op_value (o : op) : Z :=
  match o with OMap _ _ w => w | OStore _ _ v => v | OLoad _ _ => 0 end.

Definition print_op (o : op) : string := command_line (op_pid o) (op_name o) (op_address o) (op_value o).

(** The lines of a list of operations. *)
Definition script (l : list op) : string := foldr (λ o r, print_op o +:+ String newline r) EmptyString l.

Lemma p2_small o : op_ok o → 0 ≤ op_pid o < 256 ∧ 0 ≤ op_address o < 256 ∧ 0 ≤ op_value o < 256.
Proof. intros (? & ? & ?). consts. destruct o; simpl in *; unfold is_byte in *; lia. Qed.

Lemma p2_name o : op_name o ≠ EmptyString ∧ ¬ has_char ","%char (op_name o) ∧ ¬ has_char newline (op_name o) ∧
  (String.length (op_name o) ≤ 5)%nat.
Proof. destruct o; simpl; split_and!; try done; try lia; clear; intuition discriminate. Qed.

Lemma p2_command_print (o : op) (s : state) : op_ok o →
  command (print_op o +:+ String newline EmptyString) s = (_ ← exec o; mret tt) s.
Proof.
  intros Hok. destruct (p2_small o Hok) as (Hp & Ha & Hv). destruct (p2_name o) as (Hne & Hnc & _).
  destruct (command_line_fields (op_pid o) (op_name o) (op_address o) (op_value o) Hne Hnc)
    as (s1 & s2 & s3 & E1 & E2 & E3 & E4). unfold command, print_op. rewrite E1, E2, E3, E4. unfold number_or_zero, prog.
  rewrite (reads_bind _ _ _ (op_pid o)) by (apply atoi_int_whole; unfold is_int, INT_MIN, INT_MAX; lia).
  rewrite (reads_bind _ _ _ (op_address o)) by (apply atoi_int_whole; unfold is_int, INT_MIN, INT_MAX; lia).
  rewrite (reads_bind _ _ _ (op_value o)) by (apply atoi_int; [done|unfold is_int, INT_MIN, INT_MAX; lia]).
  destruct Hok as (Hpid & Haddr & Hval). unfold dispatch.
  rewrite (proj2 (Z.leb_gt _ _)), (proj2 (Z.ltb_ge (op_address o) 0)) by lia. simpl.
  rewrite (proj2 (Z.leb_gt _ _)), (proj2 (Z.ltb_ge (op_pid o) 0)) by lia. simpl.
  rewrite ret_bind. destruct o as [pid address w|pid address v|pid address]; simpl in *.
  - rewrite (proj2 (Z.ltb_ge _ _)), (proj2 (Z.ltb_ge w 0)) by lia. simpl.
    unfold mbind, M_bind, mret, M_ret. destruct (map_page pid address w s); try done. by rewrite !app_nil_r.
  - unfold to_uchar. rewrite Z.mod_small by (unfold is_byte in Hval; lia).
    unfold mbind, M_bind, mret, M_ret. destruct (store pid address v s); try done. by rewrite !app_nil_r.
  - done.
Qed.

Lemma p2_iteration o l s : op_ok o →
  iteration (script (o :: l)) s = (_ ← emit Prompt; _ ← exec o; mret (script l)) s.
Proof.
  intros Ho. destruct (p2_small o Ho) as (? & ? & ?). destruct (p2_name o) as (_ & _ & Hn & Hlen).
  unfold iteration. assert (fgets 120 (script (o :: l)) =
    Some (mkFgets (print_op o +:+ String newline EmptyString) (script l) false)) as -> by (by apply command_line_read).
  cbn [fg_line fg_rest]. pose proof (p2_command_print o s Ho) as Hc. unfold mbind, M_bind in *. unfold emit. rewrite Hc.
  destruct (exec o s); try done. unfold mret, M_ret. by rewrite !app_nil_r.
Qed.

(** The lines of in-range operations run them, and [n] more iterations follow. *)
Lemma p2_loop_script l n s : inv s → Forall op_ok l →
  ∃ rs s' o o', run_ops l s = Done rs s' o ∧ inv s' ∧
    loop (length l + n) (script l) s =
      match loop n EmptyString s' with Done r s2 o2 => Done r s2 (o' ++ o2) | Undef => Undef | NoFuel => NoFuel end.
Proof.
  intros Hs Hl. revert s Hs. induction Hl as [|o l Ho Hl IH]; intros s Hs.
  - exists [], s, [], []. split_and!; try done. cbn [length Nat.add]. change (script []) with EmptyString.
    by destruct (loop n EmptyString s).
  - pose proof (exec_inv s o Hs Ho) as He. unfold wp in He. destruct (exec o s) as [r s1 o1| |] eqn:E; try done.
    destruct (IH s1 He) as (rs & s' & o2 & o' & Hrun & Hi & Hloop).
    exists (r :: rs), s', (o1 ++ o2), (Prompt :: o1 ++ o'). split_and!; [|done|].
    + cbn [run_ops]. unfold mbind, M_bind. rewrite E, Hrun. unfold mret, M_ret.
      by rewrite app_nil_r.
    + cbn [length Nat.add loop]. unfold mbind, M_bind. rewrite p2_iteration by done.
      unfold mbind, M_bind, emit. rewrite E. unfold mret, M_ret. rewrite Hloop.
      destruct (loop n EmptyString s'); try done. f_equal. rewrite app_nil_r. simpl. by rewrite app_assoc.
Qed.

(** C27. A session runs its commands and then fails: on the lines of any in-range
    operations, page 0 included, the loop of [main] returns from every iteration (fuel is
    enough for the recursive calls), reads all of the input and ends in the state
    that the operations one after the other lead to; the next iteration, at the end of the
    input, is undefined, because the result of [fgets] is not checked and the array is
    used although nothing was read. *)
Theorem paging2_session (l : list op) :
  Forall op_ok l →
  ∃ rs s' o o', (_ ← startup; run_ops l) static_state = Done rs s' o ∧
    session (length l) (script l) static_state = Done EmptyString s' o' ∧
    session (S (length l)) (script l) static_state = Undef.
Proof.
  intros Hl. destruct (p2_loop_script l 0 started started_inv Hl) as (rs & s' & o & o' & Hr & _ & H0).
  destruct (p2_loop_script l 1 started started_inv Hl) as (rs1 & s1 & o1 & o1' & Hr1 & _ & H1).
  exists rs, s', o, (o' ++ []). unfold session. unfold prog. rewrite !(bind_silent _ _ _ _ _ startup_started). split_and!.
  - exact Hr.
  - rewrite Nat.add_0_r in H0. exact H0.
  - rewrite Nat.add_1_r in H1. exact H1.
Qed.

Lemma paging2_session_witness :
  ∃ rs s' o o', (_ ← startup; run_ops page0_ops) static_state = Done rs s' o ∧
    session 5 (script page0_ops) static_state = Done EmptyString s' o' ∧
    session 6 (script page0_ops) static_state = Undef.
Proof. apply (paging2_session page0_ops). apply (bool_decide_unpack _). by vm_compute. Defined.

(** On any input no iteration runs out of fuel, whatever its lines are. *)
Lemma session_terminates (n : nat) (stdin : string) : session n stdin static_state ≠ NoFuel.
Proof.
  assert (∀ n inp, safe (loop n inp)) as H.
  { clear. induction n as [|n IH]; intros inp; [by intros s Hs|]. cbn [loop]. apply safe_bind; [|done].
    unfold iteration. apply safe_bind; [by intros s Hs|]. intros _. destruct (fgets 120 inp) as [f|]; [|by intros s Hs].
    apply safe_bind; [apply safe_command|]. intros _. by intros s Hs. }
  unfold session, prog. rewrite (bind_silent _ _ _ _ _ startup_started). intros E.
  specialize (H n stdin started started_inv). by rewrite E in H.
Qed.

(** *** The recorded session *)

Definition tcases : string := foldr (λ l r, l +:+ String newline r) "1,load,23,0"
  ["0,map,1,1"; "0,store,1,25"; "0,store,2,43"; "0,map,1,0"; "0,store,1,1"; "0,load,1,0";
   "0,load,2,0"; "1,map,23,1"; "1,map,32,1"; "2,store,1,1"; "3,load,1,0"; "2,map,1,1";
   "0,load,1,0"; "0,load,2,0"; "1,store,23,43"].

(** The recorded session of the swapping simulator: evictions, skipped frames,
    tables and pages loaded back, and the lost page 0 of process 0, line by line. *)
Theorem paging2_transcript : output_of (session 16 tcases static_state) = Some
  ["cmd: "; "Put page table for PID 0 in physical frame 0";
   "Mapped virtual address 1 (page 0) to physical frame 1";
   "cmd: "; "Stored value 25 at virtual address 1 (physical address 17)";
   "cmd: "; "Stored value 43 at virtual address 2 (physical address 18)";
   "cmd: "; "Updating write permissions on page 0";
   "cmd: "; "Writing is forbidden at virtual address 1 for PID 0";
   "cmd: "; "Read value 25 at virtual address 1 (physical address 17)";
   "cmd: "; "Read value 43 at virtual address 2 (physical address 18)";
   "cmd: "; "Put page table for PID 1 in physical frame 2";
   "Mapped virtual address 23 (page 1) to physical frame 3";
   "cmd: "; "Unloading contents of page table for PID 0";
   "Moved physical frame 1 to backing store slot 0";
   "Moved physical frame 0 to backing store slot 1";
   "Mapped virtual address 32 (page 2) to physical frame 0";
   "cmd: "; "PID 2 has no pages associated with it";
   "cmd: "; "PID 3 has no pages associated with it";
   "cmd: "; "Put page table for PID 2 in physical frame 1";
   "Skipped moving physical frame 1 to the backing store";
   "Unloading contents of page table for PID 1";
   "Moved physical frame 3 to backing store slot 2";
   "Moved physical frame 0 to backing store slot 3";
   "Moved physical frame 2 to backing store slot 4";
   "Mapped virtual address 1 (page 0) to physical frame 2";
   "cmd: "; "Loaded page table for PID 0 from the backing store into physical frame 0";
   "Virtual address 1 has no frame mapped for PID 0";
   "cmd: "; "Virtual address 2 has no frame mapped for PID 0";
   "cmd: "; "Loaded page table for PID 1 from the backing store into physical frame 3";
   "Skipped moving physical frame 3 to the backing store";
   "Unloading contents of page table for PID 0";
   "Moved physical frame 0 to backing store slot 1";
   "Loaded page 1 for PID 1 from the backing store into physical frame 0";
   "Stored value 43 at virtual address 23 (physical address 7)";
   "cmd: "; "Read value 43 at virtual address 23 (physical address 7)"]%string.
Proof. by vm_compute. Qed.
