(* ===== verification/Queue.v ===== *)
(** * Linked queues

    The queues of cars (Project3/Drivers) and of humans (Project3/PiratesVNinjas)
    are singly linked lists threaded through a [next] field of their members.  A
    pointer is the number of the member, [NULL] is [None]; the [next] fields are a
    function. *)

From S2P Require Import Prelude.

(** ** Representation *)

(** From [h] the pointers visit exactly [l]. *)
Fixpoint chain (next : Z → option Z) (h : option Z) (l : list Z) : Prop :=
  match l with
  | [] => h = None
  | x :: l' => h = Some x ∧ chain next (next x) l'
  end.

(** [while (cur->next != NULL) cur = cur->next;] *)
Fixpoint crawl (fuel : nat) (next : Z → option Z) (cur : Z) : option Z :=
  match fuel with
  | O => None
  | S fuel' => match next cur with None => Some cur | Some c => crawl fuel' next c end
  end.

(** ** Facts *)

Lemma chain_head next h l : chain next h l → h = head l.
Proof. destruct l as [|x l]; [done|]. by intros [-> _]. Qed.

Lemma chain_ext next next' h l :
  (∀ x, x ∈ l → next' x = next x) → chain next h l → chain next' h l.
Proof.
  revert h. induction l as [|x l IH]; intros h Hext; [done|]. simpl. intros [-> Hl].
  split; [done|]. rewrite (Hext x) by left. apply IH; [|done]. intros y Hy. apply Hext. by right.
Qed.

Lemma crawl_chain next h x l fuel :
  chain next (Some x) (h :: l) → (length l < fuel)%nat → crawl fuel next x = last (h :: l).
Proof.
  revert h x fuel. induction l as [|y l IH]; intros h x fuel [[= <-] Hl] Hf;
    (destruct fuel as [|fuel]; [simpl in Hf; lia|]); cbn [crawl].
  - by rewrite Hl.
  - pose proof Hl as [E _]. rewrite E. rewrite E in Hl. rewrite (IH y y fuel Hl); [done|].
    simpl in Hf. lia.
Qed.

(** [cur->next = c] at the last member appends [c]. *)
Lemma chain_append next h l z c :
  chain next h l → NoDup l → last l = Some z → c ∉ l → next c = None →
  chain (<[z := Some c]> next) h (l ++ [c]).
Proof.
  revert h. induction l as [|x l IH]; intros h Hl Hnd Hz Hc Hn; [done|].
  destruct Hl as [-> Hl]. apply NoDup_cons in Hnd as [Hx Hnd]. apply not_elem_of_cons in Hc as [Hcx Hc].
  destruct l as [|y l].
  - simpl in *. injection Hz as <-. split; [done|]. rewrite fn_lookup_insert.
    split; [done|]. by rewrite fn_lookup_insert_ne.
  - split; [done|]. rewrite fn_lookup_insert_ne.
    + by apply IH.
    + intros ->. apply Hx. assert (last (y :: l) = Some x) as H by exact Hz.
      by apply last_Some_elem_of in H.
Qed.

(** Writing the [next] field of somebody outside the queue does not change it. *)
Lemma chain_frame next h l z v : chain next h l → z ∉ l → chain (<[z := v]> next) h l.
Proof.
  intros Hl Hz. apply (chain_ext next); [|done]. intros x Hx. apply fn_lookup_insert_ne.
  by intros ->.
Qed.

Lemma chain_pop next h x l : chain next h (x :: l) → x ∉ l →
  chain (<[x := None]> next) (next x) l.
Proof. intros [_ Hl] Hx. by apply chain_frame. Qed.
