(* ===== verification/Drivers.v ===== *)
(** * The intersection (Project3/Drivers)

    Twenty car threads drive through a four-quadrant intersection.  A car queues at
    one of four sides, waits to be at the front, claims the quadrants of its path
    under [intersectionLock], takes their locks, crosses, gives them back, tries to
    send the front car of every queue, and leaves its queue.

    The data: the fields of the cars and the arrays of [intersection.c] as functions
    of their index (the code only uses the indices 0..3 of the arrays and the cars
    it created), a car pointer as the number of the car.  A thread is at a program
    point [pcount]; one step is one critical section (or one iteration of the loop
    of [leave_intersection], which releases the queue lock in between while it keeps
    [intersectionLock]), so the interleavings are those of the code's locks.  A
    condition variable has one sleeper; [cond] says that it was signalled. *)

From S2P Require Import Prelude Queue.

(** ** constants.h *)

Definition NUM_CARS : Z := 20.
Definition SLEEPTIME : Z := 250000.

Definition NO_TURN : Z := -1.
Definition WLEFT : Z := 0.
Definition WSTRAIGHT : Z := 1.
Definition WRIGHT : Z := 2.
Definition TLEFT : Z := 3.
Definition TSTRAIGHT : Z := 4.
Definition TRIGHT : Z := 5.

Definition NW : Z := 0.
Definition NE : Z := 1.
Definition SW : Z := 2.
Definition SE : Z := 3.

(** The queues [N], [S], [E], [W]. *)
Definition Q_N : Z := 0.
Definition Q_S : Z := 1.
Definition Q_E : Z := 2.
Definition Q_W : Z := 3.

Definition convert_direction (d : Z) : string :=
  if d =? Q_N then "North" else if d =? Q_S then "South"
  else if d =? Q_E then "East" else if d =? Q_W then "West" else "ERROR".

Definition convert_turn (t : Z) : string :=
  if t =? TLEFT then "left" else if t =? TSTRAIGHT then "straight"
  else if t =? TRIGHT then "right" else if t =? NO_TURN then "none"
  else if t =? WLEFT then "wleft" else if t =? WSTRAIGHT then "wstright"
  else if t =? WRIGHT then "wright" else "ERROR".

(** ** State *)

(** Where a car thread is, with the queue it uses. *)
Inductive pcount : Type :=
  | PTop                    (* at the top of the loop of [car_main] *)
  | PQueue (qid : Z)        (* about to take the queue lock in [queue_car] *)
  | PCheck (qid : Z)        (* about to test [queue[qid] != car] *)
  | PSleepQ (qid : Z)       (* in [pthread_cond_wait] of [wait_for_queue] *)
  | PApproach (qid : Z)     (* about to take [intersectionLock] *)
  | PLoop (qid : Z)         (* holds [intersectionLock], at the test of the loop *)
  | PSleepI (qid : Z)       (* in [pthread_cond_wait] of [car_main] *)
  | PIn (qid : Z)           (* in the intersection *)
  | PPush (qid i : Z)       (* in [leave_intersection], about to lock queue [i] *)
  | PDequeue (qid : Z).     (* about to call [dequeue_car] *)

Record world : Type := mkWorld {
  turn : Z → Z;
  next : Z → option Z;
  cond : Z → bool;
  pc : Z → pcount;
  queue : Z → option Z;
  quadrant : Z → Z;
  quadrantLock : Z → option Z;
  intersectionLock : option Z;
}.

Inductive msg : Type :=
  | Approaching (cid qid : Z)
  | Arrived (cid qid : Z)
  | Entered (cid qid t : Z)
  | HasLeft (cid : Z).

Definition render (m : msg) : string :=
  match m with
  | Approaching c q => "Car " +:+ pretty c +:+ " is approaching from the " +:+ convert_direction q +:+ "."
  | Arrived c q =>
      "Car " +:+ pretty c +:+ " arrived at the " +:+ convert_direction q +:+ " side of the intersection."
  | Entered c q t =>
      "Car " +:+ pretty c +:+ " has entered the intersection from the " +:+ convert_direction q +:+
      " going " +:+ convert_turn t +:+ "."
  | HasLeft c => "Car " +:+ pretty c +:+ " has left the intersection."
  end.

Abbreviation prog := (M msg world).

(** Assignments. *)
Definition set_turn (c t : Z) (w : world) : world :=
  mkWorld (<[c := t]> (turn w)) (next w) (cond w) (pc w) (queue w) (quadrant w) (quadrantLock w)
    (intersectionLock w).
Definition set_next (c : Z) (n : option Z) (w : world) : world :=
  mkWorld (turn w) (<[c := n]> (next w)) (cond w) (pc w) (queue w) (quadrant w) (quadrantLock w)
    (intersectionLock w).
Definition set_cond (c : Z) (b : bool) (w : world) : world :=
  mkWorld (turn w) (next w) (<[c := b]> (cond w)) (pc w) (queue w) (quadrant w) (quadrantLock w)
    (intersectionLock w).
Definition set_pc (c : Z) (p : pcount) (w : world) : world :=
  mkWorld (turn w) (next w) (cond w) (<[c := p]> (pc w)) (queue w) (quadrant w) (quadrantLock w)
    (intersectionLock w).
Definition set_queue (q : Z) (h : option Z) (w : world) : world :=
  mkWorld (turn w) (next w) (cond w) (pc w) (<[q := h]> (queue w)) (quadrant w) (quadrantLock w)
    (intersectionLock w).
Definition set_quadrant (k c : Z) (w : world) : world :=
  mkWorld (turn w) (next w) (cond w) (pc w) (queue w) (<[k := c]> (quadrant w)) (quadrantLock w)
    (intersectionLock w).
Definition set_quadrantLock (k : Z) (o : option Z) (w : world) : world :=
  mkWorld (turn w) (next w) (cond w) (pc w) (queue w) (quadrant w) (<[k := o]> (quadrantLock w))
    (intersectionLock w).
Definition set_intersectionLock (o : option Z) (w : world) : world :=
  mkWorld (turn w) (next w) (cond w) (pc w) (queue w) (quadrant w) (quadrantLock w) o.

Definition get {A} (f : world → A) : prog A := reads (λ w, Some (f w)).
Definition put (f : world → world) : prog unit := modifies (λ w, Some (f w)).

(** [pthread_cond_signal(&car->cond)] wakes the car if it sleeps on it. *)
Definition sleeping (p : pcount) : bool :=
  match p with PSleepQ _ | PSleepI _ => true | _ => false end.

Definition signal (c : Z) : prog unit :=
  put (λ w, if sleeping (pc w c) then set_cond c true w else w).

(** ** carThread.c *)

Definition queue_car (car qid : Z) : prog unit :=
  h ← get (λ w, queue w qid);
  _ ← (match h with
       | None => put (set_queue qid (Some car))
       | Some h =>
           cur ← reads (λ w, crawl (Z.to_nat NUM_CARS) (next w) h);
           put (set_next cur (Some car))
       end);
  emit (Approaching car qid).

Definition attempt_quadrant (car quad : Z) : prog bool :=
  o ← get (λ w, quadrant w quad);
  if o =? -1 then _ ← put (set_quadrant quad car); mret true else mret false.

(** [attempt_quadrant(car, q1) && attempt_quadrant(car, q2) && ...] *)
Fixpoint attempt_all (car : Z) (quads : list Z) : prog bool :=
  match quads with
  | [] => mret true
  | q :: quads' => ok ← attempt_quadrant car q; if (ok : bool) then attempt_all car quads' else mret false
  end.

(** The two nested [switch] statements: the quadrants to claim in order, and the new
    turn. *)
Definition wanted (t qid : Z) : option (list Z * Z) :=
  if t =? WLEFT then
    if qid =? Q_N then Some ([NW; SW; SE], TLEFT)
    else if qid =? Q_S then Some ([SE; NE; NW], TLEFT)
    else if qid =? Q_E then Some ([NE; NW; SW], TLEFT)
    else if qid =? Q_W then Some ([SW; SE; NE], TLEFT) else None
  else if t =? WSTRAIGHT then
    if qid =? Q_N then Some ([NW; SW], TSTRAIGHT)
    else if qid =? Q_S then Some ([SE; NE], TSTRAIGHT)
    else if qid =? Q_E then Some ([NE; NW], TSTRAIGHT)
    else if qid =? Q_W then Some ([SW; SE], TSTRAIGHT) else None
  else if t =? WRIGHT then
    if qid =? Q_N then Some ([NW], TRIGHT)
    else if qid =? Q_S then Some ([SE], TRIGHT)
    else if qid =? Q_E then Some ([NE], TRIGHT)
    else if qid =? Q_W then Some ([SW], TRIGHT) else None
  else None.

(** [turn == WLEFT || turn == WSTRAIGHT || turn == WRIGHT] *)
Definition wants (t : Z) : bool := (t =? WLEFT) || (t =? WSTRAIGHT) || (t =? WRIGHT).

Definition release_quadrants (car : Z) : prog unit :=
  for_do (seqZ 0 4) (λ i,
    o ← get (λ w, quadrant w i);
    if o =? car then put (set_quadrant i (-1)) else mret tt).

Definition enter_intersection (car qid : Z) : prog Z :=
  t ← get (λ w, turn w car);
  if t =? NO_TURN then mret 0
  else
    _ ← (match wanted t qid with
         | Some (quads, t') =>
             ok ← attempt_all car quads;
             if (ok : bool) then put (set_turn car t') else mret tt
         | None => mret tt
         end);
    t ← get (λ w, turn w car);
    if wants t then _ ← release_quadrants car; mret 0
    else
      _ ← emit (Entered car qid t);
      _ ← signal car;
      mret 1.

(** [false]: the thread blocks in [pthread_mutex_lock]. *)
Fixpoint lock_quadrants (car : Z) (l : list Z) : prog bool :=
  match l with
  | [] => mret true
  | i :: l' =>
      o ← get (λ w, quadrant w i);
      if o =? car then
        h ← get (λ w, quadrantLock w i);
        match h with
        | None => _ ← put (set_quadrantLock i (Some car)); lock_quadrants car l'
        | Some _ => mret false
        end
      else lock_quadrants car l'
  end.

Definition aquire_locks (car : Z) : prog bool := lock_quadrants car (seqZ 0 4).

(** Unlocking a mutex the thread does not hold is undefined. *)
Definition unlock_quadrant (car i : Z) (w : world) : option world :=
  if decide (quadrantLock w i = Some car) then Some (set_quadrantLock i None w) else None.

(** The part of [leave_intersection] before its second loop. *)
Definition leave_free (car : Z) : prog unit :=
  _ ← emit (HasLeft car);
  _ ← for_do (seqZ 0 4) (λ i,
    o ← get (λ w, quadrant w i);
    if o =? car then
      _ ← modifies (unlock_quadrant car i);
      put (set_quadrant i (-1))
    else mret tt);
  put (set_turn car NO_TURN).

(** One iteration of its second loop. *)
Definition push_queue (i : Z) : prog unit :=
  h ← get (λ w, queue w i);
  match h with
  | Some c => _ ← enter_intersection c i; mret tt
  | None => mret tt
  end.

Definition dequeue_car (qid : Z) : prog unit :=
  h ← get (λ w, queue w qid);
  match h with
  | None => undefined
  | Some tmp =>
      n ← get (λ w, next w tmp);
      _ ← put (set_queue qid n);
      _ ← put (set_next tmp None);
      match n with Some c => signal c | None => mret tt end
  end.

Definition num_quadrants (t : Z) : Z :=
  if (t =? TLEFT) || (t =? WLEFT) then 3
  else if (t =? TSTRAIGHT) || (t =? WSTRAIGHT) then 2
  else if (t =? TRIGHT) || (t =? WRIGHT) then 1
  else -1.

(** ** Threads *)

(** One test of the loop of [wait_for_queue], with [queueLock[qid]] held. *)
Definition wait_for_queue (c q : Z) : prog unit := λ w,
  if decide (queue w q = Some c)
  then (_ ← emit (Arrived c q); put (set_pc c (PApproach q))) w
  else put (set_pc c (PSleepQ q)) w.

(** The next step of car [c]; [rq] and [rt] are the numbers [rand()] gives at the
    top of the loop.  [None]: the thread is asleep or waits for a lock. *)
Definition car_step (c rq rt : Z) (w : world) : option (outcome msg world unit) :=
  match pc w c with
  | PTop => Some ((_ ← put (set_turn c (rt mod 3)); put (set_pc c (PQueue (rq mod 4)))) w)
  | PQueue q => Some ((_ ← queue_car c q; put (set_pc c (PCheck q))) w)
  | PCheck q => Some (wait_for_queue c q w)
  | PSleepQ q =>
      if cond w c then Some ((_ ← put (set_cond c false); put (set_pc c (PCheck q))) w) else None
  | PApproach q =>
      match intersectionLock w with
      | None => Some ((_ ← put (set_intersectionLock (Some c)); put (set_pc c (PLoop q))) w)
      | Some _ => None
      end
  | PLoop q =>
      if wants (turn w c) then
        Some ((r ← enter_intersection c q;
               if r =? 0 then
                 _ ← put (set_intersectionLock None); put (set_pc c (PSleepI q))
               else mret tt) w)
      else
        match aquire_locks c w with
        | Done true w' o =>
            Some (Done tt (set_pc c (PIn q) (set_intersectionLock None w')) o)
        | Done false _ _ => None
        | Undef => Some Undef
        | NoFuel => Some NoFuel
        end
  | PSleepI q =>
      if cond w c then Some ((_ ← put (set_cond c false); put (set_pc c (PApproach q))) w) else None
  | PIn q =>
      match intersectionLock w with
      | None => Some ((_ ← put (set_intersectionLock (Some c)); _ ← leave_free c;
                       put (set_pc c (PPush q 0))) w)
      | Some _ => None
      end
  | PPush q i =>
      Some (if i <? 4 then (_ ← push_queue i; put (set_pc c (PPush q (i + 1)))) w
            else (_ ← put (set_intersectionLock None); put (set_pc c (PDequeue q))) w)
  | PDequeue q => Some ((_ ← dequeue_car q; put (set_pc c PTop)) w)
  end.

(** POSIX lets a sleeper wake up without a signal. *)
Definition spurious_wakeup (c : Z) (w : world) : option world :=
  if sleeping (pc w c) then Some (set_cond c true w) else None.

(** [main] before its last [pthread_mutex_unlock]: the cars exist, and it holds
    [intersectionLock]; [MAIN] stands for the main thread. *)
Definition MAIN : Z := -1.

Definition initial : world :=
  mkWorld (λ _, NO_TURN) (λ _, None) (λ _, false) (λ _, PTop) (λ _, None) (λ _, -1) (λ _, None)
    (Some MAIN).

Definition car (c : Z) : Prop := 0 ≤ c < NUM_CARS.

Inductive step : world → world → Prop :=
  | S_car c rq rt w w' o : car c → car_step c rq rt w = Some (Done tt w' o) → step w w'
  | S_spurious c w w' : car c → spurious_wakeup c w = Some w' → step w w'
  | S_main w : intersectionLock w = Some MAIN → step w (set_intersectionLock None w).

Definition reachable (w : world) : Prop := rtc step initial w.

(** ** The debugging helpers of intersection.c *)

Definition qstate (w : world) : string :=
  pretty (quadrant w 0) +:+ "," +:+ pretty (quadrant w 1) +:+ "," +:+
  pretty (quadrant w 2) +:+ "," +:+ pretty (quadrant w 3).

(** [queuestate()] called by thread [me]: [locks] says who holds each
    [queueLock[i]].  [pthread_mutex_trylock] is 0 when it takes the lock; unlocking
    another thread's mutex is undefined. *)
Fixpoint queuestate_loop (me : Z) (l : list Z) (locks : Z → option Z) : option (list Z * (Z → option Z)) :=
  match l with
  | [] => Some ([], locks)
  | i :: l' =>
      '(b, locks1) ← (match locks i with
                      | Some h => if decide (h = me) then Some (0, <[i := None]> locks) else None
                      | None => Some (1, <[i := Some me]> locks)
                      end);
      '(bs, locks2) ← queuestate_loop me l' locks1;
      Some (b :: bs, locks2)
  end.

Definition queuestate (me : Z) (locks : Z → option Z) : option (string * (Z → option Z)) :=
  '(bs, locks') ← queuestate_loop me (seqZ 0 4) locks;
  match bs with
  | [a; b; c; d] =>
      Some (pretty a +:+ "," +:+ pretty b +:+ "," +:+ pretty c +:+ "," +:+ pretty d, locks')
  | _ => None
  end.
