(* ===== verification/DriversOps.v ===== *)
(** * Project3/Drivers: what the operations of a car do

    Each operation of [carThread.c] that touches the quadrants, on every branch. *)

From S2P Require Import Prelude Queue Drivers.

(** ** States that differ in the quadrants or their locks only *)

Definition with_quadrant (f : Z → Z) (w : world) : world :=
  mkWorld (turn w) (next w) (cond w) (pc w) (queue w) f (quadrantLock w) (intersectionLock w).
Definition with_qlock (g : Z → option Z) (w : world) : world :=
  mkWorld (turn w) (next w) (cond w) (pc w) (queue w) (quadrant w) g (intersectionLock w).

Lemma fn_ins {A} (f : Z → A) a b v : (<[a := v]> f) b = if decide (a = b) then v else f b.
Proof. done. Qed.

Lemma get_bind {A B} (f : world → A) (k : A → prog B) w : (get f ≫= k) w = k (f w) w.
Proof. by erewrite bind_silent. Qed.

(** The effect of [signal]. *)
Definition wake (c : Z) (w : world) : world :=
  if sleeping (pc w c) then set_cond c true w else w.

(** The quadrants of a turn, wanted or under way. *)
Definition path (q t : Z) : list Z :=
  match wanted (t mod 3) q with Some (quads, _) => quads | None => [] end.

Definition turning (t : Z) : Prop := 3 ≤ t ≤ 5.

Lemma wants_range t : wants t = true ↔ 0 ≤ t ≤ 2.
Proof.
  unfold wants, WLEFT, WSTRAIGHT, WRIGHT.
  rewrite !orb_true_iff, !Z.eqb_eq. lia.
Qed.

Lemma wanted_path t q : 0 ≤ t ≤ 2 → 0 ≤ q < 4 → wanted t q = Some (path q t, t + 3).
Proof.
  intros Ht Hq. unfold path. rewrite Z.mod_small by lia.
  assert (t = 0 ∨ t = 1 ∨ t = 2) as [->|[->| ->]] by lia;
    (assert (q = 0 ∨ q = 1 ∨ q = 2 ∨ q = 3) as [->|[->|[->| ->]]] by lia); done.
Qed.

Lemma path_turning q t : path q (t + 3) = path q t.
Proof. unfold path. f_equal. by rewrite (Z.add_mod t 3 3), Z.mod_same, Z.add_0_r, Z.mod_mod. Qed.

Lemma path_range q t k : k ∈ path q t → 0 ≤ k < 4.
Proof.
  unfold path. pose proof (Z.mod_pos_bound t 3 ltac:(lia)) as Ht. intros Hk.
  destruct (wanted (t mod 3) q) as [[quads t']|] eqn:E; [|by apply elem_of_nil in Hk].
  revert E Hk. unfold wanted, WLEFT, WSTRAIGHT, WRIGHT, NW, NE, SW, SE.
  repeat (case_match; try done); intros [= <- <-]; rewrite ?elem_of_cons, ?elem_of_nil; lia.
Qed.

Lemma path_nodup q t : NoDup (path q t).
Proof.
  unfold path, wanted, WLEFT, WSTRAIGHT, WRIGHT. repeat (case_match; try constructor);
    repeat match goal with
    | H : Some _ = Some _ |- _ => injection H as <- <-
    | |- NoDup _ => apply (bool_decide_unpack _); by vm_compute
    | _ => simplify_eq
    end.
Qed.

(** ** [attempt_quadrant] *)

Lemma attempt_all_spec c qs w : c ≠ -1 → NoDup qs →
  ∃ b f, attempt_all c qs w = Done b (with_quadrant f w) [] ∧
    (b = true ∧ (∀ k, k ∈ qs → quadrant w k = -1) ∧
      (∀ k, f k = if decide (k ∈ qs) then c else quadrant w k) ∨
     b = false ∧ (∃ k, k ∈ qs ∧ quadrant w k ≠ -1) ∧
      (∀ k, f k = quadrant w k ∨ quadrant w k = -1 ∧ f k = c)).
Proof.
  intros Hc. revert w. induction qs as [|q qs IH]; intros w Hnd.
  { exists true, (quadrant w). split; [by destruct w|]. left. split; [done|].
    split; [intros k Hk; by apply elem_of_nil in Hk|]. intros k. rewrite decide_False; [done|].
    apply not_elem_of_nil. }
  apply NoDup_cons in Hnd as [Hq Hnd]. cbn [attempt_all].
  unfold attempt_quadrant, mbind, M_bind, get, reads.
  destruct (Z.eqb_spec (quadrant w q) (-1)) as [Hfree|Hocc]; simpl.
  - destruct (IH (set_quadrant q c w) Hnd) as (b & f & E & Hcase). rewrite E. simpl.
    exists b, f. split; [done|]. destruct Hcase as [(-> & Hall & Hf)|(-> & (k & Hk & Ho) & Hf)].
    + left. split; [done|]. simpl in Hall. split.
      * intros k [->|Hk]%elem_of_cons; [done|]. specialize (Hall k Hk). rewrite fn_ins in Hall.
        case_decide; [by subst|done].
      * intros k. rewrite Hf. simpl. rewrite fn_ins. destruct (decide (k ∈ qs)) as [Hk|Hk].
        { rewrite decide_True; [done|]. by right. }
        destruct (decide (q = k)) as [->|Hne]; [by rewrite decide_True by left|].
        rewrite decide_False; [done|]. by intros [->|?]%elem_of_cons.
    + right. split; [done|]. simpl in Ho, Hf. rewrite fn_ins in Ho.
      destruct (decide (q = k)) as [->|Hne]; [done|]. split.
      { exists k. split; [by right|done]. }
      intros j. specialize (Hf j). rewrite fn_ins in Hf. destruct (decide (q = j)) as [->|]; [|done].
      right. split; [done|]. by destruct Hf as [?|[? ?]].
  - exists false, (quadrant w). split; [by destruct w|]. right. split; [done|]. split; [|by left].
    exists q. split; [by left|done].
Qed.

Lemma body_release c i w :
  (o ← get (λ w, quadrant w i); if o =? c then put (set_quadrant i (-1)) else mret tt) w =
  Done tt (if quadrant w i =? c then set_quadrant i (-1) w else w) [].
Proof. unfold mbind, M_bind, get, reads. by destruct (quadrant w i =? c). Qed.

Lemma release_spec c w : c ≠ -1 →
  ∃ f, release_quadrants c w = Done tt (with_quadrant f w) [] ∧
    ∀ k, 0 ≤ k < 4 → f k = if decide (quadrant w k = c) then -1 else quadrant w k.
Proof.
  intros Hc. unfold release_quadrants. change (seqZ 0 4) with [0; 1; 2; 3].
  assert (∀ l w, NoDup l → ∃ f, for_do l (λ i,
      o ← get (λ w, quadrant w i); if o =? c then put (set_quadrant i (-1)) else mret tt) w =
      Done tt (with_quadrant f w) [] ∧
      ∀ k, f k = if decide (k ∈ l ∧ quadrant w k = c) then -1 else quadrant w k) as H.
  { clear w. intros l. induction l as [|i l IH]; intros w Hnd.
    { exists (quadrant w). split; [by destruct w|]. intros k. rewrite decide_False; [done|].
      intros [H _]. by apply elem_of_nil in H. }
    apply NoDup_cons in Hnd as [Hi Hnd]. rewrite for_do_cons.
    erewrite bind_silent; [|apply body_release].
    destruct (Z.eqb_spec (quadrant w i) c) as [E|E].
    - destruct (IH (set_quadrant i (-1) w) Hnd) as (f & -> & Hf). simpl. exists f. split; [done|].
      intros k. rewrite Hf. simpl. rewrite fn_ins. destruct (decide (i = k)) as [<-|Hne].
      + rewrite decide_False by (by intros [_ ?]). rewrite decide_True; [done|]. split; [by left|done].
      + destruct (decide (k ∈ l ∧ quadrant w k = c)) as [[? ?]|Hn].
        * rewrite decide_True; [done|]. split; [by right|done].
        * rewrite decide_False; [done|]. intros [[->|?]%elem_of_cons ?]; [done|]. by apply Hn.
    - destruct (IH w Hnd) as (f & -> & Hf). simpl. exists f. split; [done|]. intros k. rewrite Hf.
      destruct (decide (k ∈ l ∧ quadrant w k = c)) as [[? ?]|Hn].
      + rewrite decide_True; [done|]. split; [by right|done].
      + rewrite decide_False; [done|]. intros [[->|?]%elem_of_cons ?]; [done|]. by apply Hn. }
  destruct (H [0; 1; 2; 3] w) as (f & E & Hf); [apply (bool_decide_unpack _); by vm_compute|].
  exists f. split; [exact E|]. intros k Hk. rewrite Hf.
  assert (k ∈ [0; 1; 2; 3]) by (rewrite !elem_of_cons; lia).
  repeat case_decide; try done; tauto.
Qed.

(** ** [enter_intersection] *)

Lemma emit_signal m c w :
  (_ ← emit m; _ ← signal c; mret 1) w = Done 1 (wake c w) [m].
Proof. unfold signal, put, wake. by vm_compute. Qed.

(** What happens to a car that wants to turn: all its quadrants are free and it
    claims exactly them, or one is taken and nothing changes. *)
Inductive enter_result (w : world) (c q : Z) : Z → world → list msg → Prop :=
  | ER_blocked f k :
      (∀ k, 0 ≤ k < 4 → f k = quadrant w k) →
      k ∈ path q (turn w c) → quadrant w k ≠ -1 →
      enter_result w c q 0 (with_quadrant f w) []
  | ER_entered f :
      (∀ k, f k = if decide (k ∈ path q (turn w c)) then c else quadrant w k) →
      (∀ k, k ∈ path q (turn w c) → quadrant w k = -1) →
      enter_result w c q 1 (wake c (set_turn c (turn w c + 3) (with_quadrant f w)))
        [Entered c q (turn w c + 3)].

Lemma enter_wanting w c q :
  c ≠ -1 → 0 ≤ q < 4 → wants (turn w c) = true → (∀ k, 0 ≤ k < 4 → quadrant w k ≠ c) →
  ∃ r w' o, enter_intersection c q w = Done r w' o ∧ enter_result w c q r w' o.
Proof.
  intros Hc Hq Hw Hnone. pose proof Hw as Ht. apply wants_range in Ht. unfold enter_intersection.
  erewrite bind_silent by done. rewrite (proj2 (Z.eqb_neq (turn w c) NO_TURN)) by (unfold NO_TURN; lia).
  rewrite (wanted_path _ _ Ht Hq).
  destruct (attempt_all_spec c (path q (turn w c)) w Hc (path_nodup _ _)) as (b & f & E & Hcase).
  destruct Hcase as [(-> & Hall & Hf)|(-> & (k & Hk & Ho) & Hf)].
  - erewrite (bind_silent _ _ w tt (set_turn c (turn w c + 3) (with_quadrant f w)));
      [|by rewrite (bind_silent _ _ _ _ _ E)].
    rewrite get_bind. cbn [turn set_turn with_quadrant]. rewrite fn_lookup_insert.
    assert (wants (turn w c + 3) = false) as ->.
    { destruct (wants (turn w c + 3)) eqn:Ew; [|done]. apply wants_range in Ew. lia. }
    do 3 eexists. split; [|by apply (ER_entered w c q f)]. apply emit_signal.
  - erewrite (bind_silent _ _ w tt (with_quadrant f w)); [|by rewrite (bind_silent _ _ _ _ _ E)].
    rewrite get_bind. cbn [turn with_quadrant]. rewrite Hw.
    destruct (release_spec c (with_quadrant f w) Hc) as (g & Er & Hg).
    rewrite (bind_silent _ _ _ _ _ Er). do 3 eexists. split; [done|].
    apply (ER_blocked w c q g k); [|done..]. intros j Hj. rewrite (Hg j Hj). simpl.
    destruct (Hf j) as [->|[Hfree ->]].
    + rewrite decide_False; [done|]. by apply Hnone.
    + by rewrite decide_True.
Qed.

(** A car that is already turning is announced again and the call succeeds. *)
Lemma enter_turning w c q : turning (turn w c) →
  enter_intersection c q w = Done 1 (wake c w) [Entered c q (turn w c)].
Proof.
  intros Ht. unfold turning in Ht. unfold enter_intersection. erewrite bind_silent by done.
  rewrite (proj2 (Z.eqb_neq (turn w c) NO_TURN)) by (unfold NO_TURN; lia).
  assert (wants (turn w c) = false) as Hw.
  { destruct (wants (turn w c)) eqn:Ew; [|done]. apply wants_range in Ew. lia. }
  assert (wanted (turn w c) q = None) as ->.
  { unfold wanted, WLEFT, WSTRAIGHT, WRIGHT.
    rewrite !(proj2 (Z.eqb_neq (turn w c) _)) by lia. done. }
  rewrite ret_bind, get_bind, Hw. apply emit_signal.
Qed.

Lemma enter_no_turn w c q : turn w c = NO_TURN → enter_intersection c q w = Done 0 w [].
Proof.
  intros Ht. unfold enter_intersection. erewrite bind_silent by done. by rewrite Ht.
Qed.

(** ** [aquire_locks] and [leave_intersection] *)

Lemma lock_quadrants_spec c l w : NoDup l → (∀ k, k ∈ l → quadrant w k = c → quadrantLock w k = None) →
  ∃ g, lock_quadrants c l w = Done true (with_qlock g w) [] ∧
    ∀ k, g k = if decide (k ∈ l ∧ quadrant w k = c) then Some c else quadrantLock w k.
Proof.
  revert w. induction l as [|i l IH]; intros w Hnd Hfree.
  { exists (quadrantLock w). split; [by destruct w|]. intros k. rewrite decide_False; [done|].
    intros [H _]. by apply elem_of_nil in H. }
  apply NoDup_cons in Hnd as [Hi Hnd]. cbn [lock_quadrants]. erewrite bind_silent by done.
  destruct (Z.eqb_spec (quadrant w i) c) as [E|E].
  - erewrite bind_silent by done. rewrite (Hfree i) by (done || by left).
    erewrite bind_silent by done.
    destruct (IH (set_quadrantLock i (Some c) w) Hnd) as (g & -> & Hg).
    { intros k Hk Hq. simpl. rewrite fn_ins, decide_False by (by intros ->). apply Hfree; [by right|done]. }
    exists g. split; [done|]. intros k. rewrite Hg. simpl. rewrite fn_ins.
    destruct (decide (i = k)) as [<-|Hne].
    + rewrite decide_False by (by intros [? _]). rewrite decide_True; [done|]. split; [by left|done].
    + destruct (decide (k ∈ l ∧ quadrant w k = c)) as [[? ?]|Hn].
      * rewrite decide_True; [done|]. split; [by right|done].
      * rewrite decide_False; [done|]. intros [[->|?]%elem_of_cons ?]; [done|]. by apply Hn.
  - destruct (IH w Hnd) as (g & -> & Hg); [intros k Hk; apply Hfree; by right|].
    exists g. split; [done|]. intros k. rewrite Hg.
    destruct (decide (k ∈ l ∧ quadrant w k = c)) as [[? ?]|Hn].
    + rewrite decide_True; [done|]. split; [by right|done].
    + rewrite decide_False; [done|]. intros [[->|?]%elem_of_cons ?]; [done|]. by apply Hn.
Qed.

Lemma elem_of_four k : k ∈ seqZ 0 4 ↔ 0 ≤ k < 4.
Proof. rewrite elem_of_seqZ. lia. Qed.

(** No lock is taken by somebody else: the call does not block. *)
Lemma aquire_locks_spec c w : (∀ k, 0 ≤ k < 4 → quadrant w k = c → quadrantLock w k = None) →
  ∃ g, aquire_locks c w = Done true (with_qlock g w) [] ∧
    ∀ k, 0 ≤ k < 4 → g k = if decide (quadrant w k = c) then Some c else quadrantLock w k.
Proof.
  intros H. destruct (lock_quadrants_spec c (seqZ 0 4) w (NoDup_seqZ _ _)) as (g & E & Hg).
  { intros k Hk. apply H. by apply elem_of_four. }
  exists g. split; [exact E|]. intros k Hk. rewrite Hg. apply elem_of_four in Hk.
  repeat case_decide; try done; tauto.
Qed.

(** The quadrants and locks of [c] are given back. *)
Lemma leave_free_spec c w : (∀ k, 0 ≤ k < 4 → quadrant w k = c → quadrantLock w k = Some c) →
  ∃ f g, leave_free c w = Done tt (set_turn c NO_TURN (with_qlock g (with_quadrant f w))) [HasLeft c] ∧
    ∀ k, 0 ≤ k < 4 → f k = (if decide (quadrant w k = c) then -1 else quadrant w k) ∧
      g k = (if decide (quadrant w k = c) then None else quadrantLock w k).
Proof.
  intros Hown. unfold leave_free. set (body := λ i, _ ← get _; _).
  assert (∀ l w, NoDup l → (∀ k, k ∈ l → quadrant w k = c → quadrantLock w k = Some c) →
    ∃ f g, for_do l body w = Done tt (with_qlock g (with_quadrant f w)) [] ∧
    ∀ k, f k = (if decide (k ∈ l ∧ quadrant w k = c) then -1 else quadrant w k) ∧
      g k = (if decide (k ∈ l ∧ quadrant w k = c) then None else quadrantLock w k)) as H.
  { clear w Hown. induction l as [|i l IH]; intros w Hnd Hown.
    { exists (quadrant w), (quadrantLock w). split; [by destruct w|]. intros k.
      by rewrite !decide_False by (intros [H _]; by apply elem_of_nil in H). }
    apply NoDup_cons in Hnd as [Hi Hnd]. rewrite for_do_cons.
    destruct (decide (quadrant w i = c)) as [E|E].
    - assert (body i w = Done tt (set_quadrant i (-1) (set_quadrantLock i None w)) []) as Hb.
      { unfold body. erewrite bind_silent by done. rewrite (proj2 (Z.eqb_eq _ _) E).
        erewrite bind_silent; [done|]. unfold modifies, unlock_quadrant.
        rewrite decide_True; [done|]. apply Hown; [by left|done]. }
      rewrite (bind_silent _ _ _ _ _ Hb).
      destruct (IH (set_quadrant i (-1) (set_quadrantLock i None w)) Hnd) as (f & g & -> & Hfg).
      { intros k Hk. simpl. rewrite !fn_ins, !decide_False by (by intros ->). apply Hown. by right. }
      exists f, g. split; [done|]. intros k. destruct (Hfg k) as [-> ->]. simpl. rewrite !fn_ins.
      destruct (decide (i = k)) as [<-|Hne].
      + rewrite (decide_True (P := i ∈ i :: l ∧ _)) by (split; [by left|done]).
        rewrite (decide_True (P := i ∈ i :: l ∧ _)) by (split; [by left|done]).
        by repeat case_decide.
      + destruct (decide (k ∈ l ∧ quadrant w k = c)) as [[? ?]|Hn].
        * rewrite !decide_True by (split; [by right|done]). done.
        * rewrite !decide_False; [done|..]; (intros [[->|?]%elem_of_cons ?]; [done|]; by apply Hn).
    - assert (body i w = Done tt w []) as Hb.
      { unfold body. erewrite bind_silent by done. by rewrite (proj2 (Z.eqb_neq _ _) E). }
      rewrite (bind_silent _ _ _ _ _ Hb).
      destruct (IH w Hnd) as (f & g & -> & Hfg); [intros k Hk; apply Hown; by right|].
      exists f, g. split; [done|]. intros k. destruct (Hfg k) as [-> ->].
      destruct (decide (k ∈ l ∧ quadrant w k = c)) as [[? ?]|Hn].
      + rewrite !decide_True by (split; [by right|done]). done.
      + rewrite !decide_False; [done|..]; (intros [[->|?]%elem_of_cons ?]; [done|]; by apply Hn). }
  destruct (H (seqZ 0 4) w (NoDup_seqZ _ _)) as (f & g & E & Hfg).
  { intros k Hk. apply Hown. by apply elem_of_four. }
  exists f, g. split.
  - eapply (bind_done _ _ w tt w [HasLeft c]); [done|]. by rewrite (bind_silent _ _ _ _ _ E).
  - intros k Hk. destruct (Hfg k) as [-> ->]. apply elem_of_four in Hk.
    split; repeat case_decide; try done; tauto.
Qed.
