(* ===== verification/DriversInv.v ===== *)
(** * Project3/Drivers: the invariant of the intersection

    [dinv] says what holds between any two critical sections: the queues are
    well-formed lists of the cars that wait or cross, only the front car of a queue
    turns, a turning car owns exactly the quadrants of its path, the quadrant locks
    are those of the cars inside, and no wake-up is lost. *)

From S2P Require Import Prelude Queue Drivers DriversOps.

(** ** Program points *)

Definition at_queue (p : pcount) : option Z :=
  match p with
  | PTop | PQueue _ => None
  | PCheck q | PSleepQ q | PApproach q | PLoop q | PSleepI q | PIn q | PPush q _ | PDequeue q => Some q
  end.

(** Past [wait_for_queue]. *)
Definition front (p : pcount) : bool :=
  match p with
  | PApproach _ | PLoop _ | PSleepI _ | PIn _ | PPush _ _ | PDequeue _ => true
  | _ => false
  end.

Definition inside (p : pcount) : bool := match p with PIn _ => true | _ => false end.

Definition holds_lock (p : pcount) : bool :=
  match p with PLoop _ | PPush _ _ => true | _ => false end.

Definition pc_ok (p : pcount) : Prop :=
  match p with
  | PTop => True
  | PPush q i => 0 ≤ q < 4 ∧ 0 ≤ i ≤ 4
  | PQueue q | PCheck q | PSleepQ q | PApproach q | PLoop q | PSleepI q | PIn q | PDequeue q => 0 ≤ q < 4
  end.

Definition turn_ok (p : pcount) (t : Z) : Prop :=
  match p with
  | PTop | PPush _ _ | PDequeue _ => t = NO_TURN
  | PQueue _ => 0 ≤ t ≤ 2
  | PCheck _ | PSleepQ _ | PApproach _ | PLoop _ | PSleepI _ => 0 ≤ t ≤ 5
  | PIn _ => turning t
  end.

Definition blocked (w : world) (c q : Z) : Prop := ∃ k, k ∈ path q (turn w c) ∧ quadrant w k ≠ -1.

(** A leaving car has yet to try queue [q]. *)
Definition pending (w : world) (q : Z) : Prop :=
  ∃ c q' i, car c ∧ pc w c = PPush q' i ∧ i ≤ q.

Record dinv (w : world) : Prop := mkDinv {
  d_pcs : ∀ c, car c → pc_ok (pc w c);
  d_queue : ∀ q, 0 ≤ q < 4 → ∃ l, chain (next w) (queue w q) l ∧ NoDup l ∧
    ∀ c, c ∈ l ↔ car c ∧ at_queue (pc w c) = Some q;
  d_free : ∀ c, car c → at_queue (pc w c) = None → next w c = None;
  d_head : ∀ c q, car c → at_queue (pc w c) = Some q →
    front (pc w c) = true ∨ turning (turn w c) → queue w q = Some c;
  d_turn : ∀ c, car c → turn_ok (pc w c) (turn w c);
  d_quad : ∀ k, 0 ≤ k < 4 → quadrant w k = -1 ∨ car (quadrant w k);
  d_claim : ∀ c k, car c → 0 ≤ k < 4 →
    quadrant w k = c ↔ ∃ q, at_queue (pc w c) = Some q ∧ turning (turn w c) ∧ k ∈ path q (turn w c);
  d_lock : ∀ k c, 0 ≤ k < 4 →
    quadrantLock w k = Some c ↔ car c ∧ quadrant w k = c ∧ inside (pc w c) = true;
  d_ilock : ∀ c, car c → intersectionLock w = Some c ↔ holds_lock (pc w c) = true;
  d_cond : ∀ c, car c → cond w c = true → sleeping (pc w c) = true;
  d_wakeQ : ∀ c q, car c → pc w c = PSleepQ q → queue w q = Some c → cond w c = true;
  d_wakeI : ∀ c q, car c → pc w c = PSleepI q → cond w c = false →
    0 ≤ turn w c ≤ 2 ∧ (blocked w c q ∨ pending w q);
}.

Lemma initial_dinv : dinv initial.
Proof.
  split; simpl; try done.
  - intros q Hq. exists []. split_and!; [done|constructor|]. intros c. split.
    + intros H. by apply elem_of_nil in H.
    + by intros [_ ?].
  - by left.
  - intros c k Hc Hk. unfold car in Hc. split; [lia|]. by intros (q & ? & _).
  - intros k c Hk. split; [done|]. by intros (_ & _ & ?).
  - intros c Hc. split; [|done]. unfold car, MAIN in *. intros [=]. lia.
Qed.

(** ** Consequences *)

Section facts.
Context (w : world).
Hypothesis Hinv : dinv w.

Lemma at_queue_range c q : car c → at_queue (pc w c) = Some q → 0 ≤ q < 4.
Proof using Hinv.
  intros Hc. pose proof (d_pcs w Hinv c Hc) as Hok. destruct (pc w c); simpl in *; intros [= <-]; lia.
Qed.

Lemma head_at_queue h q : 0 ≤ q < 4 → queue w q = Some h → car h ∧ at_queue (pc w h) = Some q.
Proof using Hinv.
  intros Hq Hh. destruct (d_queue w Hinv q Hq) as (l & Hl & _ & Hin). apply Hin.
  destruct l as [|x l]; simpl in Hl; [congruence|]. destruct Hl as [E _]. rewrite Hh in E.
  injection E as ->. by left.
Qed.

Lemma not_turning_no_quadrant c k : car c → ¬ turning (turn w c) → 0 ≤ k < 4 → quadrant w k ≠ c.
Proof using Hinv.
  intros Hc Ht Hk E. apply (d_claim w Hinv c k Hc Hk) in E as (q & _ & ? & _). done.
Qed.

Lemma holder_unique c c' : car c → car c' → holds_lock (pc w c) = true → holds_lock (pc w c') = true → c = c'.
Proof using Hinv.
  intros Hc Hc' H H'. apply (d_ilock w Hinv c Hc) in H. apply (d_ilock w Hinv c' Hc') in H'. congruence.
Qed.
End facts.

(** ** Steps that only move a thread within its queue *)

Section repoint.
Context (w w' : world) (c q : Z) (p' : pcount).
Hypothesis Hinv : dinv w.
Hypothesis Hc : car c.
Hypothesis Hq : at_queue (pc w c) = Some q.
Hypothesis Hq' : at_queue p' = Some q.
Hypothesis Eturn : turn w' = turn w.
Hypothesis Enext : next w' = next w.
Hypothesis Equeue : queue w' = queue w.
Hypothesis Equad : ∀ k, 0 ≤ k < 4 → quadrant w' k = quadrant w k.
Hypothesis Elock : quadrantLock w' = quadrantLock w.
Hypothesis Epc : pc w' = <[c := p']> (pc w).
Hypothesis Econd : ∀ c', c' ≠ c → cond w' c' = cond w c'.
Hypothesis Hcond : cond w' c = true → sleeping p' = true.
Hypothesis Hok : pc_ok p'.
Hypothesis Hin : inside p' = inside (pc w c).
Hypothesis Hfront : front p' = true → queue w q = Some c.
Hypothesis Hturn : turn_ok p' (turn w c).
Hypothesis Hilock : ∀ c', car c' →
  intersectionLock w' = Some c' ↔ holds_lock (if decide (c = c') then p' else pc w c') = true.
Hypothesis HwakeQ : p' = PSleepQ q → queue w q = Some c → cond w' c = true.
Hypothesis HwakeI : p' = PSleepI q → cond w' c = false → 0 ≤ turn w c ≤ 2 ∧ blocked w c q.
Hypothesis Hothers : ∀ c' q', c' ≠ c → car c' → pc w c' = PSleepI q' → cond w c' = false →
  blocked w c' q' ∨ pending w' q'.

Lemma re_pc c' : pc w' c' = if decide (c = c') then p' else pc w c'.
Proof using Epc. rewrite Epc. apply fn_ins. Qed.

Lemma re_at_queue c' : at_queue (pc w' c') = at_queue (pc w c').
Proof using Epc Hq Hq'. rewrite re_pc. destruct (decide (c = c')) as [<-|]; [by rewrite Hq, Hq'|done]. Qed.

Lemma re_blocked c' q' : blocked w c' q' → blocked w' c' q'.
Proof using Eturn Equad.
  intros (k & Hk & Hne). exists k. rewrite Eturn. split; [done|]. rewrite Equad; [done|].
  by eapply path_range.
Qed.

Lemma repoint : dinv w'.
Proof using All.
  split.
  - intros c' Hc'. rewrite re_pc. case_decide; [done|by apply (d_pcs w Hinv)].
  - intros q' Hq0. destruct (d_queue w Hinv q' Hq0) as (l & Hl & Hnd & Hmem). exists l.
    rewrite Enext, Equeue. split_and!; [done..|]. intros c'. by rewrite re_at_queue.
  - intros c' Hc'. rewrite re_at_queue, Enext. by apply (d_free w Hinv).
  - intros c' q0 Hc'. rewrite re_at_queue, Eturn, Equeue. intros Haq Hf.
    destruct (decide (c = c')) as [<-|Hne].
    + rewrite Hq in Haq. injection Haq as <-. rewrite re_pc, decide_True in Hf by done.
      destruct Hf as [?|?]; [by apply Hfront|]. apply (d_head w Hinv c q Hc Hq). by right.
    + rewrite re_pc, decide_False in Hf by done. by apply (d_head w Hinv).
  - intros c' Hc'. rewrite re_pc, Eturn. case_decide; [by subst|by apply (d_turn w Hinv)].
  - intros k Hk. rewrite Equad by done. by apply (d_quad w Hinv).
  - intros c' k Hc' Hk. rewrite Equad, re_at_queue, Eturn by done. by apply (d_claim w Hinv).
  - intros k c' Hk. rewrite Elock, Equad by done. rewrite (d_lock w Hinv k c' Hk).
    rewrite re_pc. case_decide; [|done]. subst. by rewrite Hin.
  - intros c' Hc'. rewrite re_pc. by apply Hilock.
  - intros c' Hc'. rewrite re_pc. destruct (decide (c = c')) as [<-|Hne]; [done|].
    rewrite Econd by done. by apply (d_cond w Hinv).
  - intros c' q0 Hc'. rewrite re_pc, Equeue. destruct (decide (c = c')) as [<-|Hne].
    + intros ->. simpl in Hq'. injection Hq' as ->. by apply HwakeQ.
    + rewrite Econd by done. by apply (d_wakeQ w Hinv).
  - intros c' q0 Hc'. rewrite re_pc, Eturn. destruct (decide (c = c')) as [<-|Hne].
    + intros -> E. simpl in Hq'. injection Hq' as ->. destruct HwakeI as [? Hb]; [done..|].
      split; [done|]. left. by apply re_blocked.
    + intros Hpc Hcd. rewrite Econd in Hcd by done.
      destruct (d_wakeI w Hinv c' q0 Hc' Hpc Hcd) as [Ht _]. split; [done|].
      destruct (Hothers c' q0) as [?|?]; [done..|left; by apply re_blocked|by right].
Qed.
End repoint.

(** Moving a thread that is not leaving keeps the pending attempts. *)
Lemma others_kept w w' c p' : dinv w → pc w' = <[c := p']> (pc w) →
  (∀ q i, pc w c = PPush q i → 4 ≤ i) →
  ∀ c' q', c' ≠ c → car c' → pc w c' = PSleepI q' → cond w c' = false → blocked w c' q' ∨ pending w' q'.
Proof.
  intros Hinv Epc Hnp c' q' Hne Hc' Hpc Hcd.
  destruct (d_wakeI w Hinv c' q' Hc' Hpc Hcd) as [_ [?|(c1 & q1 & i & Hc1 & Hp1 & Hi)]]; [by left|].
  right. exists c1, q1, i. split; [done|]. rewrite Epc, fn_ins. split; [|done]. case_decide; [|done].
  subst. specialize (Hnp q1 i Hp1). pose proof (d_pcs w Hinv c' Hc') as Hok. rewrite Hpc in Hok.
  simpl in Hok. lia.
Qed.

(** ** [enter_intersection] keeps the invariant *)

Lemma wake_cond h w c : cond (wake h w) c = if decide (h = c) then cond w c || sleeping (pc w c) else cond w c.
Proof.
  unfold wake. destruct (sleeping (pc w h)) eqn:E.
  - simpl. rewrite fn_ins. case_decide; [|done]. subst. by rewrite E, orb_true_r.
  - case_decide; [|done]. subst. by rewrite E, orb_false_r.
Qed.

(** [wake] changes nothing but [cond]. *)
Lemma wake_same h w :
  turn (wake h w) = turn w ∧ next (wake h w) = next w ∧ pc (wake h w) = pc w ∧ queue (wake h w) = queue w ∧
  quadrant (wake h w) = quadrant w ∧ quadrantLock (wake h w) = quadrantLock w ∧
  intersectionLock (wake h w) = intersectionLock w.
Proof. unfold wake. by destruct (sleeping (pc w h)). Qed.

Lemma wake_inv h w : dinv w → dinv (wake h w).
Proof.
  intros Hinv. destruct (wake_same h w) as (E1 & E2 & E3 & E4 & E5 & E6 & E7). split;
    rewrite ?E1, ?E2, ?E3, ?E4, ?E5, ?E6, ?E7; try by apply Hinv.
  - intros c Hc. rewrite wake_cond. case_decide; [|by apply (d_cond w Hinv)].
    intros [?|?]%orb_true_iff; [by apply (d_cond w Hinv)|done].
  - intros c q Hc Hp Hq. rewrite wake_cond, (d_wakeQ w Hinv c q Hc Hp Hq). by case_decide.
  - intros c q Hc Hp. rewrite wake_cond. intros Hcd. unfold blocked, pending.
    rewrite E1, E3, E5. apply (d_wakeI w Hinv c q Hc Hp). case_decide; [|done].
    by apply orb_false_iff in Hcd as [? _].
Qed.

Lemma quadrant_ext_inv f w : (∀ k, 0 ≤ k < 4 → f k = quadrant w k) → dinv w → dinv (with_quadrant f w).
Proof.
  intros Hf Hinv. split; simpl; try by apply Hinv.
  - intros k Hk. rewrite Hf by done. by apply (d_quad w Hinv).
  - intros c k Hc Hk. rewrite Hf by done. by apply (d_claim w Hinv).
  - intros k c Hk. rewrite Hf by done. by apply (d_lock w Hinv).
  - intros c q Hc Hp Hcd. destruct (d_wakeI w Hinv c q Hc Hp Hcd) as [Ht Hb]. split; [done|].
    destruct Hb as [(k & Hk & Hne)|?]; [left|by right]. exists k. split; [done|]. simpl.
    rewrite Hf; [done|]. by eapply path_range.
Qed.

Section entered.
Context (w : world) (h i : Z) (f : Z → Z).
Hypothesis Hinv : dinv w.
Hypothesis Hh : car h.
Hypothesis Hat : at_queue (pc w h) = Some i.
Hypothesis Hhead : queue w i = Some h.
Hypothesis Ht : 0 ≤ turn w h ≤ 2.
Hypothesis Hf : ∀ k, f k = if decide (k ∈ path i (turn w h)) then h else quadrant w k.
Hypothesis Hfree : ∀ k, k ∈ path i (turn w h) → quadrant w k = -1.

Local Abbreviation w1 := (set_turn h (turn w h + 3) (with_quadrant f w)).

Lemma en_turn c : turn w1 c = if decide (h = c) then turn w h + 3 else turn w c.
Proof. simpl. apply fn_ins. Qed.

Lemma en_occupied k : 0 ≤ k < 4 → quadrant w k ≠ -1 → f k = quadrant w k.
Proof using Hf Hfree. intros Hk Hne. rewrite Hf. case_decide as E; [|done]. by apply Hfree in E. Qed.

Lemma en_claim c k : car c → 0 ≤ k < 4 →
  f k = c ↔ ∃ q, at_queue (pc w c) = Some q ∧ turning (turn w1 c) ∧ k ∈ path q (turn w1 c).
Proof using All.
  intros Hc Hk. rewrite en_turn. destruct (decide (h = c)) as [<-|Hne].
  - split.
    + intros E. exists i. rewrite path_turning. split; [done|]. split; [unfold turning; lia|].
      rewrite Hf in E. case_decide; [done|]. exfalso.
      apply (not_turning_no_quadrant w Hinv h k Hh); [unfold turning; lia|done|done].
    + intros (q & Hq & _ & Hin). rewrite Hat in Hq. injection Hq as <-. rewrite path_turning in Hin.
      rewrite Hf. by rewrite decide_True.
  - rewrite <-(d_claim w Hinv c k Hc Hk). rewrite Hf. case_decide as Hin; [|done].
    rewrite (Hfree k Hin). unfold car in Hc. lia.
Qed.

Lemma entered_inv : dinv (wake h w1).
Proof using All.
  destruct (wake_same h w1) as (E1 & E2 & E3 & E4 & E5 & E6 & E7).
  assert (inside (pc w h) = false) as Hnin.
  { pose proof (d_turn w Hinv h Hh) as Hok. destruct (pc w h); try done. simpl in Hok.
    unfold turning in Hok. lia. }
  split; rewrite ?E1, ?E2, ?E3, ?E4, ?E5, ?E6, ?E7; cbn [next pc queue quadrantLock intersectionLock set_turn
    with_quadrant]; try by apply Hinv.
  - intros c q Hc Hq. rewrite en_turn. destruct (decide (h = c)) as [<-|]; [|by apply (d_head w Hinv)].
    rewrite Hat in Hq. by injection Hq as <-.
  - intros c Hc. rewrite en_turn. destruct (decide (h = c)) as [<-|]; [|by apply (d_turn w Hinv)].
    pose proof (d_turn w Hinv h Hh) as Hok. unfold NO_TURN, turning in *.
    destruct (pc w h); simpl in *; unfold NO_TURN, turning in *; try lia. done.
  - intros k Hk. simpl. rewrite Hf. case_decide; [by right|by apply (d_quad w Hinv)].
  - intros c k Hc Hk. by apply en_claim.
  - intros k c Hk. rewrite (d_lock w Hinv k c Hk). simpl. rewrite Hf. case_decide as Hin; [|done].
    rewrite (Hfree k Hin). split.
    + intros (Hc & E & _). unfold car in Hc. lia.
    + intros (Hc & <- & E). by rewrite Hnin in E.
  - intros c Hc. rewrite wake_cond. simpl. case_decide; [|by apply (d_cond w Hinv)].
    intros [?|?]%orb_true_iff; [by apply (d_cond w Hinv)|done].
  - intros c q Hc Hp Hq. rewrite wake_cond. simpl. rewrite (d_wakeQ w Hinv c q Hc Hp Hq). by case_decide.
  - intros c q Hc Hp. rewrite wake_cond. cbn [cond pc set_turn with_quadrant].
    intros Hcd. unfold blocked, pending. rewrite E1, E3, E5. rewrite !en_turn. destruct (decide (h = c)) as [<-|Hne].
    { rewrite Hp in Hcd. by apply orb_false_iff in Hcd as [_ ?]. }
    destruct (d_wakeI w Hinv c q Hc Hp Hcd) as [Htc [(k & Hk & Ho)|Hpd]]; (split; [done|]); [left|by right].
    exists k. split; [done|]. simpl. rewrite en_occupied; [done|by eapply path_range|done].
Qed.
End entered.

(** The front car [h] of queue [i] tries to enter. *)
Lemma enter_inv w h i :
  dinv w → 0 ≤ i < 4 → queue w i = Some h →
  ∃ r w' o, enter_intersection h i w = Done r w' o ∧ dinv w' ∧
    pc w' = pc w ∧ queue w' = queue w ∧ intersectionLock w' = intersectionLock w ∧
    (∀ c, c ≠ h → turn w' c = turn w c ∧ cond w' c = cond w c) ∧
    (∀ c q, car c → pc w c = PSleepI q → cond w' c = false → blocked w c q ∨ c = h → blocked w' c q) ∧
    (r = 0 ∧ (0 ≤ turn w h ≤ 2 → turn w' h = turn w h ∧ blocked w' h i ∧ cond w' h = cond w h) ∨
     r = 1 ∧ turning (turn w' h)).
Proof.
  intros Hinv Hi Hq. destruct (head_at_queue w Hinv h i Hi Hq) as [Hh Hat].
  assert (NO_TURN = turn w h ∨ 0 ≤ turn w h ≤ 2 ∨ turning (turn w h)) as Hcases.
  { pose proof (d_turn w Hinv h Hh) as Hok. unfold turning, NO_TURN in *.
    destruct (pc w h); simpl in Hok; unfold turning, NO_TURN in *; lia. }
  destruct Hcases as [Hn|[Ht|Ht]].
  - exists 0, w, []. split; [by apply enter_no_turn|]. split_and!; try done.
    + intros c q Hc Hp Hcd [?| ->]; [done|]. destruct (d_wakeI w Hinv h q Hh Hp Hcd) as [Htn _].
      unfold NO_TURN in Hn. lia.
    + left. split; [done|]. unfold NO_TURN in Hn. lia.
  - destruct (enter_wanting w h i) as (r & w' & o & E & Hres); [unfold car in Hh; lia|done|
      by apply wants_range| |].
    { intros k Hk. apply (not_turning_no_quadrant w Hinv h k Hh); [unfold turning; lia|done]. }
    exists r, w', o. split; [done|]. destruct Hres as [f k Hf Hk Ho|f Hf Hfree].
    + assert (∀ c q, blocked w c q → blocked (with_quadrant f w) c q) as Hb.
      { intros c q (j & Hj & Hoj). exists j. split; [done|]. simpl. rewrite Hf; [done|].
        by eapply path_range. }
      split_and!; try done; [by apply quadrant_ext_inv|..].
      * intros c q Hc Hp _ [?| ->]; [by apply Hb|]. rewrite Hp in Hat. injection Hat as ->.
        apply Hb. by exists k.
      * left. split; [done|]. intros _. split_and!; [done|apply Hb; by exists k|done].
    + destruct (wake_same h (set_turn h (turn w h + 3) (with_quadrant f w)))
        as (E1 & E2 & E3 & E4 & E5 & E6 & E7).
      split_and!; [by eapply entered_inv|by rewrite E3|by rewrite E4|by rewrite E7|..].
      * intros c Hne. rewrite E1, wake_cond, decide_False by done. simpl. by rewrite fn_lookup_insert_ne.
      * intros c q Hc Hp Hcd Hor. unfold blocked. rewrite wake_cond in Hcd. simpl in Hcd.
        destruct (decide (h = c)) as [<-|Hne].
        { rewrite Hp, orb_true_r in Hcd. done. }
        destruct Hor as [(j & Hj & Hoj)|?]; [|done]. exists j. rewrite E1, E5. simpl.
        rewrite fn_lookup_insert_ne by done. split; [done|].
        rewrite (en_occupied w h i f Hf Hfree); [done|by eapply path_range|done].
      * right. split; [done|]. rewrite E1. simpl. rewrite fn_lookup_insert. unfold turning. lia.
  - exists 1, (wake h w), [Entered h i (turn w h)]. split; [by apply enter_turning|].
    destruct (wake_same h w) as (E1 & E2 & E3 & E4 & E5 & E6 & E7).
    split_and!; [by apply wake_inv|done..| | |].
    + intros c Hne. by rewrite E1, wake_cond, decide_False.
    + intros c q Hc Hp Hcd Hor. unfold blocked. rewrite E1, E5. rewrite wake_cond in Hcd.
      destruct (decide (h = c)) as [<-|Hne].
      { rewrite Hp, orb_true_r in Hcd. done. }
      by destruct Hor as [?|?].
    + right. split; [done|]. by rewrite E1.
Qed.
