(* ===== verification/DriversSteps.v ===== *)
(** * Project3/Drivers: every step keeps the invariant

    One lemma per program point; together: no step of a car thread has undefined
    behaviour, and a thread only waits for a signal or for [intersectionLock]. *)

From S2P Require Import Prelude Queue Drivers DriversOps DriversInv.

(** ** Leaving the top of the loop *)

Section new_round.
Context (w : world) (c rq rt : Z).
Hypothesis Hinv : dinv w.
Hypothesis Hc : car c.
Hypothesis Hpc : pc w c = PTop.

Lemma top_inv : dinv (set_pc c (PQueue (rq mod 4)) (set_turn c (rt mod 3) w)).
Proof using All.
  pose proof (Z.mod_pos_bound rq 4 ltac:(lia)) as Hrq.
  pose proof (Z.mod_pos_bound rt 3 ltac:(lia)) as Hrt.
  assert (∀ c', at_queue ((<[c:=PQueue (rq mod 4)]> (pc w)) c') = at_queue (pc w c')) as Haq.
  { intros c'. rewrite fn_ins. destruct (decide (c = c')) as [<-|]; [by rewrite Hpc|done]. }
  assert (∀ c' q, at_queue (pc w c') = Some q → (<[c:=rt mod 3]> (turn w)) c' = turn w c') as Htn.
  { intros c' q Hq. rewrite fn_ins. destruct (decide (c = c')) as [<-|]; [by rewrite Hpc in Hq|done]. }
  assert (∀ q, pending w q → pending (set_pc c (PQueue (rq mod 4)) (set_turn c (rt mod 3) w)) q) as Hpend.
  { intros q (c1 & q1 & i & Hc1 & Hp1 & Hi). exists c1, q1, i. simpl. rewrite fn_ins.
    destruct (decide (c = c1)) as [<-|]; [by rewrite Hpc in Hp1|done]. }
  split; cbn [next queue quadrant quadrantLock intersectionLock pc turn cond set_pc set_turn].
  - intros c' Hc'. rewrite fn_ins. case_decide; [simpl; lia|by apply (d_pcs w Hinv)].
  - intros q Hq. destruct (d_queue w Hinv q Hq) as (l & Hl & Hnd & Hm). exists l.
    split_and!; [done..|]. intros c'. by rewrite Haq.
  - intros c' Hc'. rewrite Haq. by apply (d_free w Hinv).
  - intros c' q Hc'. rewrite Haq. intros Hq. rewrite (Htn c' q Hq), fn_ins.
    destruct (decide (c = c')) as [<-|]; [by rewrite Hpc in Hq|]. by apply (d_head w Hinv).
  - intros c' Hc'. rewrite !fn_ins. destruct (decide (c = c')) as [<-|]; [simpl; lia|by apply (d_turn w Hinv)].
  - apply (d_quad w Hinv).
  - intros c' k Hc' Hk. rewrite (d_claim w Hinv c' k Hc' Hk).
    split; intros (q & Hq & Htq); exists q; rewrite Haq in *; (split; [done|]);
      by rewrite (Htn c' q Hq) in *.
  - intros k c' Hk. rewrite (d_lock w Hinv k c' Hk), fn_ins.
    destruct (decide (c = c')) as [<-|]; [by rewrite Hpc|done].
  - intros c' Hc'. rewrite (d_ilock w Hinv c' Hc'), fn_ins.
    destruct (decide (c = c')) as [<-|]; [by rewrite Hpc|done].
  - intros c' Hc' Hcd. pose proof (d_cond w Hinv c' Hc' Hcd) as Hs. rewrite fn_ins.
    destruct (decide (c = c')) as [<-|]; [by rewrite Hpc in Hs|done].
  - intros c' q Hc'. rewrite fn_ins. destruct (decide (c = c')) as [<-|]; [done|]. by apply (d_wakeQ w Hinv).
  - intros c' q Hc'. rewrite !fn_ins. unfold blocked. simpl. rewrite fn_ins.
    destruct (decide (c = c')) as [<-|]; [done|]. intros Hp Hcd.
    destruct (d_wakeI w Hinv c' q Hc' Hp Hcd) as [? [?|?]]; (split; [done|]); [by left|right; by apply Hpend].
Qed.
End new_round.

(** ** [queue_car] *)

(** The links after a car was appended to queue [q]. *)
Definition linked (w : world) (c q : Z) (w' : world) : Prop :=
  turn w' = turn w ∧ cond w' = cond w ∧ pc w' = pc w ∧ quadrant w' = quadrant w ∧
  quadrantLock w' = quadrantLock w ∧ intersectionLock w' = intersectionLock w ∧
  (∀ q', q' ≠ q → queue w' q' = queue w q') ∧
  (∀ h, queue w q = Some h → queue w' q = Some h) ∧
  (queue w q = None → queue w' q = Some c).

Section queue_car.
Context (w : world) (c q : Z).
Hypothesis Hinv : dinv w.
Hypothesis Hc : car c.
Hypothesis Hq : 0 ≤ q < 4.
Hypothesis Hout : at_queue (pc w c) = None.

Lemma queue_members (l : list Z) : (∀ x, x ∈ l → car x) → NoDup l → (length l ≤ Z.to_nat NUM_CARS)%nat.
Proof. intros Hl Hnd. apply pigeon_length; [done|]. intros x Hx. by apply Hl. Qed.

Lemma queued_members x q' :
  car x ∧ at_queue (<[c := PCheck q]> (pc w) x) = Some q' ↔
  (x = c ∧ q' = q) ∨ (car x ∧ at_queue (pc w x) = Some q').
Proof using All.
  rewrite fn_ins. destruct (decide (c = x)) as [<-|Hne].
  - rewrite Hout. simpl. split; [intros [_ [= ->]]; by left|].
    intros [[_ ->]|[_ ?]]; [done|done].
  - split; [by right|]. intros [[-> _]|?]; done.
Qed.

Lemma not_member q' (l : list Z) : (∀ x, x ∈ l ↔ car x ∧ at_queue (pc w x) = Some q') → c ∉ l.
Proof using All. intros Hl [_ E]%Hl. congruence. Qed.

Lemma outside_unlinked x : car x → at_queue (<[c := PCheck q]> (pc w) x) = None → next w x = None.
Proof using All. intros Hx. rewrite fn_ins. case_decide; [done|]. by apply (d_free w Hinv). Qed.

Lemma queue_car_spec :
  ∃ w', queue_car c q w = Done tt w' [Approaching c q] ∧ linked w c q w' ∧
    (∀ x, car x → at_queue (<[c := PCheck q]> (pc w) x) = None → next w' x = None) ∧
    ∀ q', 0 ≤ q' < 4 → ∃ l, chain (next w') (queue w' q') l ∧ NoDup l ∧
      (∀ x, x ∈ l ↔ car x ∧ at_queue (<[c := PCheck q]> (pc w) x) = Some q').
Proof using All.
  pose proof (d_free w Hinv c Hc Hout) as Hnc.
  destruct (d_queue w Hinv q Hq) as (l & Hl & Hnd & Hin).
  unfold queue_car. rewrite get_bind. destruct l as [|x l].
  - (* empty queue *)
    simpl in Hl. rewrite Hl. eexists. split; [done|]. split.
    { split_and!; try done; simpl; intros; [by rewrite fn_lookup_insert_ne|congruence|
        by rewrite fn_lookup_insert]. }
    split; [exact outside_unlinked|].
    intros q' Hq'. simpl. destruct (decide (q' = q)) as [->|Hne].
    + exists [c]. rewrite fn_lookup_insert. split; [by split|]. split; [apply NoDup_singleton|].
      intros x. rewrite queued_members, <-Hin, list_elem_of_singleton, elem_of_nil. naive_solver.
    + destruct (d_queue w Hinv q' Hq') as (l' & Hl' & Hnd' & Hin'). exists l'.
      rewrite fn_lookup_insert_ne by done. split_and!; [done..|]. intros x.
      rewrite queued_members, Hin'. naive_solver.
  - (* the end of the queue is found by crawling *)
    assert (length (x :: l) ≤ Z.to_nat NUM_CARS)%nat as Hlen.
    { apply queue_members; [|done]. intros y Hy. by apply Hin in Hy as [? _]. }
    pose proof Hl as [Hhd _]. rewrite Hhd in Hl. rewrite Hhd.
    destruct (last (x :: l)) as [z|] eqn:Ez; [|by apply last_None in Ez].
    assert (crawl (Z.to_nat NUM_CARS) (next w) x = Some z) as Hcrawl.
    { rewrite <-Ez. apply (crawl_chain (next w) x x l); [done|]. simpl in Hlen. lia. }
    eexists. split.
    { eapply (bind_done _ _ w tt _ []); [|done]. rewrite (reads_bind _ _ _ z); done. }
    split.
    { split_and!; try done; simpl; congruence. }
    split.
    { intros y Hy Hn. simpl. rewrite fn_ins. destruct (decide (z = y)) as [->|]; [|by apply outside_unlinked].
      assert (y ∈ x :: l) as [Hcy Ey]%Hin by by apply last_Some_elem_of.
      rewrite fn_ins in Hn. case_decide; [done|]. congruence. }
    intros q' Hq'. simpl. destruct (decide (q' = q)) as [->|Hne].
    + exists ((x :: l) ++ [c]). rewrite Hhd. split_and!.
      * by apply chain_append; [| | |eapply not_member|].
      * apply NoDup_app. split_and!; [done| |apply NoDup_singleton].
        intros y Hy ->%list_elem_of_singleton. by eapply not_member.
      * intros y. rewrite queued_members, elem_of_app, list_elem_of_singleton, Hin. naive_solver.
    + destruct (d_queue w Hinv q' Hq') as (l' & Hl' & Hnd' & Hin'). exists l'.
      split_and!; [apply chain_frame; [done|]|done|].
      * intros [_ E]%Hin'. assert (z ∈ x :: l) as [_ E']%Hin by by apply last_Some_elem_of.
        congruence.
      * intros y. rewrite queued_members, Hin'. naive_solver.
Qed.
End queue_car.

Section queue_step.
Context (w w' : world) (c q : Z).
Hypothesis Hinv : dinv w.
Hypothesis Hc : car c.
Hypothesis Hpc : pc w c = PQueue q.
Hypothesis Hlink : linked w c q w'.
Hypothesis Hchains : ∀ q', 0 ≤ q' < 4 → ∃ l, chain (next w') (queue w' q') l ∧ NoDup l ∧
  (∀ x, x ∈ l ↔ car x ∧ at_queue (<[c := PCheck q]> (pc w) x) = Some q').
Hypothesis Hnext : ∀ x, car x → at_queue (<[c := PCheck q]> (pc w) x) = None → next w' x = None.

Lemma queue_step_inv : dinv (set_pc c (PCheck q) w').
Proof using All.
  destruct Hlink as (E1 & E2 & E3 & E4 & E5 & E6 & Hother & Hsame & Hnew).
  pose proof (d_pcs w Hinv c Hc) as Hq. rewrite Hpc in Hq. simpl in Hq.
  pose proof (d_turn w Hinv c Hc) as Htc. rewrite Hpc in Htc. simpl in Htc.
  assert (∀ q' h, queue w q' = Some h → queue w' q' = Some h) as Hkeep.
  { intros q' h Hh. destruct (decide (q' = q)) as [->|Hne]; [by apply Hsame|by rewrite Hother]. }
  assert (∀ c', turning (turn w c') → c ≠ c') as Hntc.
  { intros c' Ht ->. unfold turning in Ht. lia. }
  split; cbn [next queue quadrant quadrantLock intersectionLock pc turn cond set_pc];
    rewrite ?E1, ?E2, ?E3, ?E4, ?E5, ?E6.
  - intros c' Hc'. rewrite fn_ins. case_decide; [simpl; lia|by apply (d_pcs w Hinv)].
  - apply Hchains.
  - apply Hnext.
  - intros c' q' Hc'. rewrite fn_ins. destruct (decide (c = c')) as [<-|Hne].
    + intros _ [?|Ht]; [done|]. by destruct (Hntc c Ht).
    + intros Haq Hf. apply Hkeep. by apply (d_head w Hinv).
  - intros c' Hc'. rewrite fn_ins. destruct (decide (c = c')) as [<-|]; [simpl; lia|by apply (d_turn w Hinv)].
  - apply (d_quad w Hinv).
  - intros c' k Hc' Hk. rewrite (d_claim w Hinv c' k Hc' Hk), fn_ins.
    destruct (decide (c = c')) as [<-|]; [|done]. rewrite Hpc.
    split; intros (q' & _ & Ht & _); by destruct (Hntc c Ht).
  - intros k c' Hk. rewrite (d_lock w Hinv k c' Hk), fn_ins.
    destruct (decide (c = c')) as [<-|]; [by rewrite Hpc|done].
  - intros c' Hc'. rewrite (d_ilock w Hinv c' Hc'), fn_ins.
    destruct (decide (c = c')) as [<-|]; [by rewrite Hpc|done].
  - intros c' Hc' Hcd. pose proof (d_cond w Hinv c' Hc' Hcd) as Hs. rewrite fn_ins.
    destruct (decide (c = c')) as [<-|]; [by rewrite Hpc in Hs|done].
  - intros c' q' Hc'. rewrite fn_ins. destruct (decide (c = c')) as [<-|Hne]; [done|]. intros Hp Hh.
    assert (at_queue (pc w c') = Some q') as Haq by by rewrite Hp.
    pose proof (at_queue_range w Hinv c' q' Hc' Haq) as Hq'.
    apply (d_wakeQ w Hinv c' q' Hc' Hp). destruct (queue w q') as [h|] eqn:E.
    + apply Hkeep in E. congruence.
    + destruct (d_queue w Hinv q' Hq') as ([|y l] & Hl & _ & Hin); [|by rewrite E in Hl; destruct Hl].
      assert (c' ∈ ([] : list Z)) as Hn by by apply Hin. by apply elem_of_nil in Hn.
  - intros c' q' Hc'. rewrite fn_ins. destruct (decide (c = c')) as [<-|Hne]; [done|]. intros Hp Hcd.
    destruct (d_wakeI w Hinv c' q' Hc' Hp Hcd) as [Ht Hb]. split; [done|].
    unfold blocked, pending. simpl. rewrite E1, E3, E4.
    destruct Hb as [?|(c1 & q1 & i & Hc1 & Hp1 & Hi)]; [by left|]. right. exists c1, q1, i.
    rewrite fn_ins. destruct (decide (c = c1)) as [<-|]; [by rewrite Hpc in Hp1|done].
Qed.
End queue_step.

(** ** [aquire_locks]: into the intersection *)

Section go_in.
Context (w : world) (c q : Z) (g : Z → option Z).
Hypothesis Hinv : dinv w.
Hypothesis Hc : car c.
Hypothesis Hpc : pc w c = PLoop q.
Hypothesis Ht : turning (turn w c).
Hypothesis Hg : ∀ k, 0 ≤ k < 4 → g k = if decide (quadrant w k = c) then Some c else quadrantLock w k.

Lemma in_inv : dinv (set_pc c (PIn q) (set_intersectionLock None (with_qlock g w))).
Proof using All.
  pose proof (d_pcs w Hinv c Hc) as Hq. rewrite Hpc in Hq. simpl in Hq.
  assert (∀ c', at_queue (<[c:=PIn q]> (pc w) c') = at_queue (pc w c')) as Haq.
  { intros c'. rewrite fn_ins. destruct (decide (c = c')) as [<-|]; [by rewrite Hpc|done]. }
  assert (∀ c', car c' → holds_lock (pc w c') = true → c' = c) as Honly.
  { intros c' Hc' Hl. apply (holder_unique w Hinv c' c Hc' Hc Hl). by rewrite Hpc. }
  split; cbn [next queue quadrant quadrantLock intersectionLock pc turn cond set_pc set_intersectionLock
    with_qlock].
  - intros c' Hc'. rewrite fn_ins. case_decide; [simpl; lia|by apply (d_pcs w Hinv)].
  - intros q' Hq'. destruct (d_queue w Hinv q' Hq') as (l & Hl & Hnd & Hm). exists l.
    split_and!; [done..|]. intros c'. by rewrite Haq.
  - intros c' Hc'. rewrite Haq. by apply (d_free w Hinv).
  - intros c' q' Hc'. rewrite Haq, fn_ins. destruct (decide (c = c')) as [<-|]; [|by apply (d_head w Hinv)].
    intros E _. apply (d_head w Hinv c q' Hc E). by right.
  - intros c' Hc'. rewrite fn_ins. destruct (decide (c = c')) as [<-|]; [done|by apply (d_turn w Hinv)].
  - apply (d_quad w Hinv).
  - intros c' k Hc' Hk. rewrite Haq. by apply (d_claim w Hinv).
  - intros k c' Hk. rewrite (Hg k Hk), fn_ins. destruct (decide (quadrant w k = c)) as [E|E].
    + split.
      * intros [= <-]. by rewrite decide_True.
      * intros (_ & E' & _). congruence.
    + rewrite (d_lock w Hinv k c' Hk). destruct (decide (c = c')) as [<-|]; [|done].
      rewrite Hpc. naive_solver.
  - intros c' Hc'. split; [done|]. rewrite fn_ins. destruct (decide (c = c')) as [<-|Hne]; [done|].
    intros Hl. by destruct (Hne (eq_sym (Honly c' Hc' Hl))).
  - intros c' Hc' Hcd. pose proof (d_cond w Hinv c' Hc' Hcd) as Hs. rewrite fn_ins.
    destruct (decide (c = c')) as [<-|]; [by rewrite Hpc in Hs|done].
  - intros c' q' Hc'. rewrite fn_ins. destruct (decide (c = c')) as [<-|]; [done|by apply (d_wakeQ w Hinv)].
  - intros c' q' Hc'. rewrite fn_ins. destruct (decide (c = c')) as [<-|Hne]; [done|]. intros Hp Hcd.
    destruct (d_wakeI w Hinv c' q' Hc' Hp Hcd) as [Ht' Hb]. split; [done|].
    destruct Hb as [?|(c1 & q1 & i & Hc1 & Hp1 & Hi)]; [by left|]. right. exists c1, q1, i. simpl.
    rewrite fn_ins. destruct (decide (c = c1)) as [<-|]; [by rewrite Hpc in Hp1|done].
Qed.
End go_in.

(** ** The start of [leave_intersection] *)

Section go_out.
Context (w : world) (c q : Z) (f : Z → Z) (g : Z → option Z).
Hypothesis Hinv : dinv w.
Hypothesis Hc : car c.
Hypothesis Hpc : pc w c = PIn q.
Hypothesis Hlock : intersectionLock w = None.
Hypothesis Hfg : ∀ k, 0 ≤ k < 4 → f k = (if decide (quadrant w k = c) then -1 else quadrant w k) ∧
  g k = (if decide (quadrant w k = c) then None else quadrantLock w k).

Lemma out_inv : dinv (set_pc c (PPush q 0)
  (set_turn c NO_TURN (with_qlock g (with_quadrant f (set_intersectionLock (Some c) w))))).
Proof using All.
  pose proof (d_pcs w Hinv c Hc) as Hq. rewrite Hpc in Hq. simpl in Hq.
  assert (∀ c', at_queue (<[c:=PPush q 0]> (pc w) c') = at_queue (pc w c')) as Haq.
  { intros c'. rewrite fn_ins. destruct (decide (c = c')) as [<-|]; [by rewrite Hpc|done]. }
  assert (∀ c', car c' → c' ≠ -1) as Hcar by (unfold car; lia).
  assert (∀ c', c' ≠ c → (<[c:=NO_TURN]> (turn w)) c' = turn w c') as Htn.
  { intros c' Hne. by rewrite fn_lookup_insert_ne. }
  split; cbn [next queue quadrant quadrantLock intersectionLock pc turn cond set_pc set_intersectionLock
    with_qlock with_quadrant set_turn].
  - intros c' Hc'. rewrite fn_ins. case_decide; [simpl; lia|by apply (d_pcs w Hinv)].
  - intros q' Hq'. destruct (d_queue w Hinv q' Hq') as (l & Hl & Hnd & Hm). exists l.
    split_and!; [done..|]. intros c'. by rewrite Haq.
  - intros c' Hc'. rewrite Haq. by apply (d_free w Hinv).
  - intros c' q' Hc'. rewrite Haq, !fn_ins. destruct (decide (c = c')) as [<-|]; [|by apply (d_head w Hinv)].
    intros E _. apply (d_head w Hinv c q' Hc E). left. by rewrite Hpc.
  - intros c' Hc'. rewrite !fn_ins. destruct (decide (c = c')) as [<-|]; [done|by apply (d_turn w Hinv)].
  - intros k Hk. destruct (Hfg k Hk) as [-> _]. case_decide; [by left|by apply (d_quad w Hinv)].
  - intros c' k Hc' Hk. rewrite Haq. destruct (Hfg k Hk) as [-> _].
    destruct (decide (c' = c)) as [->|Hne].
    + rewrite fn_lookup_insert. split.
      * case_decide; [|done]. intros E. by destruct (Hcar c Hc).
      * intros (_ & _ & Ht & _). unfold turning, NO_TURN in Ht. lia.
    + rewrite Htn by done. rewrite <-(d_claim w Hinv c' k Hc' Hk). case_decide as E; [|done].
      rewrite E. split; [|congruence]. intros <-. by destruct (Hcar (-1)).
  - intros k c' Hk. destruct (Hfg k Hk) as [-> ->]. rewrite fn_ins. destruct (decide (quadrant w k = c)) as [E|E].
    + split; [done|]. intros (Hc' & <- & _). by destruct (Hcar (-1)).
    + rewrite (d_lock w Hinv k c' Hk). destruct (decide (c = c')) as [<-|]; [|done]. naive_solver.
  - intros c' Hc'. rewrite fn_ins. destruct (decide (c = c')) as [<-|Hne]; [done|].
    rewrite <-(d_ilock w Hinv c' Hc'), Hlock. split; [congruence|done].
  - intros c' Hc' Hcd. pose proof (d_cond w Hinv c' Hc' Hcd) as Hs. rewrite fn_ins.
    destruct (decide (c = c')) as [<-|]; [by rewrite Hpc in Hs|done].
  - intros c' q' Hc'. rewrite fn_ins. destruct (decide (c = c')) as [<-|]; [done|by apply (d_wakeQ w Hinv)].
  - intros c' q' Hc'. rewrite !fn_ins. destruct (decide (c = c')) as [<-|Hne]; [done|]. intros Hp Hcd.
    destruct (d_wakeI w Hinv c' q' Hc' Hp Hcd) as [Ht' _]. split; [done|]. right.
    exists c, q, 0. simpl. rewrite fn_lookup_insert. split_and!; [done..|].
    pose proof (d_pcs w Hinv c' Hc') as Hok. rewrite Hp in Hok. simpl in Hok. lia.
Qed.
End go_out.

(** ** [dequeue_car] *)

Section dequeue.
Context (w : world) (c q : Z).
Hypothesis Hinv : dinv w.
Hypothesis Hc : car c.
Hypothesis Hpc : pc w c = PDequeue q.

Lemma dequeue_front : 0 ≤ q < 4 ∧ queue w q = Some c ∧ turn w c = NO_TURN.
Proof using Hinv Hc Hpc.
  pose proof (d_pcs w Hinv c Hc) as Hq. pose proof (d_turn w Hinv c Hc) as Ht.
  rewrite Hpc in Hq, Ht. split; [done|]. split; [|done].
  apply (d_head w Hinv c q Hc); [by rewrite Hpc|]. left. by rewrite Hpc.
Qed.

Local Abbreviation w1 := (set_next c None (set_queue q (next w c) w)).

Lemma dequeue_chains q' : 0 ≤ q' < 4 → ∃ l, chain (next w1) (queue w1 q') l ∧ NoDup l ∧
  (∀ x, x ∈ l ↔ car x ∧ at_queue (<[c := PTop]> (pc w) x) = Some q').
Proof using Hinv Hc Hpc.
  intros Hq'. destruct dequeue_front as (Hq & Hhead & _).
  destruct (d_queue w Hinv q' Hq') as (l & Hl & Hnd & Hin). simpl. rewrite fn_ins.
  assert (∀ x, car x ∧ at_queue (<[c := PTop]> (pc w) x) = Some q' ↔ x ≠ c ∧ x ∈ l) as Hmem.
  { intros x. rewrite Hin, fn_ins. destruct (decide (c = x)) as [<-|Hne].
    - split; [by intros [_ ?]|by intros [? _]].
    - split; [by split|by intros [_ ?]]. }
  destruct (decide (q = q')) as [<-|Hne].
  - destruct l as [|x l]; [simpl in Hl; congruence|]. pose proof Hl as [Hx _].
    rewrite Hhead in Hx. injection Hx as <-. apply NoDup_cons in Hnd as [Hcl Hnd].
    exists l. split; [by eapply chain_pop|]. split; [done|]. intros x. rewrite Hmem, elem_of_cons.
    split; [|by intros [? [?|?]]]. intros Hx. split; [by intros ->|by right].
  - assert (c ∉ l) as Hcl.
    { intros [_ E]%Hin. rewrite Hpc in E. by injection E. }
    exists l. split; [by apply chain_frame|]. split; [done|]. intros x. rewrite Hmem.
    split; [|by intros [_ ?]]. intros Hx. split; [by intros ->|done].
Qed.

Lemma dequeue_car_eq :
  dequeue_car q w = Done tt (match next w c with Some h => wake h w1 | None => w1 end) [].
Proof using Hinv Hc Hpc.
  destruct dequeue_front as (_ & Hhead & _). unfold dequeue_car. rewrite get_bind, Hhead.
  rewrite get_bind. erewrite bind_silent by done. erewrite bind_silent by done.
  by destruct (next w c).
Qed.

(** The car that is now first, if asleep, has been signalled. *)
Lemma dequeue_inv : ∀ cd : Z → bool,
  (∀ x, cd x = true ↔ cond w x = true ∨ next w c = Some x ∧ sleeping (pc w x) = true) →
  dinv (mkWorld (turn w) (next w1) cd (<[c := PTop]> (pc w)) (queue w1) (quadrant w) (quadrantLock w)
    (intersectionLock w)).
Proof using Hinv Hc Hpc.
  intros cd Hcd. destruct dequeue_front as (Hq & Hhead & Ht).
  assert (¬ turning (turn w c)) as Hnt by (rewrite Ht; unfold turning, NO_TURN; lia).
  assert (∀ q' c', queue w q' = Some c' → c' ≠ c → (<[q:=next w c]> (queue w)) q' = Some c') as Hkeep.
  { intros q' c' Hh Hne. rewrite fn_lookup_insert_ne; [done|]. intros <-. congruence. }
  split; cbn [next queue quadrant quadrantLock intersectionLock pc turn cond set_next set_queue].
  - intros c' Hc'. rewrite fn_ins. case_decide; [done|by apply (d_pcs w Hinv)].
  - apply dequeue_chains.
  - intros c' Hc'. rewrite !fn_ins. case_decide; [done|by apply (d_free w Hinv)].
  - intros c' q' Hc'. rewrite fn_ins. destruct (decide (c = c')) as [<-|Hne]; [done|].
    intros Haq Hf. apply Hkeep; [|done]. by apply (d_head w Hinv).
  - intros c' Hc'. rewrite fn_ins. destruct (decide (c = c')) as [<-|]; [done|by apply (d_turn w Hinv)].
  - apply (d_quad w Hinv).
  - intros c' k Hc' Hk. rewrite (d_claim w Hinv c' k Hc' Hk), fn_ins.
    destruct (decide (c = c')) as [<-|]; [|done]. split; intros (? & _ & ? & _); done.
  - intros k c' Hk. rewrite (d_lock w Hinv k c' Hk), fn_ins.
    destruct (decide (c = c')) as [<-|]; [by rewrite Hpc|done].
  - intros c' Hc'. rewrite (d_ilock w Hinv c' Hc'), fn_ins.
    destruct (decide (c = c')) as [<-|]; [by rewrite Hpc|done].
  - intros c' Hc' Hcd'. rewrite fn_ins. destruct (decide (c = c')) as [<-|Hne].
    + apply Hcd in Hcd' as [E|[_ E]]; [apply (d_cond w Hinv c Hc) in E|]; by rewrite Hpc in E.
    + apply Hcd in Hcd' as [?|[_ ?]]; [by apply (d_cond w Hinv)|done].
  - intros c' q' Hc'. rewrite fn_ins. destruct (decide (c = c')) as [<-|Hne]; [done|]. intros Hp Hh.
    apply Hcd. rewrite fn_ins in Hh. destruct (decide (q = q')) as [<-|].
    + right. rewrite Hp. done.
    + left. by apply (d_wakeQ w Hinv c' q').
  - intros c' q' Hc'. rewrite fn_ins. destruct (decide (c = c')) as [<-|Hne]; [done|]. intros Hp Hcf.
    assert (cond w c' = false) as Hcf'.
    { destruct (cond w c') eqn:E; [|done]. by rewrite (proj2 (Hcd c')) in Hcf by by left. }
    destruct (d_wakeI w Hinv c' q' Hc' Hp Hcf') as [Htn Hb]. split; [done|].
    destruct Hb as [?|(c2 & q2 & i & Hc2 & Hp2 & Hi)]; [by left|]. right. exists c2, q2, i. simpl.
    rewrite fn_ins. destruct (decide (c = c2)) as [<-|]; [by rewrite Hpc in Hp2|done].
Qed.
End dequeue.
