(* ===== verification/DriversSafe.v ===== *)
(** * Project3/Drivers: reachable states

    The invariant holds in every reachable state; a car thread never has undefined
    behaviour and never blocks on a quadrant lock. *)

From S2P Require Import Prelude Queue Drivers DriversOps DriversInv DriversSteps.

(** What a step of car [c] may do: proceed and keep the invariant, or wait for a
    signal or for [intersectionLock]. *)
Definition step_ok (w : world) (c : Z) (r : option (outcome msg world unit)) : Prop :=
  match r with
  | Some (Done _ w' _) => dinv w'
  | Some _ => False
  | None =>
      (sleeping (pc w c) = true ∧ cond w c = false) ∨
      ((∃ q, pc w c = PApproach q ∨ pc w c = PIn q) ∧ is_Some (intersectionLock w))
  end.

Section steps.
Context (w : world) (c : Z).
Hypothesis Hinv : dinv w.
Hypothesis Hc : car c.

Lemma cond_false : sleeping (pc w c) = false → cond w c = false.
Proof using Hinv Hc.
  intros Hs. destruct (cond w c) eqn:E; [|done]. apply (d_cond w Hinv c Hc) in E. congruence.
Qed.

(** The lock is where it was when neither point holds it. *)
Lemma ilock_kept p' : holds_lock (pc w c) = false → holds_lock p' = false → ∀ c', car c' →
  intersectionLock w = Some c' ↔ holds_lock (if decide (c = c') then p' else pc w c') = true.
Proof using Hinv Hc.
  intros H H' c' Hc'. rewrite (d_ilock w Hinv c' Hc').
  destruct (decide (c = c')) as [<-|]; [by rewrite H, H'|done].
Qed.

(** Taking the free lock. *)
Lemma ilock_taken p' : intersectionLock w = None → holds_lock p' = true → ∀ c', car c' →
  Some c = Some c' ↔ holds_lock (if decide (c = c') then p' else pc w c') = true.
Proof using Hinv Hc.
  intros H H' c' Hc'. destruct (decide (c = c')) as [<-|Hne]; [done|].
  rewrite <-(d_ilock w Hinv c' Hc'), H. split; [congruence|done].
Qed.

(** Giving it back. *)
Lemma ilock_dropped p' : holds_lock (pc w c) = true → holds_lock p' = false → ∀ c', car c' →
  None = Some c' ↔ holds_lock (if decide (c = c') then p' else pc w c') = true.
Proof using Hinv Hc.
  intros H H' c' Hc'. split; [done|]. destruct (decide (c = c')) as [<-|Hne]; [by rewrite H'|].
  intros Hl. by destruct Hne; apply (holder_unique w Hinv).
Qed.

Lemma front_head q : at_queue (pc w c) = Some q → front (pc w c) = true → queue w q = Some c.
Proof using Hinv Hc. intros. apply (d_head w Hinv c q Hc); auto. Qed.

Lemma check_step q rq rt : pc w c = PCheck q → step_ok w c (car_step c rq rt w).
Proof using Hinv Hc.
  intros Hpc. unfold car_step, wait_for_queue. rewrite Hpc. pose proof (d_pcs w Hinv c Hc) as Hok.
  pose proof (d_turn w Hinv c Hc) as Ht. pose proof cond_false as Hcf. rewrite Hpc in Hok, Ht, Hcf. simpl in *.
  destruct (decide (queue w q = Some c)) as [Hh|Hh]; simpl.
  - refine (repoint w _ c q (PApproach q) Hinv Hc _ eq_refl _ _ _ _ _ _ _ _ _ _ _ _ _ _ _ _);
      simpl; try done; try (by rewrite Hpc).
    + by rewrite Hcf.
    + apply ilock_kept; [by rewrite Hpc|done].
    + apply (others_kept w _ c (PApproach q)); [done..|]. by rewrite Hpc.
  - refine (repoint w _ c q (PSleepQ q) Hinv Hc _ eq_refl _ _ _ _ _ _ _ _ _ _ _ _ _ _ _ _);
      simpl; try done; try (by rewrite Hpc).
    + apply ilock_kept; [by rewrite Hpc|done].
    + apply (others_kept w _ c (PSleepQ q)); [done..|]. by rewrite Hpc.
Qed.

Lemma sleepQ_step q rq rt : pc w c = PSleepQ q → step_ok w c (car_step c rq rt w).
Proof using Hinv Hc.
  intros Hpc. unfold car_step. rewrite Hpc. pose proof (d_pcs w Hinv c Hc) as Hok.
  pose proof (d_turn w Hinv c Hc) as Ht. rewrite Hpc in Hok, Ht. simpl in *.
  destruct (cond w c) eqn:Hcd; [|left; by rewrite Hpc]. simpl.
  refine (repoint w _ c q (PCheck q) Hinv Hc _ eq_refl _ _ _ _ _ _ _ _ _ _ _ _ _ _ _ _);
    simpl; try done; try (by rewrite Hpc).
  - intros c' Hne. by rewrite fn_lookup_insert_ne.
  - by rewrite fn_lookup_insert.
  - apply ilock_kept; [by rewrite Hpc|done].
  - apply (others_kept w _ c (PCheck q)); [done..|]. by rewrite Hpc.
Qed.

Lemma approach_step q rq rt : pc w c = PApproach q → step_ok w c (car_step c rq rt w).
Proof using Hinv Hc.
  intros Hpc. unfold car_step. rewrite Hpc. pose proof (d_pcs w Hinv c Hc) as Hok.
  pose proof (d_turn w Hinv c Hc) as Ht. pose proof cond_false as Hcf.
  pose proof (front_head q) as Hf. rewrite Hpc in Hok, Ht, Hcf, Hf. simpl in *.
  destruct (intersectionLock w) as [h|] eqn:Hl; [right; split; [eauto|by rewrite Hl]|]. simpl.
  refine (repoint w _ c q (PLoop q) Hinv Hc _ eq_refl _ _ _ _ _ _ _ _ _ _ _ _ _ _ _ _);
    simpl; try done; try (by rewrite Hpc); try (by auto).
  - by rewrite Hcf.
  - by apply ilock_taken.
  - apply (others_kept w _ c (PLoop q)); [done..|]. by rewrite Hpc.
Qed.

Lemma sleepI_step q rq rt : pc w c = PSleepI q → step_ok w c (car_step c rq rt w).
Proof using Hinv Hc.
  intros Hpc. unfold car_step. rewrite Hpc. pose proof (d_pcs w Hinv c Hc) as Hok.
  pose proof (d_turn w Hinv c Hc) as Ht. pose proof (front_head q) as Hf.
  rewrite Hpc in Hok, Ht, Hf. simpl in *.
  destruct (cond w c) eqn:Hcd; [|left; by rewrite Hpc]. simpl.
  refine (repoint w _ c q (PApproach q) Hinv Hc _ eq_refl _ _ _ _ _ _ _ _ _ _ _ _ _ _ _ _);
    simpl; try done; try (by rewrite Hpc); try (by auto).
  - intros c' Hne. by rewrite fn_lookup_insert_ne.
  - by rewrite fn_lookup_insert.
  - apply ilock_kept; [by rewrite Hpc|done].
  - apply (others_kept w _ c (PApproach q)); [done..|]. by rewrite Hpc.
Qed.

Lemma queue_step q rq rt : pc w c = PQueue q → step_ok w c (car_step c rq rt w).
Proof using Hinv Hc.
  intros Hpc. unfold car_step. rewrite Hpc. pose proof (d_pcs w Hinv c Hc) as Hok.
  rewrite Hpc in Hok. simpl in Hok.
  destruct (queue_car_spec w c q Hinv Hc Hok) as (w' & E & Hlink & Hnext & Hch); [by rewrite Hpc|].
  rewrite (bind_done _ _ _ _ _ _ _ _ _ E eq_refl). simpl. by apply (queue_step_inv w w' c q).
Qed.

Lemma in_step q rq rt : pc w c = PIn q → step_ok w c (car_step c rq rt w).
Proof using Hinv Hc.
  intros Hpc. unfold car_step. rewrite Hpc.
  destruct (intersectionLock w) as [h|] eqn:Hl; [right; split; [eauto|by rewrite Hl]|].
  erewrite bind_silent by done.
  destruct (leave_free_spec c (set_intersectionLock (Some c) w)) as (f & g & E & Hfg).
  { intros k Hk Hq. simpl in *. apply (d_lock w Hinv k c Hk). by rewrite Hpc. }
  rewrite (bind_done _ _ _ _ _ _ _ _ _ E eq_refl). simpl. by apply (out_inv w c q f g).
Qed.

Lemma dequeue_step q rq rt : pc w c = PDequeue q → step_ok w c (car_step c rq rt w).
Proof using Hinv Hc.
  intros Hpc. unfold car_step. rewrite Hpc.
  rewrite (bind_silent _ _ _ _ _ (dequeue_car_eq w c q Hinv Hc Hpc)). simpl.
  destruct (next w c) as [h|] eqn:En.
  - destruct (wake_same h (set_next c None (set_queue q (Some h) w))) as (E1 & E2 & E3 & E4 & E5 & E6 & E7).
    unfold set_pc. rewrite E1, E2, E3, E4, E5, E6, E7.
    pose proof (dequeue_inv w c q Hinv Hc Hpc) as H. rewrite En in H. apply H.
    intros x. rewrite wake_cond. simpl. case_decide; [subst|].
    + rewrite orb_true_iff. naive_solver.
    + naive_solver.
  - pose proof (dequeue_inv w c q Hinv Hc Hpc) as H. rewrite En in H. apply H. naive_solver.
Qed.

Lemma loop_step q rq rt : pc w c = PLoop q → step_ok w c (car_step c rq rt w).
Proof using Hinv Hc.
  intros Hpc. unfold car_step. rewrite Hpc. pose proof (d_pcs w Hinv c Hc) as Hok.
  pose proof (d_turn w Hinv c Hc) as Ht. pose proof (front_head q) as Hf. pose proof cond_false as Hcf.
  rewrite Hpc in Hok, Ht, Hf, Hcf. simpl in Hok, Ht, Hf, Hcf.
  destruct (wants (turn w c)) eqn:Hw.
  - apply wants_range in Hw.
    destruct (enter_inv w c q Hinv Hok (Hf eq_refl eq_refl))
      as (r & w' & o & E & Hinv' & Epc & Eq & El & _ & _ & Hr).
    destruct Hr as [[-> Hr]|[-> Htn]].
    + destruct (Hr Hw) as (Etn & Hb & Ecd). rewrite (bind_done _ _ _ _ _ _ _ _ _ E eq_refl). simpl.
      assert (cond w' c = false) as Hcf' by by rewrite Ecd, Hcf.
      refine (repoint w' _ c q (PSleepI q) Hinv' Hc _ eq_refl _ _ _ _ _ _ _ _ _ _ _ _ _ _ _ _);
        simpl; try done; try (by rewrite Epc, Hpc).
      * intros _. rewrite Eq. by apply Hf.
      * lia.
      * intros c' Hc'. rewrite Epc. by apply ilock_dropped; [rewrite Hpc|..].
      * intros _ _. split; [lia|done].
      * apply (others_kept w' _ c (PSleepI q)); [done..|]. by rewrite Epc, Hpc.
    + rewrite (bind_done _ _ _ _ _ _ _ _ _ E eq_refl). done.
  - assert (turning (turn w c)) as Htn.
    { unfold turning. destruct (decide (turn w c ≤ 2)); [|lia].
      assert (wants (turn w c) = true); [apply wants_range; lia|congruence]. }
    destruct (aquire_locks_spec c w) as (g & E & Hg).
    { intros k Hk Hq. destruct (quadrantLock w k) as [c'|] eqn:El; [|done].
      apply (d_lock w Hinv k c' Hk) in El as (_ & Hq' & Hi). rewrite Hq in Hq'. subst c'.
      by rewrite Hpc in Hi. }
    rewrite E. simpl. by apply (in_inv w c q g).
Qed.

(** Whoever sleeps unsignalled at the intersection is blocked, or this car has not
    come to its queue yet, or it is at the front of queue [i]. *)
Lemma sleeper_cases q i c' q' : pc w c = PPush q i → car c' → pc w c' = PSleepI q' → cond w c' = false →
  blocked w c' q' ∨ i + 1 ≤ q' ∨ queue w i = Some c'.
Proof using Hinv Hc.
  intros Hpc Hc' Hp Hcd. destruct (d_wakeI w Hinv c' q' Hc' Hp Hcd) as [_ [?|(c1 & q1 & j & Hc1 & Hp1 & Hj)]]; [by left|].
  right. assert (c1 = c) as ->.
  { apply (holder_unique w Hinv); [done..|by rewrite Hp1|by rewrite Hpc]. }
  rewrite Hpc in Hp1. injection Hp1 as <- <-.
  destruct (decide (i = q')) as [<-|]; [right|left; lia].
  apply (d_head w Hinv c' i Hc'); [by rewrite Hp|]. left. by rewrite Hp.
Qed.

(** The front car of queue [i], if any, tries. *)
Lemma push_queue_spec q i : pc w c = PPush q i → 0 ≤ i < 4 →
  ∃ w' o, push_queue i w = Done tt w' o ∧ dinv w' ∧ pc w' = pc w ∧ queue w' = queue w ∧
    intersectionLock w' = intersectionLock w ∧
    (∀ c' q', car c' → pc w c' = PSleepI q' → cond w' c' = false → blocked w' c' q' ∨ i + 1 ≤ q').
Proof using Hinv Hc.
  intros Hpc Hi. unfold push_queue. rewrite get_bind. destruct (queue w i) as [h|] eqn:Eh.
  - destruct (enter_inv w h i Hinv ltac:(lia) Eh)
      as (r & w' & o & E & Hinv' & Epc & Eq & El & Hsame & Hblk & _).
    exists w', (o ++ []). split; [by rewrite (bind_done _ _ _ _ _ _ _ _ _ E eq_refl)|].
    split_and!; [done..|]. intros c' q' Hc' Hp Hcd.
    destruct (decide (c' = h)) as [->|Hne]; [left; apply Hblk; auto|].
    destruct (Hsame c' Hne) as [_ Ecd]. pose proof Hcd as Hcd'. rewrite Ecd in Hcd'.
    destruct (sleeper_cases q i c' q' Hpc Hc' Hp Hcd') as [?|[?|?]]; [left; apply Hblk; auto|by right|congruence].
  - exists w, []. split; [done|]. split_and!; [done..|]. intros c' q' Hc' Hp Hcd.
    destruct (sleeper_cases q i c' q' Hpc Hc' Hp Hcd) as [?|[?|?]]; [by left|by right|congruence].
Qed.

Lemma push_step q i rq rt : pc w c = PPush q i → step_ok w c (car_step c rq rt w).
Proof using Hinv Hc.
  intros Hpc. unfold car_step. rewrite Hpc. pose proof (d_pcs w Hinv c Hc) as Hok.
  pose proof (d_turn w Hinv c Hc) as Ht. pose proof (front_head q) as Hf. pose proof cond_false as Hcf.
  rewrite Hpc in Hok, Ht, Hf, Hcf. simpl in Hok, Ht, Hf, Hcf. destruct (Z.ltb_spec i 4) as [Hi|Hi].
  - destruct (push_queue_spec q i Hpc) as (w' & o & E & Hinv' & Epc & Eq & El & Hoth); [lia|].
    rewrite (bind_done _ _ _ _ _ _ _ _ _ E eq_refl). simpl.
    pose proof (d_turn w' Hinv' c Hc) as Ht'. rewrite Epc, Hpc in Ht'. simpl in Ht'.
    refine (repoint w' _ c q (PPush q (i + 1)) Hinv' Hc _ eq_refl _ _ _ _ _ _ _ _ _ _ _ _ _ _ _ _);
      simpl; try done; try (by rewrite Epc, Hpc).
    + intros Hcd. apply (d_cond w' Hinv' c Hc) in Hcd. by rewrite Epc, Hpc in Hcd.
    + lia.
    + intros _. rewrite Eq. by apply Hf.
    + intros c' Hc'. rewrite (d_ilock w' Hinv' c' Hc').
      destruct (decide (c = c')) as [<-|]; [by rewrite Epc, Hpc|done].
    + intros c' q' Hne Hc' Hp Hcd. rewrite Epc in Hp.
      destruct (Hoth c' q' Hc' Hp Hcd) as [?|?]; [by left|]. right. exists c, q, (i + 1). simpl.
      by rewrite fn_lookup_insert.
  - simpl. refine (repoint w _ c q (PDequeue q) Hinv Hc _ eq_refl _ _ _ _ _ _ _ _ _ _ _ _ _ _ _ _);
      simpl; try done; try (by rewrite Hpc); try lia; try (by auto).
    + by rewrite Hcf.
    + by apply ilock_dropped; [rewrite Hpc|].
    + apply (others_kept w _ c (PDequeue q)); [done..|]. rewrite Hpc. intros ? ? [= <- <-]. lia.
Qed.

Lemma car_step_ok rq rt : step_ok w c (car_step c rq rt w).
Proof using Hinv Hc.
  destruct (pc w c) as [|q|q|q|q|q|q|q|q i|q] eqn:Hpc.
  - unfold car_step. rewrite Hpc. simpl. by apply top_inv.
  - by eapply queue_step.
  - by eapply check_step.
  - by eapply sleepQ_step.
  - by eapply approach_step.
  - by eapply loop_step.
  - by eapply sleepI_step.
  - by eapply in_step.
  - by eapply push_step.
  - by eapply dequeue_step.
Qed.
End steps.

Lemma spurious_inv w c w' : dinv w → car c → spurious_wakeup c w = Some w' → dinv w'.
Proof.
  intros Hinv Hc. unfold spurious_wakeup. destruct (sleeping (pc w c)) eqn:Hs; [|done]. intros [= <-].
  pose proof (wake_inv c w Hinv) as H. unfold wake in H. by rewrite Hs in H.
Qed.

Lemma main_inv w : dinv w → intersectionLock w = Some MAIN → dinv (set_intersectionLock None w).
Proof.
  intros Hinv Hl. split; simpl; try by apply Hinv.
  intros c Hc. rewrite <-(d_ilock w Hinv c Hc), Hl. split; [done|]. intros [=]. unfold car, MAIN in *. lia.
Qed.

Lemma step_dinv w w' : dinv w → step w w' → dinv w'.
Proof.
  intros Hinv Hstep. revert Hinv. destruct Hstep as [c rq rt w0 w1 o Hc E|c w0 w1 Hc E|w0 E]; intros Hinv.
  - pose proof (car_step_ok w0 c Hinv Hc rq rt) as H. by rewrite E in H.
  - by eapply spurious_inv.
  - by apply main_inv.
Qed.

Lemma reachable_dinv w : reachable w → dinv w.
Proof.
  unfold reachable. intros H. remember initial as w0 eqn:E. assert (dinv w0) as H0 by (rewrite E; apply initial_dinv).
  clear E. induction H as [|w0 w1 w2 H1 _ IH]; [done|]. apply IH. by eapply step_dinv.
Qed.
