(* ===== verification/DriversProps.v ===== *)
(** * Project3/Drivers: the properties of the intersection *)

From S2P Require Import Prelude Queue Drivers DriversOps DriversInv DriversSteps DriversSafe.

(** ** Who can hold [intersectionLock] *)

Lemma step_lock w c rq rt w' o : dinv w → car c → car_step c rq rt w = Some (Done tt w' o) →
  intersectionLock w' = intersectionLock w ∨ intersectionLock w' = None ∨ intersectionLock w' = Some c.
Proof.
  intros Hinv Hc. pose proof (d_pcs w Hinv c Hc) as Hok. unfold car_step.
  destruct (pc w c) as [|q|q|q|q|q|q|q|q i|q] eqn:Hpc; simpl in Hok.
  - intros [= <- <-]. by left.
  - destruct (queue_car_spec w c q Hinv Hc Hok) as (w1 & E & Hlink & _); [by rewrite Hpc|].
    rewrite (bind_done _ _ _ _ _ _ _ _ _ E eq_refl). intros [= <- <-]. left. apply Hlink.
  - unfold wait_for_queue. case_decide; intros [= <- <-]; by left.
  - case_match; [|done]. intros [= <- <-]. by left.
  - case_match; [done|]. intros [= <- <-]. right. by right.
  - assert (queue w q = Some c) as Hh by (apply (front_head w c Hinv Hc); by rewrite Hpc).
    case_match.
    + destruct (enter_inv w c q Hinv Hok Hh) as (r & w1 & o1 & E & _ & _ & _ & El & _).
      unfold mbind, M_bind. rewrite E. destruct (r =? 0); intros [= <- <-]; [right; by left|by left].
    + case_match; [|done..]. case_match; [|done]. intros [= <- <-]. right. by left.
  - case_match; [|done]. intros [= <- <-]. by left.
  - case_match; [done|]. erewrite bind_silent by done.
    destruct (leave_free_spec c (set_intersectionLock (Some c) w)) as (f & g & E & _).
    { intros k Hk Hq. simpl in *. apply (d_lock w Hinv k c Hk). by rewrite Hpc. }
    rewrite (bind_done _ _ _ _ _ _ _ _ _ E eq_refl). intros [= <- <-]. right. by right.
  - destruct (Z.ltb_spec i 4); [|intros [= <- <-]; right; by left].
    unfold push_queue. destruct (queue w i) as [h|] eqn:Hh.
    + destruct (enter_inv w h i Hinv ltac:(lia) Hh) as (r & w1 & o1 & E & _ & _ & _ & El & _).
      unfold mbind, M_bind, get, reads. rewrite Hh, E. intros [= <- <-]. by left.
    + unfold mbind, M_bind, get, reads. rewrite Hh. intros [= <- <-]. by left.
  - rewrite (bind_silent _ _ _ _ _ (dequeue_car_eq w c q Hinv Hc Hpc)). intros [= <- <-]. left. simpl.
    destruct (next w c) as [h|]; [|done].
    by destruct (wake_same h (set_next c None (set_queue q (Some h) w))) as (_ & _ & _ & _ & _ & _ & ->).
Qed.

Lemma reachable_lock w : reachable w → ∀ h, intersectionLock w = Some h → car h ∨ h = MAIN.
Proof.
  revert w. apply (rtc_ind_r (λ w, ∀ h, intersectionLock w = Some h → car h ∨ h = MAIN)).
  { simpl. intros h [= <-]. by right. }
  intros w w' Hr Hstep IH. pose proof (reachable_dinv w Hr) as Hinv. revert Hinv IH.
  destruct Hstep as [c rq rt w w' o Hc E|c w w' Hc E|w E]; intros Hinv IH.
  - intros h Hh. destruct (step_lock w c rq rt w' o Hinv Hc E) as [El|[El|El]]; rewrite El in Hh.
    + by apply IH.
    + done.
    + injection Hh as <-. by left.
  - unfold spurious_wakeup in E. case_match; [|done]. by injection E as <-.
  - done.
Qed.

(** ** Properties *)

(** C2. No collision: in every reachable state each car in the intersection holds the
    locks of exactly the quadrants of its path, so the paths of two cars that are
    inside at the same time have no quadrant in common. *)
Theorem drivers_no_collision (w : world) (c c' q q' : Z) :
  reachable w → car c → car c' → c ≠ c' → pc w c = PIn q → pc w c' = PIn q' →
  (∀ k, 0 ≤ k < 4 → quadrantLock w k = Some c ↔ k ∈ path q (turn w c)) ∧
  (∀ k, k ∈ path q (turn w c) → k ∉ path q' (turn w c')).
Proof.
  intros Hr Hc Hc' Hne Hp Hp'. pose proof (reachable_dinv w Hr) as Hinv.
  assert (∀ d e k, car d → pc w d = PIn e → 0 ≤ k < 4 → quadrant w k = d ↔ k ∈ path e (turn w d)) as Hown.
  { intros d e k Hd Hpd Hk. rewrite (d_claim w Hinv d k Hd Hk). pose proof (d_turn w Hinv d Hd) as Ht.
    rewrite Hpd in *. simpl in *. split; [by intros (? & [= <-] & _ & ?)|eauto]. }
  split.
  - intros k Hk. rewrite (d_lock w Hinv k c Hk), <-(Hown c q k Hc Hp Hk), Hp. naive_solver.
  - intros k Hk Hk'. pose proof (path_range _ _ _ Hk) as Hr4.
    apply (Hown c q k Hc Hp Hr4) in Hk. apply (Hown c' q' k Hc' Hp' Hr4) in Hk'. congruence.
Qed.

(** Running a schedule of threads (with the numbers [rand()] gives them). *)
Definition run_schedule (l : list (Z * Z * Z)) (w : world) : world :=
  foldl (λ w '(c, rq, rt), match car_step c rq rt w with Some (Done _ w' _) => w' | _ => w end) w l.

Lemma run_schedule_reachable l w : Forall (λ '(c, _, _), car c) l → reachable w → reachable (run_schedule l w).
Proof.
  unfold run_schedule. revert w. induction l as [|[[c rq] rt] l IH]; intros w Hl Hr; [done|].
  apply Forall_cons in Hl as [Hc Hl]. simpl. apply IH; [done|].
  destruct (car_step c rq rt w) as [[[] w' o| |]|] eqn:E; [|done..].
  eapply rtc_r; [exact Hr|]. by eapply S_car.
Qed.

(** Two cars cross at once: from the north and from the south, both going right. *)
Definition crossing : world :=
  run_schedule (replicate 6 (0, 0, 2) ++ replicate 6 (1, 1, 2)) (set_intersectionLock None initial).

Lemma crossing_reachable : reachable crossing.
Proof.
  apply run_schedule_reachable.
  - repeat constructor; unfold car, NUM_CARS; lia.
  - eapply rtc_once, S_main. done.
Qed.

Lemma drivers_no_collision_witness :
  (∀ k, 0 ≤ k < 4 → quadrantLock crossing k = Some 0 ↔ k ∈ path 0 (turn crossing 0)) ∧
  (∀ k, k ∈ path 0 (turn crossing 0) → k ∉ path 1 (turn crossing 1)).
Proof.
  apply (drivers_no_collision crossing 0 1 0 1); [apply crossing_reachable| | |done|by vm_compute..];
    unfold car, NUM_CARS; lia.
Defined.

(** ** Progress *)

Section progress.
Context (w : world) (rq rt : Z).
Hypothesis Hinv : dinv w.

Definition can_step (c : Z) : Prop := ∃ w' o, car_step c rq rt w = Some (Done tt w' o).

Lemma step_cases c : car c →
  can_step c ∨ (sleeping (pc w c) = true ∧ cond w c = false) ∨
  ((∃ q, pc w c = PApproach q ∨ pc w c = PIn q) ∧ is_Some (intersectionLock w)).
Proof using Hinv.
  intros Hc. pose proof (car_step_ok w c Hinv Hc rq rt) as H. unfold step_ok in H.
  destruct (car_step c rq rt w) as [[[] w' o| |]|] eqn:E; [left; by exists w', o|done..|by right].
Qed.

Lemma holder_steps h : car h → intersectionLock w = Some h → can_step h.
Proof using Hinv.
  intros Hh Hl. destruct (step_cases h Hh) as [?|Hno]; [done|]. exfalso.
  apply (d_ilock w Hinv h Hh) in Hl. destruct Hno as [[Hs _]|[(q & [E|E]) _]].
  - by destruct (pc w h).
  - by rewrite E in Hl.
  - by rewrite E in Hl.
Qed.

Hypothesis Hl : intersectionLock w = None.

Lemma step_or_sleep c : car c → can_step c ∨ (sleeping (pc w c) = true ∧ cond w c = false).
Proof using Hinv Hl.
  intros Hc. destruct (step_cases c Hc) as [?|[?|[_ [? ?]]]]; [by left|by right|congruence].
Qed.

(** The front car of a queue is not asleep unsignalled in the queue. *)
Lemma front_steps c q : car c → at_queue (pc w c) = Some q → queue w q = Some c →
  can_step c ∨ (pc w c = PSleepI q ∧ cond w c = false).
Proof using Hinv Hl.
  intros Hc Hq Hh. destruct (step_or_sleep c Hc) as [?|[Hs Hcd]]; [by left|].
  destruct (pc w c) as [| | |q'| | |q'| | |] eqn:Hp; try done; injection Hq as ->; [|by right].
  by rewrite (d_wakeQ w Hinv c q Hc Hp Hh) in Hcd.
Qed.

Lemma turning_steps c q : car c → at_queue (pc w c) = Some q → turning (turn w c) → can_step c.
Proof using Hinv Hl.
  intros Hc Hq Ht. assert (queue w q = Some c) as Hh by (apply (d_head w Hinv); auto).
  destruct (front_steps c q Hc Hq Hh) as [?|[Hp Hcd]]; [done|].
  destruct (d_wakeI w Hinv c q Hc Hp Hcd) as [Ht' _]. unfold turning in Ht. lia.
Qed.

(** Who sleeps at the intersection is blocked by a turning car. *)
Lemma sleeper_blocked c q : car c → pc w c = PSleepI q → ∃ c', car c' ∧ can_step c'.
Proof using Hinv Hl.
  intros Hc Hp. destruct (step_or_sleep c Hc) as [?|[Hs Hcd]]; [eauto|].
  destruct (d_wakeI w Hinv c q Hc Hp Hcd) as [_ [(k & Hk & Ho)|(c1 & q1 & i & Hc1 & Hp1 & _)]].
  - pose proof (path_range _ _ _ Hk) as Hk4.
    destruct (d_quad w Hinv k Hk4) as [?|Hcar]; [done|].
    destruct (proj1 (d_claim w Hinv _ k Hcar Hk4) eq_refl) as (q' & Hq' & Ht & _).
    eauto using turning_steps.
  - pose proof (d_ilock w Hinv c1 Hc1) as H. rewrite Hp1, Hl in H. naive_solver.
Qed.

Lemma somebody_steps c : car c → ∃ c', car c' ∧ can_step c'.
Proof using Hinv Hl.
  intros Hc. destruct (step_or_sleep c Hc) as [?|[Hs Hcd]]; [eauto|].
  destruct (pc w c) as [| | |q| | |q| | |] eqn:Hp; try done; [|by eapply sleeper_blocked].
  assert (0 ≤ q < 4) as Hq by (pose proof (d_pcs w Hinv c Hc) as Hok; by rewrite Hp in Hok).
  destruct (d_queue w Hinv q Hq) as (l & Hch & _ & Hin).
  assert (c ∈ l) as Hcl by (apply Hin; by rewrite Hp).
  destruct l as [|h l]; [by apply elem_of_nil in Hcl|]. destruct Hch as [Hh _].
  assert (h ∈ h :: l) as [Hch Hqh]%Hin by left.
  destruct (front_steps h q Hch Hqh Hh) as [?|[Hph _]]; eauto using sleeper_blocked.
Qed.
End progress.

(** C8. Deadlock freedom: in every reachable state [main] can release its lock or some
    car thread can take its next step, without the help of a spurious wake-up. *)
Theorem drivers_deadlock_free (w : world) (rq rt : Z) :
  reachable w →
  intersectionLock w = Some MAIN ∨
  ∃ c w' o, car c ∧ car_step c rq rt w = Some (Done tt w' o).
Proof.
  intros Hr. pose proof (reachable_dinv w Hr) as Hinv.
  destruct (intersectionLock w) as [h|] eqn:Hl.
  - destruct (reachable_lock w Hr h Hl) as [Hh| ->]; [right|by left].
    destruct (holder_steps w rq rt Hinv h Hh Hl) as (w' & o & E). eauto.
  - right. assert (car 0) as H0 by (unfold car, NUM_CARS; lia).
    destruct (somebody_steps w rq rt Hinv Hl 0 H0) as (c & Hc & w' & o & E). eauto.
Qed.

Lemma drivers_deadlock_free_witness :
  intersectionLock crossing = Some MAIN ∨
  ∃ c w' o, car c ∧ car_step c 0 0 crossing = Some (Done tt w' o).
Proof. apply (drivers_deadlock_free crossing 0 0), crossing_reachable. Defined.

(** C28. No undefined behaviour and no hidden waiting: a step of a car thread never
    dereferences [NULL], never unlocks a quadrant lock it does not hold, never blocks
    in [aquire_locks]; it proceeds to a state of the invariant, or it sleeps
    unsignalled, or it waits for [intersectionLock]. *)
Theorem drivers_steps_safe (w : world) (c rq rt : Z) :
  reachable w → car c → step_ok w c (car_step c rq rt w).
Proof. intros Hr Hc. by apply car_step_ok; [apply reachable_dinv|]. Qed.

Lemma drivers_steps_safe_witness : step_ok crossing 1 (car_step 1 0 0 crossing).
Proof.
  apply (drivers_steps_safe crossing 1 0 0); [apply crossing_reachable|]. unfold car, NUM_CARS. lia.
Defined.

(** C21. No lost wake-up: a car that sleeps unsignalled at the intersection still wants to
    turn, and either one of its quadrants is taken by a car that is turning or a
    leaving car has yet to try its queue; a car that sleeps unsignalled in a queue is
    not at its front. *)
Theorem drivers_no_lost_wakeup (w : world) (c : Z) :
  reachable w → car c → cond w c = false →
  (∀ q, pc w c = PSleepI q → wants (turn w c) = true ∧
    ((∃ k c', k ∈ path q (turn w c) ∧ quadrant w k = c' ∧ car c' ∧ c' ≠ c ∧ turning (turn w c')) ∨
     pending w q)) ∧
  (∀ q, pc w c = PSleepQ q → queue w q ≠ Some c).
Proof.
  intros Hr Hc Hcd. pose proof (reachable_dinv w Hr) as Hinv. split.
  - intros q Hp. destruct (d_wakeI w Hinv c q Hc Hp Hcd) as [Ht Hb]. split; [by apply wants_range|].
    destruct Hb as [(k & Hk & Ho)|?]; [left|by right]. pose proof (path_range _ _ _ Hk) as Hk4.
    destruct (d_quad w Hinv k Hk4) as [?|Hcar]; [done|]. exists k, (quadrant w k).
    destruct (proj1 (d_claim w Hinv _ k Hcar Hk4) eq_refl) as (q' & _ & Htn & _).
    split_and!; try done. intros E. rewrite E in Htn. unfold turning in Htn. lia.
  - intros q Hp Hh. by rewrite (d_wakeQ w Hinv c q Hc Hp Hh) in Hcd.
Qed.

(** A third car, from the north behind car 0, sleeps in its queue; a fourth, from the
    west going left, sleeps at the intersection. *)
Definition waiting : world :=
  run_schedule (replicate 3 (2, 0, 1) ++ replicate 6 (3, 3, 0)) crossing.

Lemma waiting_reachable : reachable waiting.
Proof.
  apply run_schedule_reachable; [|apply crossing_reachable].
  repeat constructor; unfold car, NUM_CARS; lia.
Qed.

Lemma drivers_no_lost_wakeup_witness :
  pc waiting 3 = PSleepI 3 ∧
  (∀ q, pc waiting 3 = PSleepI q → wants (turn waiting 3) = true ∧
    ((∃ k c', k ∈ path q (turn waiting 3) ∧ quadrant waiting k = c' ∧ car c' ∧ c' ≠ 3 ∧
       turning (turn waiting c')) ∨ pending waiting q)) ∧
  (∀ q, pc waiting 3 = PSleepQ q → queue waiting q ≠ Some 3).
Proof.
  split; [by vm_compute|].
  apply (drivers_no_lost_wakeup waiting 3); [apply waiting_reachable| |by vm_compute].
  unfold car, NUM_CARS. lia.
Defined.

(** Queue discipline: the links of every queue form a list without repetition of
    exactly the cars that wait or cross from that side, and only its front car turns
    or is past [wait_for_queue]. *)
Theorem drivers_queues (w : world) (q : Z) :
  reachable w → 0 ≤ q < 4 →
  ∃ l, chain (next w) (queue w q) l ∧ NoDup l ∧
    (∀ c, c ∈ l ↔ car c ∧ at_queue (pc w c) = Some q) ∧
    (∀ c, c ∈ l → front (pc w c) = true ∨ turning (turn w c) → head l = Some c).
Proof.
  intros Hr Hq. pose proof (reachable_dinv w Hr) as Hinv.
  destruct (d_queue w Hinv q Hq) as (l & Hl & Hnd & Hin). exists l. split_and!; [done..|].
  intros c [Hc Haq]%Hin Hf. rewrite <-(chain_head _ _ _ Hl). by apply (d_head w Hinv).
Qed.

Lemma drivers_queues_witness :
  ∃ l, chain (next waiting) (queue waiting 0) l ∧ NoDup l ∧
    (∀ c, c ∈ l ↔ car c ∧ at_queue (pc waiting c) = Some 0) ∧
    (∀ c, c ∈ l → front (pc waiting c) = true ∨ turning (turn waiting c) → head l = Some c).
Proof. apply (drivers_queues waiting 0); [apply waiting_reachable|lia]. Defined.

(** C29. All or nothing: [enter_intersection] for a car that wants to turn and owns no
    quadrant claims exactly the quadrants of its path when all are free, and otherwise
    returns 0 and leaves every quadrant as it was. *)
Theorem drivers_enter_all_or_nothing (w : world) (c q : Z) :
  c ≠ -1 → 0 ≤ q < 4 → wants (turn w c) = true → (∀ k, 0 ≤ k < 4 → quadrant w k ≠ c) →
  ∃ r w' o, enter_intersection c q w = Done r w' o ∧
    ((∀ k, k ∈ path q (turn w c) → quadrant w k = -1) ∧ r = 1 ∧ turn w' c = turn w c + 3 ∧
       (∀ k, quadrant w' k = if decide (k ∈ path q (turn w c)) then c else quadrant w k) ∨
     (∃ k, k ∈ path q (turn w c) ∧ quadrant w k ≠ -1) ∧ r = 0 ∧ turn w' c = turn w c ∧
       (∀ k, 0 ≤ k < 4 → quadrant w' k = quadrant w k)).
Proof.
  intros Hc Hq Hw Hno. destruct (enter_wanting w c q Hc Hq Hw Hno) as (r & w' & o & E & Hres).
  exists r, w', o. split; [done|]. destruct Hres as [f k Hf Hk Ho|f Hf Hfree].
  - right. split_and!; [by exists k|done..].
  - left. destruct (wake_same c (set_turn c (turn w c + 3) (with_quadrant f w)))
      as (E1 & _ & _ & _ & E5 & _ & _). rewrite E1, E5. simpl. rewrite fn_lookup_insert. done.
Qed.

Lemma drivers_enter_all_or_nothing_witness :
  ∃ r w' o, enter_intersection 3 3 waiting = Done r w' o ∧
    ((∀ k, k ∈ path 3 (turn waiting 3) → quadrant waiting k = -1) ∧ r = 1 ∧
       turn w' 3 = turn waiting 3 + 3 ∧
       (∀ k, quadrant w' k = if decide (k ∈ path 3 (turn waiting 3)) then 3 else quadrant waiting k) ∨
     (∃ k, k ∈ path 3 (turn waiting 3) ∧ quadrant waiting k ≠ -1) ∧ r = 0 ∧
       turn w' 3 = turn waiting 3 ∧ (∀ k, 0 ≤ k < 4 → quadrant w' k = quadrant waiting k)).
Proof.
  apply (drivers_enter_all_or_nothing waiting 3 3); [done|lia|by vm_compute|].
  intros k Hk. assert (k = 0 ∨ k = 1 ∨ k = 2 ∨ k = 3) as [->|[->|[->| ->]]] by lia; by vm_compute.
Defined.

(** A car already turning is announced again: when another car leaves and tries
    the queues, [enter_intersection] for the car that is crossing returns 1 and prints
    that it has entered a second time. *)
Theorem drivers_entered_twice (w : world) (c q : Z) :
  reachable w → car c → at_queue (pc w c) = Some q → turning (turn w c) →
  enter_intersection c q w = Done 1 (wake c w) [Entered c q (turn w c)] ∧ queue w q = Some c.
Proof.
  intros Hr Hc Hq Ht. split; [by apply enter_turning|].
  apply (d_head w (reachable_dinv w Hr) c q Hc Hq). by right.
Qed.

Lemma drivers_entered_twice_witness :
  enter_intersection 0 0 crossing = Done 1 (wake 0 crossing) [Entered 0 0 (turn crossing 0)] ∧
  queue crossing 0 = Some 0.
Proof.
  apply (drivers_entered_twice crossing 0 0); [apply crossing_reachable| |by vm_compute|].
  - unfold car, NUM_CARS. lia.
  - by vm_compute.
Defined.

(** The time in the intersection is proportional to the path: [num_quadrants] is the
    number of quadrants claimed for the turn. *)
Theorem drivers_num_quadrants (q t : Z) :
  0 ≤ q < 4 → 0 ≤ t ≤ 5 → num_quadrants t = Z.of_nat (length (path q t)).
Proof.
  intros Hq Ht. assert (t = 0 ∨ t = 1 ∨ t = 2 ∨ t = 3 ∨ t = 4 ∨ t = 5)
    as [->|[->|[->|[->|[->| ->]]]]] by lia;
    (assert (q = 0 ∨ q = 1 ∨ q = 2 ∨ q = 3) as [->|[->|[->| ->]]] by lia); done.
Qed.

Lemma drivers_num_quadrants_witness : num_quadrants 3 = Z.of_nat (length (path 2 3)).
Proof. apply (drivers_num_quadrants 2 3); lia. Defined.

(** A lock of another thread makes the loop unlock a mutex that is not its own. *)
Lemma queuestate_foreign me i h l (locks : Z → option Z) : h ≠ me → NoDup l → i ∈ l →
  locks i = Some h → queuestate_loop me l locks = None.
Proof.
  intros Hne. revert locks. induction l as [|j l IH]; intros locks Hnd Hin Hl; [by apply elem_of_nil in Hin|].
  apply NoDup_cons in Hnd as [Hj Hnd]. cbn [queuestate_loop].
  apply elem_of_cons in Hin as [->|Hin].
  - rewrite Hl. by rewrite decide_False.
  - assert (i ≠ j) by (by intros ->).
    destruct (locks j) as [h'|]; [destruct (decide (h' = me)); [|done]|]; cbn;
      by rewrite IH by (try done; by rewrite fn_lookup_insert_ne by done).
Qed.

(** [queuestate] reports the queue locks the wrong way round and does not leave
    them alone: called while no queue is in use it answers that all of them are
    locked, and from then on the caller holds all four; called while another thread
    uses a queue it unlocks that thread's mutex, which is undefined. *)
Theorem drivers_queuestate_inverted (me : Z) (locks : Z → option Z) :
  ((∀ i, 0 ≤ i < 4 → locks i = None) →
    ∃ locks', queuestate me locks = Some ("1,1,1,1", locks') ∧ ∀ i, 0 ≤ i < 4 → locks' i = Some me) ∧
  (∀ i h, 0 ≤ i < 4 → locks i = Some h → h ≠ me → queuestate me locks = None).
Proof.
  unfold queuestate. change (seqZ 0 4) with [0; 1; 2; 3]. split.
  - intros H. cbn [queuestate_loop]. rewrite (H 0) by lia. cbn.
    rewrite !fn_lookup_insert_ne, (H 1) by lia. cbn. rewrite !fn_lookup_insert_ne, (H 2) by lia. cbn.
    rewrite !fn_lookup_insert_ne, (H 3) by lia. cbn.
    eexists. split; [reflexivity|]. intros i Hi. rewrite !fn_ins. repeat case_decide; lia || done.
  - intros i h Hi Hl Hne. change [0; 1; 2; 3] with (seqZ 0 4).
    by rewrite (queuestate_foreign me i h _ locks Hne (NoDup_seqZ _ _)) by (done || by apply elem_of_four).
Qed.

Lemma drivers_queuestate_inverted_witness :
  (∃ locks', queuestate 5 (λ _, None) = Some ("1,1,1,1", locks') ∧ locks' 2 = Some 5) ∧
  queuestate 5 (<[1 := Some 7]> (λ _, None)) = None.
Proof.
  split.
  - destruct (proj1 (drivers_queuestate_inverted 5 (λ _, None)) (λ _ _, eq_refl)) as (l & ? & H).
    exists l. split; [done|]. apply H. lia.
  - by apply (proj2 (drivers_queuestate_inverted 5 (<[1 := Some 7]> (λ _, None))) 1 7).
Defined.
