(* ===== verification/DriversEq.v ===== *)
(** * Project3/Drivers: worlds with the same contents

    The arrays and the cars' fields are functions, so two worlds are taken as the same
    when they agree at every index.  Every operation respects this, and worlds that can
    be reached differ at the indices of cars and arrays only, which makes it decidable
    for them. *)

From S2P Require Import Prelude Queue Drivers DriversOps DriversInv DriversSteps DriversSafe.

Record same (w w' : world) : Prop := mkSame {
  same_turn : ∀ c, turn w c = turn w' c;
  same_next : ∀ c, next w c = next w' c;
  same_cond : ∀ c, cond w c = cond w' c;
  same_pc : ∀ c, pc w c = pc w' c;
  same_queue : ∀ q, queue w q = queue w' q;
  same_quadrant : ∀ k, quadrant w k = quadrant w' k;
  same_quadrantLock : ∀ k, quadrantLock w k = quadrantLock w' k;
  same_lock : intersectionLock w = intersectionLock w';
}.

#[global] Instance world_equiv : Equiv world := same.

#[global] Instance world_equivalence : Equivalence (≡@{world}).
Proof.
  split.
  - by intros w.
  - intros w w' H. split; intros; symmetry; apply H.
  - intros w1 w2 w3 H H'. split; intros; (etrans; [apply H|apply H']).
Qed.

(** Results with the same value, the same output and the same world. *)
Inductive same_outcome {A} : outcome msg world A → outcome msg world A → Prop :=
  | same_Done a w w' o : w ≡ w' → same_outcome (Done a w o) (Done a w' o)
  | same_Undef : same_outcome Undef Undef
  | same_NoFuel : same_outcome NoFuel NoFuel.

(** Code that does not tell such worlds apart. *)
Definition respects {A} (m : prog A) : Prop := Proper ((≡) ==> same_outcome) m.

Lemma respects_ret {A} (a : A) : respects (mret a).
Proof. intros w w' H. by constructor. Qed.
Lemma respects_emit e : respects (emit e).
Proof. intros w w' H. by constructor. Qed.
Lemma respects_undefined {A} : respects (undefined : prog A).
Proof. intros w w' H. constructor. Qed.

Lemma respects_reads {A} (f : world → option A) : Proper ((≡) ==> (=)) f → respects (reads f).
Proof. intros Hf w w' H. unfold reads. rewrite (Hf w w' H). case_match; by constructor. Qed.

Lemma respects_get {A} (f : world → A) : (∀ w w', w ≡ w' → f w = f w') → respects (get f).
Proof. intros Hf. apply respects_reads. intros w w' H. by rewrite (Hf w w' H). Qed.

Lemma respects_put (f : world → world) : Proper ((≡) ==> (≡)) f → respects (put f).
Proof. intros Hf w w' H. unfold put, modifies. constructor. by apply Hf. Qed.

Lemma respects_bind {A B} (m : prog A) (k : A → prog B) : respects m → (∀ a, respects (k a)) → respects (m ≫= k).
Proof.
  intros Hm Hk w w' H. unfold mbind, M_bind. destruct (Hm w w' H) as [a w1 w1' o H1| |]; [|constructor..].
  destruct (Hk a w1 w1' H1); by constructor.
Qed.

Lemma respects_for_do (l : list Z) body : (∀ i, respects (body i)) → respects (for_do l body).
Proof. intros Hb. induction l as [|i l IH]; [apply respects_ret|]. by apply respects_bind. Qed.

Create HintDb same discriminated.
#[export] Hint Resolve respects_ret respects_emit respects_undefined respects_for_do : same.

(** Assignments, reads and control flow. *)
Ltac same_insert :=
  let v := fresh "v" in let v' := fresh "v" in let Hv := fresh "Hv" in
  intros v v' Hv; split; intros; cbn; rewrite ?fn_ins; try case_decide; try done; apply Hv.
Ltac solve_respects :=
  repeat match goal with
  | |- respects (mbind _ _) => apply respects_bind
  | |- respects (get _) => apply respects_get; let H := fresh in intros ? ? H; first [done|apply H]
  | |- respects (put (set_turn _ _)) => apply respects_put; same_insert
  | |- respects (put (set_next _ _)) => apply respects_put; same_insert
  | |- respects (put (set_cond _ _)) => apply respects_put; same_insert
  | |- respects (put (set_pc _ _)) => apply respects_put; same_insert
  | |- respects (put (set_queue _ _)) => apply respects_put; same_insert
  | |- respects (put (set_quadrant _ _)) => apply respects_put; same_insert
  | |- respects (put (set_quadrantLock _ _)) => apply respects_put; same_insert
  | |- respects (put (set_intersectionLock _)) => apply respects_put; same_insert
  | |- respects (match ?x with _ => _ end) => destruct x
  | |- ∀ _, respects _ => intros ?
  | |- respects _ => solve [auto with same]
  end.

(** ** The operations *)

Lemma crawl_ext fuel (f g : Z → option Z) c : (∀ x, f x = g x) → crawl fuel f c = crawl fuel g c.
Proof. intros H. revert c. induction fuel as [|n IH]; intros c; [done|]. cbn. rewrite H. by destruct (g c). Qed.

Lemma respects_signal c : respects (signal c).
Proof.
  apply respects_put. intros w w' H. rewrite (same_pc w w' H). destruct (sleeping _); [|done].
  revert w w' H. same_insert.
Qed.
#[export] Hint Resolve respects_signal : same.

Lemma respects_queue_car c q : respects (queue_car c q).
Proof.
  unfold queue_car. solve_respects. apply respects_reads. intros w w' H. apply crawl_ext. apply H.
Qed.

Lemma respects_attempt_all c l : respects (attempt_all c l).
Proof. induction l as [|k l IH]; cbn [attempt_all]; unfold attempt_quadrant; solve_respects. Qed.
#[export] Hint Resolve respects_queue_car respects_attempt_all : same.

Lemma respects_enter c q : respects (enter_intersection c q).
Proof. unfold enter_intersection, release_quadrants. solve_respects. apply respects_for_do. solve_respects. Qed.
#[export] Hint Resolve respects_enter : same.

Lemma respects_lock c l : respects (lock_quadrants c l).
Proof. induction l as [|k l IH]; cbn [lock_quadrants]; solve_respects. Qed.

Lemma respects_leave c : respects (leave_free c).
Proof.
  unfold leave_free. solve_respects. apply respects_for_do. solve_respects.
  intros w w' H. unfold modifies, unlock_quadrant. rewrite (same_quadrantLock w w' H).
  case_decide; [|constructor]. constructor.
  split; intros; cbn; rewrite ?fn_ins; try case_decide; try done; apply H.
Qed.
#[export] Hint Resolve respects_lock respects_leave : same.

Lemma respects_push i : respects (push_queue i).
Proof. unfold push_queue. solve_respects. Qed.

Lemma respects_dequeue q : respects (dequeue_car q).
Proof. unfold dequeue_car. solve_respects. Qed.
#[export] Hint Resolve respects_push respects_dequeue : same.

(** *** Steps of the threads *)

Inductive same_step : option (outcome msg world unit) → option (outcome msg world unit) → Prop :=
  | same_runs x y : same_outcome x y → same_step (Some x) (Some y)
  | same_blocked : same_step None None.

#[global] Instance car_step_proper c rq rt : Proper ((≡) ==> same_step) (car_step c rq rt).
Proof.
  intros w w' H. unfold car_step. rewrite <-(same_pc w w' H).
  assert (∀ m : prog unit, respects m → same_step (Some (m w)) (Some (m w'))) as Hm by (constructor; auto).
  destruct (pc w c) as [|q|q|q|q|q|q|q|q i|q].
  - apply (Hm (_ ← _; _)). solve_respects.
  - apply (Hm (_ ← _; _)). solve_respects.
  - unfold wait_for_queue. rewrite (same_queue w w' H). case_decide.
    + apply (Hm (_ ← _; _)). solve_respects.
    + apply Hm. solve_respects.
  - rewrite (same_cond w w' H). case_match; [|constructor]. apply (Hm (_ ← _; _)). solve_respects.
  - rewrite (same_lock w w' H). case_match; [constructor|]. apply (Hm (_ ← _; _)). solve_respects.
  - rewrite (same_turn w w' H). case_match.
    + apply (Hm (r ← _; _)). solve_respects.
    + unfold aquire_locks. destruct (respects_lock c (seqZ 0 4) w w' H) as [[] w1 w1' o H1| |]; do 2 try constructor.
      split; intros; cbn; rewrite ?fn_ins; try case_decide; try done; apply H1.
  - rewrite (same_cond w w' H). case_match; [|constructor]. apply (Hm (_ ← _; _)). solve_respects.
  - rewrite (same_lock w w' H). case_match; [constructor|]. apply (Hm (_ ← _; _)). solve_respects.
  - case_match; apply (Hm (_ ← _; _)); solve_respects.
  - apply (Hm (_ ← _; _)). solve_respects.
Qed.

(** ** Outside the arrays *)

(** What no thread ever touches. *)
Record untouched (w : world) : Prop := mkUntouched {
  u_turn : ∀ c, ¬ car c → turn w c = NO_TURN;
  u_next : ∀ c, ¬ car c → next w c = None;
  u_cond : ∀ c, ¬ car c → cond w c = false;
  u_pc : ∀ c, ¬ car c → pc w c = PTop;
  u_queue : ∀ q, ¬ (0 ≤ q < 4) → queue w q = None;
  u_quadrant : ∀ k, ¬ (0 ≤ k < 4) → quadrant w k = -1;
  u_quadrantLock : ∀ k, ¬ (0 ≤ k < 4) → quadrantLock w k = None;
}.

Definition keeps_out {A} (m : prog A) : Prop := ∀ w, untouched w → wlp m w (λ _ w', untouched w').

Lemma out_ret {A} (a : A) : keeps_out (mret a).
Proof. intros w H. by apply wlp_ret. Qed.
Lemma out_emit e : keeps_out (emit e).
Proof. intros w H. by apply wlp_emit. Qed.
Lemma out_undefined {A} : keeps_out (undefined : prog A).
Proof. by intros w H. Qed.
Lemma out_reads {A} (f : world → option A) : keeps_out (reads f).
Proof. intros w H. by apply wlp_reads. Qed.
Lemma out_put f : (∀ w, untouched w → untouched (f w)) → keeps_out (put f).
Proof. intros Hf w H. apply wlp_modifies. intros ? [= <-]. by apply Hf. Qed.
Lemma out_bind {A B} (m : prog A) (k : A → prog B) : keeps_out m → (∀ a, keeps_out (k a)) → keeps_out (m ≫= k).
Proof. intros Hm Hk w H. apply wlp_bind. eapply wlp_mono; [by apply Hm|]. intros a w' H'. by apply Hk. Qed.
Lemma out_for_do (l : list Z) body : (∀ i, i ∈ l → keeps_out (body i)) → keeps_out (for_do l body).
Proof.
  induction l as [|i l IH]; intros Hb; [apply out_ret|]. apply out_bind; [apply Hb; left|]. intros _. apply IH.
  intros j Hj. apply Hb. by right.
Qed.

(** An assignment inside, or of the value that is there. *)
Ltac solve_out :=
  repeat match goal with
  | |- keeps_out (mbind _ _) => apply out_bind
  | |- keeps_out (get _) => apply out_reads
  | |- keeps_out (put _) => apply out_put; let w := fresh in let H := fresh in
      intros w H; split; intros; cbn; rewrite ?fn_ins; try case_decide; subst; try done; try (by apply H)
  | |- keeps_out (match ?x with _ => _ end) => destruct x
  | |- ∀ _, keeps_out _ => intros ?
  | |- keeps_out _ => first [apply out_ret|apply out_emit|apply out_undefined|apply out_reads|assumption]
  end.

Lemma out_signal c : keeps_out (signal c).
Proof.
  apply out_put. intros w H. destruct (sleeping (pc w c)) eqn:E; [|done].
  assert (car c) as Hc.
  { destruct (decide (0 ≤ c < NUM_CARS)) as [?|Hn]; [done|]. by rewrite (u_pc w H c Hn) in E. }
  split; intros; cbn; rewrite ?fn_ins; try case_decide; subst; try done; by apply H.
Qed.

Lemma out_attempt_all c l : (∀ k, k ∈ l → 0 ≤ k < 4) → keeps_out (attempt_all c l).
Proof.
  induction l as [|k l IH]; intros Hl; cbn [attempt_all]; [apply out_ret|]. unfold attempt_quadrant.
  assert (0 ≤ k < 4) by (apply Hl; left). solve_out. apply IH. intros j Hj. apply Hl. by right.
Qed.

Lemma wanted_range t q l t' : wanted t q = Some (l, t') → ∀ k, k ∈ l → 0 ≤ k < 4.
Proof.
  unfold wanted. intros H k Hk. repeat case_match; simplify_eq;
    repeat (apply elem_of_cons in Hk as [-> |Hk]; [by unfold NW, NE, SW, SE|]); by apply elem_of_nil in Hk.
Qed.

Lemma out_enter c q : keeps_out (enter_intersection c q).
Proof.
  intros w H. unfold enter_intersection, wlp. rewrite get_bind. destruct (Z.eqb_spec (turn w c) NO_TURN); [done|].
  assert (car c) as Hc.
  { destruct (decide (0 ≤ c < NUM_CARS)) as [?|Hn]; [done|]. by rewrite (u_turn w H c Hn) in *. }
  revert w H n. intros w H _. apply (out_bind _ _); [| |exact H].
  - destruct (wanted (turn w c) q) as [[l t']|] eqn:E; [|apply out_ret].
    apply out_bind; [by eapply out_attempt_all, wanted_range|]. solve_out.
  - unfold release_quadrants. solve_out; try apply out_signal.
    apply out_for_do. intros i Hi%elem_of_four. solve_out.
Qed.

Lemma crawl_member fuel (f : Z → option Z) x l cur : chain f (Some x) l → crawl fuel f x = Some cur → cur ∈ l.
Proof.
  revert x l. induction fuel as [|n IH]; intros x l Hl; [done|]. cbn. destruct l as [|y l]; [done|].
  destruct Hl as [[= <-] Hl]. destruct (f x) as [z|] eqn:E; [|intros [= <-]; left]. intros H. right. by eapply IH.
Qed.

Lemma out_queue_car w c q : dinv w → car c → 0 ≤ q < 4 → untouched w → wlp (queue_car c q) w (λ _ w', untouched w').
Proof.
  intros Hinv Hc Hq H. unfold queue_car, get. do 2 wlp_step. intros o [= <-]. wlp_step.
  apply wlp_mono with (λ _ w', untouched w'); [|intros u w' H'; by apply out_emit].
  destruct (queue w q) as [h|] eqn:Hh.
  - destruct (d_queue w Hinv q Hq) as (l & Hl & _ & Hm). rewrite Hh in Hl. do 2 wlp_step.
    intros cur E. assert (car cur) as Hcur by (by apply Hm; eapply crawl_member).
    assert (keeps_out (put (set_next cur (Some c)))) as Hk by solve_out. by apply Hk.
  - assert (keeps_out (put (set_queue q (Some c)))) as Hk by solve_out. by apply Hk.
Qed.

Lemma out_lock c l : (∀ k, k ∈ l → 0 ≤ k < 4) → keeps_out (lock_quadrants c l).
Proof.
  induction l as [|k l IH]; intros Hl; cbn [lock_quadrants]; [apply out_ret|].
  assert (0 ≤ k < 4) by (apply Hl; left). assert (keeps_out (lock_quadrants c l)) by (apply IH; intros j Hj; apply Hl; by right).
  solve_out.
Qed.

Lemma out_leave c : car c → keeps_out (leave_free c).
Proof.
  intros Hc. unfold leave_free. solve_out. apply out_for_do. intros i Hi%elem_of_four. solve_out.
  intros w H. apply wlp_modifies. intros w'. unfold unlock_quadrant. case_decide; [|done]. intros [= <-].
  split; intros; cbn; rewrite ?fn_ins; try case_decide; subst; try done; by apply H.
Qed.

Lemma out_push i : keeps_out (push_queue i).
Proof. unfold push_queue. solve_out. apply out_enter. Qed.

Lemma out_dequeue q : 0 ≤ q < 4 → keeps_out (dequeue_car q).
Proof. intros Hq. unfold dequeue_car. solve_out. apply out_signal. Qed.

Lemma car_step_untouched w c rq rt w' o : dinv w → car c → untouched w → car_step c rq rt w = Some (Done tt w' o) →
  untouched w'.
Proof.
  intros Hinv Hc H. pose proof (d_pcs w Hinv c Hc) as Hok. unfold car_step.
  assert (∀ p, keeps_out (put (set_pc c p))) as Hpc by (intros p; solve_out).
  assert (∀ m : prog unit, keeps_out m → Some (m w) = Some (Done tt w' o) → untouched w') as Hm.
  { intros m Hw [= E]. exact (wlp_det _ _ _ _ _ _ (Hw w H) E). }
  destruct (pc w c) as [|q|q|q|q|q|q|q|q i|q]; cbn in Hok.
  - apply (Hm (_ ← _; _)). solve_out.
  - intros [= E]. refine (wlp_det _ _ (λ _ v, untouched v) _ _ _ _ E). wlp_step.
    eapply wlp_mono; [by apply out_queue_car|]. intros u w1 H1. by apply Hpc.
  - unfold wait_for_queue. case_decide; [apply (Hm (_ ← _; _))|apply Hm]; solve_out.
  - case_match; [|done]. apply (Hm (_ ← _; _)). solve_out.
  - case_match; [done|]. apply (Hm (_ ← _; _)). solve_out.
  - case_match; [apply (Hm (r ← _; _)); solve_out; apply out_enter|].
    assert (keeps_out (aquire_locks c)) as Hk by (apply out_lock; intros k; apply elem_of_four).
    specialize (Hk w H). unfold wlp in Hk. destruct (aquire_locks c w) as [[] w1 o1| |]; try done. intros [= <- <-].
    split; intros; cbn; rewrite ?fn_ins; try case_decide; subst; try done; by apply Hk.
  - case_match; [|done]. apply (Hm (_ ← _; _)). solve_out.
  - case_match; [done|]. apply (Hm (_ ← _; _)). solve_out. by apply out_leave.
  - case_match; apply (Hm (_ ← _; _)); solve_out. apply out_push.
  - apply (Hm (_ ← _; _)). solve_out. by apply out_dequeue.
Qed.

Lemma initial_untouched : untouched initial.
Proof. by split. Qed.

Lemma reachable_untouched w : reachable w → untouched w.
Proof.
  revert w. apply (rtc_ind_r untouched); [apply initial_untouched|].
  intros w w' Hr Hs IH. pose proof (reachable_dinv w Hr) as Hinv. revert Hinv IH.
  destruct Hs as [c rq rt w w' o Hc E|c w w' Hc E|w E]; intros Hinv IH.
  - by eapply car_step_untouched.
  - unfold spurious_wakeup in E. case_match; [|done]. injection E as <-.
    split; intros; cbn; rewrite ?fn_ins; try case_decide; subst; try done; by apply IH.
  - split; intros; cbn; by apply IH.
Qed.

(** ** Comparing reachable worlds *)

#[global] Instance pcount_eq_dec : EqDecision pcount.
Proof. solve_decision. Defined.

Definition same_car (w w' : world) (c : Z) : bool :=
  bool_decide (turn w c = turn w' c ∧ next w c = next w' c ∧ cond w c = cond w' c ∧ pc w c = pc w' c).
Definition same_side (w w' : world) (k : Z) : bool :=
  bool_decide (queue w k = queue w' k ∧ quadrant w k = quadrant w' k ∧ quadrantLock w k = quadrantLock w' k).
Definition same_world (w w' : world) : bool :=
  forallb (same_car w w') (seqZ 0 NUM_CARS) && forallb (same_side w w') (seqZ 0 4) &&
  bool_decide (intersectionLock w = intersectionLock w').

Lemma same_world_spec w w' : untouched w → untouched w' → same_world w w' = true → w ≡ w'.
Proof.
  intros H H' [[Hc Hk]%andb_true_iff Hl%bool_decide_eq_true]%andb_true_iff.
  rewrite forallb_forall in Hc, Hk.
  assert (∀ c, car c → turn w c = turn w' c ∧ next w c = next w' c ∧ cond w c = cond w' c ∧ pc w c = pc w' c) as Hcar.
  { intros c Hin. apply (bool_decide_eq_true_1 _), Hc, list_elem_of_In, elem_of_seqZ. unfold car in Hin. lia. }
  assert (∀ k, 0 ≤ k < 4 → queue w k = queue w' k ∧ quadrant w k = quadrant w' k ∧ quadrantLock w k = quadrantLock w' k) as Hside.
  { intros k Hin. apply (bool_decide_eq_true_1 _), Hk, list_elem_of_In, elem_of_seqZ. lia. }
  assert (∀ x, car x ∨ ¬ car x) as Hd by (intros x; unfold car; lia).
  assert (∀ k, 0 ≤ k < 4 ∨ ¬ (0 ≤ k < 4)) as Hd4 by lia.
  split; try done; intros x.
  1-4: destruct (Hd x) as [Hx|Hx]; [by apply Hcar|].
  5-7: destruct (Hd4 x) as [Hx|Hx]; [by apply Hside|].
  all: by rewrite ?(u_turn w H x Hx), ?(u_next w H x Hx), ?(u_cond w H x Hx), ?(u_pc w H x Hx), ?(u_queue w H x Hx),
    ?(u_quadrant w H x Hx), ?(u_quadrantLock w H x Hx), ?(u_turn w' H' x Hx), ?(u_next w' H' x Hx), ?(u_cond w' H' x Hx),
    ?(u_pc w' H' x Hx), ?(u_queue w' H' x Hx), ?(u_quadrant w' H' x Hx), ?(u_quadrantLock w' H' x Hx).
Qed.
