(* ===== verification/DriversStarve.v ===== *)
(** * Project3/Drivers: a car that waits forever

    A car that turns left needs three quadrants at once.  Two cars that keep turning
    right from the other sides never leave all of them free at the same time, although
    every thread that can run does run. *)

From S2P Require Import Prelude Queue Drivers DriversOps DriversInv DriversSteps DriversSafe DriversEq.

(** ** Schedules *)

(** A turn of a thread: the car and the numbers [rand()] gives it. *)
Definition turn_of : Type := Z * Z * Z.

Definition play (t : turn_of) (w : world) : option world :=
  match t with (c, rq, rt) => match car_step c rq rt w with Some (Done _ w' _) => Some w' | _ => None end end.

Fixpoint play_all (l : list turn_of) (w : world) : option world :=
  match l with [] => Some w | t :: l' => w' ← play t w; play_all l' w' end.

Lemma play_step c rq rt w w' : car c → play (c, rq, rt) w = Some w' → step w w'.
Proof.
  intros Hc. unfold play. destruct (car_step c rq rt w) as [[[] v o| |]|] eqn:E; try done. intros [= <-].
  by eapply S_car.
Qed.

#[global] Instance play_proper t : Proper ((≡) ==> option_Forall2 (≡)) (play t).
Proof.
  intros w w' H. destruct t as [[c rq] rt]. unfold play.
  destruct (car_step_proper c rq rt w w' H) as [x y [a v v' o Hv| |]|]; by constructor.
Qed.

(** ** The jam *)

(** Car [c] from the top of its loop until it sleeps at the end of queue [q]. *)
Definition line_up (c q t : Z) : list turn_of := replicate 3 (c, q, t).

(** Car [c] turns right from the empty queue [q]: from the top of its loop until it is
    in the intersection. *)
Definition drive_in (c q : Z) : list turn_of := replicate 6 (c, q, 2).
(** It leaves, tries the four queues and is back at the top of its loop. *)
Definition drive_out (c : Z) : list turn_of := replicate 7 (c, 0, 0).

(** Car 2 turns right from the west; car 0 comes from the north, wants to turn left,
    and finds the quadrant SW taken; all others but car 1 queue behind it. *)
Definition jam_schedule : list turn_of :=
  drive_in 2 3 ++ replicate 5 (0, 0, 0) ++ flat_map (λ c, line_up c 0 0) (seqZ 3 17).

(** Car 1 turns right from the south; car 2 leaves and comes again; car 1 leaves. *)
Definition cycle : list turn_of := drive_in 1 1 ++ drive_out 2 ++ drive_in 2 3 ++ drive_out 1.

Definition jam_start : world := set_intersectionLock None initial.
Definition jam : world := default jam_start (play_all jam_schedule jam_start).

Lemma jam_computed : is_Some (play_all jam_schedule jam_start).
Proof. vm_compute. eauto. Qed.

(** ** The infinite run *)

Definition period : nat := 26.
Definition who (i : nat) : turn_of := nth (i mod period) cycle (0, 0, 0).
Fixpoint run (i : nat) : world :=
  match i with O => jam | S i' => let w := run i' in default w (play (who i') w) end.

Lemma run_S i : run (S i) = default (run i) (play (who i) (run i)).
Proof. reflexivity. Qed.

(** Car 0 and the cars behind it are asleep and nobody has signalled them. *)
Definition asleep (w : world) (c : Z) (p : pcount) : bool := bool_decide (pc w c = p ∧ cond w c = false).
Definition stuck (w : world) : bool :=
  asleep w 0 (PSleepI 0) && forallb (λ c, asleep w c (PSleepQ 0)) (seqZ 3 17).

(** The cars behind car 0, in the order of their links. *)
Fixpoint behind (fuel : nat) (nx : Z → option Z) (c : Z) : list Z :=
  match fuel with
  | O => []
  | S fuel' => match nx c with Some c' => c' :: behind fuel' nx c' | None => [] end
  end.
Definition lined_up (w : world) : list Z := behind 20 (next w) 0.

Lemma behind_same n nx nx' c : (∀ c, nx c = nx' c) → behind n nx c = behind n nx' c.
Proof. intros H. revert c. induction n as [|n IH]; intros c; [done|]. cbn. rewrite H. destruct (nx' c); [by rewrite IH|done]. Qed.

(** What is computed: one period. *)
Definition period_ok (i : nat) : bool :=
  stuck (run i) && bool_decide (queue (run i) 0 = Some 0 ∧ turn (run i) 0 = WLEFT ∧ lined_up (run i) = seqZ 3 17)
  && bool_decide (is_Some (play (who i) (run i))).

Lemma period_computed : forallb period_ok (seq 0 period) = true.
Proof. vm_compute. reflexivity. Qed.
Lemma return_computed : same_world (run period) (run 0) = true.
Proof. vm_compute. reflexivity. Qed.

Lemma who_car i : car (who i).1.1.
Proof.
  assert (Forall (λ t : turn_of, car t.1.1) cycle) as H by (repeat constructor; by unfold car).
  unfold who. destruct (nth_in_or_default (i mod period) cycle (0, 0, 0)) as [Hin| ->]; [|by unfold car].
  rewrite Forall_forall in H. by apply H, list_elem_of_In.
Qed.

Lemma play_all_reachable l w w' : Forall (λ t : turn_of, car t.1.1) l → reachable w → play_all l w = Some w' → reachable w'.
Proof.
  revert w. induction l as [|[[c rq] rt] l IH]; intros w Hl Hr; cbn [play_all]; [by intros [= <-]|].
  apply Forall_cons in Hl as [Hc Hl]. destruct (play (c, rq, rt) w) as [v|] eqn:E; [|done]. cbn.
  apply IH; [done|]. eapply rtc_r; [exact Hr|]. by eapply play_step.
Qed.

Lemma jam_reachable : reachable jam.
Proof.
  unfold jam. destruct jam_computed as [w E]. rewrite E. cbn.
  eapply play_all_reachable; [|apply rtc_once; by apply S_main|exact E].
  apply (bool_decide_unpack (Forall (λ t : turn_of, 0 ≤ t.1.1 < NUM_CARS) jam_schedule)). vm_compute. exact I.
Qed.

Lemma lasso_reachable i : reachable (run i).
Proof.
  induction i as [|i IH]; [exact jam_reachable|]. rewrite run_S. destruct (play (who i) (run i)) as [v|] eqn:E; [|done]. cbn.
  eapply rtc_r; [exact IH|]. pose proof (who_car i) as Hc. destruct (who i) as [[c rq] rt]. by eapply play_step.
Qed.

Lemma run_again i : run (period + i) ≡ run i.
Proof.
  induction i as [|i IH].
  - rewrite Nat.add_0_r. apply same_world_spec; [apply reachable_untouched, lasso_reachable..|exact return_computed].
  - rewrite Nat.add_succ_r, !run_S.
    assert (who (period + i) = who i) as -> by (unfold who; by rewrite <-Nat.Div0.add_mod_idemp_l, Nat.Div0.mod_same).
    destruct (play_proper (who i) _ _ IH) as [v v' Hv|]; [exact Hv|exact IH].
Qed.

Lemma run_mod i : run i ≡ run (i mod period).
Proof.
  induction (lt_wf i) as [i _ IH]. destruct (decide (i < period)%nat) as [Hlt|Hge].
  - by rewrite Nat.mod_small.
  - replace i with (period + (i - period))%nat at 1 by lia. rewrite run_again, (IH (i - period)%nat) by (unfold period in *; lia).
    assert (i mod period = (i - period) mod period)%nat as ->; [|done].
    replace i with ((i - period) + 1 * period)%nat at 1 by lia. by rewrite Nat.Div0.mod_add.
Qed.

Lemma run_period i :
  stuck (run i) = true ∧ (queue (run i) 0 = Some 0 ∧ turn (run i) 0 = WLEFT ∧ lined_up (run i) = seqZ 3 17)
  ∧ is_Some (play (who i) (run i)).
Proof.
  pose proof (run_mod i) as Hm. set (r := (i mod period)%nat) in Hm.
  assert (period_ok r = true) as Hr.
  { pose proof period_computed as H. rewrite forallb_forall in H. apply H, in_seq. split; [lia|].
    apply Nat.mod_upper_bound. done. }
  unfold period_ok in Hr. rewrite !andb_true_iff, !bool_decide_eq_true in Hr. destruct Hr as [[Hs Hq] Hp]. split; [|split].
  - revert Hs. unfold stuck, asleep. rewrite !andb_true_iff, !forallb_forall, !bool_decide_eq_true.
    rewrite !(same_pc _ _ Hm), !(same_cond _ _ Hm). intros [H0 H]. split; [done|]. intros c Hc.
    specialize (H c Hc). rewrite bool_decide_eq_true in H |- *. by rewrite (same_pc _ _ Hm), (same_cond _ _ Hm).
  - unfold lined_up. rewrite (same_queue _ _ Hm), (same_turn _ _ Hm), (behind_same _ _ (next (run r))); [exact Hq|].
    intros c. apply (same_next _ _ Hm).
  - assert (who i = who r) as -> by (unfold who, r; by rewrite Nat.Div0.mod_mod).
    destruct (play_proper (who r) _ _ Hm); [by eexists|by destruct Hp].
Qed.

Lemma run_next i : ∃ o, car_step (who i).1.1 (who i).1.2 (who i).2 (run i) = Some (Done tt (run (S i)) o).
Proof.
  destruct (run_period i) as (_ & _ & [v Hv]). rewrite run_S, Hv. change (default (run i) (Some v)) with v.
  revert Hv. unfold play. destruct (who i) as [[c rq] rt]. cbn [fst snd].
  destruct (car_step c rq rt (run i)) as [[[] v' o| |]|]; try done. intros [= ->]. by exists o.
Qed.

(** A sleeper that was not signalled has no step. *)
Lemma asleep_blocked w c p rq rt : sleeping p = true → asleep w c p = true → car_step c rq rt w = None.
Proof.
  intros Hp [E Hc]%bool_decide_eq_true. unfold car_step. rewrite E. destruct p; try done; by rewrite Hc.
Qed.

Lemma who_again c : c = 1 ∨ c = 2 → ∀ i, ∃ j, (i ≤ j)%nat ∧ (who j).1.1 = c ∧ ∃ q, pc (run j) c = PIn q.
Proof.
  intros Hc i.
  assert (∃ r, (r < period)%nat ∧ (who r).1.1 = c ∧ ∃ q, pc (run r) c = PIn q) as (r & Hr & Hw & q & Hq).
  { destruct Hc as [->| ->]; [exists 19%nat|exists 6%nat]; split_and!; try (unfold period; lia); try (by vm_compute).
    - exists 1. by vm_compute.
    - exists 3. by vm_compute. }
  exists (r + i * period)%nat. split; [unfold period; lia|].
  assert ((r + i * period) mod period = r)%nat as E by (rewrite Nat.Div0.mod_add; by apply Nat.mod_small).
  split; [unfold who in *; by rewrite E, <-(Nat.mod_small r period Hr)|].
  exists q. by rewrite (same_pc _ _ (run_mod _)), E.
Qed.

(** C11. Starvation: there is a run of the cars that never ends and is fair (a thread that
    can run infinitely often does run infinitely often; a thread that does not run is
    asleep and not signalled for ever), in which car 0, first in its queue, wants to turn
    left and sleeps at the intersection in every state, the cars 3 to 19 are linked behind
    it and asleep in the queue in every state, and cars 1 and 2 cross again and again. *)
Theorem drivers_starvation : ∃ (run : nat → world) (who : nat → turn_of),
  reachable (run 0%nat) ∧
  (∀ i, car (who i).1.1 ∧ ∃ o, car_step (who i).1.1 (who i).1.2 (who i).2 (run i) = Some (Done tt (run (S i)) o)) ∧
  (∀ c, car c → (∀ i, ∃ j, (i ≤ j)%nat ∧ (who j).1.1 = c) ∨ (∀ i rq rt, car_step c rq rt (run i) = None)) ∧
  (∀ i, queue (run i) 0 = Some 0 ∧ turn (run i) 0 = WLEFT ∧ pc (run i) 0 = PSleepI 0) ∧
  (∀ i, lined_up (run i) = seqZ 3 17 ∧ ∀ c, 3 ≤ c < 20 → pc (run i) c = PSleepQ 0) ∧
  (∀ c i, c = 1 ∨ c = 2 → ∃ j, (i ≤ j)%nat ∧ ∃ q, pc (run j) c = PIn q).
Proof.
  exists run, who. split; [apply lasso_reachable|]. split; [intros i; split; [apply who_car|apply run_next]|].
  assert (∀ i, asleep (run i) 0 (PSleepI 0) = true ∧ ∀ c, 3 ≤ c < 20 → asleep (run i) c (PSleepQ 0) = true) as Hs.
  { intros i. destruct (run_period i) as ([H0 H]%andb_true_iff & _). split; [done|]. intros c Hc.
    rewrite forallb_forall in H. apply H, list_elem_of_In, elem_of_seqZ. lia. }
  split_and!.
  - intros c Hc. destruct (decide (c = 1 ∨ c = 2)) as [Hc2|Hc2].
    + left. intros i. destruct (who_again c Hc2 i) as (j & ? & ? & _). by exists j.
    + right. intros i rq rt. destruct (Hs i) as [H0 H]. destruct (decide (c = 0)) as [->|Hne].
      * by eapply (asleep_blocked _ _ (PSleepI 0)).
      * eapply (asleep_blocked _ _ (PSleepQ 0)); [done|]. apply H. unfold car, NUM_CARS in Hc. lia.
  - intros i. destruct (run_period i) as (_ & (? & ? & _) & _). split_and!; [done..|].
    by destruct (Hs i) as [[? _]%bool_decide_eq_true _].
  - intros i. split; [apply run_period|]. intros c Hc. destruct (Hs i) as [_ H].
    specialize (H c Hc) as [? _]%bool_decide_eq_true. done.
  - intros c i Hc. destruct (who_again c Hc i) as (j & ? & _ & ?). by exists j.
Qed.
