(* ===== verification/DriversProgress.v ===== *)
(** * Project3/Drivers: no livelock

    A car has only so many steps until it is back at the top of its loop: [rank] bounds
    them, no thread increases the rank of another car, and only a wake-up without a
    signal gives a car more steps.  So however the threads are scheduled, cars keep
    crossing. *)

From S2P Require Import Prelude Queue Drivers DriversOps DriversInv DriversSteps DriversSafe.

(** ** The rank of a car *)

Definition is_turning (t : Z) : bool := bool_decide (3 ≤ t ≤ 5).

(** The steps to the end of the round; [hd]: first of its queue, [cd]: signalled. *)
Definition rank_of (p : pcount) (hd : bool) (t : Z) (cd : bool) : Z :=
  match p with
  | PTop => 18
  | PQueue _ => 17
  | PCheck _ => if hd then 13 else 15
  | PSleepQ _ => if hd then 14 else if cd then 16 else 14
  | PApproach _ => if is_turning t then 9 else 12
  | PLoop _ => if is_turning t then 8 else 11
  | PSleepI _ => if is_turning t then 10 else if cd then 13 else 10
  | PIn _ => 7
  | PPush _ i => 6 - i
  | PDequeue _ => 1
  end.

Definition is_head (w : world) (c : Z) : bool :=
  match at_queue (pc w c) with Some q => bool_decide (queue w q = Some c) | None => false end.

Definition rank (w : world) (c : Z) : Z := rank_of (pc w c) (is_head w c) (turn w c) (cond w c).

(** Nobody is given more steps by becoming first, by being let in, or by a signal to
    the first of a queue. *)
Lemma rank_let_in p t t' cd cd' : is_turning t' = true → rank_of p true t' cd' ≤ rank_of p true t cd.
Proof. intros Ht. destruct p; cbn; rewrite ?Ht; repeat case_match; lia. Qed.

Lemma rank_first p t cd cd' : front p = false → rank_of p true t cd' ≤ rank_of p false t cd.
Proof. destruct p; cbn; intros; repeat case_match; try done; lia. Qed.

Lemma rank_spurious p hd t cd : rank_of p hd t true ≤ rank_of p hd t cd + 3.
Proof. destruct p; cbn; repeat case_match; lia. Qed.

Lemma rank_bounds p hd t cd : pc_ok p → 1 ≤ rank_of p hd t cd ≤ 18.
Proof. destruct p; cbn; intros; repeat case_match; lia. Qed.

Lemma rank_ext w w' d : pc w' d = pc w d → turn w' d = turn w d → cond w' d = cond w d →
  (∀ q, at_queue (pc w d) = Some q → queue w' q = queue w q) → rank w' d = rank w d.
Proof.
  intros Hp Ht Hc Hq. unfold rank, is_head. rewrite Hp, Ht, Hc. destruct (at_queue (pc w d)) as [q|]; [|done].
  by rewrite (Hq q).
Qed.

(** A step of [c] that changes only its own fields and the locks. *)
Lemma rank_others w w' c : (∀ d, d ≠ c → pc w' d = pc w d ∧ turn w' d = turn w d ∧ cond w' d = cond w d) →
  (∀ q, queue w' q = queue w q) → ∀ d, car d → d ≠ c → rank w' d ≤ rank w d.
Proof. intros Hd Hq d _ Hne. destruct (Hd d Hne) as (? & ? & ?). rewrite (rank_ext w w' d); [lia|done..|]. by intros. Qed.

Section facts.
Context (w : world).
Hypothesis Hinv : dinv w.

(** Somebody is first in the queue of a car that queues. *)
Lemma queue_nonempty c q : car c → at_queue (pc w c) = Some q → queue w q ≠ None.
Proof using Hinv.
  intros Hc Hat Hn. pose proof (at_queue_range w Hinv c q Hc Hat) as Hq.
  destruct (d_queue w Hinv q Hq) as (l & Hl & _ & Hm). assert (c ∈ l) as Hin by (by apply Hm).
  apply chain_head in Hl. rewrite Hn in Hl. destruct l; [by apply elem_of_nil in Hin|done].
Qed.

(** The front car [h] of queue [i] tries to enter. *)
Lemma enter_rank h i r w' o : 0 ≤ i < 4 → queue w i = Some h → enter_intersection h i w = Done r w' o →
  ∀ d, rank w' d ≤ rank w d.
Proof using Hinv.
  intros Hi Hh E d. destruct (head_at_queue w Hinv h i Hi Hh) as [Hc Hat].
  destruct (enter_inv w h i Hinv Hi Hh) as (r1 & w1 & o1 & E1 & _ & Hp & Hq & _ & Hoth & _ & Hr).
  rewrite E in E1. injection E1 as <- <- <-.
  destruct (decide (d = h)) as [->|Hne].
  2: { destruct (Hoth d Hne) as [Ht Hcd]. rewrite (rank_ext w w' d); [lia|by rewrite Hp|done..|]. intros q _. by rewrite Hq. }
  destruct (decide (turn w h = NO_TURN)) as [Hn|Hn].
  { rewrite (enter_no_turn w h i Hn) in E. by injection E as <- <- <-. }
  assert (is_head w' h = true ∧ is_head w h = true) as [H1 H2].
  { unfold is_head. rewrite Hp, Hq, Hat. by rewrite bool_decide_eq_true. }
  unfold rank. rewrite Hp, H1, H2. destruct Hr as [[-> Hr]|[_ Hr]].
  - destruct (decide (0 ≤ turn w h ≤ 2)) as [Ht|Ht]; [by destruct (Hr Ht) as (-> & _ & ->)|].
    rewrite (enter_turning w h i) in E; [done|]. pose proof (d_turn w Hinv h Hc) as Hok. unfold turning, NO_TURN in *.
    destruct (pc w h); cbn in Hok; unfold turning, NO_TURN in *; lia.
  - apply rank_let_in. unfold is_turning. by apply bool_decide_eq_true.
Qed.
End facts.

(** ** Steps *)

(** The end of a round of the loop of [car_main]. *)
Definition ends_round (p : pcount) : bool := match p with PDequeue _ => true | _ => false end.

Definition counts (w w' : world) (c : Z) : Prop :=
  (∀ d, car d → d ≠ c → rank w' d ≤ rank w d) ∧
  rank w' c + 1 ≤ rank w c + (if ends_round (pc w c) then 18 else 0).

Section step.
Context (w : world) (c : Z).
Hypothesis Hinv : dinv w.
Hypothesis Hc : car c.

(** Only the fields of [c] and the locks change. *)
Lemma counts_own w' : (∀ d, d ≠ c → pc w' d = pc w d ∧ turn w' d = turn w d ∧ cond w' d = cond w d) →
  (∀ q, queue w' q = queue w q) → ends_round (pc w c) = false → rank w' c + 1 ≤ rank w c → counts w w' c.
Proof using Hc. intros Hd Hq He Hr. split; [by apply rank_others|]. rewrite He. lia. Qed.

Ltac own Hp := apply counts_own; cbn;
  [intros d Hd; by rewrite ?fn_lookup_insert_ne by done|done|by rewrite Hp|unfold rank, is_head; cbn; rewrite ?fn_lookup_insert].

Lemma queue_counts q w' : pc w c = PQueue q → queue_car c q w = Done tt w' [Approaching c q] → linked w c q w' →
  counts w (set_pc c (PCheck q) w') c.
Proof using Hinv.
  intros Hp _ (Ht & Hcd & Hpc & _ & _ & _ & Hq1 & Hq2 & Hq3). split.
  - intros d Hd Hne. assert (rank (set_pc c (PCheck q) w') d = rank w d) as ->; [|lia].
    apply rank_ext; cbn; rewrite ?Ht, ?Hcd, ?Hpc, ?fn_lookup_insert_ne by done; try done.
    intros q' Hat. destruct (decide (q' = q)) as [->|Hneq]; [|by apply Hq1].
    destruct (queue w q) as [h|] eqn:Eh; [by apply Hq2|]. by destruct (queue_nonempty w Hinv d q Hd Hat).
  - rewrite Hp. unfold rank. cbn. rewrite fn_lookup_insert, Hp. cbn. case_match; lia.
Qed.

Lemma dequeue_counts q : pc w c = PDequeue q →
  let w1 := set_next c None (set_queue q (next w c) w) in
  counts w (set_pc c PTop (match next w c with Some h => wake h w1 | None => w1 end)) c.
Proof using Hinv Hc.
  intros Hp w1. destruct (dequeue_front w c q Hinv Hc Hp) as (Hq & Hh & _).
  set (w2 := match next w c with Some h => wake h w1 | None => w1 end).
  assert (pc w2 = pc w ∧ turn w2 = turn w ∧ queue w2 = <[q := next w c]> (queue w) ∧
    ∀ d, next w c ≠ Some d → cond w2 d = cond w d) as (Ep & Et & Eq & Ec).
  { unfold w2, w1, wake. destruct (next w c) as [h|]; [|done]. cbn. case_match; split_and!; try done.
    intros d Hd. cbn. rewrite fn_lookup_insert_ne; congruence. }
  split.
  - intros d Hd Hne. unfold rank. cbn. rewrite fn_lookup_insert_ne, Ep, Et by done.
    unfold is_head. cbn. rewrite fn_lookup_insert_ne, Ep, Eq by done.
    destruct (at_queue (pc w d)) as [q'|] eqn:Hat.
    2: { assert (cond w d = false) as Hcd.
         { destruct (cond w d) eqn:Hcd; [|done]. apply (d_cond w Hinv d Hd) in Hcd. by destruct (pc w d). }
         destruct (pc w d); try done; cbn; lia. }
    rewrite fn_ins. destruct (decide (q = q')) as [<-|Hqne].
    + rewrite Hh. rewrite (bool_decide_eq_false_2 (Some c = Some d)) by congruence.
      destruct (decide (next w c = Some d)) as [Hn|Hn].
      * rewrite bool_decide_eq_true_2 by done. apply rank_first. destruct (front (pc w d)) eqn:Hf; [|done].
        pose proof (d_head w Hinv d q Hd Hat (or_introl Hf)). congruence.
      * rewrite bool_decide_eq_false_2, Ec by done. lia.
    + destruct (decide (next w c = Some d)) as [Hn|Hn]; [|rewrite Ec by done; lia].
      destruct (d_queue w Hinv q Hq) as (l & Hl & _ & Hm). rewrite Hh in Hl. destruct l as [|x l]; [done|].
      destruct Hl as [[= <-] Hl]. rewrite Hn in Hl. destruct l as [|y l]; [done|]. destruct Hl as [[= <-] _].
      assert (at_queue (pc w d) = Some q) as Hat' by (apply Hm; right; left). congruence.
  - rewrite Hp. unfold rank. cbn. rewrite fn_lookup_insert, Hp. cbn. lia.
Qed.

(** Every step of a car counts. *)
Lemma step_counts rq rt w' o : car_step c rq rt w = Some (Done tt w' o) → counts w w' c.
Proof using Hinv Hc.
  pose proof (d_pcs w Hinv c Hc) as Hok. pose proof (d_turn w Hinv c Hc) as Ht.
  assert (sleeping (pc w c) = false → cond w c = false) as Hcf by (by apply cond_false).
  pose proof (front_head w c Hinv Hc) as Hf.
  unfold car_step. destruct (pc w c) as [|q|q|q|q|q|q|q|q i|q] eqn:Hp; cbn in Hok, Ht, Hcf, Hf.
  - intros [= <- <-]. own Hp. rewrite Hp. cbn. lia.
  - destruct (queue_car_spec w c q Hinv Hc Hok) as (w1 & E & Hlink & _); [by rewrite Hp|].
    rewrite (bind_done _ _ _ _ _ _ _ _ _ E eq_refl). intros [= <- <-]. by eapply queue_counts.
  - unfold wait_for_queue. case_decide as Hh; intros [= <- <-]; own Hp; rewrite Hp; cbn.
    + rewrite bool_decide_eq_true_2 by done. case_match; lia.
    + rewrite Hcf by done. rewrite bool_decide_eq_false_2 by done. lia.
  - case_match eqn:Hcd; [|done]. intros [= <- <-]. own Hp. rewrite Hp, Hcd. cbn. case_match; lia.
  - case_match; [done|]. intros [= <- <-]. own Hp. rewrite Hp. cbn. case_match; lia.
  - destruct (wants (turn w c)) eqn:Hw.
    + apply wants_range in Hw. specialize (Hf q eq_refl eq_refl).
      destruct (enter_inv w c q Hinv Hok Hf) as (r & w1 & o1 & E & Hinv1 & Epc & Eq & _ & Hoth & _ & Hr).
      unfold mbind, M_bind. rewrite E. destruct Hr as [[-> Hr]|[-> Hr]].
      * destruct (Hr Hw) as (Et & _ & Ec). intros [= <- <-]. split.
        { intros d Hd Hne. destruct (Hoth d Hne) as [? ?]. rewrite (rank_ext w _ d); [lia|cbn; by rewrite fn_lookup_insert_ne, Epc by done|done|done|]. intros q' _. cbn. by rewrite Eq. }
        rewrite Hp. unfold rank. cbn. rewrite fn_lookup_insert, Hp, Et, Ec, Hcf by done. cbn. unfold is_turning.
        rewrite bool_decide_eq_false_2 by lia. lia.
      * intros [= <- <-]. split.
        { intros d Hd Hne. destruct (Hoth d Hne) as [? ?]. rewrite (rank_ext w _ d); [lia|by rewrite Epc|done|done|].
          intros q' _. by rewrite Eq. }
        rewrite Hp. unfold rank. rewrite Epc, Hp. cbn. unfold is_turning, turning in *.
        rewrite bool_decide_eq_true_2, bool_decide_eq_false_2 by lia. lia.
    + assert (turning (turn w c)) as Htn.
      { unfold turning. destruct (decide (turn w c ≤ 2)); [|lia].
        assert (wants (turn w c) = true); [apply wants_range; lia|congruence]. }
      destruct (aquire_locks_spec c w) as (g & E & _).
      { intros k Hk Hq. destruct (quadrantLock w k) as [c'|] eqn:El; [|done].
        apply (d_lock w Hinv k c' Hk) in El as (_ & Hq' & Hi). rewrite Hq in Hq'. subst c'. by rewrite Hp in Hi. }
      rewrite E. intros [= <- <-]. own Hp. rewrite Hp. cbn. unfold is_turning, turning in *.
      rewrite bool_decide_eq_true_2 by lia. lia.
  - case_match eqn:Hcd; [|done]. intros [= <- <-]. own Hp. rewrite Hp, Hcd. cbn. case_match; lia.
  - case_match; [done|]. erewrite bind_silent by done.
    destruct (leave_free_spec c (set_intersectionLock (Some c) w)) as (f & g & E & _).
    { intros k Hk Hq. simpl in *. apply (d_lock w Hinv k c Hk). by rewrite Hp. }
    rewrite (bind_done _ _ _ _ _ _ _ _ _ E eq_refl). intros [= <- <-]. own Hp. rewrite Hp. cbn. lia.
  - destruct (Z.ltb_spec i 4) as [Hi|Hi].
    + unfold push_queue, mbind, M_bind, get, reads. destruct (queue w i) as [h|] eqn:Hh.
      * destruct (enter_inv w h i Hinv ltac:(lia) Hh) as (r & w1 & o1 & E & _ & Epc & Eq & _).
        rewrite E. intros [= <- <-]. pose proof (enter_rank w Hinv h i r w1 o1 ltac:(lia) Hh E) as Hr. split.
        { intros d Hd Hne. etrans; [|apply (Hr d)]. rewrite (rank_ext w1 _ d); [lia|cbn; by rewrite fn_lookup_insert_ne|done..]. }
        rewrite Hp. unfold rank. cbn. rewrite fn_lookup_insert, Hp. cbn. lia.
      * intros [= <- <-]. own Hp. rewrite Hp. cbn. lia.
    + intros [= <- <-]. own Hp. rewrite Hp. cbn. lia.
  - rewrite (bind_silent _ _ _ _ _ (dequeue_car_eq w c q Hinv Hc Hp)). intros [= <- <-]. by apply dequeue_counts.
Qed.
End step.

(** ** Runs *)

(** Runs with the number of steps of cars, of rounds they finished, and of wake-ups
    without a signal. *)
Inductive counted (w : world) : Z → Z → Z → world → Prop :=
  | N_start : counted w 0 0 0 w
  | N_car n r s w1 c rq rt w2 o : counted w n r s w1 → car c → car_step c rq rt w1 = Some (Done tt w2 o) →
      counted w (n + 1) (r + (if ends_round (pc w1 c) then 1 else 0)) s w2
  | N_spurious n r s w1 c w2 : counted w n r s w1 → car c → spurious_wakeup c w1 = Some w2 →
      counted w n r (s + 1) w2
  | N_main n r s w1 : counted w n r s w1 → intersectionLock w1 = Some MAIN →
      counted w n r s (set_intersectionLock None w1).

Definition cars : list Z := seqZ 0 NUM_CARS.
Definition total (w : world) : Z := zsum (rank w) cars.

Lemma elem_of_cars c : c ∈ cars ↔ car c.
Proof. unfold cars, car. rewrite elem_of_seqZ. lia. Qed.

Lemma zsum_le_one (f g : Z → Z) x k l : NoDup l → x ∈ l → (∀ y, y ∈ l → y ≠ x → g y ≤ f y) → g x ≤ f x + k →
  zsum g l ≤ zsum f l + k.
Proof.
  intros Hnd Hx Hle Hk. induction l as [|y l IH]; [by apply elem_of_nil in Hx|].
  apply NoDup_cons in Hnd as [Hy Hnd]. rewrite !zsum_cons. destruct (decide (y = x)) as [->|Hne].
  - assert (zsum g l ≤ zsum f l); [|lia]. apply zsum_le. intros z Hz. apply Hle; [by right|]. by intros ->.
  - apply elem_of_cons in Hx as [->|Hx]; [done|].
    pose proof (Hle y ltac:(left) Hne). pose proof (IH Hnd Hx (λ z Hz, Hle z ltac:(by right))). lia.
Qed.

Lemma total_car w c rq rt w' o : dinv w → car c → car_step c rq rt w = Some (Done tt w' o) →
  total w' + 1 ≤ total w + (if ends_round (pc w c) then 18 else 0).
Proof.
  intros Hinv Hc E. destruct (step_counts w c Hinv Hc rq rt w' o E) as [Ho Hr].
  assert (total w' ≤ total w + ((if ends_round (pc w c) then 18 else 0) - 1)); [|lia].
  apply (zsum_le_one _ _ c); [apply NoDup_seqZ|by apply elem_of_cars| |lia].
  intros d Hd Hne. apply Ho; [by apply elem_of_cars|done].
Qed.

Lemma total_spurious w c w' : car c → spurious_wakeup c w = Some w' → total w' ≤ total w + 3.
Proof.
  intros Hc E. unfold spurious_wakeup in E. case_match; [|done]. injection E as <-.
  apply (zsum_le_one _ _ c); [apply NoDup_seqZ|by apply elem_of_cars| |].
  - intros d _ Hne. rewrite (rank_ext w _ d); [lia|done|done|cbn; by rewrite fn_lookup_insert_ne|done].
  - unfold rank. cbn. rewrite fn_lookup_insert. apply rank_spurious.
Qed.

Lemma total_bounds w : dinv w → 0 ≤ total w ≤ 360.
Proof.
  intros Hinv. assert (∀ c, c ∈ cars → 1 ≤ rank w c ≤ 18) as H.
  { intros c Hc%elem_of_cars. apply rank_bounds, (d_pcs w Hinv c Hc). }
  split; [apply zsum_nonneg; intros c Hc; specialize (H c Hc); lia|].
  etrans; [apply (zsum_le _ (λ _, 18)); intros c Hc; apply (H c Hc)|]. by vm_compute.
Qed.

Lemma counted_inv w n r s w' : dinv w → counted w n r s w' → dinv w' ∧ n + total w' ≤ total w + 18 * r + 3 * s.
Proof.
  intros Hinv H. induction H as [|n r s w1 c rq rt w2 o _ IH Hc E|n r s w1 c w2 _ IH Hc E|n r s w1 _ IH E].
  - split; [done|lia].
  - destruct IH as [Hi IH]. split; [eapply step_dinv; [done|]; by eapply S_car|].
    pose proof (total_car w1 c rq rt w2 o Hi Hc E). destruct (ends_round (pc w1 c)); lia.
  - destruct IH as [Hi IH]. split; [by eapply spurious_inv|].
    pose proof (total_spurious w1 c w2 Hc E). lia.
  - destruct IH as [Hi IH]. split; [by apply main_inv|exact IH].
Qed.

(** C10. No livelock: in any run of the cars from a reachable state, with any interleaving
    and any random numbers, the number of steps is at most 360 plus 18 for every
    round a car finishes and 3 for every wake-up without a signal.  So a run that goes
    on makes cars cross: each further crossing costs the twenty cars together at most
    18 steps. *)
Theorem drivers_no_livelock (w w' : world) (n r s : Z) :
  reachable w → counted w n r s w' → n ≤ 360 + 18 * r + 3 * s.
Proof.
  intros Hr%reachable_dinv H. destruct (counted_inv w n r s w' Hr H) as [Hi Hle].
  pose proof (total_bounds w Hr). pose proof (total_bounds w' Hi). lia.
Qed.

(** Running a schedule and counting. *)
Fixpoint count_run (l : list (Z * Z * Z)) (n r : Z) (w : world) : option (Z * Z * world) :=
  match l with
  | [] => Some (n, r, w)
  | (c, rq, rt) :: l' =>
      match car_step c rq rt w with
      | Some (Done _ w' _) => count_run l' (n + 1) (r + (if ends_round (pc w c) then 1 else 0)) w'
      | _ => None
      end
  end.

Lemma count_run_counted l w0 n r w n' r' w' : Forall (λ '(c, _, _), car c) l → counted w0 n r 0 w →
  count_run l n r w = Some (n', r', w') → counted w0 n' r' 0 w'.
Proof.
  revert n r w. induction l as [|[[c rq] rt] l IH]; intros n r w Hl Hc; cbn [count_run]; [by intros [= <- <- <-]|].
  apply Forall_cons in Hl as [Hcar Hl]. destruct (car_step c rq rt w) as [[[] v o| |]|] eqn:E; try done.
  apply IH; [done|]. by eapply N_car.
Qed.

(** Car 0 alone goes round once, in thirteen steps. *)
Definition free_start : world := set_intersectionLock None initial.

Lemma free_computed : (λ x, x.1) <$> count_run (replicate 13 (0, 0, 1)) 0 0 free_start = Some (13, 1).
Proof. vm_compute. reflexivity. Qed.

Lemma drivers_no_livelock_witness : ∃ w', counted free_start 13 1 0 w' ∧ 13 ≤ 360 + 18 * 1 + 3 * 0.
Proof.
  pose proof free_computed as H. destruct (count_run _ 0 0 free_start) as [[[n r] w']|] eqn:E; [|discriminate H].
  injection H as -> ->. exists w'.
  assert (counted free_start 13 1 0 w') as Hc.
  { eapply count_run_counted; [|apply N_start|exact E]. repeat constructor; unfold car, NUM_CARS; lia. }
  exact (conj Hc (drivers_no_livelock free_start w' 13 1 0 (rtc_once _ _ (S_main initial eq_refl)) Hc)).
Defined.
