(* ===== verification/Pirates.v ===== *)
(** * Pirates and ninjas (Project3/PiratesVNinjas)

    The costume department: one thread per pirate or ninja, two linked queues, the
    department with up to four chairs, and the bill.

    A thread runs between two blocking points in one step of the model: every such
    piece is a critical section of [queueSem], of [dept.sem] or of both.  Inside the
    department the code also reads queues whose [queueSem] it does not hold; such a
    read may miss humans who are queueing at that moment (see [glimpse]).  The value
    [time(NULL)] returns, the number [norm_dist] draws and the answer of [drand48]
    are arguments of the step.  A walk along a queue that has become cyclic does not
    end ([NoFuel]).  The memory [malloc] returns is an argument of [create_human],
    which does not set the fields [t] and [visit]; an invalid [visit] pointer is
    [None], a linked list of visits is [Some l]. *)

From S2P Require Import Prelude Queue CString.
From Stdlib Require Import QArith Qround.

#[global] Open Scope Z_scope.

(** ** Constants (human.h, department.h) *)

Definition PIRATE : Z := 0.
Definition NINJA : Z := 1.
Definition TO_PIRATE : Z := 2.
Definition TO_NINJA : Z := 3.
Definition STD_DEV : Z := 2.
Definition SWAP_BUFFER : Z := 4.
Definition SWAP_TIMEOUT : Z := 20.
Definition FREE_WAIT : Z := 30.

(** ** Data *)

Record visit_t : Type := mkVisit { goldOwed : Z; waitTime : Z; visitTime : Z }.

Record human_t : Type := mkHuman {
  id : Z;
  alignment : Z;
  avgCostume : Z;
  avgAdventure : Z;
  willReturn : Z;
  arrival : Z;                      (* the field [t] *)
  visit : option (list visit_t);
  next : option Z;
  sem : Z;
}.

Record chair_t : Type := mkChair { hum : option Z; chair_last : Z; occupied : Z; free : Z }.

Record department_t : Type := mkDept { dalign : Z; chairs : list (option chair_t) }.

(** Where a thread of [human_main] is. *)
Inductive hpc : Type :=
  | HNone          (* not created *)
  | HTop           (* at the test of the outer loop *)
  | HQueue         (* back from the adventure, about to take [queueSem] *)
  | HWait          (* in [sem_wait(&self->sem)] *)
  | HTry           (* woken up, about to take [dept.sem] *)
  | HCostume       (* in a chair *)
  | HReturn        (* out of the department *)
  | HDone.         (* the thread has returned *)

Record world : Type := mkWorld {
  humans : Z → human_t;
  pc : Z → hpc;
  queue : Z → option Z;
  dept : department_t;
  visitsLeft : Z;
  pirates : list (option Z);
  ninjas : list (option Z);
  aborted : bool;
}.

Inductive msg : Type :=
  | Improper | BadTeams | BadPirates | BadNinjas | BadCostume | BadArrival
  | Fight
  | PiratesTitle | NinjasTitle | StatsTitle | Blank
  | PirateLine (i : Z) | NinjaLine (i : Z)
  | VisitLine (dur wait : Z)
  | GoldLine (g : Z)
  | TeamLine (i busy fr : Z)
  | AverageQueue (wait visits : Z)
  | GrossRevenue (g : Z)
  | GoldPerVisit (g visits : Z)
  | Profits (p : Z).

Abbreviation prog := (M msg world).

Definition set_human (h : Z) (x : human_t) (w : world) : world :=
  mkWorld (<[h := x]> (humans w)) (pc w) (queue w) (dept w) (visitsLeft w) (pirates w) (ninjas w) (aborted w).
Definition set_pc (h : Z) (p : hpc) (w : world) : world :=
  mkWorld (humans w) (<[h := p]> (pc w)) (queue w) (dept w) (visitsLeft w) (pirates w) (ninjas w) (aborted w).
Definition set_queue (a : Z) (x : option Z) (w : world) : world :=
  mkWorld (humans w) (pc w) (<[a := x]> (queue w)) (dept w) (visitsLeft w) (pirates w) (ninjas w) (aborted w).
Definition set_dept (d : department_t) (w : world) : world :=
  mkWorld (humans w) (pc w) (queue w) d (visitsLeft w) (pirates w) (ninjas w) (aborted w).
Definition set_visitsLeft (n : Z) (w : world) : world :=
  mkWorld (humans w) (pc w) (queue w) (dept w) n (pirates w) (ninjas w) (aborted w).
Definition set_pirates (l : list (option Z)) (w : world) : world :=
  mkWorld (humans w) (pc w) (queue w) (dept w) (visitsLeft w) l (ninjas w) (aborted w).
Definition set_ninjas (l : list (option Z)) (w : world) : world :=
  mkWorld (humans w) (pc w) (queue w) (dept w) (visitsLeft w) (pirates w) l (aborted w).
Definition set_aborted (w : world) : world :=
  mkWorld (humans w) (pc w) (queue w) (dept w) (visitsLeft w) (pirates w) (ninjas w) true.

Definition with_willReturn (n : Z) (x : human_t) : human_t :=
  mkHuman (id x) (alignment x) (avgCostume x) (avgAdventure x) n (arrival x) (visit x) (next x) (sem x).
Definition with_arrival (n : Z) (x : human_t) : human_t :=
  mkHuman (id x) (alignment x) (avgCostume x) (avgAdventure x) (willReturn x) n (visit x) (next x) (sem x).
Definition with_visit (v : option (list visit_t)) (x : human_t) : human_t :=
  mkHuman (id x) (alignment x) (avgCostume x) (avgAdventure x) (willReturn x) (arrival x) v (next x) (sem x).
Definition with_next (n : option Z) (x : human_t) : human_t :=
  mkHuman (id x) (alignment x) (avgCostume x) (avgAdventure x) (willReturn x) (arrival x) (visit x) n (sem x).
Definition with_sem (n : Z) (x : human_t) : human_t :=
  mkHuman (id x) (alignment x) (avgCostume x) (avgAdventure x) (willReturn x) (arrival x) (visit x) (next x) n.

Definition get {A} (f : world → A) : prog A := reads (λ w, Some (f w)).
Definition put (f : world → world) : prog unit := modifies (λ w, Some (f w)).
Definition upd (h : Z) (f : human_t → human_t) : prog unit := put (λ w, set_human h (f (humans w h)) w).

(** A loop over links that does not end has no result. *)
Definition walk {A} (f : world → option A) : prog A := λ w,
  match f w with Some a => Done a w [] | None => NoFuel end.

(** [queue[a]] *)
Definition queue_at (a : Z) : prog (option Z) :=
  reads (λ w, if decide (0 ≤ a < 2) then Some (queue w a) else None).

Definition sem_post (h : Z) : prog unit := upd h (λ x, with_sem (sem x + 1) x).

(** ** normDist.c

    [zs] is the sequence of the values [sqrt(-2 log u) * cos(2 PI v)] computed from
    successive pairs of [drand48]; the loop takes the first that gives a positive
    result. *)
Fixpoint norm_dist (zs : list Q) (mean stddev : Q) : option Q :=
  match zs with
  | [] => None
  | z :: zs' =>
      let v := (z * stddev + mean)%Q in
      if Qle_bool v 0 then norm_dist zs' mean stddev else Some v
  end.

(** [d] may be the value of [(int)norm_dist(mean, STD_DEV)]. *)
Definition drawn (mean d : Z) : Prop :=
  ∃ zs v, norm_dist zs (inject_Z mean) (inject_Z STD_DEV) = Some v ∧ d = Qfloor v.

(** ** department.c *)

Definition create_chair (now : Z) : chair_t := mkChair None now 0 0.

Definition init_department (a n now : Z) : department_t :=
  mkDept a ((λ i, if (i <? n) then Some (create_chair now) else None) <$> seqZ 0 4).

Definition update_chair (c : chair_t) (vt now : Z) : chair_t :=
  mkChair (hum c) (now + vt) (occupied c + vt) (free c + (now - chair_last c)).

Definition chair_free (d : department_t) : bool :=
  existsb (λ o, match o with Some c => bool_decide (hum c = None) | None => false end) (chairs d).

Definition all_empty (d : department_t) : bool :=
  negb (existsb (λ o, match o with Some c => bool_decide (hum c ≠ None) | None => false end) (chairs d)).

Definition team_alignment (d : department_t) : Z :=
  let a := dalign d in
  if (a =? PIRATE) || (a =? TO_PIRATE) then PIRATE
  else if (a =? NINJA) || (a =? TO_NINJA) then NINJA else -1.

(** ** human.c *)

Definition create_human (i a avgC avgA : Z) (garbage : Z * option (list visit_t)) : human_t :=
  mkHuman i a avgC avgA 1 garbage.1 garbage.2 None 0.

Definition create_visit (wt vt : Z) : visit_t :=
  mkVisit (if wt <=? FREE_WAIT then vt else 0) wt vt.

(** At most 100 humans: a longer walk has met one of them twice. *)
Definition walk_fuel : nat := 100.

Definition queue_human (h now : Z) : prog unit :=
  _ ← upd h (with_arrival now);
  a ← get (λ w, alignment (humans w h));
  q ← queue_at a;
  match q with
  | None => put (set_queue a (Some h))
  | Some root =>
      cur ← walk (λ w, crawl walk_fuel (λ x, next (humans w x)) root);
      upd cur (with_next (Some h))
  end.

Definition dequeue_human (a : Z) : prog unit :=
  q ← queue_at a;
  _ ← (match q with
       | Some tmp =>
           n ← get (λ w, next (humans w tmp));
           _ ← put (set_queue a n);
           upd tmp (with_next None)
       | None => mret tt
       end);
  q ← queue_at a;
  match q with Some x => sem_post x | None => mret tt end.

(** [while (cur->next != NULL) { cur = cur->next; count++; }] *)
Fixpoint count_from (fuel : nat) (nx : Z → option Z) (cur count : Z) : option Z :=
  match fuel with
  | O => None
  | S fuel' => match nx cur with None => Some count | Some c => count_from fuel' nx c (count + 1) end
  end.

Definition queue_count (a : Z) : prog Z :=
  q ← queue_at a;
  match q with
  | None => mret 0
  | Some x => walk (λ w, count_from walk_fuel (λ y, next (humans w y)) x 1)
  end.

Definition other_alignment (x : human_t) : Z :=
  if alignment x =? PIRATE then NINJA else if alignment x =? NINJA then PIRATE else -1.

(** The difference is a [time_t], the result an [int]. *)
Definition current_wait_time (x : human_t) (now : Z) : Z := to_int (now - arrival x).

(** The first loop of [enter_department]. *)
Fixpoint seat (h vt now : Z) (cs : list (option chair_t)) : list (option chair_t) :=
  match cs with
  | [] => []
  | Some c :: cs' =>
      if decide (hum c = None)
      then Some (update_chair (mkChair (Some h) (chair_last c) (occupied c) (free c)) vt now) :: cs'
      else Some c :: seat h vt now cs'
  | None :: cs' => None :: seat h vt now cs'
  end.

(** Its second loop: does somebody of the other team sit in a chair? *)
Definition fight (w : world) (h : Z) : bool :=
  existsb (λ o, match o with
                | Some c => match hum c with
                            | Some x => alignment (humans w x) =? other_alignment (humans w h)
                            | None => false
                            end
                | None => false
                end) (chairs (dept w)).

(** *** Reads of the queues without their semaphore

    Who holds [dept.sem] keeps the others from taking anybody out of a queue, but not
    from queueing: that takes [queueSem] alone.  Of two threads that run at the same
    time, one in the department and one that queues, the second is taken to run first;
    a read the first makes without [queueSem] may then still see the queues as they
    were before.  [g i] is what read number [i] sees. *)
Definition glimpse : Type := nat → world → world.

(** Every read sees the queues as they are. *)
Definition exact : glimpse := λ _ w, w.

Definition glance {A} (g : glimpse) (i : nat) (m : prog A) : prog A := λ w,
  match m (g i w) with Done a _ o => Done a w o | Undef => Undef | NoFuel => NoFuel end.

(** [m] reads [queue[a]]; [locks a] says that the thread has [queueSem[a]]. *)
Definition unlocked {A} (locks : Z → bool) (g : glimpse) (i : nat) (a : Z) (m : prog A) : prog A :=
  if locks a then m else glance g i m.

(** The condition that it is time to change hands, after the test of [dept.alignment]. *)
Definition swap_condition (locks : Z → bool) (g : glimpse) (h now d : Z) : prog bool :=
  x ← get (λ w, humans w h);
  let a := alignment x in
  let b := other_alignment x in
  oq ← unlocked locks g 0 b (queue_at b);
  if decide (oq = None) then mret false
  else
    own ← unlocked locks g 1 a (queue_count a);
    other ← unlocked locks g 2 b (queue_count b);
    if own + SWAP_BUFFER <? other then mret true
    else
      dq ← unlocked locks g 3 d (queue_at d);
      if decide (dq = None) then mret true
      else
        t ← unlocked locks g 4 b (oq ← queue_at b;
                                  match oq with
                                  | Some ohead => get (λ w, current_wait_time (humans w ohead) now)
                                  | None => undefined
                                  end);
        mret (SWAP_TIMEOUT <=? t).

(** The condition and the [switch] that start to change hands. *)
Definition start_swap (locks : Z → bool) (g : glimpse) (h now : Z) : prog unit :=
  d ← get (λ w, dalign (dept w));
  if (d =? PIRATE) || (d =? NINJA) then
    due ← swap_condition locks g h now d;
    if (due : bool)
    then put (λ w, set_dept (mkDept (if d =? PIRATE then TO_NINJA else TO_PIRATE) (chairs (dept w))) w)
    else mret tt
  else mret tt.

(** [false]: the process was aborted. *)
Definition enter_department (g : glimpse) (h now d : Z) : prog bool :=
  x ← get (λ w, humans w h);
  l ← reads (λ _, visit x);
  let v := create_visit (current_wait_time x now) d in
  _ ← (match l with
       | [] => upd h (with_visit (Some [v]))
       | _ => upd h (with_visit (Some (v :: l)))
       end);
  _ ← put (λ w, set_dept (mkDept (dalign (dept w)) (seat h (visitTime v) now (chairs (dept w)))) w);
  f ← get (λ w, fight w h);
  if (f : bool) then _ ← emit Fight; _ ← put set_aborted; mret false
  else _ ← start_swap (λ a, a =? alignment x) g h now; mret true.

(** [dept.chairs[i]->hum = NULL] where it is [hum]. *)
Definition vacate (h : Z) (o : option chair_t) : option chair_t :=
  match o with
  | Some c => if decide (hum c = Some h) then Some (mkChair None (chair_last c) (occupied c) (free c)) else o
  | None => None
  end.

(** The last one out hands the department over. *)
Definition finish_swap (d : department_t) : department_t :=
  if ((dalign d =? TO_PIRATE) || (dalign d =? TO_NINJA)) && all_empty d
  then mkDept (if dalign d =? TO_PIRATE then PIRATE else NINJA) (chairs d) else d.

Definition leave_department (g : glimpse) (h now : Z) : prog unit :=
  _ ← put (λ w, set_dept (mkDept (dalign (dept w)) (vacate h <$> chairs (dept w))) w);
  _ ← start_swap (λ _, false) g h now;
  _ ← put (λ w, set_dept (finish_swap (dept w)) w);
  a ← get (λ w, team_alignment (dept w));
  q ← queue_at a;
  match q with Some x => sem_post x | None => mret tt end.

(** [human_main] from the end of the adventure until it waits. *)
Definition join_queue (h now : Z) : prog unit :=
  a ← get (λ w, alignment (humans w h));
  _ ← queue_human h now;
  q ← queue_at a;
  _ ← (if decide (q = Some h) then sem_post h else mret tt);
  put (set_pc h HWait).

(** Another thread queues. *)
Inductive arrives (v w : world) : Prop :=
  | Arrives h now o : pc v h = HQueue → join_queue h now v = Done tt w o → arrives v w.

(** What reads without a semaphore may see: earlier states of the queues, in order. *)
Definition glimpses (g : glimpse) : Prop :=
  ∀ i w, rtc arrives (g i w) (g (S i) w) ∧ rtc arrives (g i w) w.

(** The piece of [human_main] that thread [h] runs next; [None]: it is blocked or has
    returned.  [d] is the draw of [norm_dist], [r] says that [drand48() <= 0.25]. *)
Definition human_step (g : glimpse) (h now d : Z) (r : bool) (w : world) : option (outcome msg world unit) :=
  let x := humans w h in
  match pc w h with
  | HNone | HDone => None
  | HTop =>
      Some ((if willReturn x =? 0 then put (set_pc h HDone)
             else _ ← upd h (λ x, with_willReturn (willReturn x - 1) x); put (set_pc h HQueue)) w)
  | HQueue => Some (join_queue h now w)
  | HWait =>
      if 0 <? sem x
      then Some ((_ ← upd h (λ x, with_sem (sem x - 1) x); put (set_pc h HTry)) w) else None
  | HTry =>
      Some ((if (dalign (dept w) =? alignment x) && chair_free (dept w) then
               _ ← dequeue_human (alignment x);
               ok ← enter_department g h now d;
               if (ok : bool) then put (set_pc h HCostume) else mret tt
             else put (set_pc h HWait)) w)
  | HCostume => Some ((_ ← leave_department g h now; put (set_pc h HReturn)) w)
  | HReturn =>
      Some ((_ ← (if r then upd h (λ x, with_willReturn (willReturn x + 1) x)
                  else put (λ w, set_visitsLeft (visitsLeft w - 1) w));
             put (set_pc h HTop)) w)
  end.

(** ** pvn.c *)

Record config : Type := mkConfig {
  numChairs : Z;
  numPirates : Z;
  numNinjas : Z;
  avgPCostume : Z;
  avgNCostume : Z;
  avgPAdventure : Z;
  avgNAdventure : Z;
}.

(** The argument checks of [main]; [None]: it returned -1. *)
Definition check_args (argv : list string) : prog (option config) :=
  match argv with
  | [_; a1; a2; a3; a4; a5; a6; a7] =>
      nc ← reads (λ _, atoi a1);
      if (nc <? 2) || (4 <? nc) then _ ← emit BadTeams; mret None
      else
        np ← reads (λ _, atoi a2);
        if (np <? 10) || (50 <? np) then _ ← emit BadPirates; mret None
        else
          nn ← reads (λ _, atoi a3);
          if (nn <? 10) || (50 <? nn) then _ ← emit BadNinjas; mret None
          else
            pc ← reads (λ _, atoi a4);
            nco ← reads (λ _, atoi a5);
            if (pc <? 0) || (nco <? 0) then _ ← emit BadCostume; mret None
            else
              pa ← reads (λ _, atoi a6);
              na ← reads (λ _, atoi a7);
              _ ← (if (pa <? 0) || (na <? 0) then emit BadArrival else mret tt);
              mret (Some (mkConfig nc np nn pc nco pa na))
  | _ => _ ← emit Improper; mret None
  end.

(** One iteration of the loop that creates the threads; [garbage h] is what
    [malloc] left in the fields [create_human] does not set. *)
Definition spawn (cf : config) (garbage : Z → Z * option (list visit_t)) (i : Z) : prog unit :=
  _ ← (if i <? numPirates cf then
         _ ← modifies (λ w, l ← zset (pirates w) i (Some i); Some (set_pirates l w));
         _ ← put (set_human i (create_human i PIRATE (avgPCostume cf) (avgPAdventure cf) (garbage i)));
         put (set_pc i HTop)
       else modifies (λ w, l ← zset (pirates w) i None; Some (set_pirates l w)));
  if i <? numNinjas cf then
    _ ← modifies (λ w, l ← zset (ninjas w) i (Some (i + 50)); Some (set_ninjas l w));
    _ ← put (set_human (i + 50)
               (create_human (i + 50) NINJA (avgNCostume cf) (avgNAdventure cf) (garbage (i + 50))));
    put (set_pc (i + 50) HTop)
  else modifies (λ w, l ← zset (pirates w) i None; Some (set_pirates l w)).

(** [main] from the start alignment to the last [pthread_create]; [coin] says that
    [drand48() <= 0.50]. *)
Definition startup (cf : config) (coin : bool) (now : Z) (garbage : Z → Z * option (list visit_t)) : prog unit :=
  _ ← put (set_visitsLeft (numPirates cf + numNinjas cf));
  _ ← put (set_dept (init_department (if coin then PIRATE else NINJA) (numChairs cf) now));
  for_do (seqZ 0 50) (spawn cf garbage).

(** The static variables before [main]; there is no human yet. *)
Definition blank : world :=
  mkWorld (λ h, create_human h (-1) 0 0 (0, None)) (λ _, HNone) (λ _, None) (mkDept 0 (replicate 4 None)) 0
    (replicate 50 None) (replicate 50 None) false.

(** The threads run in any order; nothing runs after [abort]. *)
Inductive step : world → world → Prop :=
  | S_human g h now d r w w' o : aborted w = false → glimpses g → drawn (avgCostume (humans w h)) d →
      human_step g h now d r w = Some (Done tt w' o) → step w w'.

Definition started (cf : config) (garbage : Z → Z * option (list visit_t)) (w : world) : Prop :=
  ∃ coin now o, startup cf coin now garbage blank = Done tt w o.

Definition reachable (cf : config) (garbage : Z → Z * option (list visit_t)) (w : world) : Prop :=
  ∃ w0, started cf garbage w0 ∧ rtc step w0 w.

(** What [check_args] lets through. *)
Definition config_ok (cf : config) : Prop :=
  2 ≤ numChairs cf ≤ 4 ∧ 10 ≤ numPirates cf ≤ 50 ∧ 10 ≤ numNinjas cf ≤ 50 ∧
  0 ≤ avgPCostume cf ∧ 0 ≤ avgNCostume cf.

(** *** The bill *)

(** Signed overflow is undefined. *)
Definition iadd (a b : Z) : option Z :=
  if decide (INT_MIN ≤ a + b ≤ INT_MAX) then Some (a + b) else None.

Record totals : Type := mkTotals { grossIncome : Z; totalWait : Z; totalVisits : Z }.

(** The loop over the visits of one human: the totals and [totalPrice]. *)
Fixpoint bill_visits (l : list visit_t) (t : totals) (price : Z) : prog (totals * Z) :=
  match l with
  | [] => mret (t, price)
  | v :: l' =>
      n ← reads (λ _, iadd (totalVisits t) 1);
      wt ← reads (λ _, iadd (totalWait t) (waitTime v));
      p ← reads (λ _, iadd price (goldOwed v));
      _ ← emit (VisitLine (visitTime v) (waitTime v));
      bill_visits l' (mkTotals (grossIncome t) wt n) p
  end.

(** The body of the loop over the pirates or the ninjas. *)
Definition bill_human (title : msg) (p : option Z) (t : totals) : prog totals :=
  _ ← emit title;
  match p with
  | None => undefined
  | Some h =>
      l ← reads (λ w, visit (humans w h));
      '(t', price) ← bill_visits l t 0;
      _ ← emit (GoldLine price);
      g ← reads (λ _, iadd (grossIncome t') price);
      mret (mkTotals g (totalWait t') (totalVisits t'))
  end.

Fixpoint bill_all (title : Z → msg) (arr : world → list (option Z)) (l : list Z) (t : totals) : prog totals :=
  match l with
  | [] => mret t
  | i :: l' =>
      p ← reads (λ w, zget (arr w) i);
      t' ← bill_human (title i) p t;
      bill_all title arr l' t'
  end.

Definition team_line (i : Z) : prog unit :=
  o ← reads (λ w, zget (chairs (dept w)) i);
  match o with Some c => emit (TeamLine i (occupied c) (free c)) | None => undefined end.

(** [main] after its wait for [visitsLeft] to reach 0. *)
Definition bill (cf : config) : prog totals :=
  _ ← emit PiratesTitle;
  t ← bill_all PirateLine pirates (seqZ 0 (numPirates cf `min` 50)) (mkTotals 0 0 0);
  _ ← emit Blank;
  _ ← emit NinjasTitle;
  t ← bill_all NinjaLine ninjas (seqZ 0 (numNinjas cf `min` 50)) t;
  _ ← emit Blank;
  _ ← emit StatsTitle;
  _ ← for_do (seqZ 0 (numChairs cf `min` 4)) team_line;
  _ ← emit Blank;
  _ ← emit (AverageQueue (totalWait t) (totalVisits t));
  _ ← emit (GrossRevenue (grossIncome t));
  _ ← emit (GoldPerVisit (grossIncome t) (totalVisits t));
  p ← reads (λ _, iadd (grossIncome t) (- (5 * numChairs cf)));
  _ ← emit (Profits p);
  mret t.
