(* ===== verification/PiratesInv.v ===== *)
(** * Pirates and ninjas: the invariant

    Whoever sits in a chair belongs to the team that owns the department, nobody
    sits twice, and [visitsLeft] counts the threads that have not finished. *)

From S2P Require Import Prelude Queue CString Pirates.

(** ** The invariant *)

(** The team that may still sit in the chairs. *)
Definition owner (a : Z) : Z := if (a =? PIRATE) || (a =? TO_NINJA) then PIRATE else NINJA.

(** Who sits in the chairs, in order. *)
Definition seated (cs : list (option chair_t)) : list Z := omap (λ o : option chair_t, c ← o; hum c) cs.

(** Which chairs exist. *)
Definition shape (cs : list (option chair_t)) : list bool :=
  (λ o : option chair_t, match o with Some _ => true | None => false end) <$> cs.

#[global] Arguments seated : simpl never.
#[global] Arguments shape : simpl never.

Definition ids (cf : config) : list Z := seqZ 0 (numPirates cf) ++ seqZ 50 (numNinjas cf).

(** What [willReturn] may be at each point. *)
Definition ret_ok (p : hpc) (r : Z) : Prop :=
  match p with HNone => True | HTop => 0 ≤ r ≤ 1 | _ => r = 0 end.

Definition unfinished (p : hpc) (r : Z) : Z :=
  match p with HDone | HNone => 0 | HTop => if r =? 0 then 0 else 1 | _ => 1 end.

(** The points reached only after a visit. *)
Definition served (p : hpc) (r : Z) : Prop :=
  match p with HCostume | HReturn | HDone => True | HTop => r = 0 | _ => False end.

(** The list of visits is what [malloc] left in the field, [base], with the visits made
    so far before it. *)
Definition onto (base : list visit_t) (x : human_t) : Prop := ∀ l, visit x = Some l → ∃ made, l = made ++ base.

(** At least one visit was made. *)
Definition visited (base : list visit_t) (x : human_t) : Prop := ∃ v made, visit x = Some (v :: made ++ base).

Definition left_over (garbage : Z → Z * option (list visit_t)) (h : Z) : list visit_t := default [] (garbage h).2.

Record pinv (cf : config) (base : Z → list visit_t) (w : world) : Prop := {
  i_shape : shape (chairs (dept w)) = (λ i, i <? numChairs cf) <$> seqZ 0 4;
  i_dalign : 0 ≤ dalign (dept w) ≤ 3;
  i_owner : ∀ x, x ∈ seated (chairs (dept w)) → alignment (humans w x) = owner (dalign (dept w));
  i_nodup : NoDup (seated (chairs (dept w)));
  i_pc : ∀ x, x ∈ seated (chairs (dept w)) ↔ pc w x = HCostume;
  i_align : ∀ h, pc w h ≠ HNone → alignment (humans w h) = if h <? 50 then PIRATE else NINJA;
  i_abort : aborted w = false;
  i_ids : ∀ h, pc w h ≠ HNone ↔ h ∈ ids cf;
  i_ret : ∀ h, ret_ok (pc w h) (willReturn (humans w h));
  i_left : visitsLeft w = zsum (λ h, unfinished (pc w h) (willReturn (humans w h))) (ids cf);
  i_served : ∀ h, served (pc w h) (willReturn (humans w h)) → visited (base h) (humans w h);
  i_onto : ∀ h, onto (base h) (humans w h);
}.

Lemma ids_nodup cf : numPirates cf ≤ 50 → NoDup (ids cf).
Proof.
  intros H. apply NoDup_app. split_and!; [apply NoDup_seqZ| |apply NoDup_seqZ].
  intros x Hx%elem_of_seqZ Hy%elem_of_seqZ. lia.
Qed.

(** ** Code that only touches queues and semaphores *)

(** Everything but the queues, the links, the arrival times and the semaphores is
    as it was. *)
Record quiet (w w' : world) : Prop := mkQuiet {
  q_pc : pc w' = pc w;
  q_dept : dept w' = dept w;
  q_left : visitsLeft w' = visitsLeft w;
  q_pirates : pirates w' = pirates w;
  q_ninjas : ninjas w' = ninjas w;
  q_aborted : aborted w' = aborted w;
  q_align : ∀ h, alignment (humans w' h) = alignment (humans w h);
  q_ret : ∀ h, willReturn (humans w' h) = willReturn (humans w h);
  q_visit : ∀ h, visit (humans w' h) = visit (humans w h);
  q_avg : ∀ h, avgCostume (humans w' h) = avgCostume (humans w h);
}.

#[global] Instance quiet_preorder : PreOrder quiet.
Proof.
  split.
  - intros w. by apply mkQuiet.
  - intros w1 w2 w3 [] []. apply mkQuiet; intros; first [congruence|etrans; eauto].
Qed.

Lemma wlp_walk {A} (f : world → option A) w (Q : A → world → Prop) :
  (∀ a, f w = Some a → Q a w) → wlp (walk f) w Q.
Proof. unfold wlp, walk. destruct (f w); eauto. Qed.

Definition is_quiet {A} (m : prog A) : Prop := ∀ w, wlp m w (λ _ w', quiet w w').

Create HintDb quiet discriminated.

Lemma quiet_ret {A} (a : A) : is_quiet (mret a).
Proof. intros w. by apply wlp_ret. Qed.
Lemma quiet_bind {A B} (m : prog A) (k : A → prog B) :
  is_quiet m → (∀ a, is_quiet (k a)) → is_quiet (m ≫= k).
Proof.
  intros Hm Hk w. apply wlp_bind. eapply wlp_mono; [apply Hm|]. intros a w1 H1.
  eapply wlp_mono; [apply Hk|]. intros b w2 H2. by transitivity w1.
Qed.
Lemma quiet_reads {A} (f : world → option A) : is_quiet (reads f).
Proof. intros w. apply wlp_reads. by intros. Qed.
Lemma quiet_walk {A} (f : world → option A) : is_quiet (walk f).
Proof. intros w. by apply wlp_walk. Qed.
Lemma quiet_set_queue a x : is_quiet (put (set_queue a x)).
Proof. intros w. by apply wlp_modifies; intros ? [= <-]. Qed.
Lemma quiet_upd h f :
  (∀ x, alignment (f x) = alignment x ∧ willReturn (f x) = willReturn x ∧ visit (f x) = visit x ∧
        avgCostume (f x) = avgCostume x) →
  is_quiet (upd h f).
Proof.
  intros Hf w. apply wlp_modifies. intros ? [= <-]. split; try done; simpl; intros y;
    (destruct (decide (y = h)) as [->|Hne]; [|by rewrite fn_lookup_insert_ne]);
    rewrite fn_lookup_insert; apply Hf.
Qed.

#[export] Hint Resolve quiet_ret quiet_reads quiet_walk quiet_set_queue : quiet.
#[export] Hint Extern 1 (is_quiet (upd _ _)) => apply quiet_upd; by intros [] : quiet.

Ltac solve_quiet :=
  repeat match goal with
  | |- is_quiet (mbind _ _) => apply quiet_bind
  | |- is_quiet (match ?x with _ => _ end) => destruct x
  | |- ∀ _, is_quiet _ => intros ?
  | |- is_quiet _ => solve [eauto with quiet]
  end.

Lemma quiet_queue_at a : is_quiet (queue_at a).
Proof. unfold queue_at. solve_quiet. Qed.
Lemma quiet_get {A} (f : world → A) : is_quiet (get f).
Proof. unfold get. solve_quiet. Qed.
Lemma quiet_sem_post h : is_quiet (sem_post h).
Proof. unfold sem_post. solve_quiet. Qed.
#[export] Hint Resolve quiet_queue_at quiet_get quiet_sem_post : quiet.

Lemma quiet_queue_human h now : is_quiet (queue_human h now).
Proof. unfold queue_human. solve_quiet. Qed.
Lemma quiet_dequeue_human a : is_quiet (dequeue_human a).
Proof. unfold dequeue_human. solve_quiet. Qed.
Lemma quiet_queue_count a : is_quiet (queue_count a).
Proof. unfold queue_count. solve_quiet. Qed.
#[export] Hint Resolve quiet_queue_human quiet_dequeue_human quiet_queue_count : quiet.

Lemma quiet_join_queue h now w :
  wlp (join_queue h now) w (λ _ w', ∃ w1, quiet w w1 ∧ w' = set_pc h HWait w1).
Proof.
  assert (is_quiet (a ← get (λ w, alignment (humans w h)); _ ← queue_human h now; q ← queue_at a;
    if decide (q = Some h) then sem_post h else mret tt)) as Hq by solve_quiet.
  specialize (Hq w). unfold join_queue, wlp, mbind, M_bind in *.
  destruct (get _ w) as [a w0 o0| |]; try done. destruct (queue_human h now w0) as [u w1 o1| |]; try done.
  destruct (queue_at a w1) as [q w2 o2| |]; try done.
  destruct ((if decide (q = Some h) then sem_post h else mret tt) w2) as [u3 w3 o3| |]; try done. by exists w3.
Qed.

Lemma quiet_pinv cf base w w' : quiet w w' → pinv cf base w → pinv cf base w'.
Proof.
  intros [Hpc Hd Hl _ _ Hab Ha Hr Hv _] [].
  split; rewrite ?Hd, ?Hpc, ?Hl, ?Hab; try done; intros; rewrite ?Ha, ?Hr, ?Hv; eauto.
  - rewrite i_left0. apply zsum_ext. intros x _. by rewrite Hr.
  - unfold visited. rewrite Hv. apply i_served0. by rewrite <-Hr.
  - unfold onto. rewrite Hv. apply i_onto0.
Qed.

(** ** Chairs *)

Lemma seated_cons_occ c x cs : hum c = Some x → seated (Some c :: cs) = x :: seated cs.
Proof. unfold seated. simpl. by intros ->. Qed.
Lemma seated_cons_free c cs : hum c = None → seated (Some c :: cs) = seated cs.
Proof. unfold seated. simpl. by intros ->. Qed.
Lemma seat_shape h vt now cs : shape (seat h vt now cs) = shape cs.
Proof.
  unfold shape. induction cs as [|[c|] cs IH]; cbn [seat]; [done| |].
  - case_decide; cbn; [done|]. by rewrite IH.
  - cbn. by rewrite IH.
Qed.

Lemma vacate_shape h cs : shape (vacate h <$> cs) = shape cs.
Proof.
  unfold shape. rewrite <-list_fmap_compose. apply list_fmap_ext. intros _ [c|] _; [|done].
  simpl. by case_decide.
Qed.

(** Somebody sits down exactly where a chair is free. *)
Lemma seat_seated h vt now cs :
  existsb (λ o, match o with Some c => bool_decide (hum c = None) | None => false end) cs = true →
  seated (seat h vt now cs) ≡ₚ h :: seated cs.
Proof.
  induction cs as [|[c|] cs IH]; cbn [seat existsb]; [done| |].
  - case_decide as Hc; cbn [existsb].
    + intros _. rewrite (seated_cons_free c) by done. by rewrite (seated_cons_occ _ h) by done.
    + rewrite bool_decide_eq_false_2, orb_false_l by done. intros H.
      destruct (hum c) as [x|] eqn:Ex; [|done]. rewrite !(seated_cons_occ c x) by done.
      rewrite (IH H). constructor.
  - by apply IH.
Qed.

Lemma vacate_seated h cs : seated (vacate h <$> cs) = filter (λ x, x ≠ h) (seated cs).
Proof.
  induction cs as [|[c|] cs IH]; [done| |by rewrite fmap_cons; simpl].
  rewrite fmap_cons. cbn [vacate]. destruct (hum c) as [x|] eqn:Ex.
  - rewrite (seated_cons_occ c x) by done. rewrite filter_cons. case_decide as Hc.
    + rewrite seated_cons_free by done. rewrite decide_False by naive_solver. done.
    + rewrite (seated_cons_occ c x) by done. rewrite decide_True by naive_solver. by rewrite IH.
  - rewrite decide_False by congruence. by rewrite !seated_cons_free.
Qed.

Lemma all_empty_seated d : all_empty d = true → seated (chairs d) = [].
Proof.
  unfold all_empty. rewrite negb_true_iff. induction (chairs d) as [|[c|] cs IH]; [done| |done].
  cbn [existsb]. rewrite orb_false_iff, bool_decide_eq_false. intros [Hc H].
  destruct (hum c) eqn:E; [by destruct Hc|]. rewrite seated_cons_free by done. auto.
Qed.

Lemma seated_length cs : (length (seated cs) ≤ length (filter (λ b, b = true) (shape cs)))%nat.
Proof.
  unfold shape. induction cs as [|[c|] cs IH]; [done| |exact IH].
  rewrite fmap_cons, filter_cons, decide_True by done. cbn [length]. destruct (hum c) as [x|] eqn:E.
  - rewrite (seated_cons_occ c x) by done. cbn [length]. lia.
  - rewrite seated_cons_free by done. lia.
Qed.
