(* ===== verification/PiratesSteps.v ===== *)
(** * Pirates and ninjas: every step keeps the invariant *)

From S2P Require Import Prelude Queue CString Pirates PiratesInv.

Section steps.
Context (cf : config) (Hcf : config_ok cf) (base : Z → list visit_t).

Lemma ids_nodup_ok : NoDup (ids cf).
Proof using Hcf. apply ids_nodup. destruct Hcf as (_ & ? & _). lia. Qed.

(** One thread moves on; nobody else changes. *)
Lemma pinv_move w w' h p' :
  pinv cf base w → pc w h ≠ HNone → p' ≠ HNone →
  shape (chairs (dept w')) = shape (chairs (dept w)) →
  0 ≤ dalign (dept w') ≤ 3 →
  (∀ y, y ∈ seated (chairs (dept w')) → alignment (humans w y) = owner (dalign (dept w'))) →
  NoDup (seated (chairs (dept w'))) →
  (∀ y, y ∈ seated (chairs (dept w')) ↔ if decide (h = y) then p' = HCostume else y ∈ seated (chairs (dept w))) →
  aborted w' = false →
  (∀ y, pc w' y = if decide (h = y) then p' else pc w y) →
  (∀ y, alignment (humans w' y) = alignment (humans w y)) →
  (∀ y, h ≠ y → willReturn (humans w' y) = willReturn (humans w y) ∧ visit (humans w' y) = visit (humans w y)) →
  ret_ok p' (willReturn (humans w' h)) →
  (served p' (willReturn (humans w' h)) → visited (base h) (humans w' h)) →
  onto (base h) (humans w' h) →
  visitsLeft w' = visitsLeft w - unfinished (pc w h) (willReturn (humans w h))
                  + unfinished p' (willReturn (humans w' h)) →
  pinv cf base w'.
Proof using Hcf.
  intros Hinv Hh Hp' Hsh Hda How Hnd Hseat Hab Hpc Hal Hoth Hret Hserved Honto Hleft. split; try done.
  - rewrite Hsh. apply (i_shape cf base w Hinv).
  - intros y Hy. rewrite Hal. by apply How.
  - intros y. rewrite Hseat, Hpc. case_decide; [done|]. by apply (i_pc cf base).
  - intros y. rewrite Hpc, Hal. case_decide as Hy; [intros _; rewrite <-Hy|]; by apply (i_align cf base).
  - intros y. rewrite Hpc, <-(i_ids cf base w Hinv). case_decide as Hy; [by rewrite <-Hy|done].
  - intros y. rewrite Hpc. case_decide as Hy; [by rewrite <-Hy|].
    destruct (Hoth y Hy) as [-> _]. by apply (i_ret cf base).
  - rewrite Hleft, (i_left cf base w Hinv).
    rewrite (zsum_change (λ y, unfinished (pc w y) (willReturn (humans w y)))
      (λ y, unfinished (pc w' y) (willReturn (humans w' y))) h).
    + rewrite (Hpc h), decide_True by done. lia.
    + apply ids_nodup_ok.
    + by apply (i_ids cf base w Hinv).
    + intros y Hy. rewrite Hpc, decide_False by done. by destruct (Hoth y ltac:(done)) as [-> _].
  - intros y. rewrite Hpc. case_decide as Hy; [by rewrite <-Hy|].
    unfold visited. destruct (Hoth y Hy) as [-> ->]. by apply (i_served cf base).
  - intros y. destruct (decide (h = y)) as [<-|Hy]; [done|]. unfold onto. destruct (Hoth y Hy) as [_ ->].
    by apply (i_onto cf base).
Qed.

(** The same when the department is left alone. *)
Lemma pinv_walk w w' h p' :
  pinv cf base w → pc w h ≠ HNone → pc w h ≠ HCostume → p' ≠ HNone → p' ≠ HCostume →
  dept w' = dept w → aborted w' = aborted w →
  (∀ y, pc w' y = if decide (h = y) then p' else pc w y) →
  (∀ y, alignment (humans w' y) = alignment (humans w y)) →
  (∀ y, h ≠ y → willReturn (humans w' y) = willReturn (humans w y) ∧ visit (humans w' y) = visit (humans w y)) →
  ret_ok p' (willReturn (humans w' h)) →
  (served p' (willReturn (humans w' h)) → visited (base h) (humans w' h)) →
  visit (humans w' h) = visit (humans w h) →
  visitsLeft w' = visitsLeft w - unfinished (pc w h) (willReturn (humans w h))
                  + unfinished p' (willReturn (humans w' h)) →
  pinv cf base w'.
Proof using Hcf.
  intros Hinv Hh Hc Hp' Hc' Hd Hab. intros. pose proof (i_pc cf base w Hinv) as Hpc.
  apply (pinv_move w w' h p'); try done; rewrite ?Hd.
  - done.
  - apply (i_dalign cf base w Hinv).
  - apply (i_owner cf base w Hinv).
  - apply (i_nodup cf base w Hinv).
  - intros y. case_decide as Hy; [|done]. subst y. rewrite Hpc. by split.
  - rewrite Hab. apply (i_abort cf base w Hinv).
  - unfold onto. by match goal with H : visit _ = visit _ |- _ => rewrite H end; apply (i_onto cf base).
Qed.

(** ** Changing hands *)

(** Code that changes nothing. *)
Definition pure {A} (m : prog A) : Prop := ∀ w, wlp m w (λ _ w', w' = w).

Lemma pure_ret {A} (a : A) : pure (mret a).
Proof. intros w. by apply wlp_ret. Qed.
Lemma pure_reads {A} (f : world → option A) : pure (reads f).
Proof. intros w. apply wlp_reads. by intros. Qed.
Lemma pure_walk {A} (f : world → option A) : pure (walk f).
Proof. intros w. by apply wlp_walk. Qed.
Lemma pure_undefined {A} : pure (undefined : prog A).
Proof. done. Qed.
Lemma pure_bind {A B} (m : prog A) (k : A → prog B) : pure m → (∀ a, pure (k a)) → pure (m ≫= k).
Proof. intros Hm Hk w. apply wlp_bind. eapply wlp_mono; [apply Hm|]. intros a ? ->. apply Hk. Qed.
Lemma pure_unlocked {A} locks g i a (m : prog A) : pure m → pure (unlocked locks g i a m).
Proof.
  intros Hm. unfold unlocked. case_match; [done|]. intros w. unfold glance, wlp. by destruct (m (g i w)).
Qed.

Create HintDb pure discriminated.
#[local] Hint Resolve pure_ret pure_reads pure_walk pure_undefined : pure.

Lemma pure_swap_condition locks g h now d : pure (swap_condition locks g h now d).
Proof.
  unfold swap_condition, queue_count, queue_at, get.
  repeat match goal with
  | |- pure (mbind _ _) => apply pure_bind
  | |- pure (unlocked _ _ _ _ _) => apply pure_unlocked
  | |- pure (let _ := _ in _) => cbv zeta
  | |- pure (match ?x with _ => _ end) => destruct x
  | |- ∀ _, pure _ => intros ?
  | |- pure _ => solve [eauto with pure]
  end.
Qed.

Definition swapped (w : world) : world :=
  set_dept (mkDept (if dalign (dept w) =? PIRATE then TO_NINJA else TO_PIRATE) (chairs (dept w))) w.

Lemma start_swap_spec locks g h now w :
  wlp (start_swap locks g h now) w (λ _ w',
    w' = w ∨ (dalign (dept w) = PIRATE ∨ dalign (dept w) = NINJA) ∧ w' = swapped w).
Proof.
  unfold start_swap, get. do 2 wlp_step. intros d [= <-].
  destruct ((dalign (dept w) =? PIRATE) || (dalign (dept w) =? NINJA)) eqn:Ed; [|wlp_step; by left].
  assert (dalign (dept w) = PIRATE ∨ dalign (dept w) = NINJA) as Hd.
  { apply orb_true_iff in Ed as [?%Z.eqb_eq|?%Z.eqb_eq]; auto. }
  wlp_step. eapply wlp_mono; [apply pure_swap_condition|]. intros due ? ->.
  destruct due; [|wlp_step; by left]. unfold put. wlp_step. intros ? [= <-]. by right.
Qed.

Lemma swapped_pinv w : pinv cf base w → dalign (dept w) = PIRATE ∨ dalign (dept w) = NINJA → pinv cf base (swapped w).
Proof.
  intros Hinv Hd. pose proof (i_owner cf base w Hinv) as Ho. destruct Hinv. split; try done; cbn.
  - destruct Hd as [-> | ->]; done.
  - intros x Hx. rewrite (Ho x Hx). by destruct Hd as [-> | ->].
Qed.

Lemma finish_pinv w : pinv cf base w → pinv cf base (set_dept (finish_swap (dept w)) w).
Proof.
  intros Hinv. unfold finish_swap.
  destruct (((dalign (dept w) =? TO_PIRATE) || (dalign (dept w) =? TO_NINJA)) && all_empty (dept w)) eqn:E.
  - apply andb_true_iff in E as [_ E]. pose proof (all_empty_seated _ E) as He. destruct Hinv.
    split; try done; cbn.
    + by case_match.
    + intros x Hx. rewrite He in Hx. by apply elem_of_nil in Hx.
  - destruct Hinv. by split.
Qed.

(** ** Entering and leaving *)

Lemma fight_none w h : (alignment (humans w h) = PIRATE ∨ alignment (humans w h) = NINJA) →
  (∀ x, x ∈ seated (chairs (dept w)) → alignment (humans w x) = alignment (humans w h)) → fight w h = false.
Proof.
  intros Ha H. unfold fight. induction (chairs (dept w)) as [|[c|] cs IH]; [done| |].
  - cbn [existsb]. destruct (hum c) as [x|] eqn:Ex.
    + rewrite (seated_cons_occ c x) in H by done. rewrite IH by (intros y Hy; apply H; by right).
      rewrite (H x) by left. unfold other_alignment. by destruct Ha as [-> | ->].
    + rewrite seated_cons_free in H by done. by apply IH.
  - by apply IH.
Qed.

Lemma team_cases w h : pinv cf base w → pc w h ≠ HNone →
  alignment (humans w h) = PIRATE ∨ alignment (humans w h) = NINJA.
Proof. intros Hinv Hh. rewrite (i_align cf base w Hinv h Hh). case_match; auto. Qed.

(** The state in which [hum] has its visit and its chair. *)
Definition sat (h now d : Z) (l : list visit_t) (w : world) : world :=
  set_dept (mkDept (dalign (dept w)) (seat h d now (chairs (dept w))))
    (set_human h (with_visit (Some (create_visit (current_wait_time (humans w h) now) d :: l)) (humans w h)) w).

Lemma sat_pinv w h now d l : pinv cf base w → visit (humans w h) = Some l → pc w h = HTry → dalign (dept w) = alignment (humans w h) →
  chair_free (dept w) = true → pinv cf base (set_pc h HCostume (sat h now d l w)).
Proof using Hcf.
  intros Hinv Hl Hpc Hd Hfree. pose proof (i_pc cf base w Hinv) as Hseat.
  destruct (i_onto cf base w Hinv h l Hl) as [made ->].
  pose proof (seat_seated h d now _ Hfree) as Hperm.
  assert (h ∉ seated (chairs (dept w))) as Hnew by (rewrite Hseat; congruence).
  assert (owner (dalign (dept w)) = dalign (dept w)) as Hown.
  { destruct (team_cases w h Hinv) as [E|E]; [congruence|..]; by rewrite Hd, E. }
  apply (pinv_move w _ h HCostume); try done; cbn.
  - congruence.
  - apply seat_shape.
  - apply (i_dalign cf base w Hinv).
  - intros y. rewrite Hperm. intros [->|Hy]%elem_of_cons; [by rewrite Hown|]. by apply (i_owner cf base w Hinv).
  - rewrite Hperm. apply NoDup_cons. split; [done|]. apply (i_nodup cf base w Hinv).
  - intros y. rewrite Hperm, elem_of_cons. case_decide as Hy; [naive_solver|]. naive_solver.
  - apply (i_abort cf base w Hinv).
  - intros y. destruct (decide (h = y)) as [<-|?]; [by rewrite fn_lookup_insert|by rewrite fn_lookup_insert_ne].
  - intros y Hy. by rewrite fn_lookup_insert_ne.
  - rewrite fn_lookup_insert. cbn. pose proof (i_ret cf base w Hinv h) as Hr. by rewrite Hpc in Hr.
  - intros _. rewrite fn_lookup_insert. by repeat eexists.
  - rewrite fn_lookup_insert. intros ? [= <-]. by eexists (_ :: made).
  - rewrite Hpc. cbn. lia.
Qed.

Lemma enter_pinv g w h now d : pinv cf base w → pc w h = HTry → dalign (dept w) = alignment (humans w h) →
  chair_free (dept w) = true →
  wlp (enter_department g h now d) w (λ ok w', ok = true ∧ pinv cf base (set_pc h HCostume w')).
Proof using Hcf.
  intros Hinv Hpc Hd Hfree. unfold enter_department, get. do 2 wlp_step. intros x [= <-].
  do 2 wlp_step. intros l Hl. pose proof (sat_pinv w h now d l Hinv Hl Hpc Hd Hfree) as Hsat.
  wlp_step. apply wlp_mono with (λ _ w', w' =
    set_human h (with_visit (Some (create_visit (current_wait_time (humans w h) now) d :: l)) (humans w h)) w).
  { destruct l; unfold upd, put; wlp_step; by intros ? [= <-]. }
  intros _ ? ->. unfold put. do 2 wlp_step. intros ? [= <-]. fold (sat h now d l w).
  do 2 wlp_step. intros f [= <-].
  assert (fight (sat h now d l w) h = false) as ->.
  { assert (∀ y, alignment (humans (sat h now d l w) y) = alignment (humans w y)) as Hal.
    { intros y. cbn. destruct (decide (h = y)) as [<-|?]; [by rewrite fn_lookup_insert|by rewrite fn_lookup_insert_ne]. }
    apply fight_none; [rewrite Hal; apply team_cases; [done|congruence]|].
    intros y Hy. pose proof (i_owner cf base _ Hsat y Hy) as Ho. cbn -[sat] in Ho. rewrite Ho, Hal. cbn. rewrite Hd.
    destruct (team_cases w h Hinv) as [E|E]; [congruence|..]; by rewrite E. }
  wlp_step. eapply wlp_mono; [apply start_swap_spec|]. intros _ w' [->|(Hd' & ->)]; wlp_step; split; try done.
  by apply (swapped_pinv (set_pc h HCostume (sat h now d l w))).
Qed.

(** The state in which [hum] has left its chair. *)
Definition stood (h : Z) (w : world) : world :=
  set_dept (mkDept (dalign (dept w)) (vacate h <$> chairs (dept w))) w.

Lemma stood_pinv w h : pinv cf base w → pc w h = HCostume → pinv cf base (set_pc h HReturn (stood h w)).
Proof using Hcf.
  intros Hinv Hpc. pose proof (i_pc cf base w Hinv) as Hseat.
  apply (pinv_move w _ h HReturn); try done; cbn.
  - congruence.
  - apply vacate_shape.
  - apply (i_dalign cf base w Hinv).
  - intros y. rewrite vacate_seated. intros [_ Hy]%list_elem_of_filter. by apply (i_owner cf base w Hinv).
  - rewrite vacate_seated. apply NoDup_filter, (i_nodup cf base w Hinv).
  - intros y. rewrite vacate_seated, list_elem_of_filter. case_decide; naive_solver.
  - apply (i_abort cf base w Hinv).
  - pose proof (i_ret cf base w Hinv h) as Hr. by rewrite Hpc in Hr.
  - intros _. apply (i_served cf base w Hinv). by rewrite Hpc.
  - apply (i_onto cf base w Hinv).
  - rewrite Hpc. cbn. lia.
Qed.

Lemma quiet_set_pc w w' h p : quiet w w' → quiet (set_pc h p w) (set_pc h p w').
Proof. intros []. apply mkQuiet; cbn; congruence. Qed.

Lemma leave_pinv g w h now : pinv cf base w → pc w h = HCostume →
  wlp (leave_department g h now) w (λ _ w', pinv cf base (set_pc h HReturn w')).
Proof using Hcf.
  intros Hinv Hpc. pose proof (stood_pinv w h Hinv Hpc) as Hst. unfold leave_department, put, get.
  do 2 wlp_step. intros ? [= <-]. fold (stood h w).
  wlp_step. apply wlp_mono with (λ _ w', pinv cf base (set_pc h HReturn w')).
  { eapply wlp_mono; [apply start_swap_spec|]. cbn. intros _ w' [->|(Hd' & ->)]; [done|].
    by apply (swapped_pinv (set_pc h HReturn (stood h w))). }
  intros _ w1 H1. do 2 wlp_step. intros ? [= <-]. apply finish_pinv in H1.
  do 2 wlp_step. intros a [= <-]. wlp_step. eapply wlp_mono; [apply quiet_queue_at|].
  intros q w2 Hq. apply (quiet_set_pc _ _ h HReturn) in Hq.
  assert (is_quiet (match q with Some x => sem_post x | None => mret tt end)) as Hm by solve_quiet.
  eapply wlp_mono; [apply Hm|]. intros u w3 H3; cbn beta in H3. apply (quiet_set_pc _ _ h HReturn) in H3.
  eapply quiet_pinv; [exact H3|]. eapply quiet_pinv; [exact Hq|exact H1].
Qed.

(** ** The threads *)

Definition keeps_inv (w : world) (r : option (outcome msg world unit)) : Prop :=
  match r with Some (Done _ w' _) => pinv cf base w' | _ => True end.

Lemma wlp_keeps w (m : prog unit) : wlp m w (λ _ w', pinv cf base w') → keeps_inv w (Some (m w)).
Proof. unfold wlp, keeps_inv. by destruct (m w). Qed.

Section threads.
Context (g : glimpse) (w : world) (h now d : Z) (r : bool).
Hypothesis Hinv : pinv cf base w.

(** Close the goals about the other humans after an update of [h]. *)
Ltac others :=
  intros y; destruct (decide (h = y)) as [<-|?]; [by rewrite fn_lookup_insert|by rewrite fn_lookup_insert_ne].

(** Unfold the piece of [human_main] at [pc w h], with the invariant there. *)
Ltac at_pc :=
  match goal with
  | Hpc : pc w h = _ |- _ =>
      unfold human_step; rewrite Hpc;
      pose proof (i_ret cf base w Hinv h) as Hr; rewrite Hpc in Hr; simpl in Hr;
      pose proof (i_served cf base w Hinv h) as Hsv; rewrite Hpc in Hsv; simpl in Hsv
  end.

Lemma top_pinv : pc w h = HTop → keeps_inv w (human_step g h now d r w).
Proof using Hcf Hinv.
  intros Hpc. at_pc.
  apply wlp_keeps. destruct (Z.eqb_spec (willReturn (humans w h)) 0) as [E|E]; unfold put, upd.
  - wlp_step. intros ? [= <-]. apply (pinv_walk w _ h HDone); try done; try congruence.
    + by intros _; apply Hsv.
    + cbn. rewrite Hpc. cbn. rewrite E. cbn. lia.
  - unfold put. do 2 wlp_step. intros ? [= <-]. wlp_step. intros ? [= <-].
    apply (pinv_walk w _ h HQueue); try done; try congruence; cbn.
    + others.
    + intros y Hy. by rewrite fn_lookup_insert_ne.
    + rewrite fn_lookup_insert. cbn. lia.
    + by rewrite fn_lookup_insert.
    + rewrite Hpc. cbn. destruct (Z.eqb_spec (willReturn (humans w h)) 0); [done|lia].
Qed.

Lemma queue_pinv : pc w h = HQueue → keeps_inv w (human_step g h now d r w).
Proof using Hcf Hinv.
  intros Hpc. at_pc.
  apply wlp_keeps. eapply wlp_mono; [apply quiet_join_queue|]. intros u ? (w3 & Hq & ->).
  apply (pinv_walk w _ h HWait); try done; try congruence; cbn; destruct Hq; try congruence.
  - intros y. by rewrite q_pc.
  - intros y _. by rewrite q_ret, q_visit.
  - rewrite Hpc, q_left. cbn. lia.
Qed.

Lemma wait_pinv : pc w h = HWait → keeps_inv w (human_step g h now d r w).
Proof using Hcf Hinv.
  intros Hpc. at_pc.
  case_match; [|done]. apply wlp_keeps. unfold upd, put. do 2 wlp_step. intros ? [= <-].
  wlp_step. intros ? [= <-]. apply (pinv_walk w _ h HTry); try done; try congruence; cbn.
  - others.
  - intros y Hy. by rewrite fn_lookup_insert_ne.
  - by rewrite fn_lookup_insert.
  - by rewrite fn_lookup_insert.
  - rewrite Hpc. cbn. lia.
Qed.

Lemma try_pinv : pc w h = HTry → keeps_inv w (human_step g h now d r w).
Proof using Hcf Hinv.
  intros Hpc. at_pc.
  apply wlp_keeps. destruct ((dalign (dept w) =? alignment (humans w h)) && chair_free (dept w)) eqn:E.
  - apply andb_true_iff in E as [Ed%Z.eqb_eq Hfree].
    wlp_step. eapply wlp_mono; [apply quiet_dequeue_human|]. intros u w1 H1.
    pose proof (quiet_pinv cf base _ _ H1 Hinv) as Hinv1.
    wlp_step. eapply wlp_mono; [apply enter_pinv; [exact Hinv1|..]; destruct H1; congruence|].
    intros ok w2 [-> H2]. unfold put. wlp_step. by intros ? [= <-].
  - unfold put. wlp_step. intros ? [= <-]. apply (pinv_walk w _ h HWait); try done; try congruence; cbn.
    rewrite Hpc. cbn. lia.
Qed.

Lemma costume_pinv : pc w h = HCostume → keeps_inv w (human_step g h now d r w).
Proof using Hcf Hinv.
  intros Hpc. unfold human_step. rewrite Hpc.
  apply wlp_keeps. wlp_step. eapply wlp_mono; [by apply leave_pinv|]. intros u w1 H1. unfold put. wlp_step.
  by intros ? [= <-].
Qed.

Lemma return_pinv : pc w h = HReturn → keeps_inv w (human_step g h now d r w).
Proof using Hcf Hinv.
  intros Hpc. at_pc.
  apply wlp_keeps. wlp_step. destruct r; unfold upd, put.
  - wlp_step. intros ? [= <-]. wlp_step. intros ? [= <-]. apply (pinv_walk w _ h HTop); try done; try congruence; cbn.
    + others.
    + intros y Hy. by rewrite fn_lookup_insert_ne.
    + rewrite fn_lookup_insert. cbn. lia.
    + intros _. rewrite fn_lookup_insert. cbn. by apply Hsv.
    + by rewrite fn_lookup_insert.
    + rewrite Hpc, fn_lookup_insert. cbn. destruct (Z.eqb_spec (willReturn (humans w h) + 1) 0); lia.
  - wlp_step. intros ? [= <-]. wlp_step. intros ? [= <-]. apply (pinv_walk w _ h HTop); try done; try congruence; cbn.
    + rewrite Hr. lia.
    + intros _. by apply Hsv.
    + rewrite Hpc, Hr. cbn. lia.
Qed.

Lemma human_step_pinv : keeps_inv w (human_step g h now d r w).
Proof using Hcf Hinv.
  destruct (pc w h) eqn:Hpc; [unfold human_step; by rewrite Hpc|..|unfold human_step; by rewrite Hpc];
    auto using top_pinv, queue_pinv, wait_pinv, try_pinv, costume_pinv, return_pinv.
Qed.
End threads.

Lemma rtc_pinv w w' : pinv cf base w → rtc step w w' → pinv cf base w'.
Proof using Hcf.
  intros Hinv H. revert Hinv. induction H as [|w w1 w2 [g h now d r w3 w4 o _ _ _ E] _ IH]; [done|].
  intros Hinv. apply IH. pose proof (human_step_pinv g w3 h now d r Hinv) as Hk. by rewrite E in Hk.
Qed.
End steps.
