(* ===== verification/PiratesStart.v ===== *)
(** * Pirates and ninjas: the state [main] sets up *)

From S2P Require Import Prelude Queue CString Pirates PiratesInv PiratesSteps.

Section start.
Context (cf : config) (Hcf : config_ok cf) (garbage : Z → Z * option (list visit_t)).

(** The humans that exist after [k] iterations. *)
Definition created (k h : Z) : Prop := 0 ≤ h < k `min` numPirates cf ∨ 50 ≤ h < 50 + k `min` numNinjas cf.

#[local] Instance created_dec k h : Decision (created k h).
Proof. unfold created. apply _. Defined.

(** The human [create_human] makes. *)
Definition newborn (h : Z) : human_t :=
  if h <? 50 then create_human h PIRATE (avgPCostume cf) (avgPAdventure cf) (garbage h)
  else create_human h NINJA (avgNCostume cf) (avgNAdventure cf) (garbage h).

(** The second [else] branch of the loop clears an entry of [pirates]. *)
Record spawned (k : Z) (w0 w : world) : Prop := {
  s_pc : ∀ h, pc w h = if decide (created k h) then HTop else HNone;
  s_humans : ∀ h, created k h → humans w h = newborn h;
  s_others : ∀ h, ¬ created k h → humans w h = humans w0 h;
  s_pirates : zlen (pirates w) = 50 ∧
    ∀ i, 0 ≤ i < k → zget (pirates w) i =
      Some (if decide (i < numPirates cf ∧ i < numNinjas cf) then Some i else None);
  s_ninjas : zlen (ninjas w) = 50 ∧
    ∀ i, 0 ≤ i < k `min` numNinjas cf → zget (ninjas w) i = Some (Some (i + 50));
  s_rest : dept w = dept w0 ∧ visitsLeft w = visitsLeft w0 ∧ queue w = queue w0 ∧ aborted w = aborted w0;
}.

Lemma set_array i o (arr : world → list (option Z)) (setter : list (option Z) → world → world) w
    (Q : unit → world → Prop) :
  0 ≤ i < zlen (arr w) → (∀ l, zset (arr w) i o = Some l → Q tt (setter l w)) →
  wp (modifies (λ w, l ← zset (arr w) i o; Some (setter l w)) : prog unit) w Q.
Proof.
  intros Hi HQ. destruct (zset (arr w) i o) as [l|] eqn:E; [|by apply zset_None in E].
  eapply wp_modifies; [by rewrite E|]. by apply HQ.
Qed.

(** The part of an iteration for the pirate number [i]. *)
Lemma spawn_pirate k w0 w : spawned k w0 w → 0 ≤ k < 50 →
  wp (if k <? numPirates cf then
        _ ← modifies (λ w, l ← zset (pirates w) k (Some k); Some (set_pirates l w));
        _ ← put (set_human k (create_human k PIRATE (avgPCostume cf) (avgPAdventure cf) (garbage k)));
        put (set_pc k HTop)
      else modifies (λ w, l ← zset (pirates w) k None; Some (set_pirates l w))) w
    (λ _ w1,
      (∀ h, pc w1 h = if decide (created k h ∨ h = k ∧ k < numPirates cf) then HTop else HNone) ∧
      (∀ h, created k h ∨ h = k ∧ k < numPirates cf → humans w1 h = newborn h) ∧
      (∀ h, ¬ (created k h ∨ h = k ∧ k < numPirates cf) → humans w1 h = humans w0 h) ∧
      zset (pirates w) k (if decide (k < numPirates cf) then Some k else None) = Some (pirates w1) ∧
      ninjas w1 = ninjas w ∧
      dept w1 = dept w ∧ visitsLeft w1 = visitsLeft w ∧ queue w1 = queue w ∧ aborted w1 = aborted w).
Proof.
  intros [Hpc Hh Ho [Hpl Hp] Hn Hrest] Hk. destruct (Z.ltb_spec k (numPirates cf)) as [Hlt|Hge].
  - wp_step. apply set_array; [lia|]. intros l Hl. wp_step. unfold put. eapply wp_modifies; [done|].
    eapply wp_modifies; [done|]. cbn. split_and!; try done.
    + intros h. destruct (decide (h = k)) as [->|Hne].
      * rewrite fn_lookup_insert, decide_True; auto.
      * rewrite fn_lookup_insert_ne, Hpc by done. apply decide_ext. naive_solver.
    + intros h. destruct (decide (h = k)) as [->|Hne].
      * intros _. rewrite fn_lookup_insert. unfold newborn. destruct (Z.ltb_spec k 50); [done|lia].
      * rewrite fn_lookup_insert_ne by done. intros [?|[? _]]; [by apply Hh|done].
    + intros h Hn'. rewrite fn_lookup_insert_ne by naive_solver. apply Ho. naive_solver.
    + rewrite decide_True by done. done.
  - apply set_array; [lia|]. intros l Hl. cbn. split_and!; try done.
    + intros h. rewrite Hpc. apply decide_ext. naive_solver lia.
    + intros h [?|[? ?]]; [by apply Hh|lia].
    + intros h Hn'. apply Ho. naive_solver.
    + rewrite decide_False by lia. done.
Qed.

Lemma created_succ k h : 0 ≤ k < 50 → created (k + 1) h ↔
  (created k h ∨ h = k ∧ k < numPirates cf) ∨ h = k + 50 ∧ k < numNinjas cf.
Proof. intros ?. unfold created. lia. Qed.

Lemma spawn_ok k w0 w : spawned k w0 w → 0 ≤ k < 50 → wp (spawn cf garbage k) w (λ _ w', spawned (k + 1) w0 w').
Proof using Hcf.
  intros Hs Hk. pose proof Hs as [Hpc Hh Ho [Hpl Hp] [Hnl Hn] (Hd & Hv & Hq & Ha)].
  unfold spawn. wp_step. eapply wp_mono; [by apply (spawn_pirate k w0)|].
  intros _ w1 (Hpc1 & Hh1 & Ho1 & Hp1 & Hn1 & Hd1 & Hv1 & Hq1 & Ha1). cbn beta.
  pose proof (zset_zlen _ _ _ _ Hp1) as Hlen1.
  destruct (Z.ltb_spec k (numNinjas cf)) as [Hlt|Hge].
  - wp_step. apply set_array; [rewrite Hn1; lia|]. intros l Hl. rewrite Hn1 in Hl. wp_step. unfold put.
    eapply wp_modifies; [done|]. eapply wp_modifies; [done|]. split; cbn.
    + intros h. destruct (decide (h = k + 50)) as [->|Hne].
      * rewrite fn_lookup_insert, decide_True; [done|]. apply created_succ; auto.
      * rewrite fn_lookup_insert_ne, Hpc1 by done. apply decide_ext. rewrite created_succ by lia. naive_solver.
    + intros h. rewrite created_succ by lia. destruct (decide (h = k + 50)) as [->|Hne].
      * intros _. rewrite fn_lookup_insert. unfold newborn. destruct (Z.ltb_spec (k + 50) 50); [lia|done].
      * rewrite fn_lookup_insert_ne by done. intros [?|[? _]]; [by apply Hh1|done].
    + intros h. rewrite created_succ by lia. intros Hn'. rewrite fn_lookup_insert_ne by naive_solver.
      apply Ho1. naive_solver.
    + split; [lia|]. intros i Hi. rewrite (zget_zset _ _ _ _ _ Hp1). destruct (decide (k = i)) as [Hki|Hki].
      * subst i. f_equal. repeat case_decide; naive_solver.
      * apply Hp. lia.
    + split; [rewrite (zset_zlen _ _ _ _ Hl); lia|]. intros i Hi. rewrite (zget_zset _ _ _ _ _ Hl).
      destruct (decide (k = i)) as [Hki|Hki]; [by subst|]. apply Hn. lia.
    + split_and!; congruence.
  - apply set_array; [lia|]. intros l Hl. pose proof (zset_zset _ _ _ None _ Hp1) as Hz. rewrite Hl in Hz.
    symmetry in Hz. split; cbn.
    + intros h. rewrite Hpc1. apply decide_ext. rewrite created_succ by lia. naive_solver lia.
    + intros h. rewrite created_succ by lia. intros [?|[? ?]]; [by apply Hh1|lia].
    + intros h. rewrite created_succ by lia. intros Hn'. apply Ho1. naive_solver.
    + split; [rewrite (zset_zlen _ _ _ _ Hz); lia|]. intros i Hi. rewrite (zget_zset _ _ _ _ _ Hz).
      destruct (decide (k = i)) as [Hki|Hki]; [subst i; f_equal; by rewrite decide_False by lia|]. apply Hp. lia.
    + rewrite Hn1. split; [lia|]. intros i Hi. apply Hn. lia.
    + split_and!; congruence.
Qed.

(** [startup] succeeds, and this is the state it leaves. *)
Lemma startup_ok coin now :
  wp (startup cf coin now garbage) blank (λ _ w,
    spawned 50 (set_dept (init_department (if coin then PIRATE else NINJA) (numChairs cf) now)
                 (set_visitsLeft (numPirates cf + numNinjas cf) blank)) w).
Proof using Hcf.
  unfold startup, put. wp_step. eapply wp_modifies; [done|]. wp_step. eapply wp_modifies; [done|].
  set (w0 := set_dept _ _). eapply wp_mono.
  - apply (wp_for_do _ _ _ (λ l, spawned (Z.of_nat (length l)) w0)).
    + split; cbn.
      * intros h. rewrite decide_False; [done|]. unfold created. lia.
      * unfold created. intros h ?. lia.
      * done.
      * split; [done|]. lia.
      * split; [done|]. lia.
      * done.
    + intros l1 i l2 s1 Hl Hs1.
      pose proof (f_equal (λ l, l !! length l1) Hl) as E. simpl in E.
      rewrite list_lookup_middle in E by done. apply lookup_seqZ in E as [-> Hlt].
      rewrite length_app. cbn [length]. replace (Z.of_nat (length l1 + 1)) with (Z.of_nat (length l1) + 1) by lia.
      apply spawn_ok; [done|lia].
  - intros u w H. cbn beta in H. by rewrite length_seqZ in H.
Qed.

Lemma started_spawned w : started cf garbage w →
  ∃ (coin : bool) (now : Z), spawned 50 (set_dept (init_department (if coin then PIRATE else NINJA) (numChairs cf) now)
                (set_visitsLeft (numPirates cf + numNinjas cf) blank)) w.
Proof using Hcf.
  intros (coin & now & o & E). exists coin, now. exact (wp_det _ _ _ _ _ _ (startup_ok coin now) E).
Qed.

Lemma seated_new (f : Z → bool) now l :
  seated ((λ i, if f i then Some (create_chair now) else None) <$> l) = [].
Proof.
  induction l as [|i l IH]; [done|]. rewrite fmap_cons. destruct (f i); [|done].
  by rewrite seated_cons_free.
Qed.

Lemma zsum_one f l : (∀ x, x ∈ l → f x = 1) → zsum f l = zlen l.
Proof.
  intros H. rewrite (zsum_ext f (λ _, 1)) by done. clear H. unfold zlen. induction l as [|x l IH]; [done|].
  rewrite zsum_cons, IH. cbn [length]. lia.
Qed.

Lemma elem_of_ids h : h ∈ ids cf ↔ created 50 h.
Proof using Hcf.
  destruct Hcf as (_ & ? & ? & _). unfold ids, created. rewrite elem_of_app, !elem_of_seqZ. lia.
Qed.

Lemma newborn_align h : alignment (newborn h) = if h <? 50 then PIRATE else NINJA.
Proof. unfold newborn. by case_match. Qed.

Lemma newborn_ret h : willReturn (newborn h) = 1.
Proof. unfold newborn. by case_match. Qed.

Lemma newborn_visit h : visit (newborn h) = (garbage h).2.
Proof. unfold newborn. by case_match. Qed.

Lemma newborn_next h : next (newborn h) = None.
Proof. unfold newborn. by case_match. Qed.

Lemma started_pinv w : started cf garbage w → pinv cf (left_over garbage) w.
Proof using Hcf.
  intros (coin & now & [Hpc Hh Ho _ _ (Hd & Hv & _ & Ha)])%started_spawned.
  assert (seated (chairs (dept w)) = []) as Hseat by (rewrite Hd; apply seated_new).
  assert (∀ h, pc w h = HTop ↔ created 50 h) as Htop by (intros h; rewrite Hpc; by case_decide).
  assert (∀ h, pc w h ≠ HNone ↔ created 50 h) as Hnone by (intros h; rewrite Hpc; by case_decide).
  split; rewrite ?Hseat.
  - rewrite Hd. unfold shape. cbn -[seqZ]. rewrite <-list_fmap_compose. apply list_fmap_ext. intros _ i _.
    unfold compose. by destruct (i <? numChairs cf).
  - rewrite Hd. by destruct coin.
  - intros x Hx. by apply elem_of_nil in Hx.
  - constructor.
  - intros x. rewrite Hpc. case_decide; split; try done; intros Hx; by apply elem_of_nil in Hx.
  - intros h Hc%Hnone. rewrite Hh by done. apply newborn_align.
  - by rewrite Ha.
  - intros h. by rewrite Hnone, elem_of_ids.
  - intros h. rewrite Hpc. case_decide; [|done]. rewrite Hh by done. cbn. rewrite newborn_ret. lia.
  - rewrite Hv. cbn. rewrite zsum_one.
    + unfold zlen, ids. rewrite length_app, !length_seqZ. destruct Hcf as (_ & ? & ? & _). lia.
    + intros h Hx%elem_of_ids. rewrite (proj2 (Htop h) Hx), Hh by done. cbn. by rewrite newborn_ret.
  - intros h. rewrite Hpc. case_decide; [|done]. rewrite Hh by done. cbn. by rewrite newborn_ret.
  - intros h l. destruct (decide (created 50 h)) as [Hc|Hc]; [|by rewrite Ho].
    rewrite Hh, newborn_visit by done. unfold left_over. intros ->. by exists [].
Qed.

Lemma reachable_pinv w : reachable cf garbage w → pinv cf (left_over garbage) w.
Proof using Hcf. intros (w0 & H0%started_pinv & H). by eapply rtc_pinv. Qed.
End start.
