(* ===== verification/PiratesLost.v ===== *)
(** * Pirates and ninjas: who can be reached through the queues

    The threads of a set [P] of humans only ever touch members of [P], as long as
    the queues and the links mention nobody else.  With the humans that exist as
    [P] this says that no pointer dangles; with everybody but one human it says that
    a human the queues have lost is never woken up. *)

From S2P Require Import Prelude Queue CString Pirates PiratesInv PiratesSteps.

Record confined (P : Z → Prop) (w0 w : world) : Prop := mkConfined {
  c_queue : ∀ a x, 0 ≤ a < 2 → queue w a = Some x → P x;
  c_next : ∀ x y, next (humans w x) = Some y → P x ∧ P y;
  c_same : ∀ x, ¬ P x → humans w x = humans w0 x ∧ pc w x = pc w0 x;
  c_arrays : pirates w = pirates w0 ∧ ninjas w = ninjas w0;
}.

Section confined.
Context (P : Z → Prop) (w0 : world).

Definition stays_in {A} (m : prog A) (Q : A → Prop) : Prop :=
  ∀ w, confined P w0 w → wlp m w (λ a w', Q a ∧ confined P w0 w').

Lemma in_ret {A} (a : A) (Q : A → Prop) : Q a → stays_in (mret a) Q.
Proof. intros HQ w H. by apply wlp_ret. Qed.
Lemma in_emit e : stays_in (emit e) (λ _, True).
Proof. intros w H. by apply wlp_emit. Qed.
Lemma in_bind {A B} (m : prog A) (k : A → prog B) (Q : A → Prop) (R : B → Prop) :
  stays_in m Q → (∀ a, Q a → stays_in (k a) R) → stays_in (m ≫= k) R.
Proof.
  intros Hm Hk w H. apply wlp_bind. eapply wlp_mono; [by apply Hm|]. intros a w1 [? ?]. by apply Hk.
Qed.
Lemma in_reads {A} (f : world → option A) : stays_in (reads f) (λ _, True).
Proof. intros w H. apply wlp_reads. by intros. Qed.
Lemma in_put f : (∀ w, confined P w0 w → confined P w0 (f w)) → stays_in (put f) (λ _, True).
Proof. intros Hf w H. apply wlp_modifies. intros ? [= <-]. split; [done|]. by apply Hf. Qed.

(** What the code reads from the queues. *)
Lemma in_queue_at a : stays_in (queue_at a) (λ q, ∀ x, q = Some x → P x).
Proof.
  intros w H. apply wlp_reads. intros q. case_decide as Ha; [|done]. intros [= <-]. split; [|done].
  intros x. by apply (c_queue P w0 w H).
Qed.
Lemma in_get_next x : stays_in (get (λ w, next (humans w x))) (λ n, ∀ y, n = Some y → P y).
Proof.
  intros w H. apply wlp_reads. intros n [= <-]. split; [|done]. intros y Hy.
  by apply (c_next P w0 w H x).
Qed.
Lemma in_crawl fuel x : P x → stays_in (walk (λ w, crawl fuel (λ y, next (humans w y)) x)) P.
Proof.
  intros Hx w H. apply wlp_walk. intros cur Hc. split; [|done]. revert x Hx Hc.
  induction fuel as [|fuel IH]; intros x Hx; cbn; [done|].
  destruct (next (humans w x)) as [y|] eqn:E; [|by intros [= <-]]. apply IH. by apply (c_next P w0 w H x).
Qed.

(** What it writes. *)
Lemma confined_human y x w : confined P w0 w → P y → (∀ z, next x = Some z → P z) →
  confined P w0 (set_human y x w).
Proof.
  intros [] Hy Hx. split; cbn; [done| | |done].
  - intros z. destruct (decide (y = z)) as [<-|?]; [rewrite fn_lookup_insert|rewrite fn_lookup_insert_ne by done]; auto.
  - intros z Hz. rewrite fn_lookup_insert_ne by congruence. auto.
Qed.
Lemma confined_queue a x w : confined P w0 w → (∀ y, x = Some y → P y) → confined P w0 (set_queue a x w).
Proof.
  intros [] Hx. split; cbn; [|done..]. intros b y Hb.
  destruct (decide (a = b)) as [<-|?]; [rewrite fn_lookup_insert|rewrite fn_lookup_insert_ne by done]; eauto.
Qed.
Lemma confined_pc y p w : confined P w0 w → P y → confined P w0 (set_pc y p w).
Proof. intros [] Hy. split; cbn; [done..| |done]. intros x Hx. rewrite fn_lookup_insert_ne by congruence. auto. Qed.
Lemma confined_dept d w : confined P w0 w → confined P w0 (set_dept d w).
Proof. by intros []. Qed.

Lemma in_upd y f : P y → (∀ x, next (f x) = next x) → stays_in (upd y f) (λ _, True).
Proof.
  intros Hy Hf. apply in_put. intros w H. apply confined_human; [done..|]. intros z. rewrite Hf.
  apply (c_next P w0 w H y).
Qed.
Lemma in_link y n : P y → (∀ z, n = Some z → P z) → stays_in (upd y (with_next n)) (λ _, True).
Proof. intros Hy Hn. apply in_put. intros w H. by apply confined_human. Qed.
Lemma in_pc y p : P y → stays_in (put (set_pc y p)) (λ _, True).
Proof. intros Hy. apply in_put. intros w H. by apply confined_pc. Qed.
Lemma in_wake q : (∀ x, q = Some x → P x) →
  stays_in (match q with Some x => sem_post x | None => mret tt end) (λ _, True).
Proof. intros Hq. destruct q as [x|]; [|by apply in_ret]. apply in_upd; [by apply Hq|done]. Qed.

(** ** The operations *)

Lemma in_queue_human y now : P y → stays_in (queue_human y now) (λ _, True).
Proof.
  intros Hy. unfold queue_human. eapply in_bind; [by apply in_upd|]. intros _ _.
  eapply in_bind; [apply in_reads|]. intros a _. eapply in_bind; [apply in_queue_at|]. intros [r|] Hr.
  - eapply in_bind; [apply in_crawl; by apply Hr|]. intros cur Hcur. apply in_link; [done|]. by intros z [= <-].
  - apply in_put. intros w H. apply confined_queue; [done|]. by intros z [= <-].
Qed.

Lemma in_dequeue_human a : stays_in (dequeue_human a) (λ _, True).
Proof.
  unfold dequeue_human. eapply in_bind; [apply in_queue_at|]. intros q Hq. eapply in_bind.
  - instantiate (1 := λ _, True). destruct q as [tmp|]; [|by apply in_ret].
    eapply in_bind; [apply in_get_next|]. intros n Hn.
    eapply in_bind; [apply in_put; intros w H; by apply confined_queue|].
    intros _ _. apply in_link; [by apply Hq|done].
  - intros _ _. eapply in_bind; [apply in_queue_at|]. intros q' Hq'. by apply in_wake.
Qed.

Lemma in_start_swap locks g y now : stays_in (start_swap locks g y now) (λ _, True).
Proof.
  intros w H. eapply wlp_mono; [apply start_swap_spec|].
  intros _ w' [->|(_ & ->)]; split; try done. by apply confined_dept.
Qed.

Lemma in_enter g y now d : P y → stays_in (enter_department g y now d) (λ _, True).
Proof.
  intros Hy. unfold enter_department, get. eapply in_bind; [apply in_reads|]. intros x _.
  eapply in_bind; [apply in_reads|]. intros l _. eapply in_bind; [destruct l; by apply in_upd|].
  intros _ _. eapply in_bind; [apply in_put; intros; by apply confined_dept|]. intros _ _.
  eapply in_bind; [apply in_reads|]. intros [|] _.
  - eapply in_bind; [apply in_emit|]. intros _ _. eapply in_bind; [|intros _ _; by apply in_ret].
    apply in_put. by intros w [].
  - eapply in_bind; [apply in_start_swap|]. intros _ _. by apply in_ret.
Qed.

Lemma in_leave g y now : stays_in (leave_department g y now) (λ _, True).
Proof.
  unfold leave_department, get. eapply in_bind; [apply in_put; intros; by apply confined_dept|].
  intros _ _. eapply in_bind; [apply in_start_swap|]. intros _ _.
  eapply in_bind; [apply in_put; intros; by apply confined_dept|]. intros _ _.
  eapply in_bind; [apply in_reads|]. intros a _. eapply in_bind; [apply in_queue_at|]. intros q Hq.
  by apply in_wake.
Qed.

(** ** The threads *)

Definition step_in (r : option (outcome msg world unit)) : Prop :=
  match r with Some (Done _ w' _) => confined P w0 w' | _ => True end.

Lemma stays_step w (m : prog unit) Q : stays_in m Q → confined P w0 w → step_in (Some (m w)).
Proof. intros Hm H. specialize (Hm w H). unfold wlp in Hm. unfold step_in. destruct (m w); naive_solver. Qed.

Lemma human_step_in g y now d r w : P y → confined P w0 w → step_in (human_step g y now d r w).
Proof.
  intros Hy H. unfold human_step. destruct (pc w y); try done.
  - eapply (stays_step _ _ (λ _, True)); [|done]. case_match; [by apply in_pc|].
    eapply in_bind; [by apply in_upd|]. intros _ _. by apply in_pc.
  - eapply stays_step; [|done]. eapply in_bind; [apply in_reads|]. intros a _.
    eapply in_bind; [by apply in_queue_human|]. intros _ _. eapply in_bind; [apply in_queue_at|]. intros q Hq. eapply in_bind; [|intros _ _; by apply in_pc].
    instantiate (1 := λ _, True). case_decide; [by apply in_upd|by apply in_ret].
  - case_match; [|done]. eapply stays_step; [|done]. eapply in_bind; [by apply in_upd|]. intros _ _. by apply in_pc.
  - eapply (stays_step _ _ (λ _, True)); [|done]. case_match; [|by apply in_pc].
    eapply in_bind; [apply in_dequeue_human|]. intros _ _.
    eapply in_bind; [by apply in_enter|]. intros [|] _; [by apply in_pc|by apply in_ret].
  - eapply stays_step; [|done]. eapply in_bind; [apply in_leave|]. intros _ _. by apply in_pc.
  - eapply stays_step; [|done]. eapply in_bind; [|intros _ _; by apply in_pc].
    instantiate (1 := λ _, True). destruct r; [by apply in_upd|]. apply in_put. by intros w' [].
Qed.
End confined.

(** Threads outside [P] that cannot move stay where they are. *)
Lemma confined_rtc P w0 w w' :
  (∀ x, P x ∨ ¬ P x) →
  (∀ g y now d r w, ¬ P y → confined P w0 w → human_step g y now d r w = None) →
  confined P w0 w → rtc step w w' → confined P w0 w'.
Proof.
  intros Hdec Hblocked Hc H. revert Hc. induction H as [|w w1 w2 [g y now d r w3 w4 o _ _ _ E] _ IH]; [done|].
  intros Hc. apply IH. destruct (Hdec y) as [Hy|Hy].
  - pose proof (human_step_in P w0 g y now d r w3 Hy Hc) as Hk. by rewrite E in Hk.
  - by rewrite (Hblocked g y now d r w3 Hy Hc) in E.
Qed.

(** ** A lost human *)

(** [h] waits for a token, and no queue and no link mentions it. *)
Definition lost (h : Z) (w : world) : Prop :=
  pc w h = HWait ∧ sem (humans w h) = 0 ∧ confined (λ x, x ≠ h) w w.

Lemma lost_forever h w w' : lost h w → rtc step w w' → pc w' h = HWait ∧ sem (humans w' h) = 0.
Proof.
  intros (Hpc & Hsem & Hc) H.
  assert (confined (λ x, x ≠ h) w w') as [_ _ Hs _].
  { apply (confined_rtc _ w w w'); try done; [intros x; destruct (decide (x = h)); tauto|].
    intros g y now d r w1 Hy [_ _ Hs _]. destruct (Hs y Hy) as [Eh Epc]. assert (y = h) as -> by lia.
    unfold human_step. by rewrite Epc, Hpc, Eh, Hsem. }
  destruct (Hs h) as [-> ->]; auto.
Qed.
