(* ===== verification/PiratesRuns.v ===== *)
(** * Pirates and ninjas: reachable states and runs *)

From S2P Require Import Prelude Queue CString Pirates PiratesInv PiratesSteps PiratesStart PiratesLost.
From Stdlib Require Import QArith Qround.
#[local] Open Scope Z_scope.

(** ** The draws of [norm_dist] *)

Lemma norm_dist_pos zs mean sd v : norm_dist zs mean sd = Some v → (0 < v)%Q.
Proof.
  induction zs as [|z zs IH]; cbn; [done|]. destruct (Qle_bool (z * sd + mean) 0) eqn:E; [done|].
  intros [= <-]. apply Qnot_le_lt. intros H. apply Qle_bool_iff in H. congruence.
Qed.

Lemma drawn_nonneg mean d : drawn mean d → 0 ≤ d.
Proof.
  intros (zs & v & Hv%norm_dist_pos & ->). change 0 with (Qfloor 0). apply Qfloor_resp_le.
  by apply Qlt_le_weak.
Qed.

(** Every whole number of seconds can be drawn. *)
Lemma drawn_any mean d : 0 ≤ d → drawn mean d.
Proof.
  intros Hd. exists [(inject_Z (d - mean) + (1 # 2)) / 2]%Q, ((inject_Z (d - mean) + (1 # 2)) / 2 * 2 + inject_Z mean)%Q.
  assert (((inject_Z (d - mean) + (1 # 2)) / 2 * 2 + inject_Z mean == inject_Z d + (1 # 2))%Q) as E.
  { unfold Zminus. rewrite inject_Z_plus, inject_Z_opp. field. }
  split.
  - cbn [norm_dist]. change (inject_Z STD_DEV) with 2%Q. destruct (Qle_bool _ 0) eqn:El; [|done].
    apply Qle_bool_iff in El. rewrite E in El. exfalso. apply (Qlt_not_le 0 (inject_Z d + (1 # 2))); [|done].
    apply Qlt_le_trans with (inject_Z 0 + (1 # 2))%Q; [done|]. apply Qplus_le_l. by rewrite <-Zle_Qle.
  - rewrite (Qfloor_comp _ _ E). unfold Qfloor. cbn. apply Z.div_unique with 1; lia.
Qed.

Section reachable.
Context (cf : config) (Hcf : config_ok cf) (garbage : Z → Z * option (list visit_t)).

Lemma reachable_step w w' : reachable cf garbage w → step w w' → reachable cf garbage w'.
Proof. intros (w0 & H0 & H) Hs. exists w0. split; [done|]. by eapply rtc_r. Qed.

(** Nothing points outside the humans that exist. *)
Lemma reachable_closed w : reachable cf garbage w → ∃ w0, started cf garbage w0 ∧ confined (λ x, x ∈ ids cf) w0 w.
Proof using Hcf.
  intros (w0 & H0 & H). exists w0. split; [done|].
  destruct (started_spawned cf Hcf garbage w0 H0) as (coin & now & [Hpc Hh Ho _ _ (_ & _ & Hq & _)]).
  apply (confined_rtc _ w0 w0 w); [intros x; destruct (decide (x ∈ ids cf)); tauto| | |done].
  - intros g y now' d r w1 Hy [_ _ Hs _]. unfold human_step. destruct (Hs y Hy) as [_ ->].
    rewrite Hpc, decide_False; [done|]. by rewrite <-(elem_of_ids cf Hcf).
  - split; [intros a x _; by rewrite Hq| |done..]. intros x y.
    assert (next (humans w0 x) = None) as ->; [|done]. destruct (decide (created cf 50 x)) as [Hx|Hx].
    + rewrite Hh by done. apply newborn_next.
    + by rewrite Ho.
Qed.

(** ** Running a schedule *)

Lemma exact_glimpses : glimpses exact.
Proof. done. Qed.

Definition run (l : list (Z * Z * Z * bool)) (w : world) : world :=
  foldl (λ w '(h, now, d, r), match human_step exact h now d r w with Some (Done _ w' _) => w' | _ => w end) w l.

Lemma run_reachable l w : forallb (λ '(_, _, d, _), 0 <=? d) l = true → reachable cf garbage w → reachable cf garbage (run l w).
Proof using Hcf.
  unfold run. revert w. induction l as [|[[[h now] d] r] l IH]; intros w Hl Hw; [done|]. cbn [foldl].
  cbn [forallb] in Hl. apply andb_true_iff in Hl as [Hd%Z.leb_le Hl]. apply IH; [done|].
  destruct (human_step exact h now d r w) as [[[] w' o| |]|] eqn:E; try done.
  eapply reachable_step; [done|]. econstructor; [|apply exact_glimpses|by apply drawn_any|exact E].
  apply (i_abort cf (left_over garbage) w). by apply (reachable_pinv cf Hcf garbage).
Qed.

Definition start_state (coin : bool) (now : Z) : world :=
  match startup cf coin now garbage blank with Done _ w _ => w | _ => blank end.

Lemma start_reachable coin now : reachable cf garbage (start_state coin now).
Proof using Hcf.
  exists (start_state coin now). split; [|done]. exists coin, now. unfold start_state.
  destruct (wp_Done _ _ _ (startup_ok cf Hcf garbage coin now)) as ([] & w & o & -> & _). eauto.
Qed.
End reachable.

(** ** A run that loses a human

    Two chairs, ten pirates, ten ninjas.  Pirate 1 leaves between the moment pirate 0
    takes its token and the moment it takes a chair: the token of that wake-up stays
    with pirate 0.  When pirate 0 comes back it does not wait, takes a chair that is
    free, and removes pirate 2, the head of the queue, from it. *)

Definition small : config := mkConfig 2 10 10 4 4 4 4.

Definition no_visits : Z → Z * option (list visit_t) := λ _, (0, Some []).

Lemma small_ok : config_ok small.
Proof. unfold config_ok. cbn. lia. Qed.

Definition moves (n : nat) (h : Z) : list (Z * Z * Z * bool) := replicate n (h, 5, 3, true).

Definition losing : world :=
  run (moves 4 1 ++ moves 3 0 ++ moves 1 1 ++ moves 3 0 ++ moves 4 3 ++ moves 4 4 ++ moves 4 2 ++
       moves 3 0 ++ moves 1 3 ++ moves 1 0 ++ moves 2 2) (start_state small no_visits true 0).

Lemma losing_reachable : reachable small no_visits losing.
Proof.
  apply run_reachable; [apply small_ok|done|apply start_reachable, small_ok].
Qed.
