(* ===== verification/PiratesBook.v ===== *)
(** * Pirates and ninjas: the books

    What the visits and the chairs record, and the sums [main] prints. *)

From S2P Require Import Prelude Queue CString Pirates PiratesInv PiratesSteps PiratesStart PiratesLost PiratesRuns.

(** ** Records kept during the simulation *)

(** A visit is paid for unless the customer waited too long. *)
Definition visit_ok (v : visit_t) : Prop :=
  0 ≤ visitTime v ∧ goldOwed v = if waitTime v <=? FREE_WAIT then visitTime v else 0.

(** A chair made at time [t0] has been either busy or free since. *)
Definition chair_ok (t0 : Z) (o : option chair_t) : Prop :=
  match o with Some c => occupied c + free c = chair_last c - t0 | None => True end.

(** What is in the lists of visits besides what [malloc] left there. *)
Record binv (base : Z → list visit_t) (t0 : Z) (w : world) : Prop := mkBinv {
  b_visits : ∀ h l, visit (humans w h) = Some l → ∃ made, l = made ++ base h ∧ Forall visit_ok made;
  b_chairs : Forall (chair_ok t0) (chairs (dept w));
}.

Section book.
Context (base : Z → list visit_t) (t0 : Z).

Lemma quiet_binv w w' : quiet w w' → binv base t0 w → binv base t0 w'.
Proof.
  intros [] [Hv Hc]. split; [|by rewrite q_dept]. intros h. rewrite q_visit. apply Hv.
Qed.

Lemma seat_ok h vt now cs : Forall (chair_ok t0) cs → Forall (chair_ok t0) (seat h vt now cs).
Proof.
  induction 1 as [|[c|] cs Hc Hcs IH]; cbn [seat]; [constructor| |by constructor].
  case_decide; constructor; try done. cbn in *. lia.
Qed.

Lemma vacate_ok h cs : Forall (chair_ok t0) cs → Forall (chair_ok t0) (vacate h <$> cs).
Proof.
  intros H. apply Forall_fmap. eapply Forall_impl; [exact H|]. intros [c|] Hc; [|done]. cbn. by case_decide.
Qed.

Lemma binv_human w h x : binv base t0 w → visit x = visit (humans w h) → binv base t0 (set_human h x w).
Proof.
  intros [Hv Hc] Hx. split; [|done]. cbn. intros y.
  destruct (decide (h = y)) as [<-|?]; [rewrite fn_lookup_insert, Hx|rewrite fn_lookup_insert_ne by done]; apply Hv.
Qed.

Lemma binv_dept w d : binv base t0 w → Forall (chair_ok t0) (chairs d) → binv base t0 (set_dept d w).
Proof. intros [Hv Hc] Hd. by split. Qed.

Lemma binv_same w w' : binv base t0 w → humans w' = humans w → chairs (dept w') = chairs (dept w) → binv base t0 w'.
Proof. intros [Hv Hc] Eh Ed. split; [by rewrite Eh|by rewrite Ed]. Qed.

Lemma swap_binv locks g h now w : binv base t0 w → wlp (start_swap locks g h now) w (λ _ w', binv base t0 w').
Proof.
  intros H. eapply wlp_mono; [apply start_swap_spec|].
  intros _ w' [->|(_ & ->)]; [done|]. by apply (binv_same w).
Qed.

Lemma finish_chairs d : chairs (finish_swap d) = chairs d.
Proof. unfold finish_swap. by case_match. Qed.

Lemma enter_binv g h now d w : 0 ≤ d → binv base t0 w → wlp (enter_department g h now d) w (λ _ w', binv base t0 w').
Proof.
  intros Hd H. unfold enter_department, get. do 2 wlp_step. intros x [= <-]. do 2 wlp_step. intros l Hl.
  wlp_step. apply wlp_mono with (λ _ w', w' =
    set_human h (with_visit (Some (create_visit (current_wait_time (humans w h) now) d :: l)) (humans w h)) w).
  { destruct l; unfold upd, put; wlp_step; by intros ? [= <-]. }
  intros _ w1 E1. assert (binv base t0 w1) as H1.
  { subst w1. destruct H as [Hv Hc]. split; [|done]. cbn. intros y.
    destruct (decide (h = y)) as [<-|?]; [rewrite fn_lookup_insert|rewrite fn_lookup_insert_ne by done; by apply Hv].
    intros ? [= <-]. destruct (Hv h l Hl) as (made & -> & Hok). eexists (_ :: made). split; [done|]. by constructor. }
  clear E1. unfold put. do 2 wlp_step. intros ? [= <-].
  assert (binv base t0 (set_dept (mkDept (dalign (dept w1)) (seat h d now (chairs (dept w1)))) w1)) as H2.
  { apply binv_dept; [done|]. apply seat_ok, H1. }
  do 2 wlp_step. intros f _. destruct f.
  - wlp_step. wlp_step. wlp_step. wlp_step. intros ? [= <-]. wlp_step. by apply (binv_same _ _ H2).
  - wlp_step. eapply wlp_mono; [by apply swap_binv|]. intros ? w' H'. by wlp_step.
Qed.

Lemma leave_binv g h now w : binv base t0 w → wlp (leave_department g h now) w (λ _ w', binv base t0 w').
Proof.
  intros H. unfold leave_department, get, put. do 2 wlp_step. intros ? [= <-].
  wlp_step. eapply wlp_mono; [apply swap_binv; apply binv_dept; [done|apply vacate_ok, H]|]. intros ? w1 H1. cbn beta in H1.
  do 2 wlp_step. intros ? [= <-]. do 2 wlp_step. intros al _.
  assert (binv base t0 (set_dept (finish_swap (dept w1)) w1)) as H2.
  { apply binv_dept; [done|]. rewrite finish_chairs. apply H1. }
  wlp_step. eapply wlp_mono; [apply quiet_queue_at|]. intros q w2 Hq. cbn beta.
  assert (is_quiet (match q with Some x => sem_post x | None => mret tt end)) as Hm by solve_quiet.
  eapply wlp_mono; [apply Hm|]. intros u w3 H3. cbn beta in H3. eapply quiet_binv; [exact H3|].
  eapply quiet_binv; [exact Hq|exact H2].
Qed.

Definition keeps_books (r : option (outcome msg world unit)) : Prop :=
  match r with Some (Done _ w' _) => binv base t0 w' | _ => True end.

Lemma wlp_books w (m : prog unit) : wlp m w (λ _ w', binv base t0 w') → keeps_books (Some (m w)).
Proof. unfold wlp, keeps_books. by destruct (m w). Qed.

Lemma human_step_binv g h now d r w : 0 ≤ d → binv base t0 w → keeps_books (human_step g h now d r w).
Proof.
  intros Hd H. unfold human_step.
  assert (∀ w p, binv base t0 w → wlp (put (set_pc h p)) w (λ _ w', binv base t0 w')) as Hset.
  { intros w1 p H1. unfold put. wlp_step. intros ? [= <-]. by apply (binv_same w1). }
  assert (∀ w f, (∀ x, visit (f x) = visit x) → binv base t0 w → wlp (upd h f) w (λ _ w', binv base t0 w')) as Hupd.
  { intros w1 f Hf H1. unfold upd, put. wlp_step. intros ? [= <-]. by apply binv_human. }
  destruct (pc w h); try done.
  - apply wlp_books. case_match; [by apply Hset|]. wlp_step. eapply wlp_mono; [by apply Hupd|]. intros. by apply Hset.
  - apply wlp_books. eapply wlp_mono; [apply quiet_join_queue|]. intros u ? (w3 & Hq & ->).
    apply (binv_same w3); [by eapply quiet_binv|done..].
  - case_match; [|done]. apply wlp_books. wlp_step. eapply wlp_mono; [by apply Hupd|]. intros. by apply Hset.
  - apply wlp_books. case_match; [|by apply Hset].
    wlp_step. eapply wlp_mono; [apply quiet_dequeue_human|]. intros u w1 H1. cbn beta in H1.
    wlp_step. eapply wlp_mono; [apply enter_binv; [done|by eapply quiet_binv]|].
    intros [|] w2 H2; [by apply Hset|by wlp_step].
  - apply wlp_books. wlp_step. eapply wlp_mono; [by apply leave_binv|]. intros. by apply Hset.
  - apply wlp_books. wlp_step. destruct r; [eapply wlp_mono; [by apply Hupd|]; intros; by apply Hset|].
    unfold put. wlp_step. intros ? [= <-]. wlp_step. intros ? [= <-]. by apply (binv_same w).
Qed.

Lemma rtc_binv w w' : binv base t0 w → rtc step w w' → binv base t0 w'.
Proof.
  intros Hb H. revert Hb. induction H as [|w w1 w2 [g h now d r w3 w4 o _ _ Hd E] _ IH]; [done|].
  intros Hb. apply IH. pose proof (human_step_binv g h now d r w3 (drawn_nonneg _ _ Hd) Hb) as Hk. by rewrite E in Hk.
Qed.
End book.
