(* ===== verification/PiratesBill.v ===== *)
(** * Pirates and ninjas: the bill

    The totals [main] prints are the sums over all visits of all humans. *)

From S2P Require Import Prelude Queue CString Pirates PiratesInv PiratesSteps PiratesStart PiratesLost PiratesRuns PiratesBook.

(** ** Finished threads *)

Lemma unfinished_nonneg p r : 0 ≤ unfinished p r.
Proof. destruct p; cbn; try lia. case_match; lia. Qed.

Lemma finished_cases p r : p ≠ HNone → unfinished p r = 0 → p = HDone ∨ p = HTop ∧ r = 0.
Proof. destruct p; cbn; try done; auto. destruct (Z.eqb_spec r 0); [auto|done]. Qed.

Lemma finished_served p r : p = HDone ∨ p = HTop ∧ r = 0 → served p r.
Proof. intros [->|[-> ->]]; done. Qed.

(** ** Reference sums *)

Definition vsum (f : visit_t → Z) (l : list visit_t) : Z := foldr (λ v a, f v + a) 0 l.

Definition visits_of (w : world) (h : Z) : list visit_t := default [] (visit (humans w h)).

(** Over all visits of the humans [hs]. *)
Definition total (f : visit_t → Z) (w : world) (hs : list Z) : Z := zsum (λ h, vsum f (visits_of w h)) hs.

Definition one : visit_t → Z := λ _, 1.

Definition abs_of (f : visit_t → Z) : visit_t → Z := λ v, Z.abs (f v).

Definition tadd (t : totals) (w : world) (hs : list Z) : totals :=
  mkTotals (grossIncome t + total goldOwed w hs) (totalWait t + total waitTime w hs)
    (totalVisits t + total one w hs).

(** Nothing overflows an [int]. *)
Definition fits (t : totals) (w : world) (hs : list Z) : Prop :=
  Z.abs (grossIncome t) + total (abs_of goldOwed) w hs ≤ INT_MAX - 20 ∧
  Z.abs (totalWait t) + total (abs_of waitTime) w hs ≤ INT_MAX ∧
  0 ≤ totalVisits t ∧ totalVisits t + total one w hs ≤ INT_MAX.

Lemma vsum_nonneg f l : (∀ v, 0 ≤ f v) → 0 ≤ vsum f l.
Proof. intros H. induction l as [|v l IH]; cbn; [done|]. specialize (H v). unfold vsum in *. lia. Qed.
Lemma vsum_abs f l : Z.abs (vsum f l) ≤ vsum (abs_of f) l.
Proof. induction l as [|v l IH]; cbn; [done|]. unfold vsum, abs_of in *. lia. Qed.
Lemma vsum_cons f v l : vsum f (v :: l) = f v + vsum f l.
Proof. done. Qed.
#[global] Arguments vsum : simpl never.
#[global] Arguments total : simpl never.
Lemma abs_nonneg f v : 0 ≤ abs_of f v.
Proof. unfold abs_of. lia. Qed.

Lemma total_cons f w h hs : total f w (h :: hs) = vsum f (visits_of w h) + total f w hs.
Proof. done. Qed.
Lemma total_app f w hs hs' : total f w (hs ++ hs') = total f w hs + total f w hs'.
Proof. apply zsum_app. Qed.
Lemma total_nonneg f w hs : (∀ v, 0 ≤ f v) → 0 ≤ total f w hs.
Proof. intros H. apply zsum_nonneg. intros h _. by apply vsum_nonneg. Qed.

Lemma total_abs f w hs : Z.abs (total f w hs) ≤ total (abs_of f) w hs.
Proof.
  induction hs as [|h hs IH]; [done|]. rewrite !total_cons. pose proof (vsum_abs f (visits_of w h)). lia.
Qed.

Lemma iadd_ok a b : INT_MIN ≤ a + b ≤ INT_MAX → iadd a b = Some (a + b).
Proof. intros H. unfold iadd. by rewrite decide_True. Qed.

(** ** The loops *)

Lemma bill_visits_ok l t p w :
  Z.abs (totalWait t) + vsum (abs_of waitTime) l ≤ INT_MAX →
  Z.abs p + vsum (abs_of goldOwed) l ≤ INT_MAX →
  0 ≤ totalVisits t → totalVisits t + vsum one l ≤ INT_MAX →
  ∃ o, bill_visits l t p w =
    Done (mkTotals (grossIncome t) (totalWait t + vsum waitTime l) (totalVisits t + vsum one l),
          p + vsum goldOwed l) w o.
Proof.
  revert t p. induction l as [|v l IH]; intros [g tw tv] p Hw Hp H0 Hv.
  - exists []. cbn. unfold mret, M_ret. change (vsum ?f []) with 0. f_equal. f_equal; [f_equal|]; lia.
  - rewrite vsum_cons in Hw, Hp, Hv. cbn [totalWait totalVisits grossIncome] in *.
    pose proof (vsum_nonneg (abs_of waitTime) l (abs_nonneg _)) as N1.
    pose proof (vsum_nonneg (abs_of goldOwed) l (abs_nonneg _)) as N2.
    pose proof (vsum_nonneg one l ltac:(done)) as N3.
    assert (0 ≤ 1) as H01 by lia. unfold abs_of at 1 in Hw. unfold abs_of at 1 in Hp. unfold one at 1 in Hv.
    cbn [bill_visits totalWait totalVisits grossIncome]. unfold INT_MAX in *.
    rewrite (reads_bind _ _ _ (tv + 1)) by (apply iadd_ok; unfold INT_MIN, INT_MAX; lia).
    rewrite (reads_bind _ _ _ (tw + waitTime v)) by (apply iadd_ok; unfold INT_MIN, INT_MAX; lia).
    rewrite (reads_bind _ _ _ (p + goldOwed v)) by (apply iadd_ok; unfold INT_MIN, INT_MAX; lia).
    destruct (IH (mkTotals g (tw + waitTime v) (tv + 1)) (p + goldOwed v)) as [o Ho]; cbn; try lia.
    eexists. erewrite bind_done; [|done|exact Ho]. cbn. rewrite !vsum_cons. unfold one at 2.
    f_equal. f_equal; [f_equal|]; lia.
Qed.

Lemma bill_human_ok title h t w l hs : visit (humans w h) = Some l → fits t w (h :: hs) →
  ∃ o, bill_human title (Some h) t w = Done (tadd t w [h]) w o.
Proof.
  intros Hl (Hg & Hw & H0 & Hv). rewrite !total_cons in *.
  assert (visits_of w h = l) as El by (unfold visits_of; by rewrite Hl). rewrite El in *.
  pose proof (total_nonneg (abs_of waitTime) w hs (abs_nonneg _)) as N1.
  pose proof (total_nonneg (abs_of goldOwed) w hs (abs_nonneg _)) as N2.
  pose proof (total_nonneg one w hs ltac:(done)) as N3.
  pose proof (vsum_abs goldOwed l) as Habs. unfold INT_MAX in *.
  destruct (bill_visits_ok l t 0 w) as [o Ho]; [unfold INT_MAX; lia..|].
  eexists. unfold bill_human. erewrite bind_done; [done|done|].
  rewrite (reads_bind _ _ _ l) by done. erewrite bind_done; [done|exact Ho|].
  cbn [totalWait totalVisits grossIncome]. erewrite bind_done; [done|done|].
  rewrite (reads_bind _ _ _ (grossIncome t + (0 + vsum goldOwed l))) by
    (apply iadd_ok; unfold INT_MIN, INT_MAX; lia).
  unfold tadd. rewrite !total_cons, El. change (total ?f w []) with 0. unfold mret, M_ret. f_equal. f_equal; cbn; lia.
Qed.

Lemma fits_step t w h hs : fits t w (h :: hs) → fits (tadd t w [h]) w hs.
Proof.
  intros (Hg & Hw & H0 & Hv). rewrite !total_cons in *. unfold fits, tadd. cbn [grossIncome totalWait totalVisits].
  rewrite !total_cons. change (total ?f w []) with 0.
  pose proof (vsum_abs goldOwed (visits_of w h)). pose proof (vsum_abs waitTime (visits_of w h)).
  pose proof (vsum_nonneg one (visits_of w h) ltac:(done)). lia.
Qed.

Lemma tadd_cons t w h hs : tadd (tadd t w [h]) w hs = tadd t w (h :: hs).
Proof. unfold tadd. cbn [grossIncome totalWait totalVisits]. rewrite !total_cons. change (total ?f w []) with 0. f_equal; lia. Qed.

Lemma tadd_app t w hs hs' : tadd (tadd t w hs) w hs' = tadd t w (hs ++ hs').
Proof. unfold tadd. cbn [grossIncome totalWait totalVisits]. rewrite !total_app. f_equal; lia. Qed.

Lemma fits_app t w hs hs' : fits t w (hs ++ hs') → fits t w hs ∧ fits (tadd t w hs) w hs'.
Proof.
  intros (Hg & Hw & H0 & Hv). rewrite !total_app in *. unfold fits, tadd. cbn [grossIncome totalWait totalVisits].
  pose proof (total_nonneg (abs_of waitTime) w hs' (abs_nonneg _)).
  pose proof (total_nonneg (abs_of goldOwed) w hs' (abs_nonneg _)).
  pose proof (total_nonneg one w hs' ltac:(done)). pose proof (total_nonneg one w hs ltac:(done)).
  pose proof (total_abs goldOwed w hs). pose proof (total_abs waitTime w hs). lia.
Qed.

(** The loop over a team whose entries are all there. *)
Lemma bill_all_ok title arr f l t w :
  (∀ i, i ∈ l → zget (arr w) i = Some (Some (f i)) ∧ is_Some (visit (humans w (f i)))) →
  fits t w (f <$> l) → ∃ o, bill_all title arr l t w = Done (tadd t w (f <$> l)) w o.
Proof.
  revert t. induction l as [|i l IH]; intros t Hl Hf.
  - exists []. cbn. unfold tadd. change (total ?f w []) with 0. unfold mret, M_ret. f_equal. destruct t. cbn. f_equal; lia.
  - rewrite fmap_cons in *. destruct (Hl i ltac:(left)) as [Hi [vs Hvs]].
    destruct (bill_human_ok (title i) (f i) t w vs (f <$> l) Hvs Hf) as [o Ho].
    destruct (IH (tadd t w [f i])) as [o' Ho']; [intros j Hj; apply Hl; by right|by apply fits_step|].
    eexists. cbn [bill_all]. rewrite (reads_bind _ _ _ (Some (f i))) by done.
    erewrite bind_done; [|exact Ho|exact Ho']. by rewrite tadd_cons.
Qed.

(** A cleared entry is dereferenced. *)
Lemma bill_all_null title arr f l1 i l2 t w :
  (∀ i, i ∈ l1 → zget (arr w) i = Some (Some (f i)) ∧ is_Some (visit (humans w (f i)))) →
  fits t w (f <$> l1) → zget (arr w) i = Some None →
  bill_all title arr (l1 ++ i :: l2) t w = Undef.
Proof.
  revert t. induction l1 as [|j l1 IH]; intros t Hl Hf Hi.
  - cbn [app bill_all]. by rewrite (reads_bind _ _ _ None) by done.
  - rewrite fmap_cons in *. destruct (Hl j ltac:(left)) as [Hj [vs Hvs]].
    destruct (bill_human_ok (title j) (f j) t w vs (f <$> l1) Hvs Hf) as [o Ho].
    cbn [app bill_all]. rewrite (reads_bind _ _ _ (Some (f j))) by done.
    unfold mbind, M_bind. rewrite Ho. rewrite IH; [done| |by apply fits_step|done].
    intros k Hk. apply Hl. by right.
Qed.

Lemma team_lines_ok l w : (∀ i, i ∈ l → ∃ c, zget (chairs (dept w)) i = Some (Some c)) →
  ∃ o, for_do l team_line w = Done tt w o.
Proof.
  induction l as [|i l IH]; intros H; [by exists []|]. destruct (H i ltac:(left)) as [c Hc].
  destruct IH as [o Ho]; [intros j Hj; apply H; by right|]. eexists. rewrite for_do_cons.
  erewrite bind_done; [done| |exact Ho]. unfold team_line. by rewrite (reads_bind _ _ _ (Some c)) by done.
Qed.

(** ** The whole bill *)

Section bill.
Context (cf : config) (Hcf : config_ok cf) (garbage : Z → Z * option (list visit_t)).

Lemma reachable_arrays w : reachable cf garbage w →
  (∀ i, 0 ≤ i < 50 → zget (pirates w) i =
     Some (if decide (i < numPirates cf ∧ i < numNinjas cf) then Some i else None)) ∧
  (∀ i, 0 ≤ i < numNinjas cf → zget (ninjas w) i = Some (Some (i + 50))).
Proof using Hcf.
  intros (w0 & H0 & [_ _ _ [-> ->]])%(reachable_closed cf Hcf garbage).
  destruct (started_spawned cf Hcf garbage w0 H0) as (coin & now & [_ _ _ [_ Hp] [_ Hn] _]).
  destruct Hcf as (_ & ? & ? & _). split; [exact Hp|]. intros i Hi. apply Hn. lia.
Qed.

(** When [visitsLeft] is 0 everybody has finished and has been served. *)
Lemma all_visited w h : reachable cf garbage w → visitsLeft w ≤ 0 → h ∈ ids cf →
  (pc w h = HDone ∨ pc w h = HTop ∧ willReturn (humans w h) = 0) ∧ visited (left_over garbage h) (humans w h).
Proof using Hcf.
  intros Hr Hz Hh. pose proof (reachable_pinv cf Hcf garbage w Hr) as Hinv. rewrite (i_left _ _ _ Hinv) in Hz.
  pose proof (λ x (_ : x ∈ ids cf), unfinished_nonneg (pc w x) (willReturn (humans w x))) as Hnn.
  pose proof (zsum_zero _ _ Hnn Hz h Hh) as Hu. cbn in Hu.
  assert (pc w h ≠ HNone) as Hn by (by apply (i_ids _ _ _ Hinv)).
  assert (pc w h = HDone ∨ pc w h = HTop ∧ willReturn (humans w h) = 0) as Hd by (by apply finished_cases).
  split; [done|]. by apply (i_served _ _ _ Hinv), finished_served.
Qed.

Lemma reachable_books w : reachable cf garbage w → ∃ t0, binv (left_over garbage) t0 w.
Proof using Hcf.
  intros (w0 & H0 & H). destruct (started_spawned cf Hcf garbage w0 H0) as (coin & now & [_ Hh Ho _ _ (Hd & _)]).
  exists now. eapply rtc_binv; [|exact H]. split.
  - intros h l. destruct (decide (created cf 50 h)) as [Hc|Hc]; [|by rewrite Ho].
    rewrite Hh, newborn_visit by done. unfold left_over. intros ->. by exists [].
  - rewrite Hd. cbn -[seqZ]. apply Forall_fmap, Forall_forall. intros i _. cbn. destruct (i <? numChairs cf); [|done].
    cbn. lia.
Qed.

(** [main] prints the bill when all have been served. *)
Definition closed (w : world) : Prop := reachable cf garbage w ∧ visitsLeft w ≤ 0.

Lemma closed_visit w h : closed w → h ∈ ids cf → is_Some (visit (humans w h)).
Proof using Hcf. intros [Hr Hz] Hh. destruct (all_visited w h Hr Hz Hh) as [_ (v & l & ->)]. eauto. Qed.

Lemma reachable_chair w i : reachable cf garbage w → 0 ≤ i < numChairs cf `min` 4 →
  ∃ c, zget (chairs (dept w)) i = Some (Some c).
Proof using Hcf.
  intros Hr Hi. pose proof (i_shape _ _ _ (reachable_pinv cf Hcf garbage w Hr)) as Hs.
  assert (shape (chairs (dept w)) !! Z.to_nat i = Some true) as Ht.
  { rewrite Hs, list_lookup_fmap, lookup_seqZ_lt by lia. cbn. f_equal. apply Z.ltb_lt. lia. }
  unfold shape in Ht. rewrite list_lookup_fmap in Ht. unfold zget. rewrite decide_True by lia.
  destruct (chairs (dept w) !! Z.to_nat i) as [[c|]|]; [by eauto|done|done].
Qed.

Definition grand (w : world) : totals := tadd (mkTotals 0 0 0) w (ids cf).

(** The lines after the team statistics. *)
Definition summary (t : totals) : list msg :=
  [Blank; AverageQueue (totalWait t) (totalVisits t); GrossRevenue (grossIncome t);
   GoldPerVisit (grossIncome t) (totalVisits t); Profits (grossIncome t - 5 * numChairs cf)].

Lemma bill_pirates w : closed w → fits (mkTotals 0 0 0) w (ids cf) →
  numPirates cf ≤ numNinjas cf →
  ∃ o, bill_all PirateLine pirates (seqZ 0 (numPirates cf)) (mkTotals 0 0 0) w =
    Done (tadd (mkTotals 0 0 0) w (seqZ 0 (numPirates cf))) w o.
Proof using Hcf.
  intros Hr Hf Hle. destruct (reachable_arrays w (proj1 Hr)) as [Hp _]. pose proof Hcf as (_ & ? & ? & _).
  destruct (bill_all_ok PirateLine pirates (λ i, i) (seqZ 0 (numPirates cf)) (mkTotals 0 0 0) w) as [o Ho].
  - intros i Hi%elem_of_seqZ. split; [rewrite Hp by lia; by rewrite decide_True by lia|].
    apply closed_visit; [done|]. apply elem_of_app. left. apply elem_of_seqZ. lia.
  - rewrite list_fmap_id. by apply (fits_app _ _ _ (seqZ 50 (numNinjas cf))).
  - rewrite list_fmap_id in Ho. eauto.
Qed.

Lemma bill_ninjas w t : closed w → fits t w (seqZ 50 (numNinjas cf)) →
  ∃ o, bill_all NinjaLine ninjas (seqZ 0 (numNinjas cf)) t w = Done (tadd t w (seqZ 50 (numNinjas cf))) w o.
Proof using Hcf.
  intros Hr Hf. destruct (reachable_arrays w (proj1 Hr)) as [_ Hn]. pose proof Hcf as (_ & ? & ? & _).
  assert ((λ i, i + 50) <$> seqZ 0 (numNinjas cf) = seqZ 50 (numNinjas cf)) as E.
  { rewrite <-(fmap_add_seqZ 50 0). apply list_fmap_ext. intros. lia. }
  rewrite <-E in *. apply bill_all_ok; [|done]. intros i Hi%elem_of_seqZ. split; [apply Hn; lia|].
  apply closed_visit; [done|]. apply elem_of_app. right. apply elem_of_seqZ. lia.
Qed.

Lemma bill_ok w : closed w → fits (mkTotals 0 0 0) w (ids cf) → numPirates cf ≤ numNinjas cf →
  ∃ o, bill cf w = Done (grand w) w (o ++ summary (grand w)).
Proof using Hcf.
  intros Hr Hf Hle. pose proof Hcf as (Hnc & Hnp & Hnn & _).
  destruct (bill_pirates w Hr Hf Hle) as [o1 H1]. destruct (fits_app _ _ _ _ Hf) as [_ Hf2].
  destruct (bill_ninjas w _ Hr Hf2) as [o2 H2]. rewrite tadd_app in H2. fold (ids cf) in H2. fold (grand w) in H2.
  destruct (team_lines_ok (seqZ 0 (numChairs cf)) w) as [o3 H3].
  { intros i Hi%elem_of_seqZ. apply reachable_chair; [apply Hr|lia]. }
  assert (iadd (grossIncome (grand w)) (- (5 * numChairs cf)) = Some (grossIncome (grand w) - 5 * numChairs cf)) as H4.
  { rewrite iadd_ok; [f_equal; lia|]. destruct Hf as (Hg & _). pose proof (total_abs goldOwed w (ids cf)).
    cbn [grand tadd grossIncome] in *. unfold INT_MAX, INT_MIN in *. lia. }
  unfold bill. rewrite !Z.min_l by lia. exists (PiratesTitle :: o1 ++ Blank :: NinjasTitle :: o2 ++ Blank :: StatsTitle :: o3).
  unfold mbind, M_bind, emit, reads. rewrite H1. cbn beta iota. rewrite H2. cbn beta iota. rewrite H3.
  cbn beta iota. rewrite H4. unfold mret, M_ret, summary. f_equal.
  repeat (cbn [app]; rewrite <-?app_assoc; try f_equal).
Qed.

Lemma bill_crash w : closed w → fits (mkTotals 0 0 0) w (ids cf) → numNinjas cf < numPirates cf →
  bill cf w = Undef.
Proof using Hcf.
  intros Hr Hf Hlt. pose proof Hcf as (Hnc & Hnp & Hnn & _). destruct (reachable_arrays w (proj1 Hr)) as [Hp _].
  assert (seqZ 0 (numPirates cf) = seqZ 0 (numNinjas cf) ++ numNinjas cf ::
    seqZ (numNinjas cf + 1) (numPirates cf - numNinjas cf - 1)) as E.
  { replace (numPirates cf) with (numNinjas cf + (1 + (numPirates cf - numNinjas cf - 1))) at 1 by lia.
    rewrite seqZ_app by lia. f_equal. rewrite seqZ_app by lia. by rewrite Z.add_0_l. }
  unfold ids in Hf. rewrite E, <-app_assoc in Hf. apply fits_app in Hf as [Hf _].
  assert (bill_all PirateLine pirates (seqZ 0 (numPirates cf)) (mkTotals 0 0 0) w = Undef) as Hu;
    [|unfold bill; rewrite !Z.min_l by lia; unfold mbind, M_bind, emit; by rewrite Hu].
  rewrite E. apply (bill_all_null _ _ (λ i, i)).
  - intros i Hi%elem_of_seqZ. split; [rewrite Hp by lia; by rewrite decide_True by lia|].
    apply closed_visit; [done|]. apply elem_of_app. left. apply elem_of_seqZ. lia.
  - by rewrite list_fmap_id.
  - rewrite Hp by lia. by rewrite decide_False by lia.
Qed.
End bill.
