(* ===== verification/PiratesProps.v ===== *)
(** * Pirates and ninjas: properties *)

From S2P Require Import Prelude Queue CString Pirates PiratesInv PiratesSteps PiratesStart PiratesLost PiratesRuns PiratesBook PiratesBill.

(** ** Safety of the department *)

(** C3. No fight: in every reachable state the process has not aborted, and everybody
    in a chair is of the team that owns the department (the team that is leaving
    while it changes hands), so pirates and ninjas never sit there together. *)
Theorem pvn_no_fight (cf : config) (garbage : Z → Z * option (list visit_t)) (w : world) :
  config_ok cf → reachable cf garbage w →
  aborted w = false ∧
  (∀ x, x ∈ seated (chairs (dept w)) → alignment (humans w x) = owner (dalign (dept w))) ∧
  (∀ x y, x ∈ seated (chairs (dept w)) → y ∈ seated (chairs (dept w)) →
     alignment (humans w x) = alignment (humans w y)).
Proof.
  intros Hcf Hr. destruct (reachable_pinv cf Hcf garbage w Hr) as [].
  split_and!; [done|done|]. intros x y Hx Hy. rewrite !i_owner by done. done.
Qed.

Lemma pvn_no_fight_witness :
  seated (chairs (dept losing)) = [0; 4] ∧
  ∀ x, x ∈ seated (chairs (dept losing)) → alignment (humans losing x) = owner (dalign (dept losing)).
Proof.
  split; [by vm_compute|]. apply (pvn_no_fight small no_visits losing); [apply small_ok|apply losing_reachable].
Defined.

Lemma chairs_count cf : config_ok cf →
  length (filter (λ b, b = true) ((λ i, i <? numChairs cf) <$> seqZ 0 4)) = Z.to_nat (numChairs cf).
Proof.
  intros (Hnc & _). assert (numChairs cf = 2 ∨ numChairs cf = 3 ∨ numChairs cf = 4) as Hc by lia.
  destruct Hc as [-> | [-> | ->]]; done.
Qed.

(** The chairs: the humans between [enter_department] and [leave_department] are
    exactly those in the chairs, each in one chair, so there are never more of them
    than chairs. *)
Theorem pvn_chairs (cf : config) (garbage : Z → Z * option (list visit_t)) (w : world) :
  config_ok cf → reachable cf garbage w →
  (∀ h, pc w h = HCostume ↔ h ∈ seated (chairs (dept w))) ∧
  NoDup (seated (chairs (dept w))) ∧
  zlen (seated (chairs (dept w))) ≤ numChairs cf.
Proof.
  intros Hcf Hr. pose proof (reachable_pinv cf Hcf garbage w Hr) as Hinv. split_and!.
  - intros h. by rewrite (i_pc _ _ _ Hinv).
  - apply (i_nodup _ _ _ Hinv).
  - pose proof (seated_length (chairs (dept w))) as Hl.
    rewrite (i_shape _ _ _ Hinv), (chairs_count cf Hcf) in Hl. unfold zlen. destruct Hcf as (? & _). lia.
Qed.

Lemma pvn_chairs_witness :
  pc losing 4 = HCostume ∧ zlen (seated (chairs (dept losing))) ≤ 2.
Proof.
  split; [by vm_compute|]. apply (pvn_chairs small no_visits losing); [apply small_ok|apply losing_reachable].
Defined.

(** ** The end of the simulation *)

(** A run in which everybody is served once: the pirates one after the other, then
    the department changes hands and the ninjas follow. *)
Definition served_once (h : Z) : list (Z * Z * Z * bool) := replicate 7 (h, 40, 3, false).

Definition closing_of (cf : config) : world :=
  let last := numPirates cf - 1 in
  run (mjoin (served_once <$> seqZ 0 last) ++ replicate 2 (50, 1, 3, false) ++ served_once last ++
       replicate 5 (50, 40, 3, false) ++ mjoin (served_once <$> seqZ 51 (numNinjas cf - 1)))
    (start_state cf no_visits true 0).

Lemma served_once_draws l : forallb (λ '(_, _, d, _), 0 <=? d) (mjoin (served_once <$> l)) = true.
Proof. induction l as [|h l IH]; [done|].
  change (mjoin (served_once <$> h :: l)) with (served_once h ++ mjoin (served_once <$> l)).
  by rewrite forallb_app, IH. Qed.

Lemma closing_of_reachable cf : config_ok cf → reachable cf no_visits (closing_of cf).
Proof.
  intros Hcf. apply run_reachable; [done| |by apply start_reachable].
  by rewrite !forallb_app, !served_once_draws.
Qed.

Definition closing : world := closing_of small.

Lemma closing_reachable : reachable small no_visits closing.
Proof. apply closing_of_reachable, small_ok. Qed.

(** One pirate more than ninjas. *)
Definition crowded : config := mkConfig 2 11 10 4 4 4 4.
Lemma crowded_ok : config_ok crowded.
Proof. unfold config_ok. cbn. lia. Qed.

(** C23. [visitsLeft] is never negative, and when it is 0 (the moment [main] waits for)
    every thread has finished or only has to notice that it will not return, and
    everybody was served at least once: a visit was put before whatever [malloc] left
    in the list of visits. *)
Theorem pvn_all_served (cf : config) (garbage : Z → Z * option (list visit_t)) (w : world) :
  config_ok cf → reachable cf garbage w →
  0 ≤ visitsLeft w ∧
  (visitsLeft w ≤ 0 → ∀ h, h ∈ ids cf →
     (pc w h = HDone ∨ pc w h = HTop ∧ willReturn (humans w h) = 0) ∧
     ∃ v made, visit (humans w h) = Some (v :: made ++ default [] (garbage h).2)).
Proof.
  intros Hcf Hr. split.
  - rewrite (i_left _ _ _ (reachable_pinv cf Hcf garbage w Hr)). apply zsum_nonneg. intros. apply unfinished_nonneg.
  - intros Hz h Hh. by apply (all_visited cf Hcf garbage).
Qed.

Lemma pvn_all_served_witness :
  visitsLeft closing = 0 ∧
  ∀ h, h ∈ ids small →
    (pc closing h = HDone ∨ pc closing h = HTop ∧ willReturn (humans closing h) = 0) ∧
    ∃ v made, visit (humans closing h) = Some (v :: made ++ []).
Proof.
  split; [by vm_compute|].
  apply (pvn_all_served small no_visits closing); [apply small_ok|apply closing_reachable|by vm_compute].
Defined.

Lemma one_visit base w h : visited base (humans w h) → 1 ≤ vsum one (visits_of w h).
Proof.
  unfold visits_of. intros (v & l & E). rewrite E. change (default [] (Some ?l)) with l. rewrite vsum_cons.
  pose proof (vsum_nonneg one (l ++ base) ltac:(done)). change (one v) with 1. lia.
Qed.

(** C12. The bill: when [visitsLeft] is 0, there are not more pirates than ninjas and the
    sums fit an [int], [main] prints, without undefined behaviour, the sums over the lists
    of visits of all humans: the gold, the waiting time, the number of visits (at least
    one per human, so the averages divide by a positive number), and the gold less five
    per chair.  Each list holds the visits made, at least one, followed by whatever
    [malloc] left in the field that [create_human] does not set (nothing, if the memory
    was zero); each visit made costs its length, or nothing after a wait of over thirty
    seconds. *)
Theorem pvn_bill (cf : config) (garbage : Z → Z * option (list visit_t)) (w : world) :
  config_ok cf → reachable cf garbage w → visitsLeft w ≤ 0 →
  fits (mkTotals 0 0 0) w (ids cf) → numPirates cf ≤ numNinjas cf →
  let t := mkTotals (total goldOwed w (ids cf)) (total waitTime w (ids cf)) (total one w (ids cf)) in
  (∃ o, bill cf w = Done t w (o ++ summary cf t)) ∧
  numPirates cf + numNinjas cf ≤ totalVisits t ∧
  (∀ h, h ∈ ids cf → ∃ made, visits_of w h = made ++ default [] (garbage h).2 ∧ made ≠ [] ∧
     ∀ v, v ∈ made → goldOwed v = if waitTime v <=? FREE_WAIT then visitTime v else 0).
Proof.
  intros Hcf Hr Hv Hf Hle t. split_and!.
  - destruct (bill_ok cf Hcf garbage w (conj Hr Hv) Hf Hle) as [o Ho]. exists o. exact Ho.
  - cbn [t totalVisits]. transitivity (zsum (λ _, 1) (ids cf)).
    + rewrite zsum_one by done. unfold zlen, ids. rewrite length_app, !length_seqZ. lia.
    + apply zsum_le. intros h Hh. eapply one_visit. by apply (all_visited cf Hcf garbage).
  - intros h Hh. destruct (reachable_books cf Hcf garbage w Hr) as [t0 [Hb _]].
    destruct (all_visited cf Hcf garbage w h Hr Hv Hh) as [_ (v & made & E)]. unfold visits_of. rewrite E.
    exists (v :: made). split_and!; [done|done|]. destruct (Hb h _ E) as (made' & Em & Hok).
    rewrite app_comm_cons in Em. apply app_inv_tail in Em as <-.
    intros u Hu. by apply (proj1 (Forall_forall _ _) Hok u Hu).
Qed.

Lemma closing_fits : fits (mkTotals 0 0 0) closing (ids small).
Proof. vm_compute. split_and!; discriminate. Qed.

Lemma pvn_bill_witness :
  visitsLeft closing = 0 ∧ total goldOwed closing (ids small) = 57 ∧
  ∃ o, bill small closing = Done (mkTotals 57 39 20) closing (o ++ summary small (mkTotals 57 39 20)).
Proof.
  split; [by vm_compute|]. split; [by vm_compute|].
  destruct (pvn_bill small no_visits closing small_ok closing_reachable
    ltac:(by vm_compute) closing_fits ltac:(by vm_compute)) as [[o H] _].
  exists o. rewrite H. by vm_compute.
Defined.

(** With more pirates than ninjas the bill is never printed: the loop that creates
    the threads overwrites the entries of [pirates] from [numNinjas] on with NULL, and
    [main] dereferences the first of them. *)
Theorem pvn_bill_null (cf : config) (garbage : Z → Z * option (list visit_t)) (w : world) :
  config_ok cf → reachable cf garbage w → visitsLeft w ≤ 0 →
  fits (mkTotals 0 0 0) w (ids cf) → numNinjas cf < numPirates cf → bill cf w = Undef.
Proof. intros Hcf Hr Hv Hf Hlt. by apply (bill_crash cf Hcf garbage). Qed.

Lemma pvn_bill_null_witness :
  bill crowded (closing_of crowded) = Undef.
Proof.
  apply (pvn_bill_null _ no_visits).
  - apply crowded_ok.
  - apply closing_of_reachable, crowded_ok.
  - by vm_compute.
  - vm_compute. split_and!; discriminate.
  - by vm_compute.
Defined.

(** ** Liveness *)

Lemma zsum_elem f l x : (∀ y, y ∈ l → 0 ≤ f y) → x ∈ l → f x ≤ zsum f l.
Proof.
  intros Hf. induction l as [|y l IH]; intros Hx; [by apply elem_of_nil in Hx|]. rewrite zsum_cons.
  pose proof (Hf y ltac:(left)) as Hy.
  pose proof (zsum_nonneg f l (λ z Hz, Hf z ltac:(by right))) as Hl.
  apply elem_of_cons in Hx as [->|Hx]; [lia|].
  specialize (IH (λ z Hz, Hf z ltac:(by right)) Hx). lia.
Qed.

Lemma losing_lost : lost 2 losing.
Proof.
  split_and!; [by vm_compute..|].
  destruct (reachable_closed small small_ok no_visits losing losing_reachable) as (w0 & _ & Hc).
  split; [| |done|done].
  - intros a x Ha. assert (a = 0 ∨ a = 1) as [-> | ->] by lia; [|by vm_compute].
    change (queue losing 0) with (Some 0). by intros [= <-].
  - intros x y Hxy. pose proof Hxy as [Hx%list_elem_of_In _]%(c_next _ _ _ Hc).
    assert (forallb (λ x, bool_decide (next (humans losing x) = None)) (ids small) = true) as Hall by by vm_compute.
    rewrite forallb_forall in Hall. apply Hall in Hx. apply bool_decide_eq_true in Hx. congruence.
Qed.

(** C24. A customer can be lost: there is a reachable state, with zeroed memory, in
    which pirate 2 waits at the door and has been removed from the queue by pirate 0,
    who entered with a token left over from its first visit; whatever happens
    afterwards it waits forever, [visitsLeft] stays positive and [main] never prints
    the bill. *)
Theorem pvn_lost_customer :
  ∃ w, reachable small no_visits w ∧
    ∀ w', rtc step w w' → pc w' 2 = HWait ∧ sem (humans w' 2) = 0 ∧ 0 < visitsLeft w'.
Proof.
  exists losing. split; [apply losing_reachable|]. intros w' H.
  destruct (lost_forever 2 losing w' losing_lost H) as [Hpc Hsem]. split_and!; [done..|].
  assert (pinv small (left_over no_visits) w') as Hinv.
  { eapply (rtc_pinv small small_ok); [|exact H]. apply (reachable_pinv small small_ok no_visits), losing_reachable. }
  rewrite (i_left _ _ _ Hinv).
  pose proof (zsum_elem (λ h, unfinished (pc w' h) (willReturn (humans w' h))) (ids small) 2
    (λ y _, unfinished_nonneg _ _)) as Hz. cbn beta in Hz. rewrite Hpc in Hz. cbn [unfinished] in Hz.
  enough (2 ∈ ids small) by (specialize (Hz ltac:(done)); lia).
  apply (i_ids _ _ _ Hinv). by rewrite Hpc.
Qed.

(** C30. A queue can become circular: there is a reachable state in which pirate 0 has
    queued while it was still linked in the queue, so that its [next] points to
    itself, and pirate 5, who comes next, walks the queue without end. *)
Theorem pvn_circular_queue :
  ∃ w, reachable small no_visits w ∧ next (humans w 0) = Some 0 ∧ queue w 0 = Some 0 ∧
    ∀ g, human_step g 5 5 3 true w = Some NoFuel.
Proof.
  exists (run (moves 4 0 ++ moves 1 5) losing). split_and!; [|by vm_compute..].
  apply run_reachable; [apply small_ok|done|apply losing_reachable].
Qed.

(** ** Books, arguments, changing hands *)

(** The statistics of a chair account for all its time: the seconds it was busy and
    the seconds it was free add up to the time from its creation to the end of its
    last visit. *)
Theorem pvn_chair_time (cf : config) (garbage : Z → Z * option (list visit_t)) (w : world) :
  config_ok cf → reachable cf garbage w →
  ∃ t0, ∀ c, Some c ∈ chairs (dept w) → occupied c + free c = chair_last c - t0.
Proof.
  intros Hcf Hr. destruct (reachable_books cf Hcf garbage w Hr) as [t0 [_ Hc]]. exists t0.
  intros c Hin. exact (proj1 (Forall_forall _ _) Hc _ Hin).
Qed.

Lemma pvn_chair_time_witness :
  ∃ t0, ∀ c, Some c ∈ chairs (dept closing) → occupied c + free c = chair_last c - t0.
Proof.
  apply (pvn_chair_time small no_visits closing); [apply small_ok|apply closing_reachable].
Defined.

(** The argument checks accept exactly the documented numbers of teams, pirates and
    ninjas and non-negative costume times; a negative arrival time is reported but
    accepted. *)
Theorem pvn_args (prg a1 a2 a3 a4 a5 a6 a7 : string) (v1 v2 v3 v4 v5 v6 v7 : Z) (w : world) :
  atoi a1 = Some v1 → atoi a2 = Some v2 → atoi a3 = Some v3 → atoi a4 = Some v4 →
  atoi a5 = Some v5 → atoi a6 = Some v6 → atoi a7 = Some v7 →
  let cf := mkConfig v1 v2 v3 v4 v5 v6 v7 in
  (config_ok cf → check_args [prg; a1; a2; a3; a4; a5; a6; a7] w =
     Done (Some cf) w (if (v6 <? 0) || (v7 <? 0) then [BadArrival] else [])) ∧
  (¬ config_ok cf → ∃ m, check_args [prg; a1; a2; a3; a4; a5; a6; a7] w = Done None w [m] ∧
     m ∈ [BadTeams; BadPirates; BadNinjas; BadCostume]).
Proof.
  intros E1 E2 E3 E4 E5 E6 E7 cf. unfold config_ok. cbn [cf numChairs numPirates numNinjas avgPCostume avgNCostume].
  unfold check_args. rewrite (reads_bind _ _ _ v1) by done.
  assert (∀ a lo hi, (a <? lo) || (hi <? a) = negb (bool_decide (lo ≤ a ≤ hi))) as Hb.
  { intros a lo hi. apply eq_bool_prop_intro. rewrite negb_True, bool_decide_spec, orb_True, !Is_true_true, !Z.ltb_lt. lia. }
  rewrite (Hb v1 2 4). case_bool_decide as H1; cbn [negb].
  2: { split; [lia|]. intros _. eexists. split; [done|]. by left. }
  rewrite (reads_bind _ _ _ v2) by done. rewrite (Hb v2 10 50). case_bool_decide as H2; cbn [negb].
  2: { split; [lia|]. intros _. eexists. split; [done|]. right. by left. }
  rewrite (reads_bind _ _ _ v3) by done. rewrite (Hb v3 10 50). case_bool_decide as H3; cbn [negb].
  2: { split; [lia|]. intros _. eexists. split; [done|]. do 2 right. by left. }
  rewrite (reads_bind _ _ _ v4), (reads_bind _ _ _ v5) by done.
  destruct ((v4 <? 0) || (v5 <? 0)) eqn:E.
  - apply orb_true_iff in E. rewrite !Z.ltb_lt in E. split; [lia|]. intros _. eexists. split; [done|].
    do 3 right. by left.
  - apply orb_false_iff in E. rewrite !Z.ltb_ge in E. split; [|lia]. intros _.
    rewrite (reads_bind _ _ _ v6), (reads_bind _ _ _ v7) by done. by destruct ((v6 <? 0) || (v7 <? 0)).
Qed.

Lemma pvn_args_witness :
  check_args ["pvn"; "2"; "10"; "10"; "4"; "4"; "-4"; "4"] blank =
    Done (Some (mkConfig 2 10 10 4 4 (-4) 4)) blank [BadArrival].
Proof.
  apply (pvn_args "pvn" "2" "10" "10" "4" "4" "-4" "4" 2 10 10 4 4 (-4) 4 blank); by vm_compute.
Defined.

Lemma count_chain nx x l fuel c : chain nx (Some x) (x :: l) → (length l < fuel)%nat →
  count_from fuel nx x c = Some (c + zlen l).
Proof.
  revert x fuel c. induction l as [|y l IH]; intros x fuel c [_ Hl] Hf;
    (destruct fuel as [|fuel]; [simpl in Hf; lia|]); cbn [count_from].
  - rewrite Hl. cbn. f_equal. unfold zlen. cbn. lia.
  - pose proof Hl as [E _]. rewrite E in *. rewrite IH; [|done|simpl in Hf; lia]. f_equal. unfold zlen. cbn [length]. lia.
Qed.

Lemma queue_at_bind {B} a (k : option Z → prog B) w : 0 ≤ a < 2 → (queue_at a ≫= k) w = k (queue w a) w.
Proof. intros Ha. apply reads_bind. by rewrite decide_True. Qed.

Lemma queue_count_chain a l w : 0 ≤ a < 2 → chain (λ y, next (humans w y)) (queue w a) l →
  (length l ≤ walk_fuel)%nat → queue_count a w = Done (zlen l) w [].
Proof.
  intros Ha Hl Hf. unfold queue_count. rewrite queue_at_bind by done.
  destruct l as [|x l].
  - cbn in Hl. rewrite Hl. done.
  - pose proof Hl as [E _]. rewrite E in *. unfold walk. rewrite (count_chain _ _ l); [|done|cbn [length] in Hf; lia].
    f_equal. unfold zlen. cbn [length]. lia.
Qed.

Lemma unlocked_exact {A} locks i a (m : prog A) x w o :
  m w = Done x w o → unlocked locks exact i a m w = Done x w o.
Proof. intros E. unfold unlocked, glance, exact. case_match; [done|]. by rewrite E. Qed.

Lemma queue_at_done a w : 0 ≤ a < 2 → queue_at a w = Done (queue w a) w [].
Proof. intros Ha. unfold queue_at, reads. by rewrite decide_True. Qed.

Lemma swap_condition_exact locks w h now d oh own others :
  0 ≤ alignment (humans w h) < 2 → 0 ≤ other_alignment (humans w h) < 2 → 0 ≤ d < 2 →
  chain (λ y, next (humans w y)) (queue w (alignment (humans w h))) own →
  chain (λ y, next (humans w y)) (queue w (other_alignment (humans w h))) (oh :: others) →
  (length own ≤ walk_fuel)%nat → (length others < walk_fuel)%nat →
  swap_condition locks exact h now d w =
    Done (bool_decide (zlen own + SWAP_BUFFER < zlen (oh :: others) ∨ queue w d = None ∨
                       SWAP_TIMEOUT ≤ current_wait_time (humans w oh) now)) w [].
Proof.
  intros Ha Hb Hd Hown Hoth Hl1 Hl2. unfold swap_condition, get. pose proof Hoth as [Eo _].
  rewrite (reads_bind _ _ _ (humans w h)) by done.
  rewrite (bind_silent _ _ _ _ _ (unlocked_exact _ _ _ _ _ _ _ (queue_at_done _ _ Hb))), Eo, decide_False by done.
  rewrite (bind_silent _ _ _ _ _ (unlocked_exact _ _ _ _ _ _ _ (queue_count_chain _ _ _ Ha Hown Hl1))).
  rewrite (bind_silent _ _ _ _ _ (unlocked_exact _ _ _ _ _ _ _ (queue_count_chain _ _ _ Hb Hoth Hl2))).
  destruct (Z.ltb_spec (zlen own + SWAP_BUFFER) (zlen (oh :: others))) as [H1|H1].
  { by rewrite bool_decide_eq_true_2 by auto. }
  rewrite (bind_silent _ _ _ _ _ (unlocked_exact _ _ _ _ _ _ _ (queue_at_done _ _ Hd))).
  case_decide as H2; [by rewrite bool_decide_eq_true_2 by auto|].
  erewrite bind_silent; [|apply unlocked_exact; rewrite queue_at_bind, Eo by done; reflexivity].
  unfold mret, M_ret. f_equal. apply eq_bool_prop_intro. rewrite bool_decide_spec, Is_true_true, Z.leb_le. intuition lia.
Qed.

(** When the department starts to change hands: for intact queues [own] (of the
    human's team) and [oh :: others] (of the other team), the department starts to
    move to the other team exactly when that queue is longer by more than
    [SWAP_BUFFER], or the queue of the owning team is empty, or the head of the other
    queue has waited [SWAP_TIMEOUT] seconds; nothing else changes. *)
Theorem pvn_swap_rule (locks : Z → bool) (w : world) (h now oh : Z) (own others : list Z) :
  (alignment (humans w h) = PIRATE ∨ alignment (humans w h) = NINJA) →
  dalign (dept w) = alignment (humans w h) →
  chain (λ y, next (humans w y)) (queue w (alignment (humans w h))) own →
  chain (λ y, next (humans w y)) (queue w (other_alignment (humans w h))) (oh :: others) →
  (length own ≤ walk_fuel)%nat → (length others < walk_fuel)%nat →
  start_swap locks exact h now w =
    Done tt (if decide (zlen own + SWAP_BUFFER < zlen (oh :: others) ∨ own = [] ∨
                        SWAP_TIMEOUT ≤ current_wait_time (humans w oh) now)
             then swapped w else w) [].
Proof.
  intros Ha Hd Hown Hoth Hl1 Hl2. unfold start_swap, get.
  assert (0 ≤ alignment (humans w h) < 2) as Hr by (destruct Ha as [-> | ->]; by vm_compute).
  assert (0 ≤ other_alignment (humans w h) < 2) as Hr' by (unfold other_alignment; destruct Ha as [-> | ->]; by vm_compute).
  rewrite (reads_bind _ _ _ (dalign (dept w))) by done.
  assert ((dalign (dept w) =? PIRATE) || (dalign (dept w) =? NINJA) = true) as ->.
  { rewrite Hd. by destruct Ha as [-> | ->]. }
  assert (queue w (dalign (dept w)) = None ↔ own = []) as Hempty.
  { rewrite Hd, (chain_head _ _ _ Hown). by destruct own. }
  rewrite (bind_silent _ _ _ _ _ (swap_condition_exact locks w h now (dalign (dept w)) oh own others Hr Hr'
    ltac:(rewrite Hd; exact Hr) Hown Hoth Hl1 Hl2)).
  rewrite (bool_decide_ext _ (zlen own + SWAP_BUFFER < zlen (oh :: others) ∨ own = [] ∨
    SWAP_TIMEOUT ≤ current_wait_time (humans w oh) now)) by (rewrite Hempty; done).
  destruct (decide _) as [Hdue|Hdue]; [by rewrite bool_decide_eq_true_2|by rewrite bool_decide_eq_false_2].
Qed.

(** Five ninjas queue while pirates 0 and 1 queue: the ninjas' queue is not longer by
    more than four. *)
Definition crowd : world :=
  run (mjoin (moves 2 <$> [0; 1; 50; 51; 52; 53; 54])) (start_state small no_visits true 0).

Lemma pvn_swap_rule_witness :
  chain (λ y, next (humans crowd y)) (queue crowd 1) [50; 51; 52; 53; 54] ∧
  start_swap (λ _, false) exact 0 7 crowd = Done tt crowd [] ∧
  start_swap (λ _, false) exact 0 25 crowd = Done tt (swapped crowd) [].
Proof.
  assert (chain (λ y, next (humans crowd y)) (queue crowd 0) [0; 1]) as H0 by (vm_compute; tauto).
  assert (chain (λ y, next (humans crowd y)) (queue crowd 1) [50; 51; 52; 53; 54]) as H1 by (vm_compute; tauto).
  assert (alignment (humans crowd 0) = PIRATE) as Ha by (by vm_compute).
  split; [done|]. split.
  - rewrite (pvn_swap_rule (λ _, false) crowd 0 7 50 [0; 1] [51; 52; 53; 54]); [|by left|by vm_compute|done|done|vm_compute; lia..].
    rewrite decide_False; [done|]. clear H0 H1 Ha. intros [H|[H|H]]; vm_compute in H; [discriminate H|discriminate H|by apply H].
  - rewrite (pvn_swap_rule (λ _, false) crowd 0 25 50 [0; 1] [51; 52; 53; 54]); [|by left|by vm_compute|done|done|vm_compute; lia..].
    rewrite decide_True; [done|]. right. right. vm_compute. discriminate.
Defined.
