(* ===== verification/Shell.v ===== *)
(** * What the versions of the shell share (Project1)

    The menu entries, the state of the shell and the pieces of code that v1 and v2
    have in common.  [stdin] is the input that has not been read.  The system is an
    argument: what [fork], [wait3] and the clock answer, and how [chdir] changes the
    working directory.  A buffer that [fgets] has not filled holds nothing that may
    be read. *)

From S2P Require Import Prelude CString.
From Stdlib Require Import Ascii.

Definition MAX_IN_LENGTH : Z := 200.
Definition MAX_DEF_ARGS : Z := 20.
Definition MAX_ARGS : Z := 40.
Definition MAX_OPTIONS : Z := 32.
Definition MAX_DIR_LENGTH : Z := 128.

Definition OPT_A : Z := -2.
Definition OPT_C : Z := -3.
Definition OPT_E : Z := -4.
Definition OPT_P : Z := -5.
Definition OPT_R : Z := -6.

(** ** Data *)

(** The pointer [defArgs]: NULL, or the array [defArgs] of a call of [addOption]
    that has returned. *)
Inductive def_args : Type :=
  | NoDefArgs
  | DeadArray (contents : list string).

(** [struct option]; v1 has no field [blocking]. *)
Record cmd : Type := mkCmd {
  path : string;
  name : string;
  desc : string;
  head : string;
  defArgs : def_args;
  args : bool;
  argPath : bool;
  blocking : bool;
}.

(** [struct timeval] and the fields of [struct rusage] the shell prints. *)
Record timeval : Type := mkTime { tv_sec : Z; tv_usec : Z }.
Record rusage : Type := mkUsage { ru_majflt : Z; ru_minflt : Z }.

(** [struct cprocess] (v2) *)
Record cprocess : Type := mkProc { pstart : timeval; pstop : timeval; pid : Z; jobnum : Z }.

Record shell : Type := mkShell {
  stdin : string;
  cmds : list cmd;              (* the entries [0 .. cmdsSize - 1] *)
  cwd : string;
  forks : nat;                  (* the number of calls of [fork] so far *)
  processes : list cprocess;    (* v2 *)
  jobCounter : Z;               (* v2 *)
}.

Inductive msg : Type :=
  | Line (s : string)                   (* a line *)
  | Ask (s : string)                    (* a prompt, without newline *)
  | Exec (argv : list string).          (* the child process runs this *)

Abbreviation prog := (M msg shell).

Definition set_stdin (i : string) (s : shell) : shell :=
  mkShell i (cmds s) (cwd s) (forks s) (processes s) (jobCounter s).
Definition set_cmds (l : list cmd) (s : shell) : shell :=
  mkShell (stdin s) l (cwd s) (forks s) (processes s) (jobCounter s).
Definition set_cwd (d : string) (s : shell) : shell :=
  mkShell (stdin s) (cmds s) d (forks s) (processes s) (jobCounter s).
Definition set_forks (n : nat) (s : shell) : shell :=
  mkShell (stdin s) (cmds s) (cwd s) n (processes s) (jobCounter s).
Definition set_processes (l : list cprocess) (s : shell) : shell :=
  mkShell (stdin s) (cmds s) (cwd s) (forks s) l (jobCounter s).
Definition set_jobCounter (n : Z) (s : shell) : shell :=
  mkShell (stdin s) (cmds s) (cwd s) (forks s) (processes s) n.

Definition get {A} (f : shell → A) : prog A := reads (λ s, Some (f s)).
Definition put (f : shell → shell) : prog unit := modifies (λ s, Some (f s)).

Fixpoint print_lines (l : list string) : prog unit :=
  match l with [] => mret tt | x :: l' => _ ← emit (Line x); print_lines l' end.

(** ** Reading *)

(** [fgets(buf, n, stdin)] into an array of [room] characters whose contents are used
    afterwards: nothing may be used when [fgets] read nothing, and a line that does
    not fit is written past the array. *)
Definition read_buf (n room : nat) : prog string :=
  o ← get (λ s, fgets n (stdin s));
  match o with
  | None => undefined
  | Some f =>
      _ ← put (set_stdin (fg_rest f));
      if decide (String.length (fg_line f) < room)%nat then mret (fg_line f) else undefined
  end.

(** [while (size < max && tmp != NULL) { ...; tmp = strtok(NULL, " "); size++; }] with
    room for [n] more. *)
Fixpoint collect (n : nat) (buf : string) : list string :=
  match n with
  | O => []
  | S n' => match strtok " "%char buf with (Some t, r) => t :: collect n' r | (None, _) => [] end
  end.

Definition nonempty (s : string) : bool := match s with EmptyString => false | _ => true end.

(** ** Menu entries *)

(** [appendOption]; the array [cmds] of [main] has [MAX_OPTIONS] entries. *)
Definition appendOption (c : cmd) : prog Z :=
  l ← get cmds;
  if zlen l <? MAX_OPTIONS then _ ← put (set_cmds (l ++ [c])); mret (zlen l) else undefined.

Definition header (nm : string) : string := "-- " +:+ nm +:+ " --".

(** ** Statistics *)

Definition elapsed (start stop : timeval) : Z :=
  (tv_sec stop - tv_sec start) * 1000 + Z.quot (tv_usec stop - tv_usec start) 1000.

Definition statistics (ms : Z) (use : rusage) : list string :=
  ["" ; "--- Statistics ---";
   if ms <? 1 then "Elapsed time: <1 millisecond" else "Elapsed time: " +:+ pretty ms +:+ " milliseconds";
   "Page faults: " +:+ pretty (ru_majflt use);
   "Page faults (reclaimed): " +:+ pretty (ru_minflt use)].

(** ** The argument vector *)

(** A store to [args[argsSize]]; the array has [MAX_ARGS + 1] entries. *)
Definition push_args (argv new : list string) : prog (list string) :=
  if zlen (argv ++ new) <=? MAX_ARGS then mret (argv ++ new) else undefined.

(** Copying the default arguments reads the array through the dangling pointer. *)
Definition unpack_def_args (c : cmd) (argv : list string) : prog (list string) :=
  match defArgs c with NoDefArgs => mret argv | DeadArray _ => undefined end.

(** The arguments the user types, if the command wants some. *)
Definition user_args (c : cmd) (argv : list string) : prog (list string) :=
  if args c then
    _ ← emit (Ask "Arguments?: ");
    l ← read_buf (Z.to_nat MAX_IN_LENGTH) (Z.to_nat MAX_IN_LENGTH);
    let buf := cleanNewline l in
    if nonempty buf then push_args argv (collect (Z.to_nat (MAX_ARGS - 1 - zlen argv)) buf) else mret argv
  else mret argv.

Definition path_arg (c : cmd) (argv : list string) : prog (list string) :=
  if argPath c then
    _ ← emit (Ask "Path?: ");
    l ← read_buf (Z.to_nat MAX_IN_LENGTH) (Z.to_nat MAX_IN_LENGTH);
    let buf := cleanNewline l in
    if nonempty buf then push_args argv [buf] else mret argv
  else mret argv.

(** From the header of the command to the terminator of [args]. *)
Definition build_args (option : Z) : prog (cmd * list string) :=
  c ← reads (λ s, zget (cmds s) option);
  _ ← emit (Line "");
  _ ← emit (Line (head c));
  argv ← unpack_def_args c [path c];
  argv ← user_args c argv;
  argv ← path_arg c argv;
  if zlen argv <=? MAX_ARGS then mret (c, argv) else undefined.

(** ** Other entries of the menu *)

Section os.
Context (os_chdir : string → string → string).

Definition change_directory : prog unit :=
  _ ← emit (Ask "Path?: ");
  l ← read_buf (Z.to_nat MAX_IN_LENGTH) (Z.to_nat MAX_IN_LENGTH);
  _ ← put (λ s, set_cwd (os_chdir (cwd s) (cleanNewline l)) s);
  emit (Line "").

(** [getcwd] fails, and leaves [path] as it was, when the directory does not fit. *)
Definition print_directory : prog unit :=
  d ← get cwd;
  if Z.of_nat (String.length d) <? MAX_DIR_LENGTH then
    _ ← emit (Line ("cwd: " +:+ d)); emit (Line "")
  else undefined.
End os.
