(* ===== verification/Shell0.v ===== *)
(** * The shell, version 0 (Project1/v0/mc0.c)

    Four fixed commands.  The program has no end: its loop reads until the input is
    exhausted, and what [fgets] then leaves in the buffer may not be read. *)

From S2P Require Import Prelude CString Shell.
From Stdlib Require Import Ascii.

Definition MAX_OPTION : Z := 3.
Definition MAX_ARGS : Z := 20.
Definition MAX_IN_LENGTH : Z := 100.

Definition getOption : prog Z :=
  l ← read_buf (Z.to_nat MAX_IN_LENGTH) (Z.to_nat MAX_IN_LENGTH);
  match l with
  | String c _ =>
      if isdigit c then
        opt ← reads (λ _, atoi l);
        mret (if (0 <=? opt) && (opt <=? MAX_OPTION) then opt else -1)
      else mret (-1)
  | EmptyString => mret (-1)
  end.

(** The arguments of [ls]: the array [args] has [MAX_ARGS + 1] entries, the last of
    them NULL. *)
Definition ls_args : prog (list string) :=
  _ ← emit (Ask "Arguments?: ");
  l ← read_buf (Z.to_nat MAX_IN_LENGTH) (Z.to_nat MAX_IN_LENGTH);
  let argv := "/bin/ls" :: collect (Z.to_nat (MAX_ARGS - 1 - 1)) (cleanNewline l) in
  _ ← emit (Ask "Path?: ");
  p ← read_buf (Z.to_nat MAX_IN_LENGTH) (Z.to_nat MAX_IN_LENGTH);
  let buf := cleanNewline p in
  let argv := if nonempty buf then argv ++ [buf] else argv in
  _ ← emit (Line "");
  if zlen argv <=? MAX_ARGS then mret argv else undefined.

(** The [switch]; [None] is the [exit(-1)] of its default case. *)
Definition choose (opt : Z) : prog (option (list string)) :=
  if opt =? 0 then _ ← emit (Line "-- Who am I? --"); mret (Some ["/usr/bin/whoami"])
  else if opt =? 1 then _ ← emit (Line "-- Last Logins --"); mret (Some ["/usr/bin/last"])
  else if opt =? 2 then
    _ ← emit (Line "-- Directory Listing --"); argv ← ls_args; mret (Some argv)
  else if opt =? 3 then _ ← emit (Line "-- Waiting --"); mret (Some ["./seymour"])
  else _ ← emit (Line "Somehow, nothing caught this invalid option."); mret None.

(** [struct timespec] *)
Record timespec : Type := mkSpec { ts_sec : Z; ts_nsec : Z }.

Definition elapsed (start stop : timespec) : Z :=
  (ts_sec stop - ts_sec start) * 1000 + Z.quot (ts_nsec stop - ts_nsec start) 1000000.

Record exec_result : Type := mkExec { forked : Z; t_start : timespec; t_stop : timespec; used : rusage }.

Section os.
Context (os : nat → exec_result).

Definition execute (argv : list string) : prog unit :=
  n ← get forks;
  _ ← put (set_forks (S n));
  if forked (os n) =? -1 then emit (Line "Fork failed; aborting...")
  else
    _ ← emit (Exec argv);
    print_lines (statistics (elapsed (t_start (os n)) (t_stop (os n))) (used (os n))).

(** One iteration of the loop of [main]; [false]: the program exits. *)
Definition iteration : prog bool :=
  _ ← print_lines ["Taimi speaking. What command would you like to run?";
                   "   0. whoami" +:+ String "009"%char ": Prints out the result of the whoami command.";
                   "   1. last" +:+ String "009"%char ": Prints out the result of the last command.";
                   "   2. ls" +:+ String "009"%char ": Prints out the result of the ls command.";
                   "   3. seymour" +:+ String "009"%char ": Wait."];
  _ ← emit (Ask "Option?: ");
  opt ← getOption;
  if (0 <=? opt) && (opt <=? MAX_OPTION) then
    _ ← emit (Line "");
    o ← choose opt;
    match o with
    | None => mret false
    | Some argv => _ ← execute argv; _ ← emit (Line ""); mret true
    end
  else _ ← emit (Line "Invalid option."); _ ← emit (Line ""); mret true.

(** [n] iterations. *)
Fixpoint iterate (n : nat) : prog bool :=
  match n with
  | O => mret true
  | S n' => go ← iteration; if (go : bool) then iterate n' else mret false
  end.

Definition start (input : string) : shell := mkShell input [] "" 0 [] 0.
End os.
