(* ===== verification/Shell1.v ===== *)
(** * The shell, version 1 (Project1/v1: mc1.c, option.c) *)

From S2P Require Import Prelude CString Shell.
From Stdlib Require Import Ascii.

(** ** option.c *)

(** A letter of the menu. *)
Definition letter (c : ascii) : option Z :=
  if decide (c = "a"%char) then Some OPT_A
  else if decide (c = "c"%char) then Some OPT_C
  else if decide (c = "e"%char) then Some OPT_E
  else if decide (c = "p"%char) then Some OPT_P
  else None.

(** The part of [selectOption] after the test of [feof]. *)
Definition decode_option (size : Z) (choiceStr : string) : option Z :=
  match choiceStr with
  | EmptyString => Some (-1)
  | String c _ =>
      match letter c with
      | Some o => Some o
      | None =>
          if isdigit c then
            option ← atoi choiceStr;
            Some (if (0 <=? option) && (option <=? size) then option else -1)
          else Some (-1)
      end
  end.

Definition selectOption (size : Z) : prog Z :=
  o ← get (λ s, fgets (Z.to_nat MAX_IN_LENGTH) (stdin s));
  match o with
  | None => mret OPT_E
  | Some f =>
      _ ← put (set_stdin (fg_rest f));
      if fg_eof f then mret OPT_E else reads (λ _, decode_option size (fg_line f))
  end.

(** [nameStr] has [MAX_IN_LENGTH - 6] characters, [fgets] may write [MAX_IN_LENGTH]. *)
Definition addOption : prog Z :=
  _ ← emit (Ask "Command?: ");
  l ← read_buf (Z.to_nat MAX_IN_LENGTH) (Z.to_nat (MAX_IN_LENGTH - 6));
  let nameStr := cleanNewline l in
  if nonempty nameStr then
    match strtok " "%char nameStr with
    | (None, _) => undefined
    | (Some pathStr, rest) =>
        appendOption (mkCmd pathStr nameStr "A user generated command." (header nameStr)
          (DeadArray (collect (Z.to_nat (MAX_DEF_ARGS - 1)) rest)) false false true)
    end
  else mret (-1).

Definition addOptionVerbose : prog Z :=
  _ ← emit (Ask "Path to command?: ");
  p ← read_buf (Z.to_nat MAX_IN_LENGTH) (Z.to_nat MAX_IN_LENGTH);
  _ ← emit (Ask "Name of command?: ");
  n ← read_buf (Z.to_nat (MAX_IN_LENGTH - 6)) (Z.to_nat (MAX_IN_LENGTH - 6));
  _ ← emit (Ask "Description?: ");
  d ← read_buf (Z.to_nat MAX_IN_LENGTH) (Z.to_nat MAX_IN_LENGTH);
  appendOption (mkCmd (cleanNewline p) (cleanNewline n) (cleanNewline d) (header (cleanNewline n))
    NoDefArgs true true true).

(** ** mc1.c *)

(** What the system answers to one [executeCommand]: the result of [fork], the clock
    before it and after the child has ended, the use of resources. *)
Record exec_result : Type := mkExec { forked : Z; t_start : timeval; t_stop : timeval; used : rusage }.

Section os.
Context (os : nat → exec_result) (os_chdir : string → string → string).

(** The parent's side; the child runs [execvp]. *)
Definition executeCommand (argv : list string) : prog unit :=
  n ← get forks;
  _ ← put (set_forks (S n));
  if forked (os n) =? -1 then emit (Line "Fork failed; aborting...")
  else
    _ ← emit (Exec argv);
    print_lines (statistics (elapsed (t_start (os n)) (t_stop (os n))) (used (os n))).

Definition menu_line (i : Z) (c : cmd) : string :=
  "   " +:+ pretty i +:+ ". " +:+ name c +:+ String "009"%char (": " +:+ desc c).

Definition prompt : prog unit :=
  _ ← emit (Line "Taimi speaking. What command would you like to run?");
  l ← get cmds;
  _ ← print_lines (zip_with menu_line (seqZ 0 (zlen l)) l);
  _ ← print_lines ["   a. add command : Adds a new command to the menu.";
                   "   c. change directory : Changes the process working directory.";
                   "   e. exit : Leave Mid-Day Commander.";
                   "   p. pwd : Prints the working directory."];
  emit (Ask "Option?: ").

(** What an iteration of the main loop does with the choice; the result is
    [finished]. *)
Definition dispatch (option : Z) : prog bool :=
  if option =? -1 then _ ← emit (Line "Invalid choice."); mret false
  else if option =? OPT_A then
    i ← addOption;
    _ ← emit (Line (if i <? 0 then "Failed to add option." else "Added with ID " +:+ pretty i));
    _ ← emit (Line "");
    mret false
  else if option =? OPT_C then _ ← change_directory os_chdir; mret false
  else if option =? OPT_E then mret true
  else if option =? OPT_P then _ ← print_directory; mret false
  else
    '(_, argv) ← build_args option;
    _ ← executeCommand argv;
    _ ← emit (Line "");
    mret false.

Definition iteration : prog bool :=
  _ ← prompt;
  size ← get (λ s, zlen (cmds s));
  option ← selectOption size;
  dispatch option.

(** Every iteration that does not finish reads a character. *)
Fixpoint loop (fuel : nat) : prog unit :=
  match fuel with
  | O => out_of_fuel
  | S fuel' => fin ← iteration; if (fin : bool) then mret tt else loop fuel'
  end.

Definition default_cmds : list cmd :=
  [mkCmd "whoami" "whoami" "Prints out the result of the 'whoami' command." "-- Who am I? --" NoDefArgs false false true;
   mkCmd "last" "last" "Prints out the result of the 'last' command." "-- Last logins --" NoDefArgs false false true;
   mkCmd "ls" "ls" "Prints out the result of the 'ls' command." "-- Directory listing --" NoDefArgs true true true].

(** The three calls of [appendOption] in the condition of [main]. *)
Fixpoint append_defaults (l : list cmd) : prog bool :=
  match l with
  | [] => mret true
  | c :: l' => i ← appendOption c; if i <? 0 then mret false else append_defaults l'
  end.

Definition main (fuel : nat) : prog Z :=
  ok ← append_defaults default_cmds;
  if (ok : bool) then
    _ ← emit (Line "===== Mid-Day Commander, v1 =====");
    _ ← loop fuel;
    _ ← emit (Line "Exiting...");
    mret 0
  else _ ← emit (Line "Failed to add default commands."); mret (-1).

(** The process starts with empty tables. *)
Definition fresh (input dir : string) : shell := mkShell input [] dir 0 [] 0.

Definition session (input dir : string) : outcome msg shell Z :=
  main (S (String.length input)) (fresh input dir).
End os.
