(* ===== verification/Shell2.v ===== *)
(** * The shell, version 2 (Project1/v2: mc2.c, option.c, cprocess.c, waitthread.c)

    The main thread and the thread that waits for background processes are steps on
    the same state: an iteration of the main loop, and one [wait3] of [waitThread]
    that reports a child, with what the thread then does. *)

From S2P Require Import Prelude CString Shell.
From Stdlib Require Import Ascii.

Definition MAX_BGPROCESSES : Z := 100.

(** ** cprocess.c *)

Definition set_pid (n : Z) (p : cprocess) : cprocess := mkProc (pstart p) (pstop p) n (jobnum p).
Definition set_jobnum (n : Z) (p : cprocess) : cprocess := mkProc (pstart p) (pstop p) (pid p) n.
Definition set_start (t : timeval) (p : cprocess) : cprocess := mkProc t (pstop p) (pid p) (jobnum p).
Definition set_stop (t : timeval) (p : cprocess) : cprocess := mkProc (pstart p) t (pid p) (jobnum p).

Definition dec_job (n : Z) (p : cprocess) : cprocess :=
  if n <? jobnum p then set_jobnum (jobnum p - 1) p else p.

Definition decrementJobs (n : Z) : prog unit :=
  _ ← put (λ s, set_processes (dec_job n <$> processes s) s);
  put (λ s, set_jobCounter (jobCounter s - 1) s).

(** The index of the first entry that satisfies the test; [None] is NULL. *)
Fixpoint find_index (f : cprocess → bool) (l : list cprocess) (i : Z) : option Z :=
  match l with
  | [] => None
  | p :: l' => if f p then Some i else find_index f l' (i + 1)
  end.

Definition findProcess (l : list cprocess) (n : Z) : option Z := find_index (λ p, pid p =? n) l 0.
Definition findJobnum (l : list cprocess) (n : Z) : option Z := find_index (λ p, jobnum p =? n) l 0.

(** An access through the pointer to entry [i]. *)
Definition tracker (i : Z) : prog cprocess := reads (λ s, zget (processes s) i).
Definition upd_tracker (i : Z) (f : cprocess → cprocess) : prog unit :=
  modifies (λ s, p ← zget (processes s) i; l ← zset (processes s) i (f p); Some (set_processes l s)).

(** What [wait3] reports of a child, and the clock after it. *)
Record wait_event : Type := mkWait { w_pid : Z; w_stop : timeval; w_use : rusage }.

(** [cleanCommand] on an entry of [processes]. *)
Definition cleanCommand (i : Z) (e : wait_event) : prog unit :=
  _ ← upd_tracker i (set_stop (w_stop e));
  p ← tracker i;
  _ ← print_lines (statistics (elapsed (pstart p) (pstop p)) (w_use e));
  upd_tracker i (set_pid 0).

(** ** waitthread.c; the main thread does the same for a background process *)

Definition resolve (e : wait_event) : prog unit :=
  o ← get (λ s, findProcess (processes s) (w_pid e));
  match o with
  | None => undefined
  | Some i =>
      p ← tracker i;
      _ ← emit (Line "");
      _ ← emit (Line ("-- Job Complete [" +:+ pretty (jobnum p) +:+ "] --"));
      _ ← emit (Line ("Process ID: " +:+ pretty (pid p)));
      _ ← decrementJobs (jobnum p);
      cleanCommand i e
  end.

Definition waitThread (e : wait_event) : prog unit :=
  if 0 <? w_pid e then resolve e else mret tt.

(** ** option.c *)

Definition letter (c : ascii) : option Z :=
  if decide (c = "a"%char) then Some OPT_A
  else if decide (c = "c"%char) then Some OPT_C
  else if decide (c = "e"%char) then Some OPT_E
  else if decide (c = "p"%char) then Some OPT_P
  else if decide (c = "r"%char) then Some OPT_R
  else None.

Definition decode_option (size : Z) (choiceStr : string) : option Z :=
  match choiceStr with
  | EmptyString => Some (-1)
  | String c _ =>
      match letter c with
      | Some o => Some o
      | None =>
          if isdigit c then
            option ← atoi choiceStr;
            Some (if (0 <=? option) && (option <? size) then option else -1)
          else Some (-1)
      end
  end.

Definition selectOption (size : Z) : prog Z :=
  o ← get (λ s, fgets (Z.to_nat MAX_IN_LENGTH) (stdin s));
  match o with
  | None => mret OPT_E
  | Some f =>
      _ ← put (set_stdin (fg_rest f));
      if fg_eof f then mret OPT_E else reads (λ _, decode_option size (fg_line f))
  end.

(** The loop over the words after the path: [n] is the room left in [defArgs]; a word
    that starts with [&] clears [blocking] and is not stored. *)
Fixpoint collect_amp (fuel n : nat) (buf : string) (blocking : bool) : option (list string * bool) :=
  match n, fuel with
  | O, _ => Some ([], blocking)
  | _, O => None
  | S n', S fuel' =>
      match strtok " "%char buf with
      | (None, _) => Some ([], blocking)
      | (Some t, r) =>
          match t with
          | String "&" _ => collect_amp fuel' n r false
          | _ => '(l, b) ← collect_amp fuel' n' r blocking; Some (t :: l, b)
          end
      end
  end.

Definition addOption : prog Z :=
  _ ← emit (Ask "Command?: ");
  l ← read_buf (Z.to_nat MAX_IN_LENGTH) (Z.to_nat (MAX_IN_LENGTH - 6));
  let nameStr := cleanNewline l in
  if nonempty nameStr then
    match strtok " "%char nameStr with
    | (None, _) => undefined
    | (Some pathStr, rest) =>
        match collect_amp (S (String.length rest)) (Z.to_nat (MAX_DEF_ARGS - 1)) rest true with
        | Some (l, b) =>
            appendOption (mkCmd pathStr nameStr "A user generated command." (header nameStr) (DeadArray l)
              false false b)
        | None => out_of_fuel
        end
    end
  else mret (-1).

Definition addOptionVerbose : prog Z :=
  _ ← emit (Ask "Path to command?: ");
  p ← read_buf (Z.to_nat MAX_IN_LENGTH) (Z.to_nat MAX_IN_LENGTH);
  _ ← emit (Ask "Name of command?: ");
  n ← read_buf (Z.to_nat (MAX_IN_LENGTH - 6)) (Z.to_nat (MAX_IN_LENGTH - 6));
  _ ← emit (Ask "Description?: ");
  d ← read_buf (Z.to_nat MAX_IN_LENGTH) (Z.to_nat MAX_IN_LENGTH);
  appendOption (mkCmd (cleanNewline p) (cleanNewline n) (cleanNewline d) (header (cleanNewline n))
    NoDefArgs true true true).

(** ** mc2.c *)

(** What the system answers to one command: the clock before [fork], its result, and
    what the successive [wait3] of the main thread report. *)
Record exec_result : Type := mkExec { t_start : timeval; forked : Z; reported : list wait_event }.

Section os.
Context (os : nat → exec_result) (os_chdir : string → string → string).

(** [executeCommand] for entry [i] of [processes] or, with [None], for the local
    [fgProcess]; the parent's side. *)
Definition executeCommand (argv : list string) (i : option Z) : prog exec_result :=
  n ← get forks;
  let r := os n in
  _ ← put (set_forks (S n));
  _ ← (match i with
       | Some i => upd_tracker i (λ p, set_pid (forked r) (set_start (t_start r) p))
       | None => mret tt
       end);
  _ ← (if forked r =? -1 then emit (Line "Fork failed; aborting...") else emit (Exec argv));
  mret r.

(** The main thread waits for the foreground process [fg] started at [start].  The
    loop tests the outer [fin], which stays 0, against [fgProcess.pid], which
    [cleanCommand] sets to 0. *)
Fixpoint wait_foreground (evs : list wait_event) (start : timeval) (fg : Z) : prog unit :=
  match evs with
  | [] => out_of_fuel
  | e :: evs' =>
      if w_pid e =? fg then print_lines (statistics (elapsed start (w_stop e)) (w_use e))
      else _ ← resolve e; wait_foreground evs' start fg
  end.

Definition run_blocking (argv : list string) : prog unit :=
  r ← executeCommand argv None;
  if forked r =? 0 then mret tt else wait_foreground (reported r) (t_start r) (forked r).

Definition run_background (argv : list string) : prog unit :=
  o ← get (λ s, findProcess (processes s) 0);
  match o with
  | None => undefined
  | Some i =>
      n ← get jobCounter;
      _ ← upd_tracker i (set_jobnum n);
      _ ← put (set_jobCounter (n + 1));
      _ ← executeCommand argv (Some i);
      mret tt
  end.

(** [for (int i = 1; i < jobCounter; i++)] of the menu entry [r]. *)
Definition running_line (i : Z) : prog unit :=
  o ← get (λ s, findJobnum (processes s) i);
  match o with
  | None => undefined
  | Some k =>
      p ← tracker k;
      emit (Line ("[" +:+ pretty (jobnum p) +:+ "] Process ID: " +:+ pretty (pid p)))
  end.

Definition running_processes : prog unit :=
  _ ← emit (Line "-- Running Processes --");
  n ← get jobCounter;
  for_do (seqZ 1 (n - 1)) running_line.

Definition menu_line (i : Z) (c : cmd) : string :=
  "   " +:+ pretty i +:+ ". " +:+ name c +:+ String "009"%char (": " +:+ desc c).

Definition prompt : prog unit :=
  _ ← emit (Line "Taimi speaking. What command would you like to run?");
  l ← get cmds;
  _ ← print_lines (zip_with menu_line (seqZ 0 (zlen l)) l);
  _ ← print_lines ["   a. add command : Adds a new command to the menu.";
                   "   c. change directory : Changes the process working directory.";
                   "   e. exit : Leave Mid-Day Commander.";
                   "   p. pwd : Prints the working directory.";
                   "   r. running processes : Print list of running processes."];
  emit (Ask "Option?: ").

(** What an iteration of the main loop does with the choice; the result is
    [finished]. *)
Definition dispatch (option : Z) : prog bool :=
  if option =? -1 then _ ← emit (Line "Invalid choice."); mret false
  else if option =? OPT_A then
    i ← addOption;
    _ ← emit (Line (if i <? 0 then "Failed to add option." else "Added with ID " +:+ pretty i));
    _ ← emit (Line "");
    mret false
  else if option =? OPT_C then _ ← change_directory os_chdir; mret false
  else if option =? OPT_E then mret true
  else if option =? OPT_P then _ ← print_directory; mret false
  else if option =? OPT_R then _ ← running_processes; mret false
  else
    '(c, argv) ← build_args option;
    _ ← (if blocking c then run_blocking argv else run_background argv);
    _ ← emit (Line "");
    mret false.

Definition iteration : prog bool :=
  _ ← prompt;
  size ← get (λ s, zlen (cmds s));
  option ← selectOption size;
  dispatch option.

Definition default_cmds : list cmd :=
  [mkCmd "whoami" "whoami" "Prints out the result of the 'whoami' command." "-- Who am I? --" NoDefArgs false false true;
   mkCmd "last" "last" "Prints out the result of the 'last' command." "-- Last logins --" NoDefArgs false false true;
   mkCmd "ls" "ls" "Prints out the result of the 'ls' command." "-- Directory listing --" NoDefArgs true true true].

(** [main] up to its loop; [processes] is static, so its other fields are 0. *)
Definition startup (input dir : string) : shell :=
  mkShell input default_cmds dir 0
    (replicate (Z.to_nat MAX_BGPROCESSES) (mkProc (mkTime 0 0) (mkTime 0 0) 0 0)) 1.

(** [main] leaves its last loop when no process is left. *)
Definition remainOpen (s : shell) : bool := existsb (λ p, negb (pid p =? 0)) (processes s).

(** The two threads. *)
Inductive step : shell → shell → Prop :=
  | S_main s s' o : iteration s = Done false s' o → step s s'
  | S_wait e s s' o : waitThread e s = Done tt s' o → step s s'.
End os.
