(* ===== verification/ShellWords.v ===== *)
(** * Words of a line

    The loops over [strtok] against a reference: the pieces of the line between
    spaces that are not empty. *)

From S2P Require Import Prelude CString Shell Shell2.
From Stdlib Require Import Ascii.

(** The pieces between the delimiters. *)
Fixpoint split_on (d : ascii) (s : string) : list string :=
  match s with
  | EmptyString => [EmptyString]
  | String c r =>
      if decide (c = d) then EmptyString :: split_on d r
      else match split_on d r with t :: ts => String c t :: ts | [] => [String c EmptyString] end
  end.

Definition words (s : string) : list string := filter (λ t, nonempty t = true) (split_on " "%char s).

Lemma split_skip d s :
  filter (λ t, nonempty t = true) (split_on d (skip_delims d s)) = filter (λ t, nonempty t = true) (split_on d s).
Proof.
  induction s as [|c s IH]; [done|]. cbn [skip_delims]. case_decide as Hc; [|done].
  cbn [split_on]. rewrite decide_True by done. rewrite filter_cons, decide_False by done. exact IH.
Qed.

Lemma split_break d s t r : break_at d s = (t, r) →
  split_on d s = t :: split_on d r ∨ split_on d s = [t] ∧ r = EmptyString.
Proof.
  revert t r. induction s as [|c s IH]; intros t r; cbn.
  - intros [= <- <-]. by right.
  - case_decide as Hc.
    + intros [= <- <-]. by left.
    + destruct (break_at d s) as [a b]. intros [= <- <-].
      destruct (IH a b eq_refl) as [-> | [-> ->]]; [by left|by right].
Qed.

Lemma words_strtok s :
  match strtok " "%char s with
  | (Some t, r) => words s = t :: words r
  | (None, _) => words s = []
  end.
Proof.
  unfold words. rewrite <-split_skip. unfold strtok. destruct (skip_delims " "%char s) as [|c s'] eqn:E; [done|].
  destruct (break_at " "%char (String c s')) as [t r] eqn:Eb.
  assert (nonempty t = true) as Ht.
  { apply skip_delims_head in E. cbn in Eb. rewrite decide_False in Eb by done.
    destruct (break_at " "%char s'). by injection Eb as <- _. }
  destruct (split_break _ _ _ _ Eb) as [-> | [-> ->]]; by rewrite filter_cons, decide_True by done.
Qed.

(** The loop of v1 and of [main] takes the first words. *)
Lemma collect_words n s : collect n s = take n (words s).
Proof.
  revert s. induction n as [|n IH]; intros s; [by rewrite take_0|]. cbn [collect]. pose proof (words_strtok s) as H.
  destruct (strtok " "%char s) as [[t|] r]; rewrite H; [|done]. cbn [take]. by rewrite IH.
Qed.

Definition ampersand (t : string) : bool := match t with String "&" _ => true | _ => false end.

(** The loop of v2 separates the words that start with [&]. *)
Lemma collect_amp_words fuel n s b :
  (String.length s < fuel)%nat → (length (filter (λ t, ampersand t = false) (words s)) < n)%nat →
  collect_amp fuel n s b =
    Some (filter (λ t, ampersand t = false) (words s), b && forallb (λ t, negb (ampersand t)) (words s)).
Proof.
  revert n s b. induction fuel as [|fuel IH]; intros n s b Hf Hn; [lia|].
  destruct n as [|n]; [lia|]. cbn [collect_amp]. pose proof (words_strtok s) as H.
  destruct (strtok " "%char s) as [[t|] r] eqn:E.
  - apply strtok_shorter in E. rewrite H in *. rewrite filter_cons in *. cbn [forallb].
    destruct (ampersand t) eqn:Ha.
    + rewrite decide_False in * by done. cbn [negb andb]. rewrite andb_false_r.
      destruct t as [|c t]; [done|]. cbn in Ha.
      assert (c = "&"%char) as -> by (destruct c as [[] [] [] [] [] [] [] []]; done).
      rewrite IH by (done || lia). done.
    + rewrite decide_True in * by done. cbn [negb andb length] in *.
      pose proof (IH n r b ltac:(lia) ltac:(lia)) as Hr. destruct t as [|c t]; [by rewrite Hr|].
      destruct c as [[] [] [] [] [] [] [] []]; first [discriminate Ha|by rewrite Hr].
  - rewrite H. cbn. by rewrite andb_true_r.
Qed.
