(* ===== verification/ShellInput.v ===== *)
(** * How the shell consumes its input

    No operation gives input back, every choice reads at least a character or is the
    choice to leave, and so the main loop of v1 ends, or meets undefined behaviour. *)

From S2P Require Import Prelude CString Shell Shell1.
From Stdlib Require Import Ascii.

Definition left_over (s : shell) : nat := String.length (stdin s).

(** The code ends (or is undefined) and leaves no more input than there was. *)
Definition shrinks {A} (m : prog A) : Prop := ∀ s,
  match m s with Done _ s' _ => (left_over s' ≤ left_over s)%nat | Undef => True | NoFuel => False end.

Create HintDb shrinks discriminated.

Lemma shrinks_ret {A} (a : A) : shrinks (mret a).
Proof. intros s. cbn. lia. Qed.
Lemma shrinks_emit e : shrinks (emit e).
Proof. intros s. cbn. lia. Qed.
Lemma shrinks_undefined {A} : shrinks (undefined : prog A).
Proof. done. Qed.
Lemma shrinks_reads {A} (f : shell → option A) : shrinks (reads f).
Proof. intros s. unfold reads. destruct (f s); [lia|done]. Qed.
Lemma shrinks_get {A} (f : shell → A) : shrinks (get f).
Proof. apply shrinks_reads. Qed.
Lemma shrinks_put f : (∀ s, stdin (f s) = stdin s) → shrinks (put f).
Proof. intros H s. cbn. unfold left_over. by rewrite H. Qed.
Lemma shrinks_bind {A B} (m : prog A) (k : A → prog B) :
  shrinks m → (∀ a, shrinks (k a)) → shrinks (m ≫= k).
Proof.
  intros Hm Hk s. unfold mbind, M_bind. specialize (Hm s). destruct (m s) as [a s1 o1| |]; try done.
  specialize (Hk a s1). destruct (k a s1); [lia|done..].
Qed.
#[export] Hint Resolve shrinks_ret shrinks_emit shrinks_undefined shrinks_reads shrinks_get : shrinks.
#[export] Hint Extern 1 (shrinks (put _)) => by apply shrinks_put : shrinks.

Ltac solve_shrinks :=
  repeat match goal with
  | |- shrinks (mbind _ _) => apply shrinks_bind
  | |- shrinks (match ?x with _ => _ end) => destruct x
  | |- shrinks (let _ := _ in _) => cbv zeta
  | |- ∀ _, shrinks _ => intros ?
  | |- shrinks _ => solve [eauto with shrinks]
  end.

Lemma shrinks_read_buf n room : (2 ≤ n)%nat → shrinks (read_buf n room).
Proof.
  intros Hn s. unfold read_buf, mbind, M_bind, get, reads, put, modifies.
  destruct (fgets n (stdin s)) as [f|] eqn:E; [|done]. cbn. case_decide; [|done]. cbn.
  unfold left_over. cbn. apply (fgets_shorter n) in E; [lia|done].
Qed.
#[export] Hint Extern 1 (shrinks (read_buf _ _)) => apply shrinks_read_buf; vm_compute; lia : shrinks.

Lemma shrinks_print_lines l : shrinks (print_lines l).
Proof. induction l as [|x l IH]; cbn [print_lines]; solve_shrinks. Qed.
Lemma shrinks_append c : shrinks (appendOption c).
Proof. unfold appendOption. solve_shrinks. Qed.
#[export] Hint Resolve shrinks_print_lines shrinks_append : shrinks.
Lemma shrinks_push argv new : shrinks (push_args argv new).
Proof. unfold push_args. solve_shrinks. Qed.
#[export] Hint Resolve shrinks_push : shrinks.
Lemma shrinks_build i : shrinks (build_args i).
Proof. unfold build_args, unpack_def_args, user_args, path_arg. solve_shrinks. Qed.
Lemma shrinks_cd f : shrinks (change_directory f).
Proof. unfold change_directory. solve_shrinks. Qed.
Lemma shrinks_pwd : shrinks print_directory.
Proof. unfold print_directory. solve_shrinks. Qed.
Lemma shrinks_add : shrinks addOption.
Proof. unfold addOption. solve_shrinks. Qed.
Lemma shrinks_prompt : shrinks prompt.
Proof. unfold prompt. solve_shrinks. Qed.
Lemma shrinks_execute os argv : shrinks (executeCommand os argv).
Proof. unfold executeCommand. solve_shrinks. Qed.
#[export] Hint Resolve shrinks_build shrinks_cd shrinks_pwd shrinks_add shrinks_prompt shrinks_execute : shrinks.

(** A choice reads something, unless it is the choice to leave. *)
Lemma select_consumes size s :
  match selectOption size s with
  | Done o s' _ => o = OPT_E ∨ (left_over s' < left_over s)%nat
  | Undef => True
  | NoFuel => False
  end.
Proof.
  unfold selectOption, mbind, M_bind, get, put, reads, modifies.
  destruct (fgets (Z.to_nat MAX_IN_LENGTH) (stdin s)) as [f|] eqn:E; [|by left].
  apply fgets_shorter in E; [|vm_compute; lia]. destruct (fg_eof f); cbn; [by left|].
  destruct (decode_option size (fg_line f)); [by right|done].
Qed.

Lemma shrinks_dispatch os cd o : shrinks (dispatch os cd o).
Proof. unfold dispatch. solve_shrinks. Qed.

Lemma iteration_consumes os cd s :
  match iteration os cd s with
  | Done fin s' _ => fin = true ∨ (left_over s' < left_over s)%nat
  | Undef => True
  | NoFuel => False
  end.
Proof.
  unfold iteration, mbind, M_bind, get, reads. pose proof (shrinks_prompt s) as Hp.
  destruct (prompt s) as [u s1 o1| |]; try done.
  pose proof (select_consumes (zlen (cmds s1)) s1) as Hsel.
  destruct (selectOption (zlen (cmds s1)) s1) as [o s2 o2| |]; try done.
  pose proof (shrinks_dispatch os cd o s2) as Hd. destruct Hsel as [->|Hlt]; [by left|].
  destruct (dispatch os cd o s2) as [fin s3 o3| |]; try done. right. lia.
Qed.

Lemma loop_ends os cd fuel s : (left_over s < fuel)%nat → loop os cd fuel s ≠ NoFuel.
Proof.
  revert s. induction fuel as [|fuel IH]; intros s Hf; [lia|]. cbn [loop]. unfold mbind, M_bind.
  pose proof (iteration_consumes os cd s) as Hi. destruct (iteration os cd s) as [fin s1 o1| |]; try done.
  destruct fin; [done|]. destruct Hi as [?|Hlt]; [done|]. specialize (IH s1 ltac:(lia)).
  by destruct (loop os cd fuel s1).
Qed.
