(* ===== verification/ShellJobs.v ===== *)
(** * The background jobs of v2

    The live entries of [processes] carry the job numbers [1 .. jobCounter - 1], each
    once, whatever the two threads do. *)

From S2P Require Import Prelude CString Shell Shell2.
From Stdlib Require Import Ascii.

(** The end of a line the user types. *)
Definition nl : string := String newline EmptyString.

Definition live (l : list cprocess) : list cprocess := filter (λ p, pid p ≠ 0) l.

Record jobs_inv (s : shell) : Prop := {
  j_size : zlen (processes s) = MAX_BGPROCESSES;
  j_counter : 1 ≤ jobCounter s;
  j_nums : jobnum <$> live (processes s) ≡ₚ seqZ 1 (jobCounter s - 1);
}.

(** ** Searching *)

Lemma find_index_Some f l i k : find_index f l i = Some k →
  ∃ l1 p l2, l = l1 ++ p :: l2 ∧ k = i + zlen l1 ∧ f p = true ∧ Forall (λ q, f q = false) l1.
Proof.
  revert i. induction l as [|p l IH]; intros i; cbn; [done|]. destruct (f p) eqn:E.
  - intros [= <-]. exists [], p, l. unfold zlen. cbn. split_and!; [done|lia|done|constructor].
  - intros (l1 & q & l2 & -> & -> & Hq & Hl)%IH. exists (p :: l1), q, l2. unfold zlen. cbn.
    split_and!; [done|lia|done|by constructor].
Qed.

Lemma find_index_None f l i : find_index f l i = None ↔ Forall (λ q, f q = false) l.
Proof.
  revert i. induction l as [|p l IH]; intros i; cbn; [split; [constructor|done]|].
  rewrite Forall_cons, <-(IH (i + 1)). destruct (f p); naive_solver.
Qed.

(** ** Job numbers *)

Definition dec (n j : Z) : Z := if n <? j then j - 1 else j.

(** Removing number [n] and moving the higher ones down leaves no gap. *)
Lemma dec_seq n K l : 0 ≤ K → n :: l ≡ₚ seqZ 1 K → dec n <$> l ≡ₚ seqZ 1 (K - 1).
Proof.
  intros HK Hl. assert (1 ≤ n ≤ K) as Hn.
  { assert (n ∈ seqZ 1 K) as ?%elem_of_seqZ by (rewrite <-Hl; left). lia. }
  assert (seqZ 1 K = seqZ 1 (n - 1) ++ n :: seqZ (n + 1) (K - n)) as E.
  { replace K with ((n - 1) + (1 + (K - n))) at 1 by lia. rewrite seqZ_app by lia. f_equal.
    rewrite seqZ_app by lia. replace (1 + (n - 1)) with n by lia. done. }
  rewrite E in Hl. apply Permutation_cons_app_inv in Hl. rewrite Hl, fmap_app.
  assert (dec n <$> seqZ 1 (n - 1) = seqZ 1 (n - 1)) as ->.
  { rewrite <-(list_fmap_id (seqZ 1 (n - 1))) at 2. apply list_fmap_ext. intros i x Hx%list_elem_of_lookup_2.
    apply elem_of_seqZ in Hx. unfold dec. destruct (Z.ltb_spec n x); cbn; lia. }
  assert (dec n <$> seqZ (n + 1) (K - n) = seqZ n (K - n)) as ->.
  { replace (n + 1) with (1 + n) by lia. rewrite <-fmap_add_seqZ, <-list_fmap_compose.
    rewrite <-(list_fmap_id (seqZ n (K - n))) at 2. apply list_fmap_ext. intros i x Hx%list_elem_of_lookup_2.
    apply elem_of_seqZ in Hx. unfold compose, dec. destruct (Z.ltb_spec n (1 + x)); cbn; lia. }
  replace (K - 1) with ((n - 1) + (K - n)) by lia. rewrite seqZ_app by lia. by replace (1 + (n - 1)) with n by lia.
Qed.

Lemma live_app l1 l2 : live (l1 ++ l2) = live l1 ++ live l2.
Proof. apply filter_app. Qed.
Lemma live_cons_on p l : pid p ≠ 0 → live (p :: l) = p :: live l.
Proof. intros H. unfold live. by rewrite filter_cons, decide_True. Qed.
Lemma live_cons_off p l : pid p = 0 → live (p :: l) = live l.
Proof. intros H. unfold live. rewrite filter_cons, decide_False by lia. done. Qed.

Lemma dec_job_pid n p : pid (dec_job n p) = pid p.
Proof. unfold dec_job. by case_match. Qed.
Lemma dec_job_num n p : jobnum (dec_job n p) = dec n (jobnum p).
Proof. unfold dec_job, dec. by case_match. Qed.

Lemma live_dec n l : jobnum <$> live (dec_job n <$> l) = dec n <$> (jobnum <$> live l).
Proof.
  induction l as [|p l IH]; [done|]. rewrite fmap_cons. destruct (decide (pid p = 0)) as [E|E].
  - rewrite !live_cons_off by (by rewrite ?dec_job_pid). exact IH.
  - rewrite !live_cons_on by (by rewrite ?dec_job_pid). rewrite !fmap_cons, IH. by rewrite dec_job_num.
Qed.

(** ** A job ends *)

Lemma upd_tracker_ok l1 p l2 f s : processes s = l1 ++ p :: l2 →
  upd_tracker (zlen l1) f s = Done tt (set_processes (l1 ++ f p :: l2) s) [].
Proof. intros E. unfold upd_tracker, modifies. rewrite E, zget_middle. cbn. by rewrite zset_middle. Qed.

Lemma tracker_ok l1 p l2 s : processes s = l1 ++ p :: l2 → tracker (zlen l1) s = Done p s [].
Proof. intros E. unfold tracker, reads. by rewrite E, zget_middle. Qed.

Lemma print_lines_ok l s : print_lines l s = Done tt s (Line <$> l).
Proof.
  induction l as [|x l IH]; [done|]. cbn [print_lines].
  by erewrite (bind_done (emit (Line x)) (λ _, print_lines l)); [|done|exact IH].
Qed.

Lemma zlen_fmap {A B} (f : A → B) l : zlen (f <$> l) = zlen l.
Proof. unfold zlen. by rewrite length_fmap. Qed.

(** What [resolve] does when the process is known. *)
Lemma resolve_ok e s l1 p l2 : processes s = l1 ++ p :: l2 → pid p = w_pid e →
  Forall (λ q, (pid q =? w_pid e) = false) l1 →
  ∃ o p', pid p' = 0 ∧ resolve e s =
    Done tt (mkShell (stdin s) (cmds s) (cwd s) (forks s)
      ((dec_job (jobnum p) <$> l1) ++ p' :: (dec_job (jobnum p) <$> l2)) (jobCounter s - 1)) o.
Proof.
  intros E Hp Hl1. unfold resolve, get.
  assert (findProcess (processes s) (w_pid e) = Some (zlen l1)) as Hf.
  { unfold findProcess. destruct (find_index _ (processes s) 0) as [k|] eqn:Ef.
    - apply find_index_Some in Ef as (l1' & q & l2' & E' & -> & Hq & Hl1').
      rewrite E in E'. assert (length l1 = length l1') as Hlen.
      { destruct (Nat.lt_trichotomy (length l1) (length l1')) as [Hlt|[?|Hgt]]; [|done|].
        - assert (l1' !! length l1 = Some p) as Hx.
          { rewrite <-(lookup_app_l l1' (q :: l2')) by lia. rewrite <-E'. by apply list_lookup_middle. }
          pose proof (Forall_lookup_1 _ _ _ _ Hl1' Hx) as Hc. cbn in Hc. apply Z.eqb_neq in Hc. lia.
        - assert (l1 !! length l1' = Some q) as Hx.
          { rewrite <-(lookup_app_l l1 (p :: l2)) by lia. rewrite E'. by apply list_lookup_middle. }
          pose proof (Forall_lookup_1 _ _ _ _ Hl1 Hx) as Hc. cbn in Hc. congruence. }
      unfold zlen. f_equal. lia.
    - apply find_index_None in Ef. rewrite E in Ef. apply Forall_app in Ef as [_ [Hc _]%Forall_cons].
      apply Z.eqb_neq in Hc. lia. }
  rewrite (reads_bind _ _ _ (Some (zlen l1))) by (by rewrite Hf).
  rewrite (bind_silent _ _ _ _ _ (tracker_ok l1 p l2 s E)).
  set (n := jobnum p).
  assert (decrementJobs n s = Done tt (set_jobCounter (jobCounter s - 1) (set_processes (dec_job n <$> processes s) s)) []) as Hd
    by done.
  set (s1 := set_jobCounter _ _) in Hd.
  assert (processes s1 = (dec_job n <$> l1) ++ dec_job n p :: (dec_job n <$> l2)) as E1.
  { cbn. by rewrite E, fmap_app, fmap_cons. }
  assert (zlen l1 = zlen (dec_job n <$> l1)) as Hz by (by rewrite zlen_fmap).
  assert (∃ o, cleanCommand (zlen l1) e s1 = Done tt (set_processes ((dec_job n <$> l1) ++
    set_pid 0 (set_stop (w_stop e) (dec_job n p)) :: (dec_job n <$> l2)) s1) o) as [o Hc].
  { unfold cleanCommand. rewrite Hz. eexists. set (L1 := dec_job n <$> l1) in *. set (L2 := dec_job n <$> l2) in *.
    set (p1 := set_stop (w_stop e) (dec_job n p)).
    rewrite (bind_silent _ _ _ _ _ (upd_tracker_ok _ _ _ (set_stop (w_stop e)) _ E1)).
    rewrite (bind_silent _ _ _ _ _ (tracker_ok L1 p1 L2 (set_processes (L1 ++ p1 :: L2) s1) eq_refl)).
    erewrite bind_done; [done|apply print_lines_ok|].
    exact (upd_tracker_ok L1 p1 L2 (set_pid 0) (set_processes (L1 ++ p1 :: L2) s1) eq_refl). }
  eexists _, _. split; [|erewrite bind_done; [reflexivity|reflexivity|]; erewrite bind_done; [reflexivity|reflexivity|];
    erewrite bind_done; [reflexivity|reflexivity|]; erewrite bind_done; [reflexivity|exact Hd|exact Hc]]. done.
Qed.

Lemma resolve_inv e s : w_pid e ≠ 0 → jobs_inv s → wlp (resolve e) s (λ _ s', jobs_inv s').
Proof.
  intros He [Hs Hc Hn]. unfold wlp. destruct (find_index (λ p, pid p =? w_pid e) (processes s) 0) as [k|] eqn:E.
  - apply find_index_Some in E as (l1 & p & l2 & El & _ & Hp%Z.eqb_eq & Hl1).
    destruct (resolve_ok e s l1 p l2 El Hp Hl1) as (o & p' & Hp' & ->).
    rewrite El, live_app, live_cons_on, fmap_app, fmap_cons in Hn by lia.
    rewrite <-Permutation_middle, <-fmap_app in Hn.
    split; cbn.
    + rewrite El in Hs. unfold zlen in *. rewrite length_app in *. cbn [length] in *. rewrite !length_fmap. lia.
    + assert (jobnum p ∈ seqZ 1 (jobCounter s - 1)) as ?%elem_of_seqZ by (rewrite <-Hn; left). lia.
    + rewrite live_app, live_cons_off, fmap_app, !live_dec, <-!fmap_app by done.
      replace (jobCounter s - 1 - 1) with (jobCounter s - 1 - 1) by lia. apply dec_seq; [lia|done].
  - unfold resolve, get. rewrite (reads_bind _ _ _ None); [done|]. unfold findProcess. by rewrite E.
Qed.

(** ** Code that leaves the jobs alone *)

Definition keeps_jobs {A} (m : prog A) : Prop := ∀ s,
  wlp m s (λ _ s', processes s' = processes s ∧ jobCounter s' = jobCounter s).

Lemma keeps_ret {A} (a : A) : keeps_jobs (mret a).
Proof. intros s. by apply wlp_ret. Qed.
Lemma keeps_emit e : keeps_jobs (emit e).
Proof. intros s. by apply wlp_emit. Qed.
Lemma keeps_undefined {A} : keeps_jobs (undefined : prog A).
Proof. intros s. done. Qed.
Lemma keeps_fuel {A} : keeps_jobs (out_of_fuel : prog A).
Proof. intros s. done. Qed.
Lemma keeps_reads {A} (f : shell → option A) : keeps_jobs (reads f).
Proof. intros s. by apply wlp_reads. Qed.
Lemma keeps_put f : (∀ s, processes (f s) = processes s ∧ jobCounter (f s) = jobCounter s) → keeps_jobs (put f).
Proof. intros H s. apply wlp_modifies. intros ? [= <-]. apply H. Qed.
Lemma keeps_bind {A B} (m : prog A) (k : A → prog B) :
  keeps_jobs m → (∀ a, keeps_jobs (k a)) → keeps_jobs (m ≫= k).
Proof.
  intros Hm Hk s. apply wlp_bind. eapply wlp_mono; [apply Hm|]. intros a s1 [E1 E1'].
  eapply wlp_mono; [apply Hk|]. intros b s2 [E2 E2']. split; congruence.
Qed.

Ltac solve_keeps :=
  repeat match goal with
  | |- keeps_jobs (mbind _ _) => apply keeps_bind
  | |- keeps_jobs (get _) => apply keeps_reads
  | |- keeps_jobs (match ?x with _ => _ end) => destruct x
  | |- keeps_jobs (let _ := _ in _) => cbv zeta
  | |- ∀ _, keeps_jobs _ => intros ?
  | |- keeps_jobs _ => first [apply keeps_ret|apply keeps_emit|apply keeps_reads|apply keeps_undefined|apply keeps_fuel
                             |by apply keeps_put|assumption]
  end.

(** ** A job starts *)

Section os.
Context (os : nat → exec_result) (os_chdir : string → string → string).

(** The answers of the system that a parent process can see: [fork] does not return 0
    in the parent, and a blocking [wait3] does not return 0. *)
Hypothesis os_fork : ∀ n, forked (os n) ≠ 0.
Hypothesis os_wait : ∀ n e, e ∈ reported (os n) → w_pid e ≠ 0.

Lemma keeps_print l : keeps_jobs (print_lines l).
Proof. induction l as [|x l IH]; cbn [print_lines]; solve_keeps. Qed.
Lemma keeps_read n room : keeps_jobs (read_buf n room).
Proof. unfold read_buf. solve_keeps. Qed.
Lemma keeps_append c : keeps_jobs (appendOption c).
Proof. unfold appendOption. solve_keeps. Qed.
Lemma keeps_select size : keeps_jobs (selectOption size).
Proof. unfold selectOption. solve_keeps. Qed.
Lemma keeps_add : keeps_jobs addOption.
Proof. unfold addOption. solve_keeps; apply keeps_read || apply keeps_append. Qed.
Lemma keeps_build i : keeps_jobs (build_args i).
Proof. unfold build_args, unpack_def_args, user_args, path_arg, push_args. solve_keeps; apply keeps_read. Qed.
Lemma keeps_cd : keeps_jobs (change_directory os_chdir).
Proof. unfold change_directory. solve_keeps. apply keeps_read. Qed.
Lemma keeps_pwd : keeps_jobs print_directory.
Proof. unfold print_directory. solve_keeps. Qed.
Lemma keeps_prompt : keeps_jobs prompt.
Proof. unfold prompt. solve_keeps; apply keeps_print. Qed.
Lemma keeps_execute argv : keeps_jobs (executeCommand os argv None).
Proof. unfold executeCommand. solve_keeps. Qed.
Lemma keeps_running : keeps_jobs running_processes.
Proof.
  unfold running_processes, running_line, tracker. solve_keeps. induction (seqZ 1 _) as [|i l IH]; [apply keeps_ret|].
  intros s. unfold wlp. rewrite for_do_cons. revert s. apply keeps_bind; [solve_keeps|done].
Qed.

Lemma keeps_inv {A} (m : prog A) s : keeps_jobs m → jobs_inv s → wlp m s (λ _ s', jobs_inv s').
Proof.
  intros Hm [Hs Hc Hn]. eapply wlp_mono; [apply Hm|]. intros a s' [E E']. split; by rewrite ?E, ?E'.
Qed.

Lemma background_inv argv s : jobs_inv s → wlp (run_background os argv) s (λ _ s', jobs_inv s').
Proof using os_fork.
  intros [Hs Hc Hn]. unfold run_background, get. do 2 wlp_step. intros o [= Ho].
  destruct o as [i|]; [|done]. apply find_index_Some in Ho as (l1 & p & l2 & El & -> & Hp%Z.eqb_eq & Hl1).
  rewrite Z.add_0_l. do 2 wlp_step. intros n [= <-]. unfold wlp at 1.
  rewrite (bind_silent _ _ _ _ _ (upd_tracker_ok l1 p l2 _ s El)).
  set (p1 := set_jobnum (jobCounter s) p).
  change (wlp (_ ← put (set_jobCounter (jobCounter s + 1)); _ ← executeCommand os argv (Some (zlen l1)); mret tt)
    (set_processes (l1 ++ p1 :: l2) s) (λ _ s', jobs_inv s')).
  unfold executeCommand, get, put. do 2 wlp_step. intros ? [= <-]. do 3 wlp_step. intros n [= <-]. cbv zeta.
  do 2 wlp_step. intros ? [= <-]. wlp_step. unfold wlp at 1.
  set (s1 := set_forks _ _).
  rewrite (upd_tracker_ok l1 p1 l2 _ s1 eq_refl). cbn [forks].
  set (p2 := set_pid _ _).
  assert (jobs_inv (set_processes (l1 ++ p2 :: l2) s1)) as Hinv.
  { split; cbn.
    - rewrite El in Hs. unfold zlen in *. rewrite length_app in *. cbn [length] in *. lia.
    - lia.
    - rewrite live_app, live_cons_on, fmap_app, fmap_cons by apply os_fork. cbn.
      rewrite El, live_app, live_cons_off, fmap_app in Hn by done. rewrite <-Permutation_middle, Hn.
      replace (jobCounter s + 1 - 1) with ((jobCounter s - 1) + 1) by lia. rewrite seqZ_app by lia.
      replace (1 + (jobCounter s - 1)) with (jobCounter s) by lia. rewrite (seqZ_cons (jobCounter s) 1) by lia.
      apply Permutation_cons_append. }
  wlp_step. case_match; wlp_step; wlp_step; by wlp_step.
Qed.

Lemma foreground_inv evs start fg s : (∀ e, e ∈ evs → w_pid e ≠ 0) → jobs_inv s →
  wlp (wait_foreground evs start fg) s (λ _ s', jobs_inv s').
Proof.
  revert s. induction evs as [|e evs IH]; intros s Hevs Hs; cbn [wait_foreground]; [done|].
  case_match; [by apply keeps_inv; [apply keeps_print|]|].
  wlp_step. eapply wlp_mono; [apply resolve_inv; [apply Hevs; left|done]|]. intros u s1 H1. cbn beta in H1.
  apply IH; [|done]. intros e' He'. apply Hevs. by right.
Qed.

Lemma blocking_inv argv s : jobs_inv s → wlp (run_blocking os argv) s (λ _ s', jobs_inv s').
Proof using os_wait.
  intros Hs. unfold run_blocking. wlp_step.
  assert (wlp (executeCommand os argv None) s (λ r s', r = os (forks s) ∧ jobs_inv s')) as H.
  { pose proof (keeps_inv _ s (keeps_execute argv) Hs) as Hk. revert Hk. unfold executeCommand, wlp, get, put.
    unfold mbind, M_bind, reads, modifies. cbn. by destruct (forked (os (forks s)) =? -1). }
  eapply wlp_mono; [exact H|]. intros r s1 [-> H1]. case_match; [by wlp_step|].
  apply foreground_inv; [apply os_wait|done].
Qed.

(** ** The two threads *)

Lemma dispatch_inv o s : jobs_inv s → wlp (dispatch os os_chdir o) s (λ _ s', jobs_inv s').
Proof using os_fork os_wait.
  intros Hs. unfold dispatch.
  assert (∀ m : prog unit, keeps_jobs m → wlp (_ ← m; mret false) s (λ _ s', jobs_inv s')) as Hk.
  { intros m Hm. wlp_step. eapply wlp_mono; [by apply (keeps_inv m)|]. intros. by wlp_step. }
  case_match; [apply Hk, keeps_emit|].
  case_match; [apply keeps_inv; [|done]; solve_keeps; apply keeps_add|].
  case_match; [apply Hk, keeps_cd|]. case_match; [by wlp_step|].
  case_match; [apply Hk, keeps_pwd|]. case_match; [apply Hk, keeps_running|].
  wlp_step. eapply wlp_mono; [by apply (keeps_inv _ s (keeps_build o))|]. intros [c argv] s1 Hi1. cbn beta in Hi1.
  wlp_step. apply wlp_mono with (λ _ s', jobs_inv s').
  { destruct (blocking c); [by apply blocking_inv|by apply background_inv]. }
  intros u s2 Hi2. wlp_step. wlp_step. by wlp_step.
Qed.

Lemma iteration_inv s : jobs_inv s → wlp (iteration os os_chdir) s (λ _ s', jobs_inv s').
Proof using os_fork os_wait.
  intros Hs. unfold iteration. wlp_step. eapply wlp_mono; [by apply (keeps_inv _ s keeps_prompt)|]. intros u s1 H1.
  wlp_step. eapply wlp_mono; [apply (keeps_inv (get _)); [apply keeps_reads|exact H1]|]. intros n s2 H2.
  wlp_step. eapply wlp_mono; [by apply (keeps_inv _ s2 (keeps_select n))|]. intros o s3 H3.
  by apply dispatch_inv.
Qed.

Lemma step_inv s s' : jobs_inv s → step os os_chdir s s' → jobs_inv s'.
Proof using os_fork os_wait.
  intros Hs Hstep. revert Hs. destruct Hstep as [s0 s1 o E|e s0 s1 o E]; intros Hs.
  - exact (wlp_det _ _ _ _ _ _ (iteration_inv s0 Hs) E).
  - unfold waitThread in E. destruct (Z.ltb_spec 0 (w_pid e)).
    + exact (wlp_det _ _ _ _ _ _ (resolve_inv e s0 ltac:(lia) Hs) E).
    + by injection E as <- <-.
Qed.

Lemma startup_inv menu input dir : jobs_inv (set_cmds menu (startup input dir)).
Proof. split; by vm_compute. Qed.

Lemma reachable_inv menu input dir s :
  rtc (step os os_chdir) (set_cmds menu (startup input dir)) s → jobs_inv s.
Proof using os_fork os_wait.
  intros H. pose proof (startup_inv menu input dir) as H0. revert H0.
  induction H as [|s s1 s2 Hs _ IH]; [done|]. intros H0. apply IH. by eapply step_inv.
Qed.
End os.

(** The menu entry [r] finds an entry for every number. *)
Lemma running_defined s : jobs_inv s → ∃ o, running_processes s = Done tt s o.
Proof.
  intros [Hs Hc Hn]. unfold running_processes, get.
  assert (∀ l, (∀ i, i ∈ l → 1 ≤ i < jobCounter s) → ∃ o, for_do l running_line s = Done tt s o) as H.
  { induction l as [|i l IH]; intros Hl; [by exists []|]. destruct IH as [o Ho]; [intros j Hj; apply Hl; by right|].
    assert (∃ k l1 p l2, findJobnum (processes s) i = Some k ∧ processes s = l1 ++ p :: l2 ∧ k = zlen l1) as
      (k & l1 & p & l2 & Hk & El & ->).
    { destruct (findJobnum (processes s) i) as [k|] eqn:Ef.
      - pose proof Ef as (l1 & p & l2 & El & -> & _)%find_index_Some. rewrite Z.add_0_l. naive_solver.
      - apply find_index_None in Ef. assert (i ∈ jobnum <$> live (processes s)) as Hi.
        { rewrite Hn. apply elem_of_seqZ. specialize (Hl i ltac:(left)). lia. }
        apply list_elem_of_fmap in Hi as (p & -> & [_ Hp]%list_elem_of_filter).
        rewrite Forall_forall in Ef. specialize (Ef p Hp). cbn in Ef. by rewrite Z.eqb_refl in Ef. }
    eexists. rewrite for_do_cons. erewrite bind_done; [done| |exact Ho].
    unfold running_line, get. rewrite (reads_bind _ _ _ (Some (zlen l1))) by (by rewrite Hk).
    by rewrite (bind_silent _ _ _ _ _ (tracker_ok l1 p l2 s El)). }
  destruct (H (seqZ 1 (jobCounter s - 1))) as [o Ho]; [intros i Hi%elem_of_seqZ; lia|].
  eexists. erewrite bind_done; [done|done|]. rewrite (reads_bind _ _ _ (jobCounter s)) by done. exact Ho.
Qed.
