(* ===== verification/Shell2Race.v ===== *)
(** * The two threads of v2, statement by statement

    [Shell2.step] takes an iteration of the main loop, and what the wait thread does
    with a child, as one step each.  Here a step is one statement that uses what the
    threads share: [processes], [jobCounter], the children of the process, the lock
    [canWait].  A walk over [processes] and an increment are one step.  The wait
    thread holds [canWait] only around [wait3], and so takes and releases it in one
    step; [holds] tells where the main thread has it. *)

From S2P Require Import Prelude CString Shell Shell2 ShellJobs.

(** ** Reporting a child *)

(** Where a thread is in the code that reports a background process; [i] is the
    pointer [findProcess] returned. *)
Inductive report : Type :=
  | R_find (e : wait_event)             (* [findProcess] and the two [printf] *)
  | R_jobs (i : Z) (e : wait_event)     (* the loop of [decrementJobs] *)
  | R_counter (i : Z) (e : wait_event)  (* [jobCounter--] *)
  | R_clean (i : Z) (e : wait_event).   (* [cleanCommand] *)

Definition report_step (r : report) : prog (option report) :=
  match r with
  | R_find e =>
      o ← get (λ s, findProcess (processes s) (w_pid e));
      match o with
      | None => undefined
      | Some i =>
          p ← tracker i;
          _ ← emit (Line "");
          _ ← emit (Line ("-- Job Complete [" +:+ pretty (jobnum p) +:+ "] --"));
          _ ← emit (Line ("Process ID: " +:+ pretty (pid p)));
          mret (Some (R_jobs i e))
      end
  | R_jobs i e =>
      p ← tracker i;
      _ ← put (λ s, set_processes (dec_job (jobnum p) <$> processes s) s);
      mret (Some (R_counter i e))
  | R_counter i e => _ ← put (λ s, set_jobCounter (jobCounter s - 1) s); mret (Some (R_clean i e))
  | R_clean i e => _ ← cleanCommand i e; mret None
  end.

(** ** The main thread *)

(** What the main thread has decided when the user has chosen and typed arguments. *)
Inductive choice : Type :=
  | C_menu                              (* back to the menu *)
  | C_exit
  | C_list
  | C_run (c : cmd).

(** The letters start no process, so that [dispatch] asks the system nothing. *)
Definition no_exec : nat → exec_result := λ _, mkExec (mkTime 0 0) (-1) [].

Section os.
Context (os_chdir : string → string → string).

Definition menu : prog choice :=
  _ ← prompt;
  size ← get (λ s, zlen (cmds s));
  option ← selectOption size;
  if option =? OPT_R then _ ← emit (Line "-- Running Processes --"); mret C_list
  else if (OPT_P <=? option) && (option <? 0) then
    finished ← dispatch no_exec os_chdir option;
    mret (if finished : bool then C_exit else C_menu)
  else '(c, _) ← build_args option; mret (C_run c).

(** [proc->jobnum = jobCounter++] *)
Definition take_number (i : Z) : prog unit :=
  n ← get jobCounter;
  _ ← upd_tracker i (set_jobnum n);
  put (set_jobCounter (n + 1)).

(** Where the main thread is; [z] is what [fork] returned. *)
Inductive main_pc : Type :=
  | M_menu
  | M_fork                              (* a blocking command: before [fork] *)
  | M_forked (z : Z)                    (* before it locks [canWait] *)
  | M_wait (z : Z)                      (* before [wait3] *)
  | M_report (z : Z) (r : report)       (* it reports a background process *)
  | M_pick                              (* a background command: before [findProcess] *)
  | M_number (i : Z)                    (* before it sets the job number *)
  | M_start (i : Z)                     (* before [fork] *)
  | M_store (i : Z) (z : Z)             (* before it stores the pid in [processes] *)
  | M_lock                              (* running processes: before it locks [canWait] *)
  | M_list (i : Z)                      (* before the line of job [i] *)
  | M_exit.                             (* the last loop *)

Definition after (c : choice) : main_pc :=
  match c with
  | C_menu => M_menu
  | C_exit => M_exit
  | C_list => M_lock
  | C_run c => if blocking c then M_fork else M_pick
  end.

Definition holds (m : main_pc) : bool :=
  match m with M_wait _ | M_report _ _ | M_list _ => true | _ => false end.

(** ** The process: its memory, its threads and its children *)

Record world : Type := mkWorld {
  sh : shell;
  main : main_pc;
  waiter : option report;       (* [None]: at the top of its loop *)
  children : list Z;            (* not yet waited for *)
}.

(** [fork]: an error, or a process number that is not in use.  It is assumed that no entry
    of [processes] holds it either.  An entry keeps the number of a process that [wait3]
    has reaped until [cleanCommand] clears it, a few statements later, and the system
    gives a number out again only after it has been through all the others. *)
Definition fork_result (w : world) (z : Z) : Prop :=
  z = -1 ∨ (0 < z ∧ z ∉ children w ∧ z ∉ pid <$> processes (sh w)).
Definition add_child (z : Z) (l : list Z) : list Z := if z =? -1 then l else z :: l.

(** A [wait3] that blocks reports a child, or an error when there is none. *)
Definition wait3_result (w : world) (z : Z) : Prop := z ∈ children w ∨ (children w = [] ∧ z = -1).
Definition reap (z : Z) (l : list Z) : list Z := filter (λ x, x ≠ z) l.

(** [None] is a crash. *)
Inductive step : world → option world → Prop :=
  | T_menu w c s' o : main w = M_menu → menu (sh w) = Done c s' o →
      step w (Some (mkWorld s' (after c) (waiter w) (children w)))
  | T_menu_crash w : main w = M_menu → menu (sh w) = Undef → step w None
  (* a blocking command *)
  | T_fork w z : main w = M_fork → fork_result w z →
      step w (Some (mkWorld (sh w) (M_forked z) (waiter w) (add_child z (children w))))
  | T_lock w z : main w = M_forked z →
      step w (Some (mkWorld (sh w) (M_wait z) (waiter w) (children w)))
  | T_wait_fg w z e : main w = M_wait z → wait3_result w (w_pid e) → w_pid e = z →
      step w (Some (mkWorld (sh w) M_menu (waiter w) (reap z (children w))))
  | T_wait_bg w z e : main w = M_wait z → wait3_result w (w_pid e) → w_pid e ≠ z →
      step w (Some (mkWorld (sh w) (M_report z (R_find e)) (waiter w) (reap (w_pid e) (children w))))
  | T_report w z r r' s' o : main w = M_report z r → report_step r (sh w) = Done r' s' o →
      step w (Some (mkWorld s' (match r' with Some r' => M_report z r' | None => M_wait z end)
        (waiter w) (children w)))
  | T_report_crash w z r : main w = M_report z r → report_step r (sh w) = Undef → step w None
  (* a background command *)
  | T_pick w i : main w = M_pick → findProcess (processes (sh w)) 0 = Some i →
      step w (Some (mkWorld (sh w) (M_number i) (waiter w) (children w)))
  | T_pick_crash w : main w = M_pick → findProcess (processes (sh w)) 0 = None → step w None
  | T_number w i s' o : main w = M_number i → take_number i (sh w) = Done tt s' o →
      step w (Some (mkWorld s' (M_start i) (waiter w) (children w)))
  | T_number_crash w i : main w = M_number i → take_number i (sh w) = Undef → step w None
  | T_start w i z : main w = M_start i → fork_result w z →
      step w (Some (mkWorld (sh w) (M_store i z) (waiter w) (add_child z (children w))))
  | T_store w i z t s' o : main w = M_store i z →
      upd_tracker i (λ p, set_pid z (set_start t p)) (sh w) = Done tt s' o →
      step w (Some (mkWorld s' M_menu (waiter w) (children w)))
  | T_store_crash w i z t : main w = M_store i z →
      upd_tracker i (λ p, set_pid z (set_start t p)) (sh w) = Undef → step w None
  (* the running processes *)
  | T_list_lock w : main w = M_lock → step w (Some (mkWorld (sh w) (M_list 1) (waiter w) (children w)))
  | T_list w i s' o : main w = M_list i → i < jobCounter (sh w) → running_line i (sh w) = Done tt s' o →
      step w (Some (mkWorld s' (M_list (i + 1)) (waiter w) (children w)))
  | T_list_crash w i : main w = M_list i → i < jobCounter (sh w) → running_line i (sh w) = Undef →
      step w None
  | T_list_end w i : main w = M_list i → jobCounter (sh w) ≤ i →
      step w (Some (mkWorld (sh w) M_menu (waiter w) (children w)))
  (* the wait thread *)
  | T_wait3 w e : waiter w = None → holds (main w) = false → w_pid e ∈ children w →
      step w (Some (mkWorld (sh w) (main w) (Some (R_find e)) (reap (w_pid e) (children w))))
  | T_resolve w r r' s' o : waiter w = Some r → report_step r (sh w) = Done r' s' o →
      step w (Some (mkWorld s' (main w) r' (children w)))
  | T_resolve_crash w r : waiter w = Some r → report_step r (sh w) = Undef → step w None.

Definition moves (w w' : world) : Prop := step w (Some w').

(** *** The steps as a function

    A schedule names the thread that runs next and what the system answers it. *)
Inductive turn : Type :=
  | Main (z : Z)                        (* [fork] returns [z], [wait3] reports [z] *)
  | Wait                                (* the wait thread goes on with its report *)
  | Reap (z : Z).                       (* its [wait3] reports [z] *)

Definition event (z : Z) : wait_event := mkWait z (mkTime 0 0) (mkUsage 0 0).

#[global] Instance fork_result_dec w z : Decision (fork_result w z).
Proof. unfold fork_result. apply _. Defined.
#[global] Instance wait3_result_dec w z : Decision (wait3_result w z).
Proof. unfold wait3_result. apply _. Defined.

(** What a piece of code gives: a next world, a crash, or no step. *)
Definition outcome_step {A} (x : outcome msg shell A) (k : A → shell → world) : option (option world) :=
  match x with Done a s' _ => Some (Some (k a s')) | Undef => Some None | NoFuel => None end.

Definition exec_main (z : Z) (w : world) : option (option world) :=
  let goto m s := mkWorld s m (waiter w) (children w) in
  match main w with
  | M_menu => outcome_step (menu (sh w)) (λ c, goto (after c))
  | M_fork =>
      if decide (fork_result w z) then Some (Some (mkWorld (sh w) (M_forked z) (waiter w) (add_child z (children w))))
      else None
  | M_forked z => Some (Some (goto (M_wait z) (sh w)))
  | M_wait fg =>
      if decide (wait3_result w z) then
        Some (Some (mkWorld (sh w) (if z =? fg then M_menu else M_report fg (R_find (event z))) (waiter w)
          (reap z (children w))))
      else None
  | M_report fg r =>
      outcome_step (report_step r (sh w)) (λ r', goto (match r' with Some r' => M_report fg r' | None => M_wait fg end))
  | M_pick =>
      match findProcess (processes (sh w)) 0 with
      | Some i => Some (Some (goto (M_number i) (sh w)))
      | None => Some None
      end
  | M_number i => outcome_step (take_number i (sh w)) (λ _, goto (M_start i))
  | M_start i =>
      if decide (fork_result w z) then Some (Some (mkWorld (sh w) (M_store i z) (waiter w) (add_child z (children w))))
      else None
  | M_store i z =>
      outcome_step (upd_tracker i (λ p, set_pid z (set_start (mkTime 0 0) p)) (sh w)) (λ _, goto M_menu)
  | M_lock => Some (Some (goto (M_list 1) (sh w)))
  | M_list i =>
      if i <? jobCounter (sh w) then outcome_step (running_line i (sh w)) (λ _, goto (M_list (i + 1)))
      else Some (Some (goto M_menu (sh w)))
  | M_exit => None
  end.

Definition exec (t : turn) (w : world) : option (option world) :=
  match t with
  | Main z => exec_main z w
  | Wait =>
      r ← waiter w; outcome_step (report_step r (sh w)) (λ r' s', mkWorld s' (main w) r' (children w))
  | Reap z =>
      match waiter w with
      | None =>
          if decide (holds (main w) = false ∧ z ∈ children w) then
            Some (Some (mkWorld (sh w) (main w) (Some (R_find (event z))) (reap z (children w))))
          else None
      | Some _ => None
      end
  end.

(** A whole schedule without a crash. *)
Fixpoint exec_all (ts : list turn) (w : world) : option world :=
  match ts with
  | [] => Some w
  | t :: ts' => match exec t w with Some (Some w') => exec_all ts' w' | _ => None end
  end.

(** A shell with the menu [l], before the first prompt; the program starts with
    [default_cmds] as [l].  With another menu there are commands that run in the
    background: the default ones do not, and those [addOption] makes dangle. *)
Definition begin (l : list cmd) (input dir : string) : world :=
  mkWorld (set_cmds l (startup input dir)) M_menu None [].
End os.
