(* ===== verification/Shell2RaceInv.v ===== *)
(** * The invariant of the two threads of v2

    What holds of the process numbers in [processes] and of the children whatever the
    threads do. *)

From S2P Require Import Prelude CString Shell Shell2 ShellJobs Shell2Race.

(** ** The steps of a report *)

Abbreviation pids s := (pid <$> processes s).

Definition rpid (r : report) : Z :=
  match r with R_find e | R_jobs _ e | R_counter _ e | R_clean _ e => w_pid e end.

(** After [findProcess] the report has the entry of its process. *)
Definition located (r : report) (l : list Z) : Prop :=
  match r with R_find _ => True | R_jobs i e | R_counter i e | R_clean i e => zget l i = Some (w_pid e) end.

(** What the steps of a report leave in [processes], as far as process numbers go. *)
Definition reported_as (r : report) (r' : option report) (l l' : list Z) : Prop :=
  match r' with
  | Some r' => l' = l ∧ rpid r' = rpid r ∧ located r' l
  | None => ∃ i, zget l i = Some (rpid r) ∧ l' = <[Z.to_nat i := 0]> l
  end.

Lemma zget_fmap {A B} (f : A → B) l i : zget (f <$> l) i = f <$> zget l i.
Proof. unfold zget. case_match; [apply list_lookup_fmap|done]. Qed.

Lemma upd_tracker_inv i f s s' o : upd_tracker i f s = Done tt s' o →
  ∃ p, zget (processes s) i = Some p ∧ processes s' = <[Z.to_nat i := f p]> (processes s) ∧ jobCounter s' = jobCounter s.
Proof.
  unfold upd_tracker, modifies. destruct (zget (processes s) i) as [p|] eqn:E; [|done]. cbn.
  rewrite zset_Some by (by eapply zget_Some_bound). cbn. intros [= <- _]. by exists p.
Qed.

Lemma pids_upd i f s s' o z : upd_tracker i f s = Done tt s' o → (∀ p, pid (f p) = z) →
  pids s' = <[Z.to_nat i := z]> (pids s) ∧ is_Some (zget (pids s) i).
Proof.
  intros (p & Hp & -> & _)%upd_tracker_inv Hf. rewrite list_fmap_insert, Hf, zget_fmap, Hp. by eauto.
Qed.

Lemma pids_dec n (l : list cprocess) : pid <$> (dec_job n <$> l) = pid <$> l.
Proof. rewrite <-list_fmap_compose. apply list_fmap_ext. intros i x _. apply dec_job_pid. Qed.

Lemma findProcess_located l z i : findProcess l z = Some i → zget (pid <$> l) i = Some z.
Proof.
  intros (l1 & p & l2 & -> & -> & Hp%Z.eqb_eq & _)%find_index_Some. by rewrite Z.add_0_l, zget_fmap, zget_middle, <-Hp.
Qed.

Lemma findProcess_none l z : findProcess l z = None ↔ z ∉ pid <$> l.
Proof.
  unfold findProcess. rewrite find_index_None, Forall_forall, list_elem_of_fmap. split.
  - intros H (p & -> & Hp). specialize (H p Hp). cbn in H. by rewrite Z.eqb_refl in H.
  - intros H p Hp. apply Z.eqb_neq. intros <-. eauto.
Qed.

Lemma zget_pids s i z : zget (pids s) i = Some z →
  ∃ l1 p l2, processes s = l1 ++ p :: l2 ∧ i = zlen l1 ∧ pid p = z.
Proof.
  rewrite zget_fmap. intros (p & Hp & ->)%fmap_Some. pose proof (zget_Some_bound _ _ _ Hp).
  unfold zget in Hp. rewrite decide_True in Hp by lia.
  exists (take (Z.to_nat i) (processes s)), p, (drop (S (Z.to_nat i)) (processes s)). split_and!; [| |done].
  - symmetry. by apply take_drop_middle.
  - unfold zlen in *. rewrite length_take. lia.
Qed.

(** A report stops only at an unknown process. *)
Lemma report_cases r s : located r (pids s) →
  (∃ e, r = R_find e ∧ w_pid e ∉ pids s ∧ report_step r s = Undef) ∨
  wp (report_step r) s (λ r' s', reported_as r r' (pids s) (pids s')).
Proof.
  destruct r as [e|i e|i e|i e]; cbn [located]; intros H.
  - destruct (findProcess (processes s) (w_pid e)) as [i|] eqn:E.
    + right. pose proof (findProcess_located _ _ _ E) as Hi. destruct (zget_pids s i _ Hi) as (l1 & p & l2 & El & -> & _).
      unfold report_step, wp, get. rewrite (reads_bind _ _ _ (Some (zlen l1))) by (by rewrite E).
      by rewrite (bind_silent _ _ _ _ _ (tracker_ok l1 p l2 s El)).
    + left. exists e. split_and!; [done|by apply findProcess_none|].
      unfold report_step, get. by rewrite (reads_bind _ _ _ None) by (by rewrite E).
  - right. pose proof H as (l1 & p & l2 & El & -> & _)%zget_pids. unfold report_step, wp.
    rewrite (bind_silent _ _ _ _ _ (tracker_ok l1 p l2 s El)). split; [apply pids_dec|done].
  - by right.
  - right. pose proof H as (l1 & p & l2 & El & -> & _)%zget_pids. unfold report_step, cleanCommand, wp.
    set (p1 := set_stop (w_stop e) p). set (s1 := set_processes (l1 ++ p1 :: l2) s).
    assert (cleanCommand (zlen l1) e s = Done tt (set_processes (l1 ++ set_pid 0 p1 :: l2) s)
      (Line <$> statistics (elapsed (pstart p1) (pstop p1)) (w_use e))) as Hc.
    { unfold cleanCommand. rewrite (bind_silent _ _ _ _ _ (upd_tracker_ok l1 p l2 _ s El)).
      rewrite (bind_silent _ _ _ _ _ (tracker_ok l1 p1 l2 s1 eq_refl)).
      rewrite (bind_done _ _ _ tt s1 _ tt _ [] (print_lines_ok _ _) (upd_tracker_ok l1 p1 l2 (set_pid 0) s1 eq_refl)).
      by rewrite app_nil_r. }
    erewrite bind_done; [|exact Hc|done]. exists (zlen l1). split; [done|]. cbn. rewrite El, !fmap_app, !fmap_cons.
    unfold zlen. rewrite Nat2Z.id, <-(length_fmap pid l1). by rewrite insert_app_r_alt, Nat.sub_diag by done.
Qed.

(** ** Process numbers *)

(** The child the main thread has started and that no entry of [processes] holds. *)
Definition own (m : main_pc) : option Z :=
  match m with M_forked z | M_wait z | M_report z _ | M_store _ z => Some z | _ => None end.

(** The entry of [processes] the main thread has chosen. *)
Definition slot (m : main_pc) : option Z :=
  match m with M_number i | M_start i | M_store i _ => Some i | _ => None end.

Definition known (m : main_pc) (l : list Z) (z : Z) : Prop := z ∈ l ∨ own m = Some z.

(** The process that the main thread reports while it waits for [z]. *)
Definition main_report (m : main_pc) (l ch : list Z) : Prop :=
  match m with
  | M_report z r => located r l ∧ rpid r ∉ ch ∧ rpid r ≠ z ∧
      ((0 < rpid r ∧ rpid r ∈ l) ∨ (rpid r = -1 ∧ ch = []))
  | _ => True
  end.

Definition wait_report (m : main_pc) (o : option report) (l ch : list Z) : Prop :=
  match o with
  | Some r => located r l ∧ 0 < rpid r ∧ rpid r ∉ ch ∧ known m l (rpid r) ∧
      match m with M_report _ r' => rpid r' ≠ rpid r | _ => True end
  | None => True
  end.

(** The invariant, on what the threads share of [processes]: its process numbers. *)
Record pids_inv (l : list Z) (m : main_pc) (o : option report) (ch : list Z) : Prop := {
  p_pos : ∀ z, z ∈ ch → 0 < z;
  p_known : ∀ z, z ∈ ch → known m l z;
  p_slot : ∀ i, slot m = Some i → zget l i = Some 0;
  p_main : main_report m l ch;
  p_wait : wait_report m o l ch;
}.

Definition winv (w : world) : Prop := pids_inv (pids (sh w)) (main w) (waiter w) (children w).

(** *** Clearing and filling an entry *)

Lemma elem_clear (l : list Z) i x y z : zget l i = Some x → z ∈ l → z ≠ x → z ∈ <[Z.to_nat i := y]> l.
Proof.
  intros Hi [j Hj]%list_elem_of_lookup Hne. unfold zget in Hi. case_decide; [|done].
  apply list_elem_of_lookup. exists j. rewrite list_lookup_insert_ne; [done|]. intros <-. congruence.
Qed.

Lemma elem_fill (l : list Z) i x y : zget l i = Some x → y ∈ <[Z.to_nat i := y]> l.
Proof.
  intros Hi. pose proof (zget_Some_bound _ _ _ Hi). unfold zlen in *. apply list_elem_of_lookup.
  exists (Z.to_nat i). apply list_lookup_insert_eq. lia.
Qed.

Lemma zget_clear (l : list Z) i j x y z : zget l i = Some x → zget l j = Some z → z ≠ x →
  zget (<[Z.to_nat i := y]> l) j = Some z.
Proof.
  intros Hi Hj Hne. assert (i ≠ j) by congruence. unfold zget in *. do 2 (case_decide; [|done]).
  rewrite list_lookup_insert_ne; [done|lia].
Qed.

Lemma located_clear r l i x y : zget l i = Some x → located r l → rpid r ≠ x →
  located r (<[Z.to_nat i := y]> l).
Proof. intros Hi. destruct r; cbn; [done|by apply zget_clear..]. Qed.

Lemma known_clear m l i x y z : zget l i = Some x → known m l z → z ≠ x → known m (<[Z.to_nat i := y]> l) z.
Proof. intros Hi [Hz|Hz] Hne; [left; by eapply elem_clear|by right]. Qed.

Lemma elem_reap z x l : z ∈ reap x l ↔ z ≠ x ∧ z ∈ l.
Proof. unfold reap. by rewrite list_elem_of_filter. Qed.

Lemma elem_add z x l : z ∈ add_child x l → (z = x ∧ x ≠ -1) ∨ z ∈ l.
Proof. unfold add_child. destruct (Z.eqb_spec x (-1)); [by right|]. intros [-> |?]%elem_of_cons; auto. Qed.

(** *** The kinds of steps *)

(** The wait thread makes a step of its report. *)
Lemma pids_resolve l l' m r r' ch : pids_inv l m (Some r) ch → reported_as r r' l l' → pids_inv l' m r' ch.
Proof.
  intros [H1 H2 H3 H4 (H5 & H6 & H7 & H8 & H9)] Hr. destruct r' as [r'|]; cbn in Hr.
  - destruct Hr as (-> & E & Hl). split; try done. cbn. by rewrite E.
  - destruct Hr as (i & Hi & ->). split; try done.
    + intros z Hz. eapply known_clear; eauto. naive_solver.
    + intros j Hj. eapply zget_clear; eauto. lia.
    + destruct m; try done. cbn in *. destruct H4 as (? & ? & ? & Hp). split_and!; try done.
      * eapply located_clear; eauto.
      * destruct Hp as [[??]|?]; [left; split; [done|eapply elem_clear; eauto]|by right].
Qed.

(** The main thread makes a step of its report. *)
Lemma pids_report l l' z r r' o ch : pids_inv l (M_report z r) o ch → reported_as r r' l l' →
  pids_inv l' (match r' with Some r' => M_report z r' | None => M_wait z end) o ch.
Proof.
  intros [H1 H2 H3 (H4 & H4' & H4'' & Hp) H5] Hr. destruct r' as [r'|]; cbn in Hr.
  - destruct Hr as (-> & E & Hl). split; try done; cbn; rewrite ?E; [done|]. destruct o as [q|]; [|done].
    cbn in *. by rewrite E.
  - destruct Hr as (i & Hi & ->). split; try done.
    + intros x Hx. apply (known_clear (M_wait z) l i (rpid r)); [done|exact (H2 x Hx)|naive_solver].
    + destruct o as [q|]; [|done]. cbn in *. destruct H5 as (? & ? & ? & ? & ?). split_and!; try done.
      * eapply located_clear; eauto.
      * apply (known_clear (M_wait z) l i (rpid r)); done.
Qed.

(** The main thread goes on, and nothing shared changes. *)
Definition quiet (m : main_pc) : Prop := match m with M_report _ _ => False | _ => True end.

Lemma pids_goto l m m' o ch : pids_inv l m o ch → quiet m' → own m' = own m →
  (∀ i, slot m' = Some i → zget l i = Some 0) → pids_inv l m' o ch.
Proof.
  intros [H1 H2 H3 H4 H5] Hq Ho Hs. split; try done.
  - intros z Hz. unfold known. rewrite Ho. by apply H2.
  - by destruct m'.
  - destruct o as [r|]; [|done]. cbn in *. unfold known. rewrite Ho. destruct H5 as (? & ? & ? & ? & ?).
    split_and!; try done. by destruct m'.
Qed.

(** The main thread forks. *)
Lemma pids_fork l m m' o ch z : pids_inv l m o ch → own m = None → own m' = Some z → quiet m' → slot m' = slot m →
  z = -1 ∨ (0 < z ∧ z ∉ ch ∧ z ∉ l) → pids_inv l m' o (add_child z ch).
Proof.
  intros [H1 H2 H3 H4 H5] Hm Hm' Hq Hs Hz. split.
  - intros x [[-> ?]|?]%elem_add; [|by apply H1]. destruct Hz; lia.
  - intros x [[-> _]|Hx]%elem_add; [by right|]. destruct (H2 x Hx); [by left|congruence].
  - intros i Hi. apply H3. congruence.
  - by destruct m'.
  - destruct o as [r|]; [|done]. cbn in *. destruct H5 as (? & ? & ? & Hk & ?). destruct Hk as [Hk|Hk]; [|congruence].
    split_and!; try done; [|by left|by destruct m'].
    intros [[Hx _]|?]%elem_add; [|done]. destruct Hz as [? |(? & ? & ?)]; [lia|congruence].
Qed.

(** A thread takes a child. *)
Lemma pids_reap l m o ch z : pids_inv l m o ch → pids_inv l m o (reap z ch).
Proof.
  intros [H1 H2 H3 H4 H5]. split; try done.
  - intros x [_ Hx]%elem_reap. by apply H1.
  - intros x [_ Hx]%elem_reap. by apply H2.
  - destruct m; try done. cbn in *. destruct H4 as (? & ? & ? & Hp). split_and!; try done; [by intros [_ ?]%elem_reap|].
    destruct Hp as [?|[? ->]]; [by left|by right].
  - destruct o; [|done]. cbn in *. destruct H5 as (? & ? & ? & ? & ?). split_and!; try done. by intros [_ ?]%elem_reap.
Qed.

(** The main thread takes the foreground process. *)
Lemma pids_foreground l z o ch : pids_inv l (M_wait z) o ch → z ∈ ch ∨ (ch = [] ∧ z = -1) →
  pids_inv l M_menu o (reap z ch).
Proof.
  intros H Hz. destruct (pids_reap _ _ _ _ z H) as [H1 H2 _ _ H5]. destruct H as [_ _ _ _ H5']. split; try done.
  - intros x Hx. destruct (H2 x Hx) as [?|[= <-]]; [by left|]. by apply elem_reap in Hx as [? _].
  - destruct o as [r|]; [|done]. cbn in *. destruct H5 as (? & ? & ? & ? & ?), H5' as (_ & _ & Hn & Hk & _).
    split_and!; try done. destruct Hk as [?|[= Hk]]; [by left|]. destruct Hz as [?|[_ ?]]; [congruence|lia].
Qed.

(** It takes a background process. *)
Lemma pids_background l z o ch e : pids_inv l (M_wait z) o ch → w_pid e ∈ ch ∨ (ch = [] ∧ w_pid e = -1) →
  w_pid e ≠ z → pids_inv l (M_report z (R_find e)) o (reap (w_pid e) ch).
Proof.
  intros H Hw Hne. destruct (pids_reap _ _ _ _ (w_pid e) H) as [H1 H2 H3 _ H5]. destruct H as [Hp Hk _ _ H5'].
  split; try done.
  - cbn. split_and!; try done; [by intros [? _]%elem_reap|]. destruct Hw as [Hw|[-> ?]]; [left|by right].
    split; [by apply Hp|]. destruct (Hk _ Hw) as [?|[= ?]]; [done|congruence].
  - destruct o as [r|]; [|done]. cbn in *. destruct H5 as (? & ? & ? & ? & ?), H5' as (_ & _ & Hn & _).
    split_and!; try done. destruct Hw as [?|[_ ?]]; [congruence|lia].
Qed.

(** It stores the process number of a background process. *)
Lemma pids_store l i z o ch : pids_inv l (M_store i z) o ch → pids_inv (<[Z.to_nat i := z]> l) M_menu o ch.
Proof.
  intros [H1 H2 H3 _ H5]. specialize (H3 i eq_refl).
  assert (∀ x, 0 < x → known (M_store i z) l x → known M_menu (<[Z.to_nat i := z]> l) x) as Hk.
  { intros x Hx [?|[= ->]]; left; [eapply elem_clear; eauto; lia|by eapply elem_fill]. }
  split; try done; [by auto|]. destruct o as [r|]; [|done]. cbn in *. destruct H5 as (? & ? & ? & ? & ?).
  split_and!; eauto. eapply located_clear; eauto. lia.
Qed.

(** The wait thread takes a child. *)
Lemma pids_wait3 l m ch e : pids_inv l m None ch → holds m = false → w_pid e ∈ ch →
  pids_inv l m (Some (R_find e)) (reap (w_pid e) ch).
Proof.
  intros H Hh He. destruct (pids_reap _ _ _ _ (w_pid e) H) as [H1 H2 H3 H4 _]. destruct H as [Hp Hk _ _ _].
  split; try done. cbn. split_and!; auto; [by intros [? _]%elem_reap|by destruct m].
Qed.

(** *** Steps *)

Section os.
Context (os_chdir : string → string → string).

(** The choices [-1] and [a], [c], [e], [p] leave the jobs alone. *)
Lemma keeps_letter os o : OPT_P ≤ o < 0 → keeps_jobs (dispatch os os_chdir o).
Proof.
  intros Ho. assert (o = -1 ∨ o = OPT_A ∨ o = OPT_C ∨ o = OPT_E ∨ o = OPT_P) as Hc
    by (unfold OPT_A, OPT_C, OPT_E, OPT_P in *; lia).
  destruct Hc as [->|[->|[->|[->| ->]]]]; unfold dispatch; cbn [Z.eqb Pos.eqb OPT_A OPT_C OPT_E OPT_P OPT_R];
    solve_keeps; first [apply keeps_add|apply keeps_cd|apply keeps_pwd].
Qed.

Lemma keeps_menu : keeps_jobs (menu os_chdir).
Proof.
  unfold menu. apply keeps_bind; [apply keeps_prompt|intros _]. apply keeps_bind; [apply keeps_reads|intros n].
  apply keeps_bind; [apply keeps_select|intros o]. case_match; [solve_keeps|].
  destruct (_ && _) eqn:E; apply keeps_bind; try (intros; solve_keeps); [|apply keeps_build].
  apply andb_true_iff in E as [??]. apply keeps_letter. lia.
Qed.

Lemma keeps_pids {A} (m : prog A) s a s' o : keeps_jobs m → m s = Done a s' o → pids s' = pids s.
Proof. intros Hm E. destruct (wlp_det _ _ _ _ _ _ (Hm s) E) as [-> _]. done. Qed.

Lemma keeps_line i : keeps_jobs (running_line i).
Proof. unfold running_line, tracker. solve_keeps. Qed.

Lemma number_pids i s s' o : take_number i s = Done tt s' o → pids s' = pids s.
Proof.
  unfold take_number, get. rewrite (reads_bind _ _ _ (jobCounter s)) by done. unfold mbind, M_bind.
  destruct (upd_tracker _ _ s) as [[] s1 o1| |] eqn:E; [|done..]. cbn. intros [= <- _]. cbn.
  apply upd_tracker_inv in E as (p & Hp & -> & _). rewrite list_fmap_insert. apply list_insert_id.
  unfold zget in Hp. case_decide; [|done]. by rewrite list_lookup_fmap, Hp.
Qed.

Lemma step_winv w w' : winv w → moves os_chdir w w' → winv w'.
Proof.
  unfold winv, moves. intros H Hs. remember (Some w') as x eqn:Ex.
  destruct Hs as [w c s' o Hm E| |w z Hm Hz|w z Hm|w z e Hm Hz He|w z e Hm Hz He|w z r r' s' o Hm E| |
    w i Hm E| |w i s' o Hm E| |w i z Hm Hz|w i z t s' o Hm E| |w Hm|w i s' o Hm _ E| |w i Hm _|w e Hw Hh He|
    w r r' s' o Hw E|]; try done; injection Ex as <-; cbn;
    try rewrite Hm in H; try rewrite Hw in H.
  - rewrite (keeps_pids _ _ _ _ _ keeps_menu E). eapply pids_goto; try done;
      destruct c as [| | |c]; try done; cbn; by destruct (blocking c).
  - eapply pids_fork; done.
  - eapply pids_goto; done.
  - subst z. by apply pids_foreground.
  - by apply pids_background.
  - eapply pids_report; [done|]. destruct (report_cases r (sh w)) as [(? & ? & ? & ?)|Hr]; [apply H|congruence|].
    exact (wp_det _ _ _ _ _ _ Hr E).
  - eapply pids_goto; try done. cbn. intros ? [= <-]. by apply findProcess_located.
  - rewrite (number_pids _ _ _ _ E). eapply pids_goto; try done. cbn. intros ? [= <-]. by apply H.
  - eapply pids_fork; done.
  - apply (pids_upd _ _ _ _ _ z) in E as [-> _]; [|done]. by apply pids_store.
  - eapply pids_goto; done.
  - rewrite (keeps_pids _ _ _ _ _ (keeps_line i) E). eapply pids_goto; done.
  - eapply pids_goto; done.
  - by apply pids_wait3.
  - eapply pids_resolve; [done|]. destruct (report_cases r (sh w)) as [(? & ? & ? & ?)|Hr]; [apply H|congruence|].
    exact (wp_det _ _ _ _ _ _ Hr E).
Qed.

(** The function makes only steps. *)
Lemma outcome_step_inv {A} (c : outcome msg shell A) k x : outcome_step c k = Some x →
  (∃ a s' o, c = Done a s' o ∧ x = Some (k a s')) ∨ (c = Undef ∧ x = None).
Proof. destruct c as [a s' o| |]; cbn; intros [= <-]; [left; eauto|by right]. Qed.

Lemma exec_main_step z w x : exec_main os_chdir z w = Some x → step os_chdir w x.
Proof.
  unfold exec_main. destruct (main w) as [| |y|fg|fg r| |i|i|i y| |i|] eqn:Hm.
  - intros [(c & s' & o & E & ->)|[E ->]]%outcome_step_inv; [by eapply T_menu|by eapply T_menu_crash].
  - case_decide; intros [= <-]. by apply T_fork.
  - intros [= <-]. by apply T_lock.
  - case_decide; [|done]. intros [= <-]. destruct (Z.eqb_spec z fg) as [->|].
    + by apply (T_wait_fg os_chdir w fg (event fg)).
    + by apply (T_wait_bg os_chdir w fg (event z)).
  - intros [(c & s' & o & E & ->)|[E ->]]%outcome_step_inv; [by eapply T_report|by eapply T_report_crash].
  - case_match; intros [= <-]; [by apply T_pick|by apply T_pick_crash].
  - intros [([] & s' & o & E & ->)|[E ->]]%outcome_step_inv; [by eapply T_number|by eapply T_number_crash].
  - case_decide; intros [= <-]. by apply T_start.
  - intros [([] & s' & o & E & ->)|[E ->]]%outcome_step_inv; [by eapply T_store|by eapply T_store_crash].
  - intros [= <-]. by apply T_list_lock.
  - destruct (Z.ltb_spec i (jobCounter (sh w))).
    + intros [([] & s' & o & E & ->)|[E ->]]%outcome_step_inv; [by eapply T_list|by eapply T_list_crash].
    + intros [= <-]. by eapply T_list_end.
  - done.
Qed.

Lemma exec_step t w x : exec os_chdir t w = Some x → step os_chdir w x.
Proof.
  destruct t as [z| |z]; cbn; [apply exec_main_step| |]; destruct (waiter w) as [r|] eqn:Hw; try done; cbn.
  - intros [(r' & s' & o & E & ->)|[E ->]]%outcome_step_inv; [by eapply T_resolve|by eapply T_resolve_crash].
  - case_decide as Hd; intros [= <-]. destruct Hd. by apply (T_wait3 os_chdir w (event z)).
Qed.

Lemma exec_all_moves ts w w' : exec_all os_chdir ts w = Some w' → rtc (moves os_chdir) w w'.
Proof.
  revert w. induction ts as [|t ts IH]; intros w; cbn; [intros [= <-]; apply rtc_refl|].
  destruct (exec os_chdir t w) as [[w1|]|] eqn:E; try done. intros H. eapply rtc_l; [by eapply exec_step|by apply IH].
Qed.

Lemma begin_winv l input dir : winv (begin l input dir).
Proof. split; cbn; [by intros z ?%elem_of_nil..|done|done|done]. Qed.

Lemma reach_winv l input dir w : rtc (moves os_chdir) (begin l input dir) w → winv w.
Proof.
  intros H. pose proof (begin_winv l input dir) as H0. induction H as [|w w1 w2 Hs _ IH]; [done|].
  apply IH. by eapply step_winv.
Qed.

End os.
