(* ===== verification/Shell2RaceExit.v ===== *)
(** * The end of v2

    After [e] the main thread waits until no entry of [processes] is in use.  Every
    process number in [processes] belongs to a child that nobody has waited for, or to
    a report that is under way, or is the -1 of a failed [fork]; so the wait thread can
    always clear the table when no [fork] has failed. *)

From S2P Require Import Prelude CString Shell Shell2 ShellJobs Shell2Race Shell2RaceInv.

(** The process a thread reports. *)
Definition reporting (m : main_pc) (o : option report) (z : Z) : Prop :=
  (∃ r, o = Some r ∧ rpid r = z) ∨ (∃ fg r, m = M_report fg r ∧ rpid r = z).

Record pids_rev (l : list Z) (m : main_pc) (o : option report) (ch : list Z) : Prop := {
  r_size : zlen l = MAX_BGPROCESSES;
  r_uniq : ∀ i j z, zget l i = Some z → zget l j = Some z → 0 < z → i = j;
  r_live : ∀ i z, zget l i = Some z → 0 < z → z ∈ ch ∨ reporting m o z;
  r_sign : ∀ i z, zget l i = Some z → z = -1 ∨ 0 ≤ z;
  r_own : ∀ z, own m = Some z → z = -1 ∨ (0 < z ∧ z ∉ l);
  r_store : ∀ i z, m = M_store i z → 0 < z → z ∈ ch ∨ reporting m o z;
}.

Lemma zget_insert (l : list Z) i j x y z : zget l i = Some x → zget (<[Z.to_nat i := y]> l) j = Some z →
  (j = i ∧ z = y) ∨ (j ≠ i ∧ zget l j = Some z).
Proof.
  intros Hi Hj. pose proof (zget_Some_bound _ _ _ Hi) as Hb. unfold zget, zlen in *. do 2 (case_decide; [|done]).
  destruct (decide (j = i)) as [->|Hne]; [left|right].
  - rewrite list_lookup_insert_eq in Hj by lia. naive_solver.
  - by rewrite list_lookup_insert_ne in Hj by lia.
Qed.

Lemma zget_elem (l : list Z) z : z ∈ l → ∃ i, zget l i = Some z.
Proof.
  intros [n Hn]%list_elem_of_lookup. exists (Z.of_nat n). unfold zget. rewrite decide_True by lia. by rewrite Nat2Z.id.
Qed.

Lemma elem_insert (l : list Z) i x y z : zget l i = Some x → z ∈ <[Z.to_nat i := y]> l → z = y ∨ z ∈ l.
Proof.
  intros Hi [j Hj]%zget_elem. destruct (zget_insert _ _ _ _ _ _ Hi Hj) as [[_ ?]|[_ ?]]; [by left|right].
  by eapply zget_In.
Qed.

(** A report that ends clears the only entry of its process. *)
Lemma rev_clear l m o ch m' o' i z : pids_rev l m o ch → zget l i = Some z → own m' = own m →
  (∀ j y, m' = M_store j y → m = M_store j y) →
  (∀ y, y ≠ z → reporting m o y → reporting m' o' y) → (∀ j y, m = M_store j y → y ≠ z) →
  pids_rev (<[Z.to_nat i := 0]> l) m' o' ch.
Proof.
  intros [H0 H1 H2 H3 H4 H5] Hi Ho Hst Hrep Hne. split.
  - unfold zlen in *. by rewrite length_insert.
  - intros j k y Hj Hk Hy. destruct (zget_insert _ _ _ _ _ _ Hi Hj) as [[_ ?]|[? Hj']]; [lia|].
    destruct (zget_insert _ _ _ _ _ _ Hi Hk) as [[_ ?]|[? Hk']]; [lia|]. by eapply H1.
  - intros j y Hj Hy. destruct (zget_insert _ _ _ _ _ _ Hi Hj) as [[_ ?]|[Hji Hj']]; [lia|].
    destruct (H2 j y Hj' Hy) as [?|Hr]; [by left|right]. apply Hrep; [|done]. intros ->. by specialize (H1 j i z Hj' Hi Hy).
  - intros j y Hj. destruct (zget_insert _ _ _ _ _ _ Hi Hj) as [[_ ->]|[_ Hj']]; [by right|by eapply H3].
  - intros y Hy. rewrite Ho in Hy. destruct (H4 y Hy) as [?|[? Hn]]; [by left|right; split; [done|]].
    intros [?|?]%(elem_insert _ _ _ _ _ Hi); [lia|done].
  - intros j y Hm Hy. apply Hst in Hm. destruct (H5 j y Hm Hy) as [?|Hr]; [by left|right]. apply Hrep; [|done]. by eapply Hne.
Qed.

(** The table stays as it is. *)
Lemma rev_same l m o ch m' o' ch' : pids_rev l m o ch →
  (∀ y, y ∈ l → 0 < y → y ∈ ch ∨ reporting m o y → y ∈ ch' ∨ reporting m' o' y) →
  (∀ z, own m' = Some z → z = -1 ∨ (0 < z ∧ z ∉ l)) →
  (∀ j y, m' = M_store j y → 0 < y → y ∈ ch' ∨ reporting m' o' y) → pids_rev l m' o' ch'.
Proof.
  intros [H0 H1 H2 H3 H4 H5] HA HB HC. split; try done. intros i z Hi Hz.
  apply HA; [by eapply zget_In|done|by eapply H2].
Qed.

Lemma rev_resolve l l' m r r' ch : pids_inv l m (Some r) ch → pids_rev l m (Some r) ch → reported_as r r' l l' →
  pids_rev l' m r' ch.
Proof.
  intros [_ _ _ _ (_ & Hp & _)] Hv Hr. destruct r' as [r'|]; cbn in Hr.
  - destruct Hr as (-> & E & _).
    assert (∀ y, reporting m (Some r) y → reporting m (Some r') y) as Hc.
    { intros y [(q & [= <-] & ?)|?]; [left; exists r'; split; [done|congruence]|by right]. }
    apply (rev_same _ _ _ _ _ _ _ Hv).
    + intros y _ _ [?|?]; auto.
    + apply Hv.
    + intros j y Hm Hy. destruct (r_store _ _ _ _ Hv j y Hm Hy) as [?|?]; auto.
  - destruct Hr as (i & Hi & ->). apply (rev_clear l m (Some r) ch m None i (rpid r) Hv Hi); try done.
    + intros y Hy [(q & [= <-] & ?)|?]; [congruence|by right].
    + intros j y -> ->. destruct (r_own _ _ _ _ Hv _ eq_refl) as [?|[_ []]]; [lia|by eapply zget_In].
Qed.

Lemma rev_report l l' z r r' o ch : pids_rev l (M_report z r) o ch → reported_as r r' l l' →
  pids_rev l' (match r' with Some r' => M_report z r' | None => M_wait z end) o ch.
Proof.
  intros Hv Hr. destruct r' as [r'|]; cbn in Hr.
  - destruct Hr as (-> & E & _). apply (rev_same _ _ _ _ _ _ _ Hv); [|apply (r_own _ _ _ _ Hv)|done].
    intros y _ _ [?|[?|(fg & q & [= <- <-] & ?)]]; [by left|by right; left|right; right].
    exists z, r'. split; [done|congruence].
  - destruct Hr as (i & Hi & ->). apply (rev_clear l _ o ch (M_wait z) o i (rpid r) Hv Hi); try done.
    intros y Hy [?|(fg & q & [= <- <-] & ?)]; [by left|congruence].
Qed.

(** The main thread goes on, and takes no child. *)
Lemma rev_goto l m m' o ch : pids_rev l m o ch → quiet m → own m' = own m →
  (∀ j y, m' ≠ M_store j y) → pids_rev l m' o ch.
Proof.
  intros Hv Hq Ho Hs. apply (rev_same _ _ _ _ _ _ _ Hv).
  - intros y _ _ [?|[?|(fg & r & -> & _)]]; [by left|by right; left|done].
  - rewrite Ho. apply Hv.
  - intros j y Hm. by destruct (Hs j y).
Qed.

Lemma rev_fork l m m' o ch z : pids_rev l m o ch → quiet m → own m' = Some z →
  z = -1 ∨ (0 < z ∧ z ∉ ch ∧ z ∉ l) → pids_rev l m' o (add_child z ch).
Proof.
  intros Hv Hq Ho Hz. assert (∀ y, y ∈ ch → y ∈ add_child z ch) as Hadd.
  { intros y Hy. unfold add_child. case_match; [done|by right]. }
  apply (rev_same _ _ _ _ _ _ _ Hv).
  - intros y _ _ [?|[?|(fg & r & -> & _)]]; [by left; auto|by right; left|done].
  - rewrite Ho. intros ? [= <-]. naive_solver.
  - intros j y -> Hy. cbn in Ho. injection Ho as ->. left. unfold add_child. destruct (Z.eqb_spec z (-1)); [lia|left].
Qed.

Lemma rev_foreground l z o ch : pids_rev l (M_wait z) o ch → pids_rev l M_menu o (reap z ch).
Proof.
  intros Hv. apply (rev_same _ _ _ _ _ _ _ Hv); [|done|done].
  intros y Hy Hp [?|[?|(fg & r & ? & _)]]; [|by right; left|done]. left. apply elem_reap. split; [|done]. intros ->.
  destruct (r_own _ _ _ _ Hv _ eq_refl) as [?|[_ ?]]; [lia|done].
Qed.

Lemma rev_background l z o ch e : pids_rev l (M_wait z) o ch → pids_rev l (M_report z (R_find e)) o (reap (w_pid e) ch).
Proof.
  intros Hv. apply (rev_same _ _ _ _ _ _ _ Hv); [|apply Hv|done].
  intros y Hy Hp [?|[?|(fg & r & ? & _)]]; [|by right; left|done].
  destruct (decide (y = w_pid e)) as [->|]; [right; right; by exists z, (R_find e)|left; by apply elem_reap].
Qed.

Lemma rev_wait3 l m ch e : pids_rev l m None ch → pids_rev l m (Some (R_find e)) (reap (w_pid e) ch).
Proof.
  intros Hv. assert (∀ y, y ∈ ch ∨ reporting m None y → y ∈ reap (w_pid e) ch ∨ reporting m (Some (R_find e)) y) as Hc.
  { intros y [?|[(? & ? & _)|?]]; [|done|by right; right].
    destruct (decide (y = w_pid e)) as [->|]; [right; left; by exists (R_find e)|left; by apply elem_reap]. }
  apply (rev_same _ _ _ _ _ _ _ Hv); [auto|apply Hv|]. intros j y Hm Hy. apply Hc. exact (r_store _ _ _ _ Hv j y Hm Hy).
Qed.

Lemma rev_store l i z o ch : zget l i = Some 0 → pids_rev l (M_store i z) o ch →
  pids_rev (<[Z.to_nat i := z]> l) M_menu o ch.
Proof.
  intros Hi [H0 H1 H2 H3 H4 H5]. specialize (H4 z eq_refl). specialize (H5 i z eq_refl).
  assert (∀ y, y ∈ ch ∨ reporting (M_store i z) o y → y ∈ ch ∨ reporting M_menu o y) as Hc.
  { intros y [?|[?|(fg & r & ? & _)]]; [by left|by right; left|done]. }
  assert (∀ j, zget l j = Some z → 0 < z → False) as Hn.
  { intros j Hj Hp. destruct H4 as [?|[_ []]]; [lia|by eapply zget_In]. }
  split; try done.
  - unfold zlen in *. by rewrite length_insert.
  - intros j k y Hj Hk Hy. destruct (zget_insert _ _ _ _ _ _ Hi Hj) as [[-> ->]|[? Hj']],
      (zget_insert _ _ _ _ _ _ Hi Hk) as [[-> Ey]|[? Hk']]; [done| |subst y|by eapply H1]; naive_solver.
  - intros j y Hj Hy. apply Hc. destruct (zget_insert _ _ _ _ _ _ Hi Hj) as [[-> ->]|[? Hj']]; [auto|by eapply H2].
  - intros j y Hj. destruct (zget_insert _ _ _ _ _ _ Hi Hj) as [[-> ->]|[? Hj']]; [lia|by eapply H3].
Qed.

(** ** Steps *)

Definition wrev (w : world) : Prop := pids_rev (pids (sh w)) (main w) (waiter w) (children w).

Section os.
Context (os_chdir : string → string → string).

Lemma step_wrev w w' : winv w → wrev w → moves os_chdir w w' → wrev w'.
Proof.
  unfold winv, wrev, moves. intros Hi H Hs. remember (Some w') as x eqn:Ex.
  destruct Hs as [w c s' o Hm E| |w z Hm Hz|w z Hm|w z e Hm Hz He|w z e Hm Hz He|w z r r' s' o Hm E| |
    w i Hm E| |w i s' o Hm E| |w i z Hm Hz|w i z t s' o Hm E| |w Hm|w i s' o Hm _ E| |w i Hm _|w e Hw Hh He|
    w r r' s' o Hw E|]; try done; injection Ex as <-; cbn;
    try rewrite Hm in H, Hi; try rewrite Hw in H, Hi.
  - rewrite (keeps_pids _ _ _ _ _ (keeps_menu os_chdir) E). eapply rev_goto; try done;
      destruct c as [| | |c]; try done; cbn; by destruct (blocking c).
  - by eapply rev_fork.
  - by eapply rev_goto.
  - subst z. by apply rev_foreground.
  - by apply rev_background.
  - eapply rev_report; [done|]. destruct (report_cases r (sh w)) as [(? & ? & ? & ?)|Hr]; [apply Hi|congruence|].
    exact (wp_det _ _ _ _ _ _ Hr E).
  - by eapply rev_goto.
  - rewrite (number_pids _ _ _ _ E). by eapply rev_goto.
  - by eapply rev_fork.
  - apply (pids_upd _ _ _ _ _ z) in E as [-> _]; [|done]. apply rev_store; [|done]. by apply Hi.
  - by eapply rev_goto.
  - rewrite (keeps_pids _ _ _ _ _ (keeps_line i) E). by eapply rev_goto.
  - by eapply rev_goto.
  - by apply rev_wait3.
  - eapply rev_resolve; [done..|]. destruct (report_cases r (sh w)) as [(? & ? & ? & ?)|Hr]; [apply Hi|congruence|].
    exact (wp_det _ _ _ _ _ _ Hr E).
Qed.

Lemma begin_wrev l input dir : wrev (begin l input dir).
Proof.
  assert (∀ i z, zget (pids (sh (begin l input dir))) i = Some z → z = 0) as H0.
  { intros i z (l1 & p & l2 & E & _ & <-)%zget_pids. change (processes (sh (begin l input dir))) with (processes (startup input dir)) in E.
    unfold startup in E. cbn -[replicate] in E. assert (p ∈ l1 ++ p :: l2) as Hp by (apply elem_of_app; right; left).
    rewrite <-E in Hp. by apply elem_of_replicate_inv in Hp as ->. }
  split; try done.
  - intros i j z Hi%H0 _ ?. lia.
  - intros i z Hi%H0 ?. lia.
  - intros i z Hi%H0. by right; subst.
Qed.

Lemma reach_wrev l input dir w : rtc (moves os_chdir) (begin l input dir) w → winv w ∧ wrev w.
Proof.
  intros H. pose proof (begin_winv l input dir) as H0. pose proof (begin_wrev l input dir) as H1.
  induction H as [|w w1 w2 Hs _ IH]; [done|]. apply IH; [by eapply step_winv|by eapply step_wrev].
Qed.

(** ** The last loop *)

(** The steps the wait thread has left, at most. *)
Definition stage (o : option report) : nat :=
  match o with
  | None => 4
  | Some (R_find _) => 3
  | Some (R_jobs _ _) => 2
  | Some (R_counter _ _) => 1
  | Some (R_clean _ _) => 0
  end.
Definition in_use (l : list Z) : nat := length (filter (λ z, z ≠ 0) l).
Definition steps_left (w : world) : nat := 5 * in_use (pids (sh w)) + stage (waiter w).

Lemma in_use_clear (l : list Z) i z : zget l i = Some z → z ≠ 0 → in_use l = S (in_use (<[Z.to_nat i := 0]> l)).
Proof.
  intros Hi Hz. pose proof (zget_Some_bound _ _ _ Hi). unfold zget in Hi. case_decide; [|done].
  rewrite <-(take_drop_middle l _ z Hi) at 1. rewrite insert_take_drop by (by eapply lookup_lt_Some).
  unfold in_use. rewrite !filter_app, !length_app, !filter_cons. rewrite decide_True by done.
  rewrite decide_False by (intros []; done). cbn. lia.
Qed.

Lemma in_use_bound (l : list Z) : (in_use l ≤ length l)%nat.
Proof. unfold in_use. apply length_filter. Qed.

Lemma report_stage r s : wlp (report_step r) s (λ r' _, match r' with Some _ => (stage r' < stage (Some r))%nat | None => True end).
Proof.
  destruct r as [e|i e|i e|i e]; unfold report_step, tracker, get, put.
  - do 2 wlp_step. intros [k|] _; [|done]. do 2 wlp_step. intros p _. do 6 wlp_step. wlp_step. cbn. lia.
  - do 2 wlp_step. intros p _. do 2 wlp_step. intros s' _. wlp_step. cbn. lia.
  - do 2 wlp_step. intros s' _. wlp_step. cbn. lia.
  - wlp_step. unfold wlp. by destruct (cleanCommand i e s) as [[]| |].
Qed.

(** At the end only the wait thread has steps left, and each of them counts. *)
Lemma exit_step w w' : winv w → main w = M_exit → -1 ∉ pids (sh w) → moves os_chdir w w' →
  main w' = M_exit ∧ -1 ∉ pids (sh w') ∧ (steps_left w' < steps_left w)%nat.
Proof.
  intros Hi Hm Hn Hs. unfold moves in Hs. remember (Some w') as x eqn:Ex.
  destruct Hs as [| | | | | | | | | | | | | | | | | | |w e Hw Hh He|w r r' s' o Hw E|]; try congruence; injection Ex as <-.
  - split_and!; [done|done|]. unfold steps_left. rewrite Hw. cbn. lia.
  - split; [done|]. cbn [sh]. destruct Hi as [_ _ _ _ Hr]. rewrite Hw in Hr. destruct Hr as (Hl & Hp & _).
    destruct (report_cases r (sh w) Hl) as [(? & ? & ? & ?)|Hc]; [congruence|].
    pose proof (wp_det _ _ _ _ _ _ Hc E) as Ha. pose proof (wlp_det _ _ _ _ _ _ (report_stage r (sh w)) E) as Hst.
    unfold steps_left. rewrite Hw. cbn [sh waiter]. destruct r' as [r'|]; cbn [reported_as] in Ha.
    + destruct Ha as [-> _]. split; [done|]. cbn beta iota in Hst. lia.
    + destruct Ha as (i & Hz & ->). split; [|rewrite (in_use_clear _ _ _ Hz) by lia; cbn [stage]; lia].
      intros [?|?]%(elem_insert _ _ _ _ _ Hz); [lia|done].
Qed.

(** Either no process is left or the wait thread has a step, and it does not crash. *)
Lemma exit_progress w : winv w → wrev w → main w = M_exit → -1 ∉ pids (sh w) →
  ¬ step os_chdir w None ∧ (remainOpen (sh w) = false ∨ ∃ w', moves os_chdir w w').
Proof.
  intros Hi Hv Hm Hn. destruct Hi as [_ _ _ _ Hr]. destruct (waiter w) as [r|] eqn:Hw.
  - destruct Hr as (Hl & Hp & _ & Hk & _). rewrite Hm in Hk. destruct Hk as [Hk|]; [|done].
    destruct (report_cases r (sh w) Hl) as [(e & -> & ? & _)|Hc]; [done|].
    apply wp_Done in Hc as (r' & s' & o & E & _). split.
    + intros Hs. remember (@None world) as x. destruct Hs; try done; congruence.
    + right. eexists. by eapply T_resolve.
  - split.
    + intros Hs. remember (@None world) as x. destruct Hs; try done; congruence.
    + destruct (remainOpen (sh w)) eqn:Ho; [right|by left]. apply existsb_exists in Ho as (p & Hp & Hz%negb_true_iff%Z.eqb_neq).
      apply list_elem_of_In in Hp. assert (pid p ∈ pids (sh w)) as Hin by (by apply list_elem_of_fmap_2).
      apply zget_elem in Hin as [i Hi]. destruct (r_sign _ _ _ _ Hv i _ Hi) as [E|?].
      { destruct Hn. rewrite <-E. by eapply zget_In. }
      destruct (r_live _ _ _ _ Hv i _ Hi ltac:(lia)) as [Hc|[(? & E & _)|(? & ? & E & _)]]; [|congruence..].
      eexists. apply (T_wait3 os_chdir w (event (pid p))); [done|by rewrite Hm|done].
Qed.
End os.
