(* ===== verification/Shell2RaceProps.v ===== *)
(** * What the two threads of v2 can do to each other

    Where a pointer can be NULL, and runs in which it is. *)

From S2P Require Import Prelude CString Shell Shell2 ShellJobs Shell2Race Shell2RaceInv Shell2RaceExit.

Lemma running_line_undef i s : running_line i s = Undef → findJobnum (processes s) i = None.
Proof.
  unfold running_line, get. intros H. destruct (findJobnum (processes s) i) as [k|] eqn:E; [|done].
  rewrite (reads_bind _ _ _ (Some k)) in H by (by rewrite E).
  apply find_index_Some in E as (l1 & p & l2 & El & -> & _). rewrite Z.add_0_l in H.
  by rewrite (bind_silent _ _ _ _ _ (tracker_ok l1 p l2 s El)) in H.
Qed.

(** An entry that exists can be written. *)
Lemma upd_tracker_defined i f s z : zget (pids s) i = Some z → upd_tracker i f s ≠ Undef.
Proof. intros (l1 & p & l2 & El & -> & _)%zget_pids. by rewrite (upd_tracker_ok l1 p l2 f s El). Qed.

Lemma take_number_defined i s z : zget (pids s) i = Some z → take_number i s ≠ Undef.
Proof.
  intros (l1 & p & l2 & El & -> & _)%zget_pids. unfold take_number, get.
  rewrite (reads_bind _ _ _ (jobCounter s)) by done.
  by rewrite (bind_silent _ _ _ _ _ (upd_tracker_ok l1 p l2 _ s El)).
Qed.

Lemma report_undef r s : located r (pids s) → report_step r s = Undef → ∃ e, r = R_find e ∧ w_pid e ∉ pids s.
Proof.
  intros Hl E. destruct (report_cases r s Hl) as [(e & ? & ? & _)|Hr]; [by exists e|].
  unfold wp in Hr. by rewrite E in Hr.
Qed.

Section os.
Context (os_chdir : string → string → string).

(** C14. Where the shell can crash.  Whatever the two threads, the user and the system
    do, an undefined step is one of these: the wait thread looks up a child that the
    main thread has started and not recorded yet (a foreground process, or a
    background process between [fork] and the store of its number); the main thread
    waits for a foreground process that the wait thread has already taken, so that
    [wait3] fails and no process has the number -1; a background command is started
    with 100 running; the list of running processes misses a job number; the menu
    itself fails.  Every other lookup and every access through a pointer it returned
    is defined. *)
Theorem mc2_race_windows (l : list cmd) (input dir : string) (w : world) :
  rtc (moves os_chdir) (begin l input dir) w → step os_chdir w None →
  (∃ e, waiter w = Some (R_find e) ∧ own (main w) = Some (w_pid e)) ∨
  (∃ z e, main w = M_report z (R_find e) ∧ w_pid e = -1 ∧ z ≠ -1 ∧ children w = []) ∨
  (main w = M_pick ∧ 0 ∉ pids (sh w)) ∨
  (∃ i, main w = M_list i ∧ i < jobCounter (sh w) ∧ findJobnum (processes (sh w)) i = None) ∨
  (main w = M_menu ∧ menu os_chdir (sh w) = Undef).
Proof.
  intros Hr%reach_winv Hs. destruct Hr as [H1 H2 H3 H4 H5]. remember None as x eqn:Ex.
  destruct Hs as [|w Hm E| | | | | |w z r Hm E| |w Hm E| |w i Hm E| | |w i z t Hm E| | |w i Hm Hi E| | | |w r Hw E];
    try done.
  - by do 4 right.
  - right; left. rewrite Hm in H4. destruct H4 as (Hl & _ & Hne & Hp).
    destruct (report_undef r (sh w) Hl E) as (e & -> & Hn). exists z, e. destruct Hp as [[_ ?]|[? ->]]; [done|]. cbn in *.
    split_and!; congruence.
  - do 2 right; left. split; [done|]. by apply findProcess_none.
  - destruct (take_number_defined i (sh w) 0); [|done]. apply H3. by rewrite Hm.
  - destruct (upd_tracker_defined i (λ p, set_pid z (set_start t p)) (sh w) 0); [|done]. apply H3. by rewrite Hm.
  - do 3 right; left. exists i. split_and!; [done..|]. by apply running_line_undef.
  - left. rewrite Hw in H5. destruct H5 as (Hl & _ & _ & Hk & _).
    destruct (report_undef r (sh w) Hl E) as (e & -> & Hn). exists e. split; [done|]. by destruct Hk.
Qed.

(** C31. The foreground process is stolen.  Whenever the main thread is about to fork and
    the wait thread is at the top of its loop, there is a run in which the wait
    thread looks up the new process and dereferences NULL: the child ends before
    [canWait] is locked, or before its number is stored. *)
Theorem mc2_race_stolen (w : world) (z : Z) :
  main w = M_fork ∨ (∃ i, main w = M_start i) → waiter w = None →
  0 < z → z ∉ children w → z ∉ pids (sh w) →
  ∃ w' e, rtc (moves os_chdir) w w' ∧ waiter w' = Some (R_find e) ∧ w_pid e = z ∧ step os_chdir w' None.
Proof.
  intros Hm Hw Hz Hc Hp. set (e := mkWait z (mkTime 0 0) (mkUsage 0 0)).
  assert (add_child z (children w) = z :: children w) as Ha by (unfold add_child; by destruct (Z.eqb_spec z (-1)); [lia|]).
  assert (report_step (R_find e) (sh w) = Undef) as Hu.
  { unfold report_step, get. rewrite (reads_bind _ _ _ None); [done|]. f_equal. by apply findProcess_none. }
  assert (∃ m, moves os_chdir w (mkWorld (sh w) m None (z :: children w)) ∧ holds m = false) as (m & Hf & Hh).
  { rewrite <-Ha, <-Hw. destruct Hm as [Hm|[i Hm]].
    - exists (M_forked z). split; [|done]. apply T_fork; [done|]. by right.
    - exists (M_store i z). split; [|done]. apply T_start; [done|]. by right. }
  exists (mkWorld (sh w) m (Some (R_find e)) (reap z (z :: children w))), e. split_and!; [|done|done|by eapply T_resolve_crash].
  eapply rtc_l; [exact Hf|]. apply rtc_once.
  apply (T_wait3 os_chdir (mkWorld (sh w) m None (z :: children w)) e); [done|done|left].
Qed.

(** A failed fork keeps the shell from ending.  [executeCommand] stores the -1 of a
    failed [fork] in [processes]; once the main thread has left its menu, no step
    changes that entry, and the loop that waits for background processes never
    ends. *)
Theorem mc2_exit_hangs (l : list cmd) (input dir : string) (w w' : world) :
  rtc (moves os_chdir) (begin l input dir) w → main w = M_exit → -1 ∈ pids (sh w) →
  rtc (moves os_chdir) w w' → main w' = M_exit ∧ remainOpen (sh w') = true.
Proof.
  intros Hr%reach_winv Hm Hf H.
  assert (main w' = M_exit ∧ -1 ∈ pids (sh w')) as [Hm' Hf'].
  { induction H as [w|w w1 w2 Hs _ IH]; [done|].
    assert (main w1 = M_exit ∧ -1 ∈ pids (sh w1)) as [??]; [|apply IH; [by eapply step_winv|done..]].
    unfold moves in Hs. remember (Some w1) as x eqn:Ex. destruct Hs; try done; try congruence; injection Ex as <-; [done|].
    split; [done|]. cbn. destruct Hr as [_ _ _ _ Hw]. rewrite H in Hw. destruct Hw as (Hl & Hpos & _).
    destruct (report_cases r (sh w) Hl) as [(? & ? & ? & ?)|Hc]; [congruence|].
    pose proof (wp_det _ _ _ _ _ _ Hc H0) as Ha. destruct r' as [r'|]; cbn in Ha; [by destruct Ha as [-> _]|].
    destruct Ha as (i & Hi & ->). eapply elem_clear; eauto. lia. }
  split; [done|]. unfold remainOpen. apply existsb_exists. apply list_elem_of_fmap in Hf' as (p & Hp & Hin).
  exists p. split; [by apply list_elem_of_In|]. by rewrite <-Hp.
Qed.

(** C32. The shell ends.  Once the main thread has left its menu, and if no [fork] of a
    background command has failed, the wait thread makes at most 504 more steps,
    none of them undefined, and whenever it has none left every entry of [processes]
    is free, so that the loop of [main] ends.  (A [wait3] that finds no ended process,
    and a turn of that loop, are not steps.) *)
Theorem mc2_exit_ends (l : list cmd) (input dir : string) (w w' : world) (n : nat) :
  rtc (moves os_chdir) (begin l input dir) w → main w = M_exit → -1 ∉ pids (sh w) →
  nsteps (moves os_chdir) n w w' →
  (n ≤ 504)%nat ∧ ¬ step os_chdir w' None ∧ (remainOpen (sh w') = false ∨ ∃ w2, moves os_chdir w' w2).
Proof.
  intros [Hi Hv]%reach_wrev Hm Hf H.
  assert (steps_left w ≤ 504)%nat as Hb.
  { unfold steps_left. pose proof (in_use_bound (pids (sh w))) as Hu. pose proof (r_size _ _ _ _ Hv) as Hz.
    unfold zlen, MAX_BGPROCESSES in Hz. assert (stage (waiter w) ≤ 4)%nat by (destruct (waiter w) as [[]|]; cbn; lia). lia. }
  assert (n + steps_left w' ≤ steps_left w ∧ ¬ step os_chdir w' None ∧
    (remainOpen (sh w') = false ∨ ∃ w2, moves os_chdir w' w2))%nat as (Hn & Hs & Hp); [|split_and!; [lia|done..]].
  clear Hb. induction H as [w|n w w1 w2 Hs _ IH]; [split; [done|by apply exit_progress]|].
  destruct (exit_step os_chdir w w1 Hi Hm Hf Hs) as (Hm1 & Hf1 & Hl).
  destruct (IH (step_winv _ _ _ Hi Hs) (step_wrev _ _ _ Hi Hv Hs) Hm1 Hf1) as [IHl IHr]. split; [lia|done].
Qed.
End os.

(** ** Runs *)

(** A menu with one command that runs in the background. *)
Definition bg_menu : list cmd :=
  [mkCmd "./seymour" "seymour" "Sleeps." "-- seymour --" NoDefArgs false false false].

Definition three_jobs : world := begin bg_menu ("0" +:+ nl +:+ "0" +:+ nl +:+ "0" +:+ nl +:+ "r" +:+ nl) "/".

(** A job started in the background, as process [z]: the menu, [findProcess], the job
    number, [fork], the store of its number. *)
Definition start_job (z : Z) : list turn := [Main 0; Main 0; Main 0; Main z; Main 0].

(** Two jobs; the first ends, and a third is started while the wait thread is between
    the loop of [decrementJobs] and [jobCounter--]; then the list of jobs, up to job 2. *)
Definition gap_schedule : list turn :=
  start_job 10 ++ start_job 11 ++ [Reap 10; Wait; Wait] ++ [Main 0; Main 0; Main 0] ++ [Wait] ++
  [Main 12; Main 0] ++ [Wait] ++ [Main 0; Main 0; Main 0].

(** What is seen of a world. *)
Definition jobs_seen (w : world) : main_pc * bool * Z * list (Z * Z) :=
  (main w, bool_decide (is_Some (waiter w)), jobCounter (sh w), (λ p, (pid p, jobnum p)) <$> live (processes (sh w))).

Definition crashes (t : turn) (w : world) : bool :=
  match exec (λ d _, d) t w with Some None => true | _ => false end.

Lemma gap_computed : (λ w, (jobs_seen w, crashes (Main 0) w)) <$> exec_all (λ d _, d) gap_schedule three_jobs =
  Some ((M_list 2, false, 3, [(11, 1); (12, 3)]), true).
Proof. vm_compute. reflexivity. Qed.

Lemma crashes_step t w : crashes t w = true → step (λ d _, d) w None.
Proof. unfold crashes. intros H. apply (exec_step _ t). by repeat case_match. Qed.

(** Job numbers are lost.  [waitThread] renumbers the jobs outside [canWait]: in a
    run where a third job takes its number between the loop of [decrementJobs] and
    [jobCounter--], both threads end in rest with the jobs 1 and 3 and the counter 3,
    and the next list of running processes dereferences NULL at job 2. *)
Theorem mc2_race_numbers : ∃ w, rtc (moves (λ d _, d)) three_jobs w ∧ main w = M_list 2 ∧ waiter w = None ∧
  (λ p, (pid p, jobnum p)) <$> live (processes (sh w)) = [(11, 1); (12, 3)] ∧ jobCounter (sh w) = 3 ∧
  step (λ d _, d) w None.
Proof.
  pose proof gap_computed as H. destruct (exec_all _ gap_schedule three_jobs) as [w|] eqn:E; [|discriminate H].
  injection H as Hm Hw Hj Hl Hc. apply bool_decide_eq_false in Hw. rewrite <-eq_None_not_Some in Hw.
  exists w. exact (conj (exec_all_moves _ _ _ _ E) (conj Hm (conj Hw (conj Hl (conj Hj (crashes_step _ _ Hc)))))).
Qed.

(** The first command of the menu, and its end before the main thread locks
    [canWait]. *)
Definition stolen_schedule : list turn := [Main 0; Main 7; Reap 7].
Definition stolen_start : world := begin default_cmds ("0" +:+ nl) "/".

Lemma stolen_computed : crashes Wait <$> exec_all (λ d _, d) stolen_schedule stolen_start = Some true.
Proof. vm_compute. reflexivity. Qed.

Lemma mc2_race_windows_witness : ∃ w,
  rtc (moves (λ d _, d)) stolen_start w ∧ step (λ d _, d) w None ∧
  ((∃ e, waiter w = Some (R_find e) ∧ own (main w) = Some (w_pid e)) ∨
   (∃ z e, main w = M_report z (R_find e) ∧ w_pid e = -1 ∧ z ≠ -1 ∧ children w = []) ∨
   (main w = M_pick ∧ 0 ∉ pids (sh w)) ∨
   (∃ i, main w = M_list i ∧ i < jobCounter (sh w) ∧ findJobnum (processes (sh w)) i = None) ∨
   (main w = M_menu ∧ menu (λ d _, d) (sh w) = Undef)).
Proof.
  pose proof stolen_computed as H. destruct (exec_all _ stolen_schedule stolen_start) as [w|] eqn:E; [|discriminate H].
  injection H as Hc. exists w. pose proof (exec_all_moves _ _ _ _ E) as Hr. pose proof (crashes_step _ _ Hc) as Hs.
  exact (conj Hr (conj Hs (mc2_race_windows (λ d _, d) default_cmds ("0" +:+ nl) "/" w Hr Hs))).
Defined.

Lemma mc2_race_stolen_witness : ∃ w' e,
  rtc (moves (λ d _, d)) (mkWorld (startup "" "/") M_fork None []) w' ∧
  waiter w' = Some (R_find e) ∧ w_pid e = 7 ∧ step (λ d _, d) w' None.
Proof.
  apply (mc2_race_stolen (λ d _, d) (mkWorld (startup "" "/") M_fork None []) 7); [by left|done|lia|set_solver|].
  apply (bool_decide_unpack _). vm_compute. exact I.
Defined.

(** A background command whose [fork] fails, and then [e]. *)
Definition hang_start : world := begin bg_menu ("0" +:+ nl +:+ "e" +:+ nl) "/".
Definition hang_schedule : list turn := start_job (-1) ++ [Main 0].

Lemma hang_computed :
  (λ w, (main w, bool_decide (-1 ∈ pids (sh w)))) <$> exec_all (λ d _, d) hang_schedule hang_start = Some (M_exit, true).
Proof. vm_compute. reflexivity. Qed.

Lemma mc2_exit_hangs_witness : ∃ w,
  rtc (moves (λ d _, d)) hang_start w ∧ main w = M_exit ∧ remainOpen (sh w) = true.
Proof.
  pose proof hang_computed as H. destruct (exec_all _ hang_schedule hang_start) as [w|] eqn:E; [|discriminate H].
  injection H as Hm Hf. apply bool_decide_eq_true in Hf. exists w. pose proof (exec_all_moves _ _ _ _ E) as Hr.
  exact (conj Hr (mc2_exit_hangs (λ d _, d) bg_menu ("0" +:+ nl +:+ "e" +:+ nl) "/" w w Hr Hm Hf (rtc_refl _ w))).
Defined.

(** A background job that is still running when the user leaves. *)
Definition leave_start : world := begin bg_menu ("0" +:+ nl +:+ "e" +:+ nl) "/".
Definition leave_schedule : list turn := start_job 10 ++ [Main 0].

Lemma leave_computed :
  (λ w, (main w, bool_decide (-1 ∈ pids (sh w)), remainOpen (sh w))) <$> exec_all (λ d _, d) leave_schedule leave_start =
  Some (M_exit, false, true).
Proof. vm_compute. reflexivity. Qed.

Lemma mc2_exit_ends_witness : ∃ w, rtc (moves (λ d _, d)) leave_start w ∧ main w = M_exit ∧
  (remainOpen (sh w) = false ∨ ∃ w2, moves (λ d _, d) w w2).
Proof.
  pose proof leave_computed as H. destruct (exec_all _ leave_schedule leave_start) as [w|] eqn:E; [|discriminate H].
  injection H as Hm Hf _. apply bool_decide_eq_false in Hf. exists w. pose proof (exec_all_moves _ _ _ _ E) as Hr.
  pose proof (mc2_exit_ends (λ d _, d) bg_menu ("0" +:+ nl +:+ "e" +:+ nl) "/" w w 0 Hr Hm Hf (nsteps_O _ w)) as (_ & _ & Hp).
  exact (conj Hr (conj Hm Hp)).
Defined.
