(* ===== verification/ShellProps.v ===== *)
(** * The shell: properties *)

From S2P Require Import Prelude CString Shell0 Shell Shell1 Shell2 ShellWords ShellInput ShellJobs.
From Stdlib Require Import Ascii.

(** ** Words *)

(** C13. The loops over [strtok] that fill the argument arrays compute the words of the
    line: [collect] (v1 and the argument prompt) the first [n] of them, and the loop
    of [addOption] in v2, when they fit, the words that do not start with [&], with
    [blocking] cleared exactly when there is one that does. *)
Theorem mc_words (n : nat) (s : string) :
  collect n s = take n (words s) ∧
  ((length (filter (λ t, ampersand t = false) (words s)) < n)%nat →
   collect_amp (S (String.length s)) n s true =
     Some (filter (λ t, ampersand t = false) (words s), forallb (λ t, negb (ampersand t)) (words s))).
Proof.
  split; [apply collect_words|]. intros Hn. by rewrite collect_amp_words by (done || lia).
Qed.

Lemma mc_words_witness :
  words "  sleep   10 & x" = ["sleep"; "10"; "&"; "x"] ∧
  collect_amp 17 19 "  sleep   10 & x" true = Some (["sleep"; "10"; "x"], false).
Proof.
  split; [by vm_compute|].
  apply (proj2 (mc_words 19 "  sleep   10 & x")). apply Nat.ltb_lt. by vm_compute.
Defined.

(** ** The session of v1 *)

(** Whatever the input and the system do, the main loop of v1 ends (or runs into
    undefined behaviour): the length of the input is a bound on the number of
    iterations. *)
Theorem mc1_session_ends (os : nat → Shell1.exec_result) (os_chdir : string → string → string)
    (input dir : string) :
  Shell1.session os os_chdir input dir ≠ NoFuel.
Proof.
  unfold session, main. assert (append_defaults Shell1.default_cmds (fresh input dir) =
    Done true (set_cmds Shell1.default_cmds (fresh input dir)) []) as E by (by vm_compute).
  rewrite (bind_silent _ _ _ _ _ E). unfold mbind, M_bind, emit.
  pose proof (loop_ends os os_chdir (S (String.length input)) (set_cmds Shell1.default_cmds (fresh input dir))
    ltac:(unfold left_over; cbn; lia)) as H.
  by destruct (loop os os_chdir (S (String.length input)) _).
Qed.

(** ** Argument vectors *)

(** A line of at most 198 characters is read whole. *)
Lemma read_line l r s : stdin s = l +:+ String newline r → ¬ has_char newline l → (String.length l ≤ 198)%nat →
  read_buf (Z.to_nat MAX_IN_LENGTH) (Z.to_nat MAX_IN_LENGTH) s =
    Done (l +:+ String newline EmptyString) (set_stdin r s) [].
Proof.
  intros E Hl Hlen. change (Z.to_nat MAX_IN_LENGTH) with 200%nat. unfold read_buf, get.
  rewrite (reads_bind _ _ _ (Some (mkFgets (l +:+ String newline EmptyString) r false)))
    by (by rewrite E, fgets_full by (done || lia)).
  unfold mbind, M_bind, put, modifies. cbn [fg_rest fg_line].
  rewrite decide_True; [done|]. rewrite strlen_app. cbn. lia.
Qed.

Lemma words_push argv l : zlen argv = 1 →
  ∀ s, push_args argv (collect (Z.to_nat (MAX_ARGS - 1 - zlen argv)) l) s =
    Done (argv ++ take 38 (words l)) s [] ∧ zlen (argv ++ take 38 (words l)) ≤ 39.
Proof.
  intros Ha s. rewrite Ha, collect_words. change (Z.to_nat (MAX_ARGS - 1 - 1)) with 38%nat.
  assert (zlen (argv ++ take 38 (words l)) ≤ 39) as Hz.
  { unfold zlen in *. rewrite length_app, length_take. lia. }
  split; [|done]. unfold push_args, MAX_ARGS. destruct (Z.leb_spec (zlen (argv ++ take 38 (words l))) 40); [done|lia].
Qed.

(** The argument vector of a command that asks for arguments and a path (such as
    [ls]): the path of the program, the first 38 words of the first line, and the
    second line if it is not empty; with the terminating NULL it always fits the
    array of 41 entries, however long the line is. *)
Theorem mc_build_args (s : shell) (i : Z) (c : cmd) (l1 l2 rest : string) :
  zget (cmds s) i = Some c → defArgs c = NoDefArgs → args c = true → argPath c = true →
  stdin s = l1 +:+ String newline (l2 +:+ String newline rest) →
  ¬ has_char newline l1 → ¬ has_char newline l2 → (String.length l1 ≤ 198)%nat → (String.length l2 ≤ 198)%nat →
  build_args i s =
    Done (c, path c :: take 38 (words l1) ++ (if nonempty l2 then [l2] else [])) (set_stdin rest s)
      [Line ""; Line (head c); Ask "Arguments?: "; Ask "Path?: "] ∧
  zlen (path c :: take 38 (words l1) ++ (if nonempty l2 then [l2] else [])) ≤ MAX_ARGS.
Proof.
  intros Hc Hd Ha Hp Hin Hn1 Hn2 Hl1 Hl2.
  assert (user_args c [path c] s = Done (path c :: take 38 (words l1)) (set_stdin (l2 +:+ String newline rest) s)
    [Ask "Arguments?: "]) as Hu.
  { unfold user_args. rewrite Ha. apply emit_bind.
    rewrite (bind_silent _ _ _ _ _ (read_line l1 _ s Hin Hn1 Hl1)). cbv zeta.
    rewrite cleanNewline_line by done. destruct l1 as [|x l1]; [done|].
    apply (words_push [path c] (String x l1) eq_refl). }
  assert (zlen (path c :: take 38 (words l1)) ≤ 39) as Hz by apply (words_push [path c] l1 eq_refl s).
  set (s1 := set_stdin (l2 +:+ String newline rest) s) in *.
  set (argv := path c :: take 38 (words l1)) in *.
  assert (zlen (argv ++ if nonempty l2 then [l2] else []) ≤ MAX_ARGS) as Hz2.
  { unfold zlen in *. rewrite length_app. unfold MAX_ARGS. destruct (nonempty l2); cbn [length]; lia. }
  assert (path_arg c argv s1 = Done (argv ++ if nonempty l2 then [l2] else []) (set_stdin rest s) [Ask "Path?: "]) as Hpa.
  { unfold path_arg. rewrite Hp. apply emit_bind.
    rewrite (bind_silent _ _ _ _ _ (read_line l2 rest s1 eq_refl Hn2 Hl2)). cbv zeta.
    rewrite cleanNewline_line by done. destruct (nonempty l2) eqn:En.
    - unfold push_args. destruct (Z.leb_spec (zlen (argv ++ [l2])) MAX_ARGS); [done|lia].
    - by rewrite app_nil_r. }
  split; [|exact Hz2]. unfold build_args, unpack_def_args. rewrite (reads_bind _ _ _ c) by done.
  rewrite Hd. unfold mbind, M_bind, emit. cbn [mret M_ret]. rewrite Hu. rewrite Hpa.
  destruct (Z.leb_spec (zlen (argv ++ if nonempty l2 then [l2] else [])) MAX_ARGS); [done|lia].
Qed.

(** The menu of v1 after it was set up. *)
Definition at_menu (input : string) : shell := set_cmds Shell1.default_cmds (fresh input "/").

Lemma mc_build_args_witness :
  build_args 2 (at_menu ("-l  -a" +:+ nl +:+ "./" +:+ nl +:+ "e" +:+ nl)) =
    Done (mkCmd "ls" "ls" "Prints out the result of the 'ls' command." "-- Directory listing --" NoDefArgs true true true,
          ["ls"; "-l"; "-a"; "./"])
      (at_menu ("e" +:+ nl)) [Line ""; Line "-- Directory listing --"; Ask "Arguments?: "; Ask "Path?: "].
Proof.
  pose proof (proj1 (mc_build_args (at_menu ("-l  -a" +:+ nl +:+ "./" +:+ nl +:+ "e" +:+ nl)) 2
    (mkCmd "ls" "ls" "Prints out the result of the 'ls' command." "-- Directory listing --" NoDefArgs true true true)
    "-l  -a" "./" ("e" +:+ nl) ltac:(by vm_compute) eq_refl eq_refl eq_refl eq_refl ltac:(vm_compute; naive_solver)
    ltac:(vm_compute; naive_solver) ltac:(vm_compute; lia) ltac:(vm_compute; lia))) as H.
  exact H.
Defined.

(** ** Errors *)

(** A command the user adds cannot be run: [addOption] keeps a pointer to its local
    array of arguments, and running the new entry reads that array after the call
    has returned, in v1 and in v2. *)
Theorem mc_added_command (s s' : shell) (i : Z) (o : list msg) :
  Shell1.addOption s = Done i s' o ∨ Shell2.addOption s = Done i s' o → 0 ≤ i →
  build_args i s' = Undef.
Proof.
  intros H Hi.
  assert (∀ c l s1 o1, defArgs c = DeadArray l → appendOption c s1 = Done i s' o1 → build_args i s' = Undef) as Happ.
  { intros c l s1 o1 Hc. unfold appendOption, get. rewrite (reads_bind _ _ _ (cmds s1)) by done.
    case_match; [|done]. cbn. intros [= <- <- _]. unfold build_args.
    rewrite (reads_bind _ _ _ c) by apply zget_middle.
    unfold unpack_def_args. rewrite Hc. done. }
  assert (∀ (k : string → prog Z) s0 o0,
    (∀ l s1 o1, k l s1 = Done i s' o1 → build_args i s' = Undef) →
    (_ ← emit (Ask "Command?: ");
     l ← read_buf (Z.to_nat MAX_IN_LENGTH) (Z.to_nat (MAX_IN_LENGTH - 6)); k l) s0 = Done i s' o0 →
    build_args i s' = Undef) as Hread.
  { intros k s0 o0 Hk. unfold mbind, M_bind, emit. destruct (read_buf _ _ s0) as [l s1 o1| |]; try done.
    destruct (k l s1) as [j s2 o2| |] eqn:E; try done. intros [= -> -> _]. by eapply Hk. }
  destruct H as [H|H]; revert H; unfold Shell1.addOption, Shell2.addOption; apply Hread; intros l s1 o1; cbv zeta;
    (destruct (nonempty (cleanNewline l)); [|intros [= <- _ _]; lia]);
    destruct (strtok " "%char (cleanNewline l)) as [[p|] r]; try done.
  - intros H. eapply Happ; [|exact H]. done.
  - destruct (collect_amp _ _ r true) as [[ws b]|]; [|done]. intros H. eapply Happ; [|exact H]. done.
Qed.

Lemma mc_added_command_witness :
  match Shell1.addOption (at_menu ("cat x" +:+ nl)) with
  | Done i s' _ => i = 3 ∧ build_args i s' = Undef
  | _ => False
  end.
Proof.
  destruct (Shell1.addOption (at_menu ("cat x" +:+ nl))) as [i s' o| |] eqn:E; [|by vm_compute in E..].
  assert (i = 3) as Hi by (by vm_compute in E; injection E as <- _ _).
  split; [done|]. apply (mc_added_command (at_menu ("cat x" +:+ nl)) s' i o); [by left|lia].
Defined.

Lemma letter_digit c : isdigit c = true → Shell1.letter c = None ∧ Shell2.letter c = None.
Proof.
  intros H. unfold Shell1.letter, Shell2.letter. repeat (case_decide; [by subst|]). done.
Qed.

Lemma pretty_choice (z : Z) : 0 ≤ z ≤ 32 → (String.length (pretty z) ≤ 198)%nat.
Proof.
  intros Hz. assert (forallb (λ z : Z, String.length (pretty z) <=? 198)%nat (seqZ 0 33) = true) as H by (by vm_compute).
  rewrite forallb_forall in H. apply Nat.leb_le, H, list_elem_of_In, elem_of_seqZ. lia.
Qed.

(** What the two versions make of a number. *)
Lemma decode_number size (z : Z) : 0 ≤ z ≤ INT_MAX →
  Shell1.decode_option size (pretty z +:+ nl) = Some (if z <=? size then z else -1) ∧
  Shell2.decode_option size (pretty z +:+ nl) = Some (if z <? size then z else -1).
Proof.
  intros Hz. assert (atoi (pretty z +:+ nl) = Some z) as Ha by (apply atoi_pretty; [done|unfold INT_MIN; lia]).
  assert (∃ c t, pretty z +:+ nl = String c t ∧ isdigit c = true) as (c & t & E & Hc).
  { destruct z as [|p|p]; [by eexists _, _| |lia]. apply (pretty_N_head (N.pos p)). }
  unfold Shell1.decode_option, Shell2.decode_option. rewrite E in *. destruct (letter_digit c Hc) as [-> ->].
  rewrite Hc, Ha. cbn. by destruct (Z.leb_spec 0 z); [|lia].
Qed.

Lemma prompt_done s : (∃ o, Shell1.prompt s = Done tt s o) ∧ (∃ o, Shell2.prompt s = Done tt s o).
Proof.
  split; eexists; unfold Shell1.prompt, Shell2.prompt, get; apply emit_bind; rewrite (reads_bind _ _ _ (cmds s)) by done;
    (eapply bind_done; [apply print_lines_ok|]); (eapply bind_done; [apply print_lines_ok|]); done.
Qed.

(** A number typed at the prompt. *)
Lemma select_number s (z : Z) rest size : stdin s = pretty z +:+ String newline rest → 0 ≤ z ≤ 32 →
  Shell1.selectOption size s = Done (if z <=? size then z else -1) (set_stdin rest s) [] ∧
  Shell2.selectOption size s = Done (if z <? size then z else -1) (set_stdin rest s) [].
Proof.
  intros E Hz. pose proof (pretty_choice z Hz) as Hlen.
  destruct (decode_number size z) as [H1 H2]; [unfold INT_MAX; lia|].
  assert (fgets (Z.to_nat MAX_IN_LENGTH) (stdin s) = Some (mkFgets (pretty z +:+ nl) rest false)) as Hf.
  { rewrite E. change (Z.to_nat MAX_IN_LENGTH) with 200%nat. apply fgets_full; [|lia]. by apply pretty_Z_no_char. }
  unfold Shell1.selectOption, Shell2.selectOption, get.
  rewrite !(reads_bind _ _ _ (Some (mkFgets (pretty z +:+ nl) rest false))) by (by rewrite Hf).
  unfold mbind, M_bind, put, modifies, reads. cbn [fg_rest fg_eof fg_line]. by rewrite H1, H2.
Qed.

(** In v1 the number after the last entry of the menu is accepted: choosing it reads
    an entry of the menu that was never written.  v2 answers that the choice is
    invalid. *)
Theorem mc_choice_after_last (s : shell) (rest : string) (os1 : nat → Shell1.exec_result)
    (os2 : nat → Shell2.exec_result) (os_chdir : string → string → string) :
  stdin s = pretty (zlen (cmds s)) +:+ String newline rest → zlen (cmds s) ≤ MAX_OPTIONS →
  Shell1.iteration os1 os_chdir s = Undef ∧
  ∃ o, Shell2.iteration os2 os_chdir s = Done false (set_stdin rest s) (o ++ [Line "Invalid choice."]).
Proof.
  intros E Hn. destruct (prompt_done s) as [[o1 P1] [o2 P2]]. assert (0 ≤ zlen (cmds s)) as H0 by (unfold zlen; lia).
  destruct (select_number s (zlen (cmds s)) rest (zlen (cmds s)) E) as [S1 S2]; [unfold MAX_OPTIONS in Hn; lia|].
  rewrite Z.leb_refl in S1. rewrite Z.ltb_irrefl in S2. split.
  - unfold Shell1.iteration, mbind, M_bind, get, reads. rewrite P1, S1.
    assert (Shell1.dispatch os1 os_chdir (zlen (cmds s)) (set_stdin rest s) = Undef) as ->; [|done].
    unfold Shell1.dispatch, OPT_A, OPT_C, OPT_E, OPT_P.
    repeat match goal with |- context [?a =? ?b] => destruct (Z.eqb_spec a b); [lia|] end.
    unfold build_args, mbind, M_bind, reads. cbn [cmds set_stdin].
    assert (zget (cmds s) (zlen (cmds s)) = None) as ->; [|done]. apply zget_None. lia.
  - exists o2. unfold Shell2.iteration. eapply bind_done; [exact P2|]. unfold get.
    rewrite (reads_bind _ _ _ (zlen (cmds s))) by done. by rewrite (bind_silent _ _ _ _ _ S2).
Qed.

Lemma mc_choice_after_last_witness :
  Shell1.iteration (λ _, Shell1.mkExec 1 (mkTime 0 0) (mkTime 0 0) (mkUsage 0 0)) (λ d _, d)
    (at_menu ("3" +:+ nl)) = Undef.
Proof.
  apply (mc_choice_after_last (at_menu ("3" +:+ nl)) "" _ (λ _, Shell2.mkExec (mkTime 0 0) 1 []) (λ d _, d)).
  - by vm_compute.
  - vm_compute. discriminate.
Defined.

(** The elapsed time the shells print is the true time between the two clock
    readings to within one millisecond, also when the microseconds (nanoseconds in
    v0) of the second reading are smaller. *)
Theorem mc_elapsed (a b : timeval) (x y : timespec) :
  (let us t := tv_sec t * 1000000 + tv_usec t in
   Z.abs (1000 * elapsed a b - (us b - us a)) < 1000) ∧
  (let ns t := ts_sec t * 1000000000 + ts_nsec t in
   Z.abs (1000000 * Shell0.elapsed x y - (ns y - ns x)) < 1000000).
Proof.
  unfold elapsed, Shell0.elapsed. cbv zeta.
  pose proof (Z.quot_rem' (tv_usec b - tv_usec a) 1000) as H1.
  pose proof (Z.rem_bound_abs (tv_usec b - tv_usec a) 1000 ltac:(lia)) as H2.
  pose proof (Z.quot_rem' (ts_nsec y - ts_nsec x) 1000000) as H3.
  pose proof (Z.rem_bound_abs (ts_nsec y - ts_nsec x) 1000000 ltac:(lia)) as H4. lia.
Qed.

(** ** Background jobs *)

(** C5. Job numbers: whatever commands are in the menu, blocking or not, in every state
    the two threads of v2 can reach when an iteration of the main loop and a report of
    the wait thread do not overlap, the live background processes have the numbers
    [1 .. jobCounter - 1], each once, and the menu entry [r] finds an entry for each of
    them.  The menu at the start is arbitrary because the three default commands block
    and running one made by [addOption] reads its dangling array ([mc_added_command]).
    (What overlapping does is in [Shell2RaceProps].) *)
Theorem mc2_jobs (os : nat → Shell2.exec_result) (os_chdir : string → string → string)
    (menu : list cmd) (input dir : string) (s : shell) :
  (∀ n, Shell2.forked (os n) ≠ 0) → (∀ n e, e ∈ reported (os n) → w_pid e ≠ 0) →
  rtc (step os os_chdir) (set_cmds menu (startup input dir)) s →
  jobnum <$> live (processes s) ≡ₚ seqZ 1 (jobCounter s - 1) ∧
  ∃ o, running_processes s = Done tt s o.
Proof.
  intros Hf Hw H. pose proof (reachable_inv os os_chdir Hf Hw menu input dir s H) as Hinv.
  split; [apply Hinv|by apply running_defined].
Qed.

(** A system that starts processes 10, 11, ... *)
Definition spawner : nat → Shell2.exec_result := λ n, Shell2.mkExec (mkTime 0 0) (10 + Z.of_nat n) [].

(** A menu with one command, which runs in the background. *)
Definition background_menu : list cmd :=
  [mkCmd "./seymour" "seymour" "Runs in the background." "-- seymour --" NoDefArgs false false false].

(** The user starts it three times and the first process ends. *)
Definition jobs_run : option shell :=
  let start s := match Shell2.iteration spawner (λ d _, d) s with Done false s' _ => Some s' | _ => None end in
  s1 ← start (set_cmds background_menu (startup ("0" +:+ nl +:+ "0" +:+ nl +:+ "0" +:+ nl) "/"));
  s2 ← start s1;
  s3 ← start s2;
  match waitThread (mkWait 10 (mkTime 1 0) (mkUsage 0 0)) s3 with Done _ s' _ => Some s' | _ => None end.

Lemma jobs_run_reached :
  match jobs_run with
  | Some s => rtc (step spawner (λ d _, d))
                (set_cmds background_menu (startup ("0" +:+ nl +:+ "0" +:+ nl +:+ "0" +:+ nl) "/")) s
  | None => True
  end.
Proof.
  unfold jobs_run. set (s0 := set_cmds _ _).
  destruct (Shell2.iteration spawner _ s0) as [[] s1 o1| |] eqn:E1; try done. cbn [mbind option_bind].
  destruct (Shell2.iteration spawner _ s1) as [[] s2 o2| |] eqn:E2; try done. cbn [mbind option_bind].
  destruct (Shell2.iteration spawner _ s2) as [[] s3 o3| |] eqn:E3; try done. cbn [mbind option_bind].
  destruct (waitThread _ s3) as [[] s4 o4| |] eqn:E4; try done.
  eapply rtc_l; [by eapply S_main|]. eapply rtc_l; [by eapply S_main|]. eapply rtc_l; [by eapply S_main|].
  apply rtc_once. by eapply S_wait.
Qed.

Lemma jobs_run_computed :
  (λ s, ((λ p, (pid p, jobnum p)) <$> live (processes s), jobCounter s)) <$> jobs_run = Some ([(11, 1); (12, 2)], 3).
Proof. by vm_compute. Qed.

Lemma mc2_jobs_witness :
  ∃ s, (λ p, (pid p, jobnum p)) <$> live (processes s) = [(11, 1); (12, 2)] ∧ jobCounter s = 3 ∧
    jobnum <$> live (processes s) ≡ₚ seqZ 1 2 ∧ ∃ o, running_processes s = Done tt s o.
Proof.
  pose proof jobs_run_reached as Hr. pose proof jobs_run_computed as Hc.
  destruct jobs_run as [s|]; [|done]. injection Hc as Hl Hj. exists s. split; [done|]. split; [done|].
  change 2 with (3 - 1). rewrite <-Hj.
  apply (mc2_jobs spawner (λ d _, d) background_menu ("0" +:+ nl +:+ "0" +:+ nl +:+ "0" +:+ nl) "/");
    [unfold spawner; cbn; lia| |exact Hr].
  intros n e He. by apply elem_of_nil in He.
Defined.

(** Two background jobs, processes 10 and 11, and then the end of the first. *)
Definition two_jobs : prog unit :=
  _ ← run_background spawner ["./seymour"];
  _ ← run_background spawner ["./seymour"];
  waitThread (mkWait 10 (mkTime 1 0) (mkUsage 0 0)).

(** The list of running processes can show a process that has ended: an entry whose
    process ended keeps its job number, and [findJobnum] takes the first entry with
    the number.  After two jobs were started and the first ended, the only running
    process, 11, is job 1, but the list shows process 0. *)
Theorem mc2_stale_job :
  match two_jobs (startup "" "/") with
  | Done _ s _ =>
      (λ p, (pid p, jobnum p)) <$> live (processes s) = [(11, 1)] ∧
      running_processes s = Done tt s [Line "-- Running Processes --"; Line "[1] Process ID: 0"]
  | _ => False
  end.
Proof. by vm_compute. Qed.
