(* ===== verification/ShellSession.v ===== *)
(** * A whole session of v1

    What the shell does with the lines a user types, from the start of the program to
    its exit: the programs it runs with their arguments, the menu and the working
    directory at the end. *)

From S2P Require Import Prelude CString Shell0 Shell Shell1 ShellWords ShellInput ShellJobs ShellProps.
From Stdlib Require Import Ascii.

(** ** What the user asks for *)

Inductive request : Type :=
  | RWhoami
  | RLast
  | RLs (flags dir : string)       (* with the answers to the two questions *)
  | RAdd (line : string)
  | RCd (dir : string)
  | RPwd
  | RJunk (line : string).         (* not an entry of the menu *)

(** A line and the newline that ends it, before [rest]. *)
Definition enter (l rest : string) : string := l +:+ String newline rest.

(** What is typed for a request. *)
Definition typed (r : request) (rest : string) : string :=
  match r with
  | RWhoami => enter "0" rest
  | RLast => enter "1" rest
  | RLs flags dir => enter "2" (enter flags (enter dir rest))
  | RAdd line => enter "a" (enter line rest)
  | RCd dir => enter "c" (enter dir rest)
  | RPwd => enter "p" rest
  | RJunk line => enter line rest
  end.

(** A line that the buffers hold. *)
Definition line_ok (n : nat) (l : string) : Prop := ¬ has_char newline l ∧ (String.length l ≤ n)%nat.

(** The entry [addOption] makes of a line that has a word. *)
Definition added (line : string) : option cmd :=
  match strtok " "%char line with
  | (Some p, rest) =>
      Some (mkCmd p line "A user generated command." (header line)
              (DeadArray (collect (Z.to_nat (MAX_DEF_ARGS - 1)) rest)) false false true)
  | (None, _) => None
  end.

(** The requests v1 can serve in a state: the lines fit, a command to add is not blank
    and the menu has room for it, the directory to print fits, and junk starts with
    neither a letter of the menu nor a digit. *)
Definition can_serve (s : shell) (r : request) : Prop :=
  match r with
  | RWhoami | RLast => True
  | RLs flags dir => line_ok 198 flags ∧ line_ok 198 dir
  | RAdd line => line_ok 192 line ∧ (line = "" ∨ is_Some (added line) ∧ zlen (cmds s) < MAX_OPTIONS)
  | RCd dir => line_ok 198 dir
  | RPwd => Z.of_nat (String.length (cwd s)) < MAX_DIR_LENGTH
  | RJunk line =>
      line_ok 198 line ∧
      match line with EmptyString => True | String c _ => letter c = None ∧ isdigit c = false end
  end.

(** The argument vector to run. *)
Definition wanted_argv (r : request) : option (list string) :=
  match r with
  | RWhoami => Some ["whoami"]
  | RLast => Some ["last"]
  | RLs flags dir => Some ("ls" :: take 38 (words flags) ++ if nonempty dir then [dir] else [])
  | _ => None
  end.

Section session.
Context (os : nat → exec_result) (os_chdir : string → string → string).

(** The state after a request. *)
Definition served (r : request) (s : shell) : shell :=
  match r with
  | RWhoami | RLast | RLs _ _ => set_forks (S (forks s)) s
  | RAdd line => match added line with Some c => set_cmds (cmds s ++ [c]) s | None => s end
  | RCd dir => set_cwd (os_chdir (cwd s) dir) s
  | RPwd | RJunk _ => s
  end.

(** What runs: the argument vector, if [fork] number [n] succeeds. *)
Definition runs (r : request) (n : nat) : list (list string) :=
  match wanted_argv r with Some a => if forked (os n) =? -1 then [] else [a] | None => [] end.

(** The same for a list of requests. *)
Fixpoint can_serve_all (s : shell) (rs : list request) : Prop :=
  match rs with [] => True | r :: rs' => can_serve s r ∧ can_serve_all (served r s) rs' end.
Fixpoint served_all (rs : list request) (s : shell) : shell :=
  match rs with [] => s | r :: rs' => served_all rs' (served r s) end.
Fixpoint runs_all (rs : list request) (s : shell) : list (list string) :=
  match rs with [] => [] | r :: rs' => runs r (forks s) ++ runs_all rs' (served r s) end.
Fixpoint typed_all (rs : list request) (rest : string) : string :=
  match rs with [] => rest | r :: rs' => typed r (typed_all rs' rest) end.

(** The programs that ran, from the output. *)
Definition executed (o : list msg) : list (list string) :=
  omap (λ m, match m with Exec a => Some a | _ => None end) o.

Lemma executed_app o o' : executed (o ++ o') = executed o ++ executed o'.
Proof. apply omap_app. Qed.
Lemma executed_lines l : executed (Line <$> l) = [].
Proof. induction l as [|x l IH]; [done|]. exact IH. Qed.

Lemma executed_line x o : executed (Line x :: o) = executed o.
Proof. done. Qed.
Lemma executed_ask x o : executed (Ask x :: o) = executed o.
Proof. done. Qed.
Lemma executed_exec a o : executed (Exec a :: o) = a :: executed o.
Proof. done. Qed.

(** ** Reading *)

Lemma read_room n l r s : stdin s = enter l r → line_ok n l → (n + 1 < 200)%nat → ∀ room, (n + 1 < room)%nat →
  read_buf (Z.to_nat MAX_IN_LENGTH) room s = Done (enter l "") (set_stdin r s) [].
Proof.
  intros E [Hl Hlen] Hn room Hr. change (Z.to_nat MAX_IN_LENGTH) with 200%nat. unfold read_buf, get.
  rewrite (reads_bind _ _ _ (Some (mkFgets (enter l "") r false))) by (by rewrite E; unfold enter; rewrite fgets_full by (done || lia)).
  unfold mbind, M_bind, put, modifies. cbn [fg_rest fg_line].
  rewrite decide_True; [done|]. unfold enter. rewrite strlen_app. cbn. lia.
Qed.

Lemma clean_enter l r : ¬ has_char newline l → cleanNewline (enter l r) = l.
Proof. apply cleanNewline_line. Qed.

Lemma select_line s l rest size o : stdin s = enter l rest → line_ok 198 l →
  decode_option size (enter l "") = Some o → selectOption size s = Done o (set_stdin rest s) [].
Proof.
  intros E [Hl Hlen] Hd.
  assert (fgets (Z.to_nat MAX_IN_LENGTH) (stdin s) = Some (mkFgets (enter l "") rest false)) as Hf.
  { rewrite E. change (Z.to_nat MAX_IN_LENGTH) with 200%nat. apply fgets_full; [done|lia]. }
  unfold selectOption, get. rewrite (reads_bind _ _ _ (Some (mkFgets (enter l "") rest false))) by (by rewrite Hf).
  unfold mbind, M_bind, put, modifies, reads. cbn [fg_rest fg_eof fg_line]. by rewrite Hd.
Qed.

(** An iteration is the prompt, the choice and its effect. *)
Lemma iteration_choice s l rest o : stdin s = enter l rest → line_ok 198 l →
  decode_option (zlen (cmds s)) (enter l "") = Some o →
  ∀ fin s' out, dispatch os os_chdir o (set_stdin rest s) = Done fin s' out →
  ∃ out', iteration os os_chdir s = Done fin s' out' ∧ executed out' = executed out.
Proof.
  intros E Hl Hd fin s' out Hdisp. destruct (prompt_done s) as [[o1 P1] _].
  exists (o1 ++ out). split.
  - unfold iteration. eapply bind_done; [exact P1|]. unfold get. rewrite (reads_bind _ _ _ (zlen (cmds s))) by done.
    by rewrite (bind_silent _ _ _ _ _ (select_line s l rest _ o E Hl Hd)).
  - rewrite executed_app. assert (executed o1 = []) as ->; [|done]. revert P1. unfold prompt, get.
    unfold mbind, M_bind, emit, reads. rewrite !print_lines_ok. intros [= <-].
    cbn [app]. by repeat rewrite ?executed_line, ?executed_ask, ?executed_app, ?executed_lines.
Qed.

(** ** The requests *)

(** The menu starts with the default commands. *)
Definition menu_ok (s : shell) : Prop := ∃ extra, cmds s = default_cmds ++ extra.

Lemma menu_size s : menu_ok s → 3 ≤ zlen (cmds s).
Proof. intros [extra ->]. unfold zlen. rewrite length_app. change (length default_cmds) with 3%nat. lia. Qed.

Lemma menu_entry s i c : menu_ok s → 0 ≤ i → zget default_cmds i = Some c → zget (cmds s) i = Some c.
Proof.
  intros [extra ->] Hi. unfold zget. rewrite !decide_True by done. intros E. by apply lookup_app_l_Some.
Qed.

Lemma choose_number s (z : Z) : menu_ok s → 0 ≤ z ≤ 2 → decode_option (zlen (cmds s)) (enter (pretty z) "") = Some z.
Proof.
  intros Hm%menu_size Hz. destruct (decode_number (zlen (cmds s)) z) as [H _]; [unfold INT_MAX; lia|].
  change (enter (pretty z) "") with (pretty z +:+ nl). rewrite H. by destruct (Z.leb_spec z (zlen (cmds s))); [|lia].
Qed.

Lemma dispatch_run o s c argv s1 out : 0 ≤ o → build_args o s = Done (c, argv) s1 out → executed out = [] →
  ∃ out', dispatch os os_chdir o s = Done false (set_forks (S (forks s1)) s1) out' ∧
    executed out' = if forked (os (forks s1)) =? -1 then [] else [argv].
Proof.
  intros Ho Hb Hout. unfold dispatch, OPT_A, OPT_C, OPT_E, OPT_P.
  repeat match goal with |- context [?a =? ?b] => destruct (Z.eqb_spec a b); [lia|] end.
  unfold mbind, M_bind at 1. rewrite Hb. unfold executeCommand, get, put, M_bind, mbind, reads, modifies, emit, M_bind.
  destruct (forked (os (forks s1)) =? -1).
  - eexists. split; [done|]. by rewrite executed_app, Hout.
  - rewrite print_lines_ok. eexists. split; [done|]. rewrite executed_app, Hout. cbn [app].
    rewrite executed_exec. by rewrite !executed_app, !executed_lines.
Qed.

(** A command that asks for nothing. *)
Lemma build_plain s i c : zget (cmds s) i = Some c → defArgs c = NoDefArgs → args c = false → argPath c = false →
  build_args i s = Done (c, [path c]) s [Line ""; Line (head c)].
Proof.
  intros Hc Hd Ha Hp. unfold build_args, unpack_def_args, user_args, path_arg.
  rewrite (reads_bind _ _ _ c) by done. by rewrite Hd, Ha, Hp.
Qed.

Lemma line_ok_letter c n : c ≠ newline → (1 ≤ n)%nat → line_ok n (String c "").
Proof. intros Hc Hn. split; [cbn; tauto|cbn; lia]. Qed.

Lemma serve_command r (z : Z) s rest c argv out : menu_ok s → 0 ≤ z ≤ 2 → stdin s = enter (pretty z) rest →
  wanted_argv r = Some argv → ∀ rest', build_args z (set_stdin rest s) = Done (c, argv) (set_stdin rest' s) out →
  executed out = [] →
  ∃ o, iteration os os_chdir s = Done false (set_forks (S (forks s)) (set_stdin rest' s)) o ∧ executed o = runs r (forks s).
Proof.
  intros Hm Hz E Hr rest' Hb Ho.
  destruct (dispatch_run z _ c argv (set_stdin rest' s) out ltac:(lia) Hb Ho) as (out' & Hd & He).
  assert (line_ok 198 (pretty z)) as Hl by (split; [by apply pretty_Z_no_char|apply pretty_choice; lia]).
  destruct (iteration_choice s (pretty z) rest z E Hl (choose_number s z Hm Hz) _ _ _ Hd) as (o & Hi & Hx).
  exists o. split; [exact Hi|]. rewrite Hx, He. unfold runs. by rewrite Hr.
Qed.

(** A letter of the menu. *)
Lemma serve_letter r c o s rest : stdin s = enter (String c "") rest → letter c = Some o → c ≠ newline →
  ∀ s' out, dispatch os os_chdir o (set_stdin rest s) = Done false s' out → executed out = runs r (forks s) →
  ∃ o, iteration os os_chdir s = Done false s' o ∧ executed o = runs r (forks s).
Proof.
  intros E Hl Hc s' out Hd Ho.
  destruct (iteration_choice s (String c "") rest o E (line_ok_letter c 198 Hc ltac:(lia))
    ltac:(change (enter (String c "") "") with (String c nl); unfold decode_option; by rewrite Hl) _ _ _ Hd) as (o' & Hi & Hx).
  exists o'. split; [done|]. congruence.
Qed.

Lemma dispatch_add line rest s : stdin s = enter line rest → can_serve s (RAdd line) →
  ∃ out, dispatch os os_chdir OPT_A s = Done false (served (RAdd line) (set_stdin rest s)) out ∧ executed out = [].
Proof.
  intros E [Hl Hadd]. unfold dispatch. rewrite Z.eqb_refl. change (OPT_A =? -1) with false. cbv iota.
  unfold addOption. unfold mbind, M_bind, emit.
  rewrite (read_room 192 line rest s E Hl ltac:(lia) (Z.to_nat (MAX_IN_LENGTH - 6)) ltac:(vm_compute; lia)).
  cbv zeta. rewrite clean_enter by apply Hl. destruct Hadd as [->|[[c Hc] Hroom]].
  - cbn. eexists. split; [reflexivity|done].
  - unfold served, added in *. destruct (strtok " "%char line) as [[w|] r] eqn:Es; [|done].
    destruct line as [|x line]; [done|]. cbn [nonempty]. unfold appendOption, get, put, mbind, M_bind, reads, modifies.
    cbn [cmds set_stdin]. destruct (Z.ltb_spec (zlen (cmds s)) MAX_OPTIONS); [|lia].
    cbn. eexists. split; [reflexivity|done].
Qed.

Lemma serve_one r s rest : menu_ok s → can_serve s r → stdin s = typed r rest →
  ∃ o, iteration os os_chdir s = Done false (served r (set_stdin rest s)) o ∧ executed o = runs r (forks s).
Proof.
  intros Hm Hok E. destruct r as [| |flags dir|line|dir| |line]; cbn [typed] in E.
  - pose proof (build_plain (set_stdin rest s) 0 (mkCmd "whoami" "whoami" "Prints out the result of the 'whoami' command."
      "-- Who am I? --" NoDefArgs false false true) (menu_entry s 0 _ Hm ltac:(lia) eq_refl) eq_refl eq_refl eq_refl) as Hb.
    by eapply (serve_command RWhoami 0 s rest); [done|lia|exact E|reflexivity|exact Hb|].
  - pose proof (build_plain (set_stdin rest s) 1 (mkCmd "last" "last" "Prints out the result of the 'last' command."
      "-- Last logins --" NoDefArgs false false true) (menu_entry s 1 _ Hm ltac:(lia) eq_refl) eq_refl eq_refl eq_refl) as Hb.
    by eapply (serve_command RLast 1 s rest); [done|lia|exact E|reflexivity|exact Hb|].
  - destruct Hok as [[Hf1 Hf2] [Hd1 Hd2]]. set (s1 := set_stdin (enter flags (enter dir rest)) s).
    destruct (mc_build_args s1 2 (mkCmd "ls" "ls" "Prints out the result of the 'ls' command." "-- Directory listing --"
      NoDefArgs true true true) flags dir rest) as [Hb _]; try done; [by apply (menu_entry s)|].
    by eapply (serve_command (RLs flags dir) 2 s (enter flags (enter dir rest))); [done|lia|exact E|reflexivity|exact Hb|].
  - destruct (dispatch_add line rest (set_stdin (enter line rest) s) eq_refl Hok) as (out & Hd & Ho).
    by eapply (serve_letter (RAdd line)); [exact E|done|done|exact Hd|].
  - eapply (serve_letter (RCd dir)); [exact E|done|done| |].
    + unfold dispatch. change (OPT_C =? -1) with false. change (OPT_C =? OPT_A) with false. rewrite Z.eqb_refl. cbv iota.
      unfold change_directory, mbind, M_bind, emit.
      rewrite (read_room 198 dir rest (set_stdin (enter dir rest) s) eq_refl Hok ltac:(lia) (Z.to_nat MAX_IN_LENGTH) ltac:(vm_compute; lia)).
      unfold put, modifies. rewrite clean_enter by apply Hok. reflexivity.
    + done.
  - cbn in Hok. eapply (serve_letter RPwd); [exact E|done|done| |].
    + unfold dispatch, print_directory, mbind, M_bind, get, reads. cbn [cwd set_stdin].
      change (OPT_P =? -1) with false. change (OPT_P =? OPT_A) with false. change (OPT_P =? OPT_C) with false.
      change (OPT_P =? OPT_E) with false. rewrite Z.eqb_refl. cbv iota.
      change (cwd (set_stdin rest s)) with (cwd s). rewrite (proj2 (Z.ltb_lt _ _) Hok). reflexivity.
    + done.
  - destruct Hok as [Hl Hj]. assert (decode_option (zlen (cmds s)) (enter line "") = Some (-1)) as Hd.
    { destruct line as [|c line]; [done|]. destruct Hj as [H1 H2]. change (enter (String c line) "") with (String c (enter line "")).
      unfold decode_option. by rewrite H1, H2. }
    destruct (iteration_choice s line rest (-1) E Hl Hd false (set_stdin rest s) [Line "Invalid choice."] eq_refl)
      as (o & Hi & Hx). by exists o.
Qed.

Lemma served_menu r s : menu_ok s → menu_ok (served r s).
Proof.
  intros [extra E]. destruct r as [| |flags dir|line|dir| |line]; cbn; try by exists extra.
  destruct (added line) as [c|]; [|by exists extra]. exists (extra ++ [c]). change (cmds (set_cmds (cmds s ++ [c]) s)) with (cmds s ++ [c]). by rewrite E, <-app_assoc.
Qed.

Lemma served_stdin r rest s : served r (set_stdin rest s) = set_stdin rest (served r s).
Proof. destruct r; try done. cbn. by destruct (added line). Qed.
Lemma can_serve_stdin rest s r : can_serve (set_stdin rest s) r ↔ can_serve s r.
Proof. by destruct r. Qed.

(** ** The loop *)

Lemma can_serve_all_stdin rest s rs : can_serve_all (set_stdin rest s) rs ↔ can_serve_all s rs.
Proof.
  revert s. induction rs as [|r rs IH]; intros s; [done|]. cbn [can_serve_all].
  by rewrite can_serve_stdin, served_stdin, IH.
Qed.
Lemma served_all_stdin rest s rs : served_all rs (set_stdin rest s) = set_stdin rest (served_all rs s).
Proof. revert s. induction rs as [|r rs IH]; intros s; [done|]. cbn [served_all]. by rewrite served_stdin, IH. Qed.
Lemma runs_all_stdin rest s rs : runs_all rs (set_stdin rest s) = runs_all rs s.
Proof. revert s. induction rs as [|r rs IH]; intros s; [done|]. cbn [runs_all]. by rewrite served_stdin, IH. Qed.

Lemma loop_serves rs : ∀ fuel s rest, (length rs < fuel)%nat → menu_ok s → can_serve_all s rs →
  stdin s = typed_all rs (enter "e" rest) →
  ∃ o, loop os os_chdir fuel s = Done tt (set_stdin rest (served_all rs s)) o ∧ executed o = runs_all rs s.
Proof.
  induction rs as [|r rs IH]; intros fuel s rest Hf Hm Hok E; (destruct fuel as [|fuel]; [cbn in Hf; lia|]); cbn [loop].
  - destruct (iteration_choice s "e" rest OPT_E E (line_ok_letter "e" 198 ltac:(done) ltac:(lia)) eq_refl
      true (set_stdin rest s) [] eq_refl) as (o & Hi & Hx). exists (o ++ []). split; [by apply (bind_done _ _ _ _ _ _ _ _ _ Hi)|].
    by rewrite app_nil_r.
  - destruct Hok as [Hr Hok]. cbn [typed_all] in E. destruct (serve_one r s _ Hm Hr E) as (o & Hi & Hx).
    rewrite served_stdin in Hi. set (rest' := typed_all rs (enter "e" rest)) in *.
    destruct (IH fuel (set_stdin rest' (served r s)) rest) as (o' & Hl & Hx');
      [cbn in Hf; lia|by apply served_menu|by apply can_serve_all_stdin|done|].
    rewrite served_all_stdin in Hl. rewrite runs_all_stdin in Hx'.
    exists (o ++ o'). split; [by apply (bind_done _ _ _ _ _ _ _ _ _ Hi)|]. by rewrite executed_app, Hx, Hx'.
Qed.

Lemma typed_longer r rest : (String.length rest < String.length (typed r rest))%nat.
Proof. destruct r; cbn [typed]; unfold enter; repeat (rewrite strlen_app; cbn [String.length]); lia. Qed.
Lemma typed_all_longer rs rest : (length rs + String.length rest ≤ String.length (typed_all rs rest))%nat.
Proof.
  induction rs as [|r rs IH]; [done|]. cbn [typed_all length]. pose proof (typed_longer r (typed_all rs rest)). lia.
Qed.
End session.

(** The shell when its loop starts. *)
Definition opened (dir : string) : shell := set_cmds default_cmds (fresh "" dir).

(** C33. A session of v1: when the user types requests the shell can serve and then [e],
    [main] returns 0 having read exactly those lines; it has run, in order, exactly the
    requested programs with the arguments asked for (those for which [fork] succeeded),
    and the menu, the working directory and the number of forks are what the requests
    make of them.  Requests the shell can serve are the default commands, adding a
    command that is not blank while there is room, changing and printing the directory,
    and lines that choose nothing; running a command that was added is undefined. *)
Theorem mc1_session (os : nat → exec_result) (os_chdir : string → string → string) (rs : list request)
    (rest dir : string) :
  can_serve_all os_chdir (opened dir) rs →
  ∃ o, session os os_chdir (typed_all rs (enter "e" rest)) dir =
         Done 0 (set_stdin rest (served_all os_chdir rs (opened dir))) o ∧
    executed o = runs_all os os_chdir rs (opened dir).
Proof.
  intros Hok. set (input := typed_all rs (enter "e" rest)). unfold session, main.
  assert (append_defaults default_cmds (fresh input dir) = Done true (set_stdin input (opened dir)) []) as E by done.
  destruct (loop_serves os os_chdir rs (S (String.length input)) (set_stdin input (opened dir)) rest) as (o & Hl & Hx);
    [pose proof (typed_all_longer rs (enter "e" rest)); subst input; lia|by exists []|by apply can_serve_all_stdin|done|].
  rewrite served_all_stdin in Hl. rewrite runs_all_stdin in Hx.
  rewrite (bind_silent _ _ _ _ _ E). eexists. split.
  - eapply bind_done; [done|]. eapply bind_done; [exact Hl|]. by eapply bind_done.
  - cbn [app]. by rewrite executed_line, executed_app, Hx, executed_line, app_nil_r.
Qed.

Definition busy_day : list request :=
  [RWhoami; RAdd "cat notes"; RLs "-l  -a" "/tmp"; RJunk "?"; RCd "/home"; RPwd; RLast].

Lemma mc1_session_witness :
  let os n := mkExec (if decide (n = 2%nat) then -1 else 5) (mkTime 0 0) (mkTime 1 0) (mkUsage 0 0) in
  ∃ s o, session os (λ _ d, d) (typed_all busy_day (enter "e" "more")) "/" = Done 0 s o ∧
    executed o = [["whoami"]; ["ls"; "-l"; "-a"; "/tmp"]] ∧
    cwd s = "/home" ∧ path <$> cmds s = ["whoami"; "last"; "ls"; "cat"] ∧ forks s = 3%nat ∧ stdin s = "more".
Proof.
  intros os. destruct (mc1_session os (λ _ d, d) busy_day "more" "/") as (o & Hs & Ho).
  - clear os. split_and!; try done; try (vm_compute; naive_solver lia).
  - eexists _, o. split; [exact Hs|]. split; [rewrite Ho; vm_compute; reflexivity|]. clear Hs Ho. split_and!; vm_compute; reflexivity.
Defined.
