(* ===== verification/Interceptor.v ===== *)
(** * The system call interceptor (Project2/module/mod.c)

    The module replaces entries of the system call table while it is loaded.  An
    address is a number; the kernel's own functions, the memory it searches and the
    current user are arguments.  The table is in read-only memory: a write faults
    while bit 16 of cr0 is set. *)

From S2P Require Import Prelude CString.
From Stdlib Require Import Ascii.

(** ** State *)

Record kernel : Type := mkKernel {
  mem : Z → Z;                       (* the words of memory, by address *)
  cr0 : Z;
  sys_call_table : option Z;         (* the pointer the module keeps; [None] is NULL *)
  ref_syscall1 : Z;
  ref_syscall2 : Z;
  ref_open : Z;
  ref_close : Z;
  ref_read : Z;
}.

Inductive msg : Type :=
  | Found (address : Z)
  | Loaded
  | Unloaded
  | Goodbye
  | Opening (uid code : Z) (filename : string)
  | Closing (uid fd : Z)
  | Malicious (uid fd : Z).

Abbreviation prog := (M msg kernel).

Definition set_mem (f : Z → Z) (k : kernel) : kernel :=
  mkKernel f (cr0 k) (sys_call_table k) (ref_syscall1 k) (ref_syscall2 k) (ref_open k) (ref_close k) (ref_read k).
Definition set_cr0 (c : Z) (k : kernel) : kernel :=
  mkKernel (mem k) c (sys_call_table k) (ref_syscall1 k) (ref_syscall2 k) (ref_open k) (ref_close k) (ref_read k).
Definition set_table (t : option Z) (k : kernel) : kernel :=
  mkKernel (mem k) (cr0 k) t (ref_syscall1 k) (ref_syscall2 k) (ref_open k) (ref_close k) (ref_read k).
Definition set_refs (a b c d e : Z) (k : kernel) : kernel :=
  mkKernel (mem k) (cr0 k) (sys_call_table k) a b c d e.

(** The size of a pointer, the numbers of the system calls and the addresses of the
    functions depend on the kernel the module is built for. *)
Record build : Type := mkBuild {
  word : Z;
  PAGE_OFFSET : Z;
  NR_syscall1 : Z;
  NR_syscall2 : Z;
  NR_open : Z;
  NR_close : Z;
  NR_read : Z;
  sys_close : Z;
  new_syscall1 : Z;
  new_syscall2 : Z;
  new_open : Z;
  new_close : Z;
  new_read : Z;
}.

Section module.
Context (b : build).

(** The address of entry [n] of a table at [t]. *)
Definition entry (t n : Z) : Z := t + n * word b.

(** ** Finding the table *)

Definition ULLONG_MAX : Z := 18446744073709551615.

(** [offset] is an [unsigned long]: it wraps around at the size of a pointer. *)
Definition advance (offset : Z) : Z := (offset + word b) mod 2 ^ (8 * word b).

Fixpoint find_from (fuel : nat) (m : Z → Z) (offset : Z) : option (option Z) :=
  match fuel with
  | O => None
  | S fuel' =>
      if offset <? ULLONG_MAX then
        if m (entry offset (NR_close b)) =? sys_close b then Some (Some offset)
        else find_from fuel' m (advance offset)
      else Some None
  end.

(** The caller takes a table at address 0 for NULL. *)
Definition find_sys_call_table (fuel : nat) : prog (option Z) := λ k,
  match find_from fuel (mem k) (PAGE_OFFSET b) with
  | None => NoFuel
  | Some None => Done None k []
  | Some (Some t) => Done (if t =? 0 then None else Some t) k [Found t]
  end.

(** ** Replacing the entries *)

Definition disable_page_protection : prog unit :=
  modifies (λ k, Some (set_cr0 (Z.land (cr0 k) (Z.lnot 65536)) k)).

Definition enable_page_protection : prog unit :=
  modifies (λ k, Some (set_cr0 (Z.lor (cr0 k) 65536) k)).

(** [sys_call_table[n] = v] *)
Definition write_entry (n v : Z) : prog unit :=
  modifies (λ k,
    t ← sys_call_table k;
    if Z.testbit (cr0 k) 16 then None else Some (set_mem (<[entry t n := v]> (mem k)) k)).

Definition save_refs : prog unit :=
  modifies (λ k,
    t ← sys_call_table k;
    let at_ n := mem k (entry t n) in
    Some (set_refs (at_ (NR_syscall1 b)) (at_ (NR_syscall2 b)) (at_ (NR_open b)) (at_ (NR_close b))
            (at_ (NR_read b)) k)).

Definition interceptor_start (fuel : nat) : prog Z :=
  t ← find_sys_call_table fuel;
  _ ← modifies (λ k, Some (set_table t k));
  match t with
  | None => mret (-1)
  | Some _ =>
      _ ← save_refs;
      _ ← disable_page_protection;
      _ ← write_entry (NR_syscall1 b) (new_syscall1 b);
      _ ← write_entry (NR_syscall2 b) (new_syscall2 b);
      _ ← write_entry (NR_open b) (new_open b);
      _ ← write_entry (NR_close b) (new_close b);
      _ ← write_entry (NR_read b) (new_read b);
      _ ← enable_page_protection;
      _ ← emit Loaded;
      mret 0
  end.

Definition interceptor_end : prog unit :=
  k ← reads (λ k, Some k);
  match sys_call_table k with
  | None => mret tt
  | Some _ =>
      _ ← disable_page_protection;
      _ ← write_entry (NR_syscall1 b) (ref_syscall1 k);
      _ ← write_entry (NR_syscall2 b) (ref_syscall2 k);
      _ ← write_entry (NR_open b) (ref_open k);
      _ ← write_entry (NR_close b) (ref_close k);
      _ ← write_entry (NR_read b) (ref_read k);
      _ ← enable_page_protection;
      emit Unloaded
  end.
End module.

(** ** The new system calls

    The saved original is a function argument: what it returns and, for [read], the
    buffer it leaves. *)

Definition new_sys_cs3013_syscall1 : Z * list msg := (0, [Goodbye]).

Definition new_sys_open (ref_sys_open : string → Z → Z → Z) (uid : Z) (filename : string) (flags mode : Z) :
    Z * list msg :=
  let code := ref_sys_open filename flags mode in
  (code, if (0 <=? code) && (1000 <=? uid) then [Opening uid code filename] else []).

Definition new_sys_close (ref_sys_close : Z → Z) (uid fd : Z) : Z * list msg :=
  ((ref_sys_close fd), if 1000 <=? uid then [Closing uid fd] else []).

(** The inner loop of [contstr]: [key] is what is left of the key at [key[i]], [pos] is
    [tindex + i].  A key that is empty from the start would be read past its end. *)
Fixpoint matches_at (target : list ascii) (tsize pos : Z) (key : list ascii) : option bool :=
  match key with
  | [] =>
      if pos <? tsize then
        c ← zget target pos; if decide (c = "000"%char) then None else Some false
      else Some false
  | k :: key' =>
      if pos <? tsize then
        c ← zget target pos;
        if decide (c = k) then
          match key' with [] => Some true | _ => matches_at target tsize (pos + 1) key' end
        else Some false
      else Some false
  end.

(** The outer loop; [None] is a read outside [target]. *)
Definition contstr (target : list ascii) (tsize : Z) (key : list ascii) : option bool :=
  r ← for_ret (seqZ 0 tsize) (λ tindex,
        m ← matches_at target tsize tindex key; Some (if (m : bool) then Some true else None));
  Some (default false r).

Definition VIRUS : list ascii := ["V"; "I"; "R"; "U"; "S"]%char.

(** [ref_sys_read fd buf count] gives the code and the buffer after the call. *)
Definition new_sys_read (ref_sys_read : Z → list ascii → Z → Z * list ascii) (uid fd : Z) (buf : list ascii)
    (count : Z) : option (Z * list ascii * list msg) :=
  let '(code, buf') := ref_sys_read fd buf count in
  if (1000 <=? uid) && (0 <=? code) then
    m ← contstr buf' count VIRUS;
    Some (code, buf', if (m : bool) then [Malicious uid fd] else [])
  else Some (code, buf', []).
