(* ===== verification/InterceptorProps.v ===== *)
(** * The interceptor and the ancestry call: properties *)

From S2P Require Import Prelude CString Interceptor.
From Stdlib Require Import Ascii.

(** ** The search *)

(** [key] stands at position [pos] of the first [tsize] characters. *)
Definition occurs_at (target : list ascii) (tsize pos : Z) (key : list ascii) : Prop :=
  pos + zlen key ≤ tsize ∧ ∀ j, 0 ≤ j < zlen key → zget target (pos + j) = zget key j.

Lemma zget_cons {A} (x : A) l j : 0 < j → zget (x :: l) j = zget l (j - 1).
Proof.
  intros Hj. unfold zget. rewrite !decide_True by lia.
  replace (Z.to_nat j) with (S (Z.to_nat (j - 1))) by lia. done.
Qed.

Lemma occurs_cons target tsize pos k key :
  occurs_at target tsize pos (k :: key) ↔
  pos < tsize ∧ zget target pos = Some k ∧ (key = [] ∨ occurs_at target tsize (pos + 1) key).
Proof.
  unfold occurs_at. assert (zlen (k :: key) = 1 + zlen key) as -> by (unfold zlen; cbn [length]; lia).
  assert (0 ≤ zlen key) as Hnn by (unfold zlen; lia). split.
  - intros [Hs H]. pose proof (H 0 ltac:(lia)) as H0. rewrite Z.add_0_r in H0.
    split_and!; [lia|by rewrite H0|]. destruct key as [|k' key]; [by left|right]. split; [lia|].
    intros j Hj. specialize (H (j + 1) ltac:(lia)). rewrite (zget_cons k) in H by lia.
    replace (j + 1 - 1) with j in H by lia. by replace (pos + 1 + j) with (pos + (j + 1)) by lia.
  - intros (Hp & Hk & [-> | [Hs H]]).
    + change (zlen (@nil ascii)) with 0. split; [lia|]. intros j Hj. assert (j = 0) as -> by lia. by rewrite Z.add_0_r.
    + split; [lia|]. intros j Hj. destruct (decide (j = 0)) as [->|Hj0]; [by rewrite Z.add_0_r|].
      rewrite (zget_cons k) by lia. specialize (H (j - 1) ltac:(lia)).
      by replace (pos + 1 + (j - 1)) with (pos + j) in H by lia.
Qed.

(** The inner loop, for a position inside the target. *)
Lemma matches_at_spec target tsize pos key : key ≠ [] → 0 ≤ pos → tsize ≤ zlen target →
  ∃ m : bool, matches_at target tsize pos key = Some m ∧ (m = true ↔ occurs_at target tsize pos key).
Proof.
  revert pos. induction key as [|k key IH]; intros pos Hk Hp Ht; [done|]. cbn [matches_at].
  destruct (Z.ltb_spec pos tsize) as [Hlt|Hge].
  - destruct (zget_is_Some target pos ltac:(lia)) as [c Hc]. rewrite Hc. cbn.
    destruct (decide (c = k)) as [->|Hne].
    + destruct key as [|k' key].
      * exists true. split; [done|]. rewrite occurs_cons. split; [|done]. by auto.
      * destruct (IH (pos + 1) ltac:(done) ltac:(lia) Ht) as (m & -> & Hm). exists m. split; [done|].
        rewrite Hm, (occurs_cons _ _ pos). split; [by auto|]. by intros (_ & _ & [?|?]).
    + exists false. split; [done|]. rewrite occurs_cons. split; [done|]. intros (_ & H & _). congruence.
  - exists false. split; [done|]. rewrite occurs_cons. split; [done|]. lia.
Qed.

Lemma occurs_infix target tsize key : 0 ≤ tsize ≤ zlen target → key ≠ [] →
  (∃ pos, 0 ≤ pos < tsize ∧ occurs_at target tsize pos key) ↔
  ∃ l1 l2, take (Z.to_nat tsize) target = l1 ++ key ++ l2.
Proof.
  intros Ht Hk. assert (0 < zlen key) as Hkl by (unfold zlen; destruct key; [done|cbn [length]; lia]). split.
  - intros (pos & Hpos & Hs & H). set (pre := take (Z.to_nat tsize) target).
    exists (take (Z.to_nat pos) pre), (drop (Z.to_nat (pos + zlen key)) pre).
    rewrite <-(take_drop (Z.to_nat pos) pre) at 1. f_equal.
    rewrite <-(take_drop (length key) (drop (Z.to_nat pos) pre)) at 1. rewrite drop_drop.
    replace (Z.to_nat pos + length key)%nat with (Z.to_nat (pos + zlen key)) by (unfold zlen; lia). f_equal.
    apply list_eq. intros j. destruct (decide (j < length key)%nat) as [Hj|Hj].
    + rewrite lookup_take_lt, lookup_drop by done. unfold pre. rewrite lookup_take_lt by (unfold zlen in *; lia).
      specialize (H (Z.of_nat j) ltac:(unfold zlen; lia)). unfold zget in H. rewrite !decide_True in H by lia.
      rewrite Nat2Z.id in H. rewrite <-H. f_equal. lia.
    + rewrite (lookup_ge_None_2 key) by lia. apply lookup_take_ge. lia.
  - intros (l1 & l2 & E). exists (zlen l1).
    pose proof (f_equal length E) as El. rewrite !length_app, length_take in El.
    assert (zlen l1 + zlen key ≤ tsize) as Hs by (unfold zlen in *; lia).
    split; [unfold zlen in *; lia|]. split; [done|]. intros j Hj. unfold zget. rewrite !decide_True by (unfold zlen in *; lia).
    rewrite <-(lookup_take_lt target (Z.to_nat tsize)) by (unfold zlen in *; lia). rewrite E.
    rewrite lookup_app_r by (unfold zlen in *; lia). rewrite lookup_app_l by (unfold zlen in *; lia).
    f_equal. unfold zlen in *. lia.
Qed.

Lemma contstr_spec (target key : list ascii) (tsize : Z) :
  key ≠ [] → 0 ≤ tsize ≤ zlen target →
  ∃ m : bool, contstr target tsize key = Some m ∧
    (m = true ↔ ∃ l1 l2, take (Z.to_nat tsize) target = l1 ++ key ++ l2).
Proof.
  intros Hk Ht. pose proof (occurs_infix target tsize key Ht Hk) as Hio. unfold contstr.
  set (body := λ tindex : Z, matches_at target tsize tindex key ≫= λ m : bool, Some (if m then Some true else None)).
  assert (∀ i, 0 ≤ i < 0 + tsize → ∃ m : bool, body i = Some (if m then Some true else None) ∧
    (m = true ↔ occurs_at target tsize i key)) as Hb.
  { intros i Hi. destruct (matches_at_spec target tsize i key Hk ltac:(lia) ltac:(lia)) as (m & E & Hm).
    exists m. unfold body. rewrite E. done. }
  destruct (for_ret_seqZ_total 0 tsize body) as [[r|] Hr].
  { intros i Hi. destruct (Hb i Hi) as (m & -> & _). eauto. }
  - rewrite Hr. apply for_ret_seqZ in Hr as (i & Hi & Ei & _). destruct (Hb i Hi) as (m & E & Hm). rewrite E in Ei.
    destruct m; [|done]. injection Ei as <-. exists true. split; [done|]. rewrite <-Hio. split; [|done]. intros _. exists i.
    split; [lia|by apply Hm].
  - rewrite Hr. rewrite for_ret_seqZ_None in Hr. exists false. split; [done|]. rewrite <-Hio. split; [done|].
    intros (pos & Hpos & Ho). destruct (Hb pos Hpos) as (m & E & Hm). rewrite (Hr pos Hpos) in E.
    apply Hm in Ho. by subst m.
Qed.

(** C6. [contstr] is substring search: for a key that is not empty and a size within the
    buffer it reads only inside the buffer and answers whether the key occurs in the
    first [tsize] characters. *)
Theorem contstr_is_search (target key : list ascii) (tsize : Z) :
  key ≠ [] → 0 ≤ tsize ≤ zlen target →
  ∃ m : bool, contstr target tsize key = Some m ∧
    (m = true ↔ ∃ l1 l2, take (Z.to_nat tsize) target = l1 ++ key ++ l2).
Proof. apply contstr_spec. Qed.

Lemma contstr_is_search_witness :
  contstr ["a"; "V"; "V"; "I"; "R"; "U"; "S"]%char 7 VIRUS = Some true ∧
  contstr ["a"; "V"; "V"; "I"; "R"; "U"; "S"]%char 6 VIRUS = Some false ∧
  ∃ m : bool, contstr ["a"; "V"; "V"; "I"; "R"; "U"; "S"]%char 6 VIRUS = Some m ∧
    (m = true ↔ ∃ l1 l2, take 6 ["a"; "V"; "V"; "I"; "R"; "U"; "S"]%char = l1 ++ VIRUS ++ l2).
Proof.
  split; [by vm_compute|]. split; [by vm_compute|].
  apply (contstr_is_search ["a"; "V"; "V"; "I"; "R"; "U"; "S"]%char VIRUS 6); [done|].
  unfold zlen. cbn. lia.
Defined.

(** C34. The new [read] returns the code and the buffer of the original.  For a count within
    the buffer it reports the user exactly when the user's number is 1000 or more, the
    original call did not fail and the word occurs in the first [count] characters of the
    buffer; these may be more than the characters that were read, so that a read which
    returns 0 is reported when the buffer held the word before. *)
Theorem read_scans_buffer (ref : Z → list ascii → Z → Z * list ascii) (uid fd count code : Z) (buf buf' : list ascii) :
  ref fd buf count = (code, buf') → 0 ≤ count ≤ zlen buf' →
  ∃ o, new_sys_read ref uid fd buf count = Some (code, buf', o) ∧
    (o = [Malicious uid fd] ↔
       1000 ≤ uid ∧ 0 ≤ code ∧ ∃ l1 l2, take (Z.to_nat count) buf' = l1 ++ VIRUS ++ l2) ∧
    (o = [] ∨ o = [Malicious uid fd]).
Proof.
  intros E Hc. unfold new_sys_read. rewrite E. destruct ((1000 <=? uid) && (0 <=? code)) eqn:Eg.
  - apply andb_true_iff in Eg as [Hu%Z.leb_le Hcode%Z.leb_le].
    destruct (contstr_spec buf' VIRUS count ltac:(done) Hc) as (m & -> & Hm). cbn. eexists. split; [done|].
    destruct m; [split; [split; [|done]|by right]|split; [split; [done|]|by left]].
    + intros _. split_and!; [done..|]. by apply Hm.
    + intros (_ & _ & H). by apply Hm in H.
  - exists []. split; [done|]. split; [|by left]. split; [done|]. intros (Hu%Z.leb_le & Hcode%Z.leb_le & _).
    rewrite Hu, Hcode in Eg. done.
Qed.

Lemma read_scans_buffer_witness :
  new_sys_read (λ _ b _, (0, b)) 1000 3 VIRUS 5 = Some (0, VIRUS, [Malicious 1000 3]).
Proof.
  destruct (read_scans_buffer (λ _ b _, (0, b)) 1000 3 5 0 VIRUS VIRUS eq_refl ltac:(by vm_compute)) as (o & E & H & _).
  rewrite E. assert (o = [Malicious 1000 3]) as ->; [|done]. apply H. split_and!; [done..|].
  exists [], []. by vm_compute.
Defined.

(** ** Loading and unloading *)

Section module.
Context (b : build).

(** The entries the module replaces, and what it puts there. *)
Definition numbers : list Z := [NR_syscall1 b; NR_syscall2 b; NR_open b; NR_close b; NR_read b].
Definition replacements : list Z := [new_syscall1 b; new_syscall2 b; new_open b; new_close b; new_read b].

Lemma write_entry_ok k t n v : sys_call_table k = Some t → Z.testbit (cr0 k) 16 = false →
  write_entry b n v k = Done tt (set_mem (<[entry b t n := v]> (mem k)) k) [].
Proof. intros Ht Hb. unfold write_entry, modifies. rewrite Ht. cbn [mbind option_bind]. by rewrite Hb. Qed.

(** Memory after the five writes. *)
Definition written (t : Z) (m : Z → Z) (v1 v2 v3 v4 v5 : Z) : Z → Z :=
  <[entry b t (NR_read b) := v5]> (<[entry b t (NR_close b) := v4]> (<[entry b t (NR_open b) := v3]>
    (<[entry b t (NR_syscall2 b) := v2]> (<[entry b t (NR_syscall1 b) := v1]> m)))).

Lemma bit16_off c : Z.testbit (Z.land c (Z.lnot 65536)) 16 = false.
Proof. rewrite Z.land_spec, Z.lnot_spec by lia. by rewrite andb_false_r. Qed.
Lemma bit16_on c : Z.testbit (Z.lor c 65536) 16 = true.
Proof. rewrite Z.lor_spec. by rewrite orb_true_r. Qed.
Lemma bit_other c i : 0 ≤ i → i ≠ 16 → Z.testbit (Z.lor (Z.land c (Z.lnot 65536)) 65536) i = Z.testbit c i.
Proof.
  intros Hi Hne. rewrite Z.lor_spec, Z.land_spec, Z.lnot_spec by lia. change 65536 with (2 ^ 16).
  rewrite Z.pow2_bits_false by lia. by rewrite andb_true_r, orb_false_r.
Qed.

(** The same with the code that follows. *)
Lemma replace_then {A} k t v1 v2 v3 v4 v5 (m : prog A) : sys_call_table k = Some t →
  (_ ← disable_page_protection;
   _ ← write_entry b (NR_syscall1 b) v1;
   _ ← write_entry b (NR_syscall2 b) v2;
   _ ← write_entry b (NR_open b) v3;
   _ ← write_entry b (NR_close b) v4;
   _ ← write_entry b (NR_read b) v5;
   _ ← enable_page_protection;
   m) k =
  m (set_cr0 (Z.lor (Z.land (cr0 k) (Z.lnot 65536)) 65536) (set_mem (written t (mem k) v1 v2 v3 v4 v5) k)).
Proof.
  intros Ht. assert (disable_page_protection k = Done tt (set_cr0 (Z.land (cr0 k) (Z.lnot 65536)) k) []) as Hd by done.
  rewrite (bind_silent _ _ _ _ _ Hd).
  do 5 (erewrite bind_silent; [|apply write_entry_ok; [exact Ht|apply bit16_off]]).
  by erewrite bind_silent.
Qed.

Hypothesis numbers_distinct : NoDup numbers.
Hypothesis word_pos : 0 < word b.

Lemma entry_inj t n n' : entry b t n = entry b t n' → n = n'.
Proof using word_pos. unfold entry. nia. Qed.

Lemma written_entries t m v1 v2 v3 v4 v5 :
  (λ n, written t m v1 v2 v3 v4 v5 (entry b t n)) <$> numbers = [v1; v2; v3; v4; v5].
Proof using numbers_distinct word_pos.
  pose proof numbers_distinct as Hnd. unfold numbers in Hnd |- *. rewrite !NoDup_cons in Hnd. set_unfold in Hnd.
  destruct Hnd as (N1 & N2 & N3 & N4 & _).
  assert (written t m v1 v2 v3 v4 v5 (entry b t (NR_syscall1 b)) = v1) as E1.
  { unfold written. rewrite !fn_lookup_insert_ne by (intros E%entry_inj; tauto || (symmetry in E; tauto)). apply fn_lookup_insert. }
  assert (written t m v1 v2 v3 v4 v5 (entry b t (NR_syscall2 b)) = v2) as E2.
  { unfold written. rewrite 3!fn_lookup_insert_ne by (intros E%entry_inj; tauto || (symmetry in E; tauto)). apply fn_lookup_insert. }
  assert (written t m v1 v2 v3 v4 v5 (entry b t (NR_open b)) = v3) as E3.
  { unfold written. rewrite 2!fn_lookup_insert_ne by (intros E%entry_inj; tauto || (symmetry in E; tauto)). apply fn_lookup_insert. }
  assert (written t m v1 v2 v3 v4 v5 (entry b t (NR_close b)) = v4) as E4.
  { unfold written. rewrite fn_lookup_insert_ne by (intros E%entry_inj; tauto || (symmetry in E; tauto)). apply fn_lookup_insert. }
  assert (written t m v1 v2 v3 v4 v5 (entry b t (NR_read b)) = v5) as E5 by apply fn_lookup_insert.
  rewrite !fmap_cons, fmap_nil. by rewrite E1, E2, E3, E4, E5.
Qed.

Lemma written_other t m v1 v2 v3 v4 v5 a : (∀ n, n ∈ numbers → a ≠ entry b t n) →
  written t m v1 v2 v3 v4 v5 a = m a.
Proof using Type.
  intros Ha. unfold numbers in Ha. set_unfold in Ha. unfold written.
  rewrite !fn_lookup_insert_ne by (intros E; symmetry in E; revert E; apply Ha; tauto). done.
Qed.

Lemma written_back t m v1 v2 v3 v4 v5 a :
  written t (written t m v1 v2 v3 v4 v5) (m (entry b t (NR_syscall1 b))) (m (entry b t (NR_syscall2 b)))
    (m (entry b t (NR_open b))) (m (entry b t (NR_close b))) (m (entry b t (NR_read b))) a = m a.
Proof using Type.
  unfold written.
  repeat match goal with |- (<[?x := _]> _) a = _ => destruct (decide (x = a)) as [<-|?];
    [by rewrite fn_lookup_insert|rewrite fn_lookup_insert_ne by done] end. done.
Qed.

(** What a successful start leaves. *)
Lemma start_ok fuel k t : find_sys_call_table b fuel k = Done (Some t) k [Found t] →
  interceptor_start b fuel k =
    Done 0 (mkKernel (written t (mem k) (new_syscall1 b) (new_syscall2 b) (new_open b) (new_close b) (new_read b))
      (Z.lor (Z.land (cr0 k) (Z.lnot 65536)) 65536) (Some t)
      (mem k (entry b t (NR_syscall1 b))) (mem k (entry b t (NR_syscall2 b))) (mem k (entry b t (NR_open b)))
      (mem k (entry b t (NR_close b))) (mem k (entry b t (NR_read b)))) [Found t; Loaded].
Proof using Type.
  intros Hs. unfold interceptor_start.
  change [Found t; Loaded] with ([Found t] ++ [Loaded]). eapply bind_done; [exact Hs|].
  rewrite (bind_silent _ _ k tt (set_table (Some t) k)) by done.
  erewrite bind_silent; [|done]. by rewrite (replace_then _ t) by done.
Qed.

(** Unloading after it. *)
Lemma end_ok k t : sys_call_table k = Some t →
  interceptor_end b k =
    Done tt (set_cr0 (Z.lor (Z.land (cr0 k) (Z.lnot 65536)) 65536)
      (set_mem (written t (mem k) (ref_syscall1 k) (ref_syscall2 k) (ref_open k) (ref_close k) (ref_read k)) k)) [Unloaded].
Proof using Type.
  intros Ht. unfold interceptor_end. rewrite (reads_bind _ _ _ k) by done. rewrite Ht. by rewrite (replace_then k t) by done.
Qed.
End module.

(** C9. Loading and unloading: once [interceptor_start] has found the table, the five
    entries hold the new functions, the rest of memory is unchanged and write
    protection is on; no entry is written while it is on.  [interceptor_end] then
    puts back every word of memory, leaves write protection on and every other bit of
    cr0 as it was before the module was loaded. *)
Theorem interceptor_roundtrip (b : build) (fuel : nat) (k : kernel) (t : Z) :
  NoDup (numbers b) → 0 < word b → find_sys_call_table b fuel k = Done (Some t) k [Found t] →
  ∃ k1, interceptor_start b fuel k = Done 0 k1 [Found t; Loaded] ∧
    (λ n, mem k1 (entry b t n)) <$> numbers b = replacements b ∧
    (∀ a, (∀ n, n ∈ numbers b → a ≠ entry b t n) → mem k1 a = mem k a) ∧
    Z.testbit (cr0 k1) 16 = true ∧
    ∃ k2, interceptor_end b k1 = Done tt k2 [Unloaded] ∧
      (∀ a, mem k2 a = mem k a) ∧
      Z.testbit (cr0 k2) 16 = true ∧ (∀ i, 0 ≤ i → i ≠ 16 → Z.testbit (cr0 k2) i = Z.testbit (cr0 k) i).
Proof.
  intros Hnd Hw Hf. rewrite (start_ok b fuel k t Hf). eexists. split; [done|]. cbn [mem cr0]. split_and!.
  - by apply written_entries.
  - intros a Ha. by apply written_other.
  - apply bit16_on.
  - set (k1 := mkKernel _ _ _ _ _ _ _ _).
    eexists. split_and!; [by apply (end_ok b k1 t)|..].
    + intros a. apply written_back.
    + apply bit16_on.
    + intros i Hi Hne. cbn [cr0 set_cr0 k1]. by rewrite !bit_other.
Qed.

(** A 64-bit kernel whose table is the second word of the memory that is searched. *)
Definition demo_build : build := mkBuild 8 1000 377 378 2 3 0 55 9001 9002 9003 9004 9005.
Definition demo_kernel : kernel := mkKernel (λ a, if a =? 1032 then 55 else a) 2147549233 None 0 0 0 0 0.

Lemma interceptor_roundtrip_witness :
  ∃ k1, interceptor_start demo_build 5 demo_kernel = Done 0 k1 [Found 1008; Loaded] ∧
    ∃ k2, interceptor_end demo_build k1 = Done tt k2 [Unloaded] ∧ ∀ a, mem k2 a = mem demo_kernel a.
Proof.
  destruct (interceptor_roundtrip demo_build 5 demo_kernel 1008) as (k1 & H1 & _ & _ & _ & k2 & H2 & H3 & _).
  - apply (bool_decide_unpack _). by vm_compute.
  - by vm_compute.
  - by vm_compute.
  - exists k1. split; [done|]. exists k2. done.
Defined.
