(* ===== verification/Ancestry.v ===== *)
(** * The ancestry system call and the program that prints it (Project2)

    [new_sys_cs3013_syscall2] of module/mod.c and procAncestry/procAncestry.c.  The
    process tree is an argument: a task has a process id, a parent and a list of
    children.  So are the answers of [copy_from_user] and [copy_to_user]. *)

From S2P Require Import Prelude CString.

(** ** Data *)

Record ancestry_t : Type := mkAncestry {
  ancestors : list Z;      (* 10 entries *)
  siblings : list Z;       (* 100 entries *)
  children : list Z;       (* 100 entries *)
}.

(** [struct task_struct], as far as the module reads it; a task is a number. *)
Record task : Type := mkTask { t_pid : Z; t_parent : option Z; t_children : list Z }.

Inductive msg : Type :=
  | FoundTarget (pid : Z) | FoundChild (pid : Z) | FoundSibling (pid : Z) | FoundAncestor (pid : Z)
  | Improper | Target (pid : Z) | Failed (code : Z)
  | ChildrenTitle | SiblingsTitle | AncestorsTitle | Item (pid : Z) | Arrow (pid : Z) | NewLine | TargetEnd.

Abbreviation prog := (M msg ancestry_t).

(** ** The system call *)

Section tree.
Context (tree : Z → task).

(** [list_for_each] over [l] with the index [i]: store the process ids until the end
    of the list or until the array of 100 entries is full. *)
Fixpoint index_list (line : Z → msg) (upd : list Z → ancestry_t → ancestry_t) (arr : ancestry_t → list Z)
    (l : list Z) (i : Z) : prog unit :=
  match l with
  | [] => mret tt
  | cur :: l' =>
      _ ← modifies (λ a, x ← zset (arr a) i (t_pid (tree cur)); Some (upd x a));
      p ← reads (λ a, zget (arr a) i);
      _ ← emit (line p);
      if 100 <=? i + 1 then mret tt else index_list line upd arr l' (i + 1)
  end.

Definition set_ancestors (l : list Z) (a : ancestry_t) : ancestry_t := mkAncestry l (siblings a) (children a).
Definition set_siblings (l : list Z) (a : ancestry_t) : ancestry_t := mkAncestry (ancestors a) l (children a).
Definition set_children (l : list Z) (a : ancestry_t) : ancestry_t := mkAncestry (ancestors a) (siblings a) l.

(** [while (task->parent != NULL && i < 10)]; [n] is [10 - i]. *)
Fixpoint index_ancestors (n : nat) (t i : Z) : prog unit :=
  match n with
  | O => mret tt
  | S n' =>
      match t_parent (tree t) with
      | None => mret tt
      | Some t' =>
          _ ← modifies (λ a, x ← zset (ancestors a) i (t_pid (tree t')); Some (set_ancestors x a));
          if t_pid (tree t') =? 0 then mret tt
          else _ ← emit (FoundAncestor (t_pid (tree t'))); index_ancestors n' t' (i + 1)
      end
  end.

(** The local [ancestry] of the call, from the user's copy to the last loop; the task
    must have a parent, whose children are its siblings. *)
Definition index_task (t : Z) : prog unit :=
  _ ← index_list FoundChild set_children children (t_children (tree t)) 0;
  par ← reads (λ _, t_parent (tree t));
  _ ← index_list FoundSibling set_siblings siblings (t_children (tree par)) 0;
  index_ancestors 10 t 0.

(** [find pid] is [pid_task(find_vpid(pid), PIDTYPE_PID)]; the booleans say whether
    the three copies succeed.  The state is the user's [response]. *)
Definition new_sys_cs3013_syscall2 (find : Z → option Z) (get_pid get_response put_response : bool) (target : Z) :
    prog Z := λ response,
  if negb get_pid then Done (-1) response []
  else if negb get_response then Done (-1) response []
  else
    match find target with
    | None => Done (-1) response []
    | Some t =>
        match index_task t response with
        | Done _ ancestry o =>
            if put_response then Done 0 ancestry (FoundTarget target :: o)
            else Done (-1) response (FoundTarget target :: o)
        | Undef => Undef
        | NoFuel => NoFuel
        end
    end.
End tree.

(** ** procAncestry.c *)

Definition init_ancestry : ancestry_t := mkAncestry (replicate 10 (-1)) (replicate 100 (-1)) (replicate 100 (-1)).

(** [for (int i = 0; i < 100 && a[i] != -1; i++) printf("%d, ", a[i]);] *)
Fixpoint print_items (l : list Z) : prog unit :=
  match l with
  | [] => mret tt
  | x :: l' => if x =? -1 then mret tt else _ ← emit (Item x); print_items l'
  end.

Definition print_siblings : prog unit :=
  _ ← emit SiblingsTitle; l ← reads (λ a, Some (siblings a)); _ ← print_items l; emit NewLine.

Definition print_children : prog unit :=
  _ ← emit ChildrenTitle; l ← reads (λ a, Some (children a)); _ ← print_items l; emit NewLine.

(** [for (int i = 9; i >= 0; i--)] *)
Definition print_ancestors : prog unit :=
  _ ← emit AncestorsTitle;
  _ ← for_do (reverse (seqZ 0 10)) (λ i,
        x ← reads (λ a, zget (ancestors a) i);
        if 0 <? x then emit (Arrow x) else mret tt);
  emit TargetEnd.

(** [main]; [argv] holds the arguments after the program name.  The result is the exit
    code, [None] when the program aborts. *)
Definition main (call : Z → prog Z) (argv : list string) : prog (option Z) :=
  match argv with
  | [arg] =>
      target ← reads (λ _, atoi arg);
      _ ← emit (Target target);
      _ ← modifies (λ _, Some init_ancestry);
      code ← call target;
      if code <? 0 then _ ← emit (Failed code); mret None
      else
        _ ← print_children;
        _ ← print_siblings;
        _ ← print_ancestors;
        mret (Some 0)
  | _ => _ ← emit Improper; mret (Some (-1))
  end.
