(* ===== verification/AncestryProps.v ===== *)
(** * The ancestry call: what the program prints *)

From S2P Require Import Prelude CString Ancestry.

(** ** Arrays overwritten from an index *)

Definition overlay (arr : list Z) (i : Z) (xs : list Z) : list Z :=
  take (Z.to_nat i) arr ++ xs ++ drop (Z.to_nat i + length xs) arr.

Lemma overlay_nil arr i : overlay arr i [] = arr.
Proof. unfold overlay. cbn. rewrite Nat.add_0_r. apply take_drop. Qed.

Lemma overlay_cons arr i x xs arr' : zset arr i x = Some arr' → overlay arr' (i + 1) xs = overlay arr i (x :: xs).
Proof.
  intros [Hi ->]%zset_inv. unfold overlay, zlen in *. replace (Z.to_nat (i + 1)) with (S (Z.to_nat i)) by lia.
  rewrite (take_S_r _ _ x) by (apply list_lookup_insert_eq; lia). rewrite take_insert_ge by lia.
  rewrite <-app_assoc. cbn [app length]. f_equal. f_equal. f_equal. rewrite drop_insert_lt by lia. f_equal. lia.
Qed.

Section tree.
Context (tree : Z → task).

Definition pids (l : list Z) : list Z := (λ t, t_pid (tree t)) <$> l.

(** One field of the structure. *)
Record field (upd : list Z → ancestry_t → ancestry_t) (arr : ancestry_t → list Z) : Prop := mkField {
  f_get : ∀ x a, arr (upd x a) = x;
  f_put : ∀ x y a, upd x (upd y a) = upd x a;
  f_same : ∀ a, upd (arr a) a = a;
}.

Lemma children_field : field set_children children.
Proof. split; [done|done|by intros []]. Qed.
Lemma siblings_field : field set_siblings siblings.
Proof. split; [done|done|by intros []]. Qed.

(** The loop over a list of tasks stores the first of them, as many as fit. *)
Lemma index_list_ok line upd arr l i a : field upd arr → zlen (arr a) = 100 → 0 ≤ i < 100 →
  ∃ o, index_list tree line upd arr l i a =
    Done tt (upd (overlay (arr a) i (pids (take (Z.to_nat (100 - i)) l))) a) o.
Proof.
  intros Hf. revert i a. induction l as [|cur l IH]; intros i a Hlen Hi.
  - exists []. rewrite take_nil. cbn. by rewrite overlay_nil, (f_same _ _ Hf).
  - destruct (zset (arr a) i (t_pid (tree cur))) as [x|] eqn:Ex; [|by apply zset_None in Ex; rewrite Hlen in Ex].
    replace (Z.to_nat (100 - i)) with (S (Z.to_nat (100 - (i + 1)))) by lia. cbn [take index_list].
    change (pids (cur :: ?l)) with (t_pid (tree cur) :: pids l). rewrite <-(overlay_cons _ _ _ _ _ Ex).
    erewrite (bind_silent (modifies _)); [|unfold modifies; by rewrite Ex].
    rewrite (reads_bind _ _ _ (t_pid (tree cur))) by (rewrite (f_get _ _ Hf); by eapply zget_zset_eq).
    destruct (Z.leb_spec 100 (i + 1)).
    + replace (Z.to_nat (100 - (i + 1))) with 0%nat by lia. rewrite take_0. cbn. rewrite overlay_nil. eauto.
    + destruct (IH (i + 1) (upd x a)) as [o Ho]; [rewrite (f_get _ _ Hf); by rewrite (zset_zlen _ _ _ _ Ex)|lia|].
      rewrite (f_get _ _ Hf), (f_put _ _ Hf) in Ho. eexists. apply emit_bind. exact Ho.
Qed.

(** The parents of a task: at most [n], not beyond process 0. *)
Fixpoint line_of (n : nat) (t : Z) : list Z :=
  match n with
  | O => []
  | S n' =>
      match t_parent (tree t) with
      | None => []
      | Some t' => t_pid (tree t') :: (if t_pid (tree t') =? 0 then [] else line_of n' t')
      end
  end.

Lemma line_of_length n t : (length (line_of n t) ≤ n)%nat.
Proof.
  revert t. induction n as [|n IH]; intros t; cbn [line_of]; [done|]. destruct (t_parent (tree t)) as [t'|]; cbn; [|lia].
  specialize (IH t'). case_match; cbn; lia.
Qed.

Lemma index_ancestors_ok n t i a : zlen (ancestors a) = 10 → 0 ≤ i → i + Z.of_nat n = 10 →
  ∃ o, index_ancestors tree n t i a = Done tt (set_ancestors (overlay (ancestors a) i (line_of n t)) a) o.
Proof.
  revert t i a. induction n as [|n IH]; intros t i a Hlen Hi Hn; cbn [index_ancestors line_of].
  - exists []. rewrite overlay_nil. by destruct a.
  - destruct (t_parent (tree t)) as [t'|]; [|exists []; rewrite overlay_nil; by destruct a].
    destruct (zset (ancestors a) i (t_pid (tree t'))) as [x|] eqn:Ex; [|apply zset_None in Ex; lia].
    rewrite <-(overlay_cons _ _ _ _ _ Ex).
    erewrite (bind_silent (modifies _)); [|unfold modifies; by rewrite Ex].
    destruct (t_pid (tree t') =? 0); [exists []; by rewrite overlay_nil|].
    destruct (IH t' (i + 1) (set_ancestors x a)) as [o Ho]; [cbn; by rewrite (zset_zlen _ _ _ _ Ex)|lia|lia|].
    eexists. apply emit_bind. exact Ho.
Qed.

(** ** The whole call *)

Definition answer (t par : Z) : ancestry_t :=
  mkAncestry (overlay (replicate 10 (-1)) 0 (line_of 10 t))
    (overlay (replicate 100 (-1)) 0 (pids (take 100 (t_children (tree par)))))
    (overlay (replicate 100 (-1)) 0 (pids (take 100 (t_children (tree t))))).

Lemma index_task_ok t par : t_parent (tree t) = Some par →
  ∃ o, index_task tree t init_ancestry = Done tt (answer t par) o.
Proof.
  intros Hp. unfold index_task.
  destruct (index_list_ok FoundChild set_children children (t_children (tree t)) 0 init_ancestry children_field)
    as [o1 H1]; [done|lia|].
  set (a1 := set_children _ _) in H1.
  destruct (index_list_ok FoundSibling set_siblings siblings (t_children (tree par)) 0 a1 siblings_field)
    as [o2 H2]; [done|lia|].
  set (a2 := set_siblings _ _) in H2.
  destruct (index_ancestors_ok 10 t 0 a2) as [o3 H3]; [done|lia|lia|].
  eexists. eapply bind_done; [exact H1|]. rewrite (reads_bind _ _ _ par) by done.
  eapply bind_done; [exact H2|exact H3].
Qed.
End tree.

(** ** Printing *)

Lemma print_items_ok xs k a : Forall (λ x, x ≠ -1) xs →
  print_items (xs ++ replicate k (-1)) a = Done tt a (Item <$> xs).
Proof.
  induction 1 as [|x xs Hx Hxs IH].
  - destruct k; [done|]. done.
  - cbn [app print_items]. rewrite (proj2 (Z.eqb_neq x (-1)) Hx). rewrite fmap_cons. by apply emit_bind.
Qed.

Lemma print_ancestors_ok a : zlen (ancestors a) = 10 →
  print_ancestors a =
    Done tt a (AncestorsTitle :: (Arrow <$> reverse (filter (λ x, 0 < x) (ancestors a))) ++ [TargetEnd]).
Proof.
  intros Hlen. unfold print_ancestors. apply emit_bind.
  assert (∀ l, (∀ i, i ∈ l → 0 ≤ i < 10) →
    for_do l (λ i, x ← reads (λ a, zget (ancestors a) i); if 0 <? x then emit (Arrow x) else mret tt) a =
    Done tt a (Arrow <$> filter (λ x, 0 < x) (omap (zget (ancestors a)) l))) as H.
  { induction l as [|i l IH]; intros Hl; [done|]. rewrite for_do_cons.
    destruct (zget_is_Some (ancestors a) i) as [x Hx]; [rewrite Hlen; apply Hl; left|].
    specialize (IH (λ j Hj, Hl j ltac:(by right))). cbn [omap list_omap]. rewrite Hx, filter_cons.
    destruct (Z.ltb_spec 0 x) as [Hpos|Hneg].
    - rewrite decide_True, fmap_cons by done. change (Arrow x :: ?o) with ([Arrow x] ++ o). eapply bind_done; [|exact IH].
      rewrite (reads_bind _ _ _ x) by done. by destruct (Z.ltb_spec 0 x); [|lia].
    - rewrite decide_False by lia. change (Arrow <$> ?o) with ([] ++ (Arrow <$> o)). eapply bind_done; [|exact IH].
      rewrite (reads_bind _ _ _ x) by done. by destruct (Z.ltb_spec 0 x); [lia|]. }
  eapply bind_done; [|done]. rewrite H by (intros i Hi; rewrite elem_of_reverse, elem_of_seqZ in Hi; lia).
  do 2 f_equal. rewrite <-filter_reverse. f_equal. unfold zlen in Hlen.
  destruct (ancestors a) as [|x0 [|x1 [|x2 [|x3 [|x4 [|x5 [|x6 [|x7 [|x8 [|x9 [|? ?]]]]]]]]]]]; try (cbn in Hlen; lia). done.
Qed.

(** A negative entry of the array is never printed. *)
Lemma overlay_start k xs : (length xs ≤ k)%nat → overlay (replicate k (-1)) 0 xs = xs ++ replicate (k - length xs) (-1).
Proof. intros H. unfold overlay. cbn. by rewrite drop_replicate. Qed.

Lemma filter_pos_tail xs k : filter (λ x, 0 < x) (xs ++ replicate k (-1)) = filter (λ x, 0 < x) xs.
Proof.
  rewrite filter_app. assert (filter (λ x, 0 < x) (replicate k (-1)) = []) as ->; [|by rewrite app_nil_r].
  induction k as [|k IH]; [done|]. cbn [replicate]. rewrite filter_cons, decide_False by lia. exact IH.
Qed.

(** The lines after the answer of the system. *)
Definition report (cs ss line : list Z) : list msg :=
  ChildrenTitle :: (Item <$> cs) ++ NewLine :: SiblingsTitle :: (Item <$> ss) ++ NewLine ::
  AncestorsTitle :: (Arrow <$> reverse (filter (λ x, 0 < x) line)) ++ [TargetEnd].

(** C22. [procAncestry] prints the family of an existing process: the first hundred
    children and the first hundred siblings (the children of its parent), and the
    line of its ancestors from the oldest down to its parent, at most ten and without
    process 0; neither the system call nor the program reads or writes outside its
    arrays.  For a process that does not exist it reports the failure and aborts. *)
Theorem ancestry_printed (tree : Z → task) (find : Z → option Z) (target : Z) (a : ancestry_t) :
  INT_MIN ≤ target ≤ INT_MAX →
  (∀ t par, find target = Some t → t_parent (tree t) = Some par →
     Forall (λ p, p ≠ -1) (pids tree (t_children (tree t))) →
     Forall (λ p, p ≠ -1) (pids tree (t_children (tree par))) →
     ∃ o a', main (new_sys_cs3013_syscall2 tree find true true true) [pretty target] a =
       Done (Some 0) a' (Target target :: FoundTarget target :: o ++
         report (pids tree (take 100 (t_children (tree t)))) (pids tree (take 100 (t_children (tree par))))
           (line_of tree 10 t))) ∧
  (find target = None →
     main (new_sys_cs3013_syscall2 tree find true true true) [pretty target] a =
       Done None init_ancestry [Target target; Failed (-1)]).
Proof.
  intros Ht. assert (atoi (pretty target) = Some target) as Ea.
  { rewrite <-(append_nil_r (pretty target)). by apply atoi_pretty. }
  unfold main. rewrite !(reads_bind _ _ _ target) by done. split.
  - intros t par Hf Hp Hc Hs. destruct (index_task_ok tree t par Hp) as [o Ho].
    exists o, (answer tree t par). apply emit_bind. rewrite (bind_silent _ _ _ tt init_ancestry) by done.
    assert (new_sys_cs3013_syscall2 tree find true true true target init_ancestry =
      Done 0 (answer tree t par) (FoundTarget target :: o)) as Hcall.
    { unfold new_sys_cs3013_syscall2. cbn [negb]. by rewrite Hf, Ho. }
    change (FoundTarget target :: o ++ ?r) with ((FoundTarget target :: o) ++ r).
    eapply bind_done; [exact Hcall|]. cbn [Z.ltb Z.compare].
    assert (∀ l, (length (pids tree (take 100 l)) ≤ 100)%nat) as Hle.
    { intros l. unfold pids. rewrite length_fmap, length_take. lia. }
    assert (∀ l, Forall (λ p, p ≠ -1) (pids tree l) → Forall (λ p, p ≠ -1) (pids tree (take 100 l))) as Htake.
    { intros l Hl. unfold pids in *. rewrite fmap_take. by apply Forall_take. }
    assert (zlen (ancestors (answer tree t par)) = 10) as Hlen.
    { cbn [ancestors answer]. pose proof (line_of_length tree 10 t). rewrite overlay_start by done.
      unfold zlen. rewrite length_app, length_replicate. lia. }
    pose proof (print_ancestors_ok _ Hlen) as Ha.
    assert (filter (λ x, 0 < x) (ancestors (answer tree t par)) = filter (λ x, 0 < x) (line_of tree 10 t)) as Ef.
    { cbn [ancestors answer]. by rewrite overlay_start, filter_pos_tail by apply line_of_length. }
    rewrite Ef in Ha.
    assert (print_items (children (answer tree t par)) (answer tree t par) =
      Done tt (answer tree t par) (Item <$> pids tree (take 100 (t_children (tree t))))) as H1.
    { cbn [children answer]. rewrite overlay_start by done. by apply print_items_ok, Htake. }
    assert (print_items (siblings (answer tree t par)) (answer tree t par) =
      Done tt (answer tree t par) (Item <$> pids tree (take 100 (t_children (tree par))))) as H2.
    { cbn [siblings answer]. rewrite overlay_start by done. by apply print_items_ok, Htake. }
    unfold print_children, print_siblings, report. unfold mbind, M_bind, emit, reads. rewrite H1, H2, Ha.
    unfold mret, M_ret. f_equal. cbn [app]. rewrite <-!app_assoc. cbn [app]. by rewrite ?app_nil_r, <-?app_assoc.
  - intros Hf. apply emit_bind. rewrite (bind_silent _ _ _ tt init_ancestry) by done.
    assert (new_sys_cs3013_syscall2 tree find true true true target init_ancestry = Done (-1) init_ancestry []) as Hcall.
    { unfold new_sys_cs3013_syscall2. cbn [negb]. by rewrite Hf. }
    by rewrite (bind_silent _ _ _ _ _ Hcall).
Qed.

(** A shell (process 10) of init (1) with three children. *)
Definition demo_tree : Z → task := λ t,
  if t =? 10 then mkTask 10 (Some 1) [20; 21; 22]
  else if t =? 20 then mkTask 20 (Some 10) [30]
  else if t =? 1 then mkTask 1 (Some 0) [10]
  else if t =? 0 then mkTask 0 (Some 0) [1]
  else mkTask t (Some 10) [].

Lemma ancestry_printed_witness :
  ∃ o a', main (new_sys_cs3013_syscall2 demo_tree (λ p, Some p) true true true) ["20"] init_ancestry =
    Done (Some 0) a' (Target 20 :: FoundTarget 20 :: o ++ report [30] [20; 21; 22] [10; 1; 0]).
Proof.
  apply (proj1 (ancestry_printed demo_tree (λ p, Some p) 20 init_ancestry ltac:(by vm_compute)) 20 10).
  - done.
  - by vm_compute.
  - by repeat constructor.
  - by repeat constructor.
Defined.
