(* ===== verification/SysBase.v ===== *)
(** * The kernel file of Project0: shared definitions

    Project0/submission/sys.c is the kernel's sys.c with the calls of the course
    added.  Its functions run in the monad [K S]: they read and change the state [S]
    and return a value, or leave through an error path with a negative number.  Code of
    other kernel files (capability checks, security hooks, allocation, the tables of
    users and tasks) is an argument of the definitions. *)

From S2P Require Import Prelude.

(** ** Error numbers *)

Definition EPERM : Z := 1.
Definition ESRCH : Z := 3.
Definition EAGAIN : Z := 11.
Definition ENOMEM : Z := 12.
Definition EACCES : Z := 13.
Definition EFAULT : Z := 14.
Definition EINVAL : Z := 22.

(** ** State and errors *)

Inductive kres (A : Type) : Type :=
  | Ok (a : A)
  | Err (e : Z).
Arguments Ok {A} a.
Arguments Err {A} e.

Definition K (S A : Type) : Type := S → kres A * S.

#[global] Instance K_ret S : MRet (K S) := λ A a s, (Ok a, s).
#[global] Instance K_bind S : MBind (K S) := λ A B k m s,
  match m s with
  | (Ok a, s1) => k a s1
  | (Err e, s1) => (Err e, s1)
  end.

Section kernel_monad.
Context {S : Type}.

Definition kget {A} (f : S → A) : K S A := λ s, (Ok (f s), s).
Definition kput (f : S → S) : K S unit := λ s, (Ok tt, f s).

(** [retval = e; goto error;] or [return e;] *)
Definition fail {A} (e : Z) : K S A := λ s, (Err e, s).

(** [if (b) return -e;] *)
Definition err_if (b : bool) (e : Z) : K S unit := if b then fail (- e) else mret tt.

(** What the caller of a system call sees. *)
Definition sysret (m : K S Z) : S → Z * S := λ s,
  match m s with (Ok r, s') => (r, s') | (Err e, s') => (e, s') end.

(** *** What holds after a call, on its normal and on its error path *)

Definition kwp {A} (m : K S A) (s : S) (Q : A → S → Prop) (R : Z → S → Prop) : Prop :=
  match m s with (Ok a, s') => Q a s' | (Err e, s') => R e s' end.

Implicit Types (s : S) (R : Z → S → Prop).

Lemma kwp_ret {A} (a : A) s Q R : Q a s → kwp (mret a) s Q R.
Proof. done. Qed.

Lemma kwp_bind {A B} (m : K S A) (k : A → K S B) s Q R :
  kwp m s (λ a s1, kwp (k a) s1 Q R) R → kwp (m ≫= k) s Q R.
Proof. unfold kwp, mbind, K_bind. by destruct (m s) as [[] ?]. Qed.

Lemma kwp_mono {A} (m : K S A) s (Q Q' : A → S → Prop) R R' :
  kwp m s Q R → (∀ a s', Q a s' → Q' a s') → (∀ e s', R e s' → R' e s') → kwp m s Q' R'.
Proof. unfold kwp. destruct (m s) as [[] ?]; auto. Qed.

Lemma kwp_get {A} (f : S → A) s Q R : Q (f s) s → kwp (kget f) s Q R.
Proof. done. Qed.

Lemma kwp_put (f : S → S) s Q R : Q tt (f s) → kwp (kput f) s Q R.
Proof. done. Qed.

Lemma kwp_fail {A} e s (Q : A → S → Prop) R : R e s → kwp (fail e) s Q R.
Proof. done. Qed.

Lemma kwp_err_if b e s Q R :
  (b = true → R (- e) s) → (b = false → Q tt s) → kwp (err_if b e) s Q R.
Proof. unfold err_if. destruct b; intros H1 H2; [by apply H1|by apply H2]. Qed.

(** A branch is verified per case, with the outcome of its test. *)
Lemma kwp_if {A} (b : bool) (m1 m2 : K S A) s Q R :
  (b = true → kwp m1 s Q R) → (b = false → kwp m2 s Q R) → kwp (if b then m1 else m2) s Q R.
Proof. destruct b; auto. Qed.

Lemma kwp_sysret (m : K S Z) s (P : Z → S → Prop) :
  kwp m s P P ↔ P (sysret m s).1 (sysret m s).2.
Proof. unfold kwp, sysret. by destruct (m s) as [[] ?]. Qed.
End kernel_monad.

#[global] Arguments kwp : simpl never.

(** One step of a verification along the code. *)
Ltac k_step :=
  lazymatch goal with
  | |- kwp (mret _) _ _ _ => apply kwp_ret
  | |- kwp (_ ≫= _) _ _ _ => apply kwp_bind
  | |- kwp (kget _) _ _ _ => apply kwp_get
  | |- kwp (kput _) _ _ _ => apply kwp_put
  | |- kwp (fail _) _ _ _ => apply kwp_fail
  | |- kwp (err_if _ _) _ _ _ => apply kwp_err_if; intros ?
  | |- kwp (if _ then _ else _) _ _ _ => apply kwp_if; intros ?
  end.

Notation "x ≠? y" := (negb (x =? y)) (at level 70, no associativity) : Z_scope.

Lemma neqb_true x y : (x ≠? y) = true ↔ x ≠ y.
Proof. rewrite negb_true_iff. apply Z.eqb_neq. Qed.
Lemma neqb_false x y : (x ≠? y) = false ↔ x = y.
Proof. rewrite negb_false_iff. apply Z.eqb_eq. Qed.
