(* ===== verification/SysCred.v ===== *)
(** * User and group identities (Project0/submission/sys.c)

    The system calls that change the credentials of the current task.  [new] is the
    copy made by [prepare_creds]; it becomes visible at [commit_creds] only.  The
    identities inside the kernel ([kuid_t]) are numbers; [Sec] is the part of the
    credentials that belongs to the security modules (the capabilities among it). *)

From S2P Require Import Prelude SysBase.

(** [(uid_t) -1]: leave this identity as it is. *)
Definition NOID : Z := 4294967295.

Inductive capability : Type := CAP_SETUID | CAP_SETGID.
Inductive setid_flag : Type := LSM_SETID_ID | LSM_SETID_RE | LSM_SETID_RES | LSM_SETID_FS.

Record cred (Sec : Type) : Type := mkCred {
  uid : Z; euid : Z; suid : Z; fsuid : Z;
  gid : Z; egid : Z; sgid : Z; fsgid : Z;
  user : Z;
  security : Sec;
}.
Arguments mkCred {Sec}.
Arguments uid {Sec}. Arguments euid {Sec}. Arguments suid {Sec}. Arguments fsuid {Sec}.
Arguments gid {Sec}. Arguments egid {Sec}. Arguments sgid {Sec}. Arguments fsgid {Sec}.
Arguments user {Sec}. Arguments security {Sec}.

Section setters.
Context {Sec : Type}.
Implicit Type c : cred Sec.
Definition set_uid v c := mkCred v (euid c) (suid c) (fsuid c) (gid c) (egid c) (sgid c) (fsgid c) (user c) (security c).
Definition set_euid v c := mkCred (uid c) v (suid c) (fsuid c) (gid c) (egid c) (sgid c) (fsgid c) (user c) (security c).
Definition set_suid v c := mkCred (uid c) (euid c) v (fsuid c) (gid c) (egid c) (sgid c) (fsgid c) (user c) (security c).
Definition set_fsuid v c := mkCred (uid c) (euid c) (suid c) v (gid c) (egid c) (sgid c) (fsgid c) (user c) (security c).
Definition set_gid v c := mkCred (uid c) (euid c) (suid c) (fsuid c) v (egid c) (sgid c) (fsgid c) (user c) (security c).
Definition set_egid v c := mkCred (uid c) (euid c) (suid c) (fsuid c) (gid c) v (sgid c) (fsgid c) (user c) (security c).
Definition set_sgid v c := mkCred (uid c) (euid c) (suid c) (fsuid c) (gid c) (egid c) v (fsgid c) (user c) (security c).
Definition set_fsgid v c := mkCred (uid c) (euid c) (suid c) (fsuid c) (gid c) (egid c) (sgid c) v (user c) (security c).
Definition set_user_struct v c := mkCred (uid c) (euid c) (suid c) (fsuid c) (gid c) (egid c) (sgid c) (fsgid c) v (security c).
Definition set_security (v : Sec) c := mkCred (uid c) (euid c) (suid c) (fsuid c) (gid c) (egid c) (sgid c) (fsgid c) (user c) v.
End setters.

(** The parts of other kernel files that do not change from call to call: the
    translation of identities of the task's user namespace, the capability check, and
    the hook of the security modules, which answers and may change [new]. *)
Record env (Sec : Type) : Type := mkEnv {
  make_kuid : Z → Z;
  make_kgid : Z → Z;
  from_kuid_munged : Z → Z;
  from_kgid_munged : Z → Z;
  uid_valid : Z → bool;
  gid_valid : Z → bool;
  ns_capable : Sec → capability → bool;
  task_fix_setuid : cred Sec → cred Sec → setid_flag → Z * cred Sec;
  INIT_USER : Z;
  PF_NPROC_EXCEEDED : Z;
}.
Arguments make_kuid {Sec}. Arguments make_kgid {Sec}.
Arguments from_kuid_munged {Sec}. Arguments from_kgid_munged {Sec}.
Arguments uid_valid {Sec}. Arguments gid_valid {Sec}.
Arguments ns_capable {Sec}. Arguments task_fix_setuid {Sec}.
Arguments INIT_USER {Sec}. Arguments PF_NPROC_EXCEEDED {Sec}.

(** What may differ from call to call: whether there is memory for the copy, the user
    structure of an identity, how many processes it has and how many it may have. *)
Record answers : Type := mkAnswers {
  memory : bool;
  alloc_uid : Z → option Z;
  processes : Z → Z;
  rlimit_nproc : Z;
}.

(** The current task: its credentials and [current->flags]. *)
Record task (Sec : Type) : Type := mkTask {
  current_cred : cred Sec;
  flags : Z;
}.
Arguments mkTask {Sec}. Arguments current_cred {Sec}. Arguments flags {Sec}.

Section calls.
Context {Sec : Type} (k : env Sec) (a : answers).

Definition capable (c : cred Sec) (cap : capability) : bool := ns_capable k (security c) cap.

Definition prepare_creds : K (task Sec) (cred Sec) :=
  _ ← err_if (negb (memory a)) ENOMEM;
  kget current_cred.

Definition commit_creds (new : cred Sec) : K (task Sec) Z :=
  _ ← kput (λ t, mkTask new (flags t)); mret 0.

Definition security_task_fix_setuid (new old : cred Sec) (fl : setid_flag) : K (task Sec) (cred Sec) :=
  let '(retval, new') := task_fix_setuid k new old fl in
  if retval <? 0 then fail retval else mret new'.

(** ** Groups *)

Definition setregid (rgid egid_ : Z) : K (task Sec) Z :=
  let krgid := make_kgid k rgid in
  let kegid := make_kgid k egid_ in
  _ ← err_if ((rgid ≠? NOID) && negb (gid_valid k krgid)) EINVAL;
  _ ← err_if ((egid_ ≠? NOID) && negb (gid_valid k kegid)) EINVAL;
  new ← prepare_creds;
  old ← kget current_cred;
  new ← (if rgid ≠? NOID then
           if (gid old =? krgid) || (egid old =? krgid) || capable old CAP_SETGID
           then mret (set_gid krgid new) else fail (- EPERM)
         else mret new);
  new ← (if egid_ ≠? NOID then
           if (gid old =? kegid) || (egid old =? kegid) || (sgid old =? kegid) || capable old CAP_SETGID
           then mret (set_egid kegid new) else fail (- EPERM)
         else mret new);
  let new := if (rgid ≠? NOID) || ((egid_ ≠? NOID) && (kegid ≠? gid old))
             then set_sgid (egid new) new else new in
  let new := set_fsgid (egid new) new in
  commit_creds new.

Definition setgid (gid_ : Z) : K (task Sec) Z :=
  let kgid := make_kgid k gid_ in
  _ ← err_if (negb (gid_valid k kgid)) EINVAL;
  new ← prepare_creds;
  old ← kget current_cred;
  new ← (if capable old CAP_SETGID then
           mret (set_gid kgid (set_egid kgid (set_sgid kgid (set_fsgid kgid new))))
         else if (kgid =? gid old) || (kgid =? sgid old) then
           mret (set_egid kgid (set_fsgid kgid new))
         else fail (- EPERM));
  commit_creds new.

Definition setresgid (rgid egid_ sgid_ : Z) : K (task Sec) Z :=
  let krgid := make_kgid k rgid in
  let kegid := make_kgid k egid_ in
  let ksgid := make_kgid k sgid_ in
  _ ← err_if ((rgid ≠? NOID) && negb (gid_valid k krgid)) EINVAL;
  _ ← err_if ((egid_ ≠? NOID) && negb (gid_valid k kegid)) EINVAL;
  _ ← err_if ((sgid_ ≠? NOID) && negb (gid_valid k ksgid)) EINVAL;
  new ← prepare_creds;
  old ← kget current_cred;
  _ ← (if negb (capable old CAP_SETGID) then
         _ ← err_if ((rgid ≠? NOID) && (krgid ≠? gid old) && (krgid ≠? egid old) && (krgid ≠? sgid old)) EPERM;
         _ ← err_if ((egid_ ≠? NOID) && (kegid ≠? gid old) && (kegid ≠? egid old) && (kegid ≠? sgid old)) EPERM;
         err_if ((sgid_ ≠? NOID) && (ksgid ≠? gid old) && (ksgid ≠? egid old) && (ksgid ≠? sgid old)) EPERM
       else mret tt);
  let new := if rgid ≠? NOID then set_gid krgid new else new in
  let new := if egid_ ≠? NOID then set_egid kegid new else new in
  let new := if sgid_ ≠? NOID then set_sgid ksgid new else new in
  let new := set_fsgid (egid new) new in
  commit_creds new.

(** ** Users *)

Definition set_user (new : cred Sec) : K (task Sec) (cred Sec) :=
  match alloc_uid a (uid new) with
  | None => fail (- EAGAIN)
  | Some new_user =>
      _ ← (if (rlimit_nproc a <=? processes a new_user) && (new_user ≠? INIT_USER k)
           then kput (λ t, mkTask (current_cred t) (Z.lor (flags t) (PF_NPROC_EXCEEDED k)))
           else kput (λ t, mkTask (current_cred t) (Z.land (flags t) (Z.lnot (PF_NPROC_EXCEEDED k)))));
      mret (set_user_struct new_user new)
  end.

Definition setreuid (ruid euid_ : Z) : K (task Sec) Z :=
  let kruid := make_kuid k ruid in
  let keuid := make_kuid k euid_ in
  _ ← err_if ((ruid ≠? NOID) && negb (uid_valid k kruid)) EINVAL;
  _ ← err_if ((euid_ ≠? NOID) && negb (uid_valid k keuid)) EINVAL;
  new ← prepare_creds;
  old ← kget current_cred;
  new ← (if ruid ≠? NOID then
           let new := set_uid kruid new in
           _ ← err_if ((uid old ≠? kruid) && (euid old ≠? kruid) && negb (capable old CAP_SETUID)) EPERM;
           mret new
         else mret new);
  new ← (if euid_ ≠? NOID then
           let new := set_euid keuid new in
           _ ← err_if ((uid old ≠? keuid) && (euid old ≠? keuid) && (suid old ≠? keuid) &&
                       negb (capable old CAP_SETUID)) EPERM;
           mret new
         else mret new);
  new ← (if uid new ≠? uid old then set_user new else mret new);
  let new := if (ruid ≠? NOID) || ((euid_ ≠? NOID) && (keuid ≠? uid old))
             then set_suid (euid new) new else new in
  let new := set_fsuid (euid new) new in
  new ← security_task_fix_setuid new old LSM_SETID_RE;
  commit_creds new.

Definition setuid (uid_ : Z) : K (task Sec) Z :=
  let kuid := make_kuid k uid_ in
  _ ← err_if (negb (uid_valid k kuid)) EINVAL;
  new ← prepare_creds;
  old ← kget current_cred;
  new ← (if capable old CAP_SETUID then
           let new := set_suid kuid (set_uid kuid new) in
           if kuid ≠? uid old then set_user new else mret new
         else if (kuid ≠? uid old) && (kuid ≠? suid new) then fail (- EPERM)
         else mret new);
  let new := set_fsuid kuid (set_euid kuid new) in
  new ← security_task_fix_setuid new old LSM_SETID_ID;
  commit_creds new.

Definition setresuid (ruid euid_ suid_ : Z) : K (task Sec) Z :=
  let kruid := make_kuid k ruid in
  let keuid := make_kuid k euid_ in
  let ksuid := make_kuid k suid_ in
  _ ← err_if ((ruid ≠? NOID) && negb (uid_valid k kruid)) EINVAL;
  _ ← err_if ((euid_ ≠? NOID) && negb (uid_valid k keuid)) EINVAL;
  _ ← err_if ((suid_ ≠? NOID) && negb (uid_valid k ksuid)) EINVAL;
  new ← prepare_creds;
  old ← kget current_cred;
  _ ← (if negb (capable old CAP_SETUID) then
         _ ← err_if ((ruid ≠? NOID) && (kruid ≠? uid old) && (kruid ≠? euid old) && (kruid ≠? suid old)) EPERM;
         _ ← err_if ((euid_ ≠? NOID) && (keuid ≠? uid old) && (keuid ≠? euid old) && (keuid ≠? suid old)) EPERM;
         err_if ((suid_ ≠? NOID) && (ksuid ≠? uid old) && (ksuid ≠? euid old) && (ksuid ≠? suid old)) EPERM
       else mret tt);
  new ← (if ruid ≠? NOID then
           let new := set_uid kruid new in
           if kruid ≠? uid old then set_user new else mret new
         else mret new);
  let new := if euid_ ≠? NOID then set_euid keuid new else new in
  let new := if suid_ ≠? NOID then set_suid ksuid new else new in
  let new := set_fsuid (euid new) new in
  new ← security_task_fix_setuid new old LSM_SETID_RES;
  commit_creds new.

(** ** File system identities: the old value is returned whatever happens *)

Definition setfsuid (uid_ : Z) : K (task Sec) Z :=
  old ← kget current_cred;
  let old_fsuid := from_kuid_munged k (fsuid old) in
  let kuid := make_kuid k uid_ in
  if negb (uid_valid k kuid) then mret old_fsuid
  else
    if negb (memory a) then mret old_fsuid
    else
      let new := old in
      if ((kuid =? uid old) || (kuid =? euid old) || (kuid =? suid old) || (kuid =? fsuid old) ||
          capable old CAP_SETUID) && (kuid ≠? fsuid old) then
        let new := set_fsuid kuid new in
        let '(r, new') := task_fix_setuid k new old LSM_SETID_FS in
        if r =? 0 then _ ← commit_creds new'; mret old_fsuid else mret old_fsuid
      else mret old_fsuid.

Definition setfsgid (gid_ : Z) : K (task Sec) Z :=
  old ← kget current_cred;
  let old_fsgid := from_kgid_munged k (fsgid old) in
  let kgid := make_kgid k gid_ in
  if negb (gid_valid k kgid) then mret old_fsgid
  else
    if negb (memory a) then mret old_fsgid
    else
      let new := old in
      if ((kgid =? gid old) || (kgid =? egid old) || (kgid =? sgid old) || (kgid =? fsgid old) ||
          capable old CAP_SETGID) && (kgid ≠? fsgid old) then
        let new := set_fsgid kgid new in
        _ ← commit_creds new; mret old_fsgid
      else mret old_fsgid.

(** ** Reading them; [put_user] answers 0 or an error for each of the three targets *)

Definition getresuid (put1 put2 put3 : Z) (t : task Sec) : Z * list Z :=
  let c := current_cred t in
  let ruid := from_kuid_munged k (uid c) in
  let euid_ := from_kuid_munged k (euid c) in
  let suid_ := from_kuid_munged k (suid c) in
  if put1 =? 0 then
    if put2 =? 0 then (put3, if put3 =? 0 then [ruid; euid_; suid_] else [ruid; euid_])
    else (put2, [ruid])
  else (put1, []).

Definition getresgid (put1 put2 put3 : Z) (t : task Sec) : Z * list Z :=
  let c := current_cred t in
  let rgid := from_kgid_munged k (gid c) in
  let egid_ := from_kgid_munged k (egid c) in
  let sgid_ := from_kgid_munged k (sgid c) in
  if put1 =? 0 then
    if put2 =? 0 then (put3, if put3 =? 0 then [rgid; egid_; sgid_] else [rgid; egid_])
    else (put2, [rgid])
  else (put1, []).

Definition getuid (t : task Sec) : Z := from_kuid_munged k (uid (current_cred t)).
Definition geteuid (t : task Sec) : Z := from_kuid_munged k (euid (current_cred t)).
Definition getgid (t : task Sec) : Z := from_kgid_munged k (gid (current_cred t)).
Definition getegid (t : task Sec) : Z := from_kgid_munged k (egid (current_cred t)).
End calls.

(** ** Sequences of calls *)

Inductive call : Type :=
  | SETREGID (r e : Z) | SETGID (g : Z) | SETRESGID (r e s : Z) | SETFSGID (g : Z)
  | SETREUID (r e : Z) | SETUID (u : Z) | SETRESUID (r e s : Z) | SETFSUID (u : Z).

Section run.
Context {Sec : Type} (k : env Sec).

Definition exec (c : call) (a : answers) : task Sec → Z * task Sec :=
  sysret (match c with
  | SETREGID r e => setregid k a r e
  | SETGID g => setgid k a g
  | SETRESGID r e s => setresgid k a r e s
  | SETFSGID g => setfsgid k a g
  | SETREUID r e => setreuid k a r e
  | SETUID u => setuid k a u
  | SETRESUID r e s => setresuid k a r e s
  | SETFSUID u => setfsuid k a u
  end).

Fixpoint run (l : list (call * answers)) (t : task Sec) : task Sec :=
  match l with
  | [] => t
  | (c, a) :: l' => run l' (exec c a t).2
  end.
End run.
