(* ===== verification/SysCredProps.v ===== *)
(** * User and group identities: properties *)

From S2P Require Import Prelude SysBase SysCred.

(** ** What the security hook promises

    [root] is user 0 of the namespace.  The hook changes no identity, and a task whose
    effective user is not root does not gain a capability by it.  One that was root in
    some way and is not any more loses its effective capabilities, unless it has asked to
    keep them ([prctl] with PR_SET_KEEPCAPS) or has the securebit SECBIT_NO_SETUID_FIXUP:
    [keeps] says so of the task before the call.  *)

Definition same_ids {Sec} (c c' : cred Sec) : Prop :=
  uid c' = uid c ∧ euid c' = euid c ∧ suid c' = suid c ∧ fsuid c' = fsuid c ∧
  gid c' = gid c ∧ egid c' = egid c ∧ sgid c' = sgid c ∧ fsgid c' = fsgid c.

Definition rootless {Sec} (root : Z) (c : cred Sec) : Prop :=
  uid c ≠ root ∧ euid c ≠ root ∧ suid c ≠ root.

Class HookSpec {Sec} (k : env Sec) (root : Z) : Prop := {
  hook_ids new old fl r new' :
    task_fix_setuid k new old fl = (r, new') → 0 ≤ r → same_ids new new';
  hook_no_gain new old fl r new' cap :
    task_fix_setuid k new old fl = (r, new') → 0 ≤ r →
    euid new ≠ root → capable k new cap = false → capable k new' cap = false;
}.

(** The same with what happens when root is left. *)
Class DropSpec {Sec} (k : env Sec) (root : Z) (keeps : cred Sec → bool) : Prop := {
  drop_hook :: HookSpec k root;
  hook_drop new old fl r new' cap :
    task_fix_setuid k new old fl = (r, new') → 0 ≤ r → fl ≠ LSM_SETID_FS → keeps old = false →
    ¬ rootless root old → rootless root new → capable k new' cap = false;
}.

(** ** Helpers *)

Section helpers.
Context {Sec : Type} (k : env Sec) (a : answers).
Implicit Types (t : task Sec) (c new : cred Sec).

Lemma set_user_spec new t :
  kwp (set_user k a new) t
    (λ new' t', current_cred t' = current_cred t ∧ ∃ u, new' = set_user_struct u new)
    (λ e t', e < 0 ∧ current_cred t' = current_cred t).
Proof.
  unfold set_user. destruct (alloc_uid a (uid new)) as [u|]; [|done].
  k_step. k_step; repeat (k_step; simpl); eauto.
Qed.

Lemma hook_spec new old fl t :
  kwp (security_task_fix_setuid k new old fl) t
    (λ new' t', t' = t ∧ ∃ r, task_fix_setuid k new old fl = (r, new') ∧ 0 ≤ r)
    (λ e t', e < 0 ∧ t' = t).
Proof.
  unfold security_task_fix_setuid. destruct (task_fix_setuid k new old fl) as [r new'] eqn:E.
  k_step; k_step; [split; [by apply Z.ltb_lt|done]|]. split; [done|]. exists r. split; [done|]. by apply Z.ltb_ge.
Qed.

End helpers.

(** Run through the steps of a call until its result. *)
Ltac k_run :=
  repeat (match goal with
  | |- kwp (set_user _ _ _) _ _ _ =>
      eapply kwp_mono; [apply set_user_spec| |]; [intros ? ? [? [? ->]]|intros ? ? [? ?]]
  | |- kwp (security_task_fix_setuid _ _ _ _) _ _ _ =>
      eapply kwp_mono; [apply hook_spec| |]; [intros ? ? [-> [? [? ?]]]|intros ? ? [? ->]]
  | _ => k_step
  end; simpl); try congruence.

(** ** Unprivileged tasks

    [U] holds of the user identities, [F] of those for file access, [G] and [H] of the
    groups. *)

Section calls.
Context {Sec : Type} (k : env Sec) (a : answers).
Implicit Types (t : task Sec) (c new : cred Sec).

Record unprivileged (U F G H : Z → Prop) (c : cred Sec) : Prop := mkUnpriv {
  up_uid : U (uid c); up_euid : U (euid c); up_suid : U (suid c); up_fsuid : F (fsuid c);
  up_gid : G (gid c); up_egid : G (egid c); up_sgid : G (sgid c); up_fsgid : H (fsgid c);
  up_cap cap : capable k c cap = false;
}.

Section unprivileged.
Context (root : Z) (U F G H : Z → Prop).
Context `{!HookSpec k root}.
Hypothesis U_root : ¬ U root.
Hypothesis U_F : ∀ v, U v → F v.
Hypothesis G_H : ∀ v, G v → H v.
Abbreviation up := (unprivileged U F G H).

Lemma hook_unprivileged new old fl r new' :
  up new → task_fix_setuid k new old fl = (r, new') → 0 ≤ r → up new'.
Proof using All.
  intros [] E Hr. destruct (hook_ids _ _ _ _ _ E Hr) as (E1 & E2 & E3 & E4 & E5 & E6 & E7 & E8).
  constructor; rewrite ?E1, ?E2, ?E3, ?E4, ?E5, ?E6, ?E7, ?E8; auto.
  intros cap. eapply hook_no_gain; eauto. congruence.
Qed.

(** Decide the comparisons of identities in the hypotheses. *)
Ltac id_cases :=
  repeat match goal with
  | E : context [?x =? ?y] |- _ => destruct (Z.eqb_spec x y); simpl in E
  end; try discriminate.

Definition keeps_up (m : K (task Sec) Z) : Prop := ∀ t,
  up (current_cred t) →
  kwp m t (λ _ t', up (current_cred t')) (λ _ t', current_cred t' = current_cred t).

Lemma among3 (P : Z → Prop) (b : bool) x p q r :
  P p → P q → P r → b && (x ≠? p) && (x ≠? q) && (x ≠? r) = false → b = true → P x.
Proof. intros Hp Hq Hr E ->. id_cases; congruence. Qed.

(** Close [up] of changed credentials: every new identity is one of the old ones. *)
Ltac up_done :=
  match goal with
  | Hup : up (current_cred _) |- up _ =>
      pose proof (up_cap _ _ _ _ _ Hup CAP_SETUID) as Hcu;
      pose proof (up_cap _ _ _ _ _ Hup CAP_SETGID) as Hcg;
      rewrite ?Hcu, ?Hcg in *; destruct Hup;
      repeat match goal with
      | E : _ && (?x ≠? _) && (?x ≠? _) && (?x ≠? _) = false |- _ =>
          first [apply (among3 U) in E; [|assumption..|done] | apply (among3 G) in E; [|assumption..|done]]
      end;
      repeat case_match; constructor; simpl in *; auto; id_cases; simpl in *;
      first [congruence|apply G_H; congruence|apply U_F; congruence|by auto]
  end.

Ltac keeps_up_tac :=
  intros t Hup; unfold prepare_creds, commit_creds; k_run;
  try (eapply hook_unprivileged; [|eassumption..]); up_done.

Lemma setregid_up r e : keeps_up (setregid k a r e).
Proof using All. unfold setregid. keeps_up_tac. Qed.
Lemma setgid_up g : keeps_up (setgid k a g).
Proof using All. unfold setgid. keeps_up_tac. Qed.
Lemma setresgid_up r e s : keeps_up (setresgid k a r e s).
Proof using All. unfold setresgid. keeps_up_tac. Qed.
Lemma setreuid_up r e : keeps_up (setreuid k a r e).
Proof using All. unfold setreuid. keeps_up_tac. Qed.
Lemma setuid_up u : keeps_up (setuid k a u).
Proof using All. unfold setuid. keeps_up_tac. Qed.
Lemma setresuid_up r e s : keeps_up (setresuid k a r e s).
Proof using All. unfold setresuid. keeps_up_tac. Qed.

Lemma setfsuid_up u : keeps_up (setfsuid k a u).
Proof using All.
  intros t Hup. unfold setfsuid, commit_creds. k_run; try done.
  destruct (task_fix_setuid _ _ _ _) as [r new'] eqn:E. k_run; try done.
  eapply hook_unprivileged; [|done|lia]. up_done.
Qed.

Lemma setfsgid_up g : keeps_up (setfsgid k a g).
Proof using All. intros t Hup. unfold setfsgid, commit_creds. k_run; try done; up_done. Qed.

Lemma exec_up cl t : up (current_cred t) → up (current_cred (exec k cl a t).2).
Proof using All.
  intros Hup. assert (∀ m, keeps_up m → up (current_cred (sysret m t).2)) as Hm.
  { intros m Hm. apply (kwp_sysret m t (λ _ t', up (current_cred t'))).
    eapply kwp_mono; [by apply Hm|done|]. intros e t' ->. done. }
  unfold exec. destruct cl; apply Hm; auto using setregid_up, setgid_up, setresgid_up, setfsgid_up,
    setreuid_up, setuid_up, setresuid_up, setfsuid_up.
Qed.
End unprivileged.

End calls.

Lemma run_up {Sec} (k : env Sec) (root : Z) (U F G H : Z → Prop) l t :
  HookSpec k root → ¬ U root → (∀ v, U v → F v) → (∀ v, G v → H v) →
  unprivileged k U F G H (current_cred t) → unprivileged k U F G H (current_cred (run k l t)).
Proof.
  intros Hk Hr HF HH. revert t. induction l as [|[cl a] l IH]; intros t Hup; [done|].
  apply IH. by eapply exec_up.
Qed.

(** ** Errors *)

(** [setfsuid] and [setfsgid] return the old value, also when they change nothing. *)
Definition returns_old_value (c : call) : bool :=
  match c with SETFSUID _ | SETFSGID _ => true | _ => false end.

Section errors.
Context {Sec : Type} (k : env Sec) (a : answers).

(** A call returns 0 and installs the new credentials, or fails and keeps the old. *)
Definition atomic (m : K (task Sec) Z) : Prop := ∀ t,
  kwp m t (λ r _, r = 0) (λ e t', e < 0 ∧ current_cred t' = current_cred t).

Ltac atomic_tac := intros t; unfold prepare_creds, commit_creds; k_run; done.

Lemma setregid_atomic r e : atomic (setregid k a r e).
Proof. unfold setregid. atomic_tac. Qed.
Lemma setgid_atomic g : atomic (setgid k a g).
Proof. unfold setgid. atomic_tac. Qed.
Lemma setresgid_atomic r e s : atomic (setresgid k a r e s).
Proof. unfold setresgid. atomic_tac. Qed.
Lemma setreuid_atomic r e : atomic (setreuid k a r e).
Proof. unfold setreuid. atomic_tac. Qed.
Lemma setuid_atomic u : atomic (setuid k a u).
Proof. unfold setuid. atomic_tac. Qed.
Lemma setresuid_atomic r e s : atomic (setresuid k a r e s).
Proof. unfold setresuid. atomic_tac. Qed.

Lemma exec_atomic cl t :
  returns_old_value cl = false → (exec k cl a t).1 ≠ 0 →
  current_cred (exec k cl a t).2 = current_cred t.
Proof.
  assert (∀ m, atomic m → (sysret m t).1 ≠ 0 → current_cred (sysret m t).2 = current_cred t) as Hm.
  { intros m Hm. specialize (Hm t). unfold kwp in Hm. unfold sysret. by destruct (m t) as [[] ?]; [|destruct Hm]. }
  unfold exec. destruct cl; try done; intros _; apply Hm; auto using setregid_atomic, setgid_atomic,
    setresgid_atomic, setreuid_atomic, setuid_atomic, setresuid_atomic.
Qed.
End errors.


(** ** The claims *)

(** A concrete environment: identities are translated to themselves, and the hook does
    what the kernel's own capability module documents.  [Sec] is the permitted and the
    effective capabilities, here all or none, and whether the task keeps them. *)
Definition caps : Type := bool * bool * bool.

Definition fixup (new old : cred caps) (fl : setid_flag) : Z * cred caps :=
  match fl with
  | LSM_SETID_FS => (0, new)
  | _ =>
      let '(p, e, keep) := security new in
      let was := (uid old =? 0) || (euid old =? 0) || (suid old =? 0) in
      let is_ := (uid new =? 0) || (euid new =? 0) || (suid new =? 0) in
      let lost := was && negb is_ && negb (security old).2 in
      let p := p && negb lost in
      let e := e && negb lost in
      let e := if (euid old =? 0) && (euid new ≠? 0) then false
               else if (euid old ≠? 0) && (euid new =? 0) then p else e in
      (0, set_security (p, e, keep) new)
  end.

Definition plain_env : env caps :=
  mkEnv _ id id id id (λ u, u ≠? NOID) (λ g, g ≠? NOID) (λ s _, s.1.2) fixup 0 4096.

Definition plain_answers : answers := mkAnswers true (λ u, Some u) (λ _, 1) 100.

Definition plain_task (u : Z) (p : bool) : task caps :=
  mkTask (mkCred u u u u u u u u u (p, p, false)) 0.

#[global] Instance plain_hook : HookSpec plain_env 0.
Proof.
  split; cbn; unfold fixup, capable; cbn.
  - intros new old fl r new' E _. destruct (security new) as [[p e] keep]. destruct fl; simplify_eq/=; by repeat split.
  - intros new old fl r new' cap E _ He Hc. destruct (security new) as [[p e] keep] eqn:Es. simpl in Hc. subst e.
    destruct fl; simplify_eq/=; try (by rewrite Es); destruct (Z.eqb_spec (euid new) 0); try done; by destruct (euid old =? 0).
Qed.

#[global] Instance plain_drop : DropSpec plain_env 0 (λ c, (security c).2).
Proof.
  split; [apply _|]. cbn. unfold fixup, capable. cbn. intros new old fl r new' cap E _ Hfl Hk Hold (H1 & H2 & H3).
  assert ((uid old =? 0) || (euid old =? 0) || (suid old =? 0) = true) as Hw.
  { destruct (uid old =? 0) eqn:E1, (euid old =? 0) eqn:E2, (suid old =? 0) eqn:E3; try done.
    destruct Hold. unfold rootless. lia. }
  rewrite Hw, Hk in E. destruct (security new) as [[p e] keep].
  destruct fl; simplify_eq/=; try done; destruct (Z.eqb_spec (uid new) 0), (Z.eqb_spec (euid new) 0),
    (Z.eqb_spec (suid new) 0); try done; destruct (euid old =? 0); simpl; by rewrite ?andb_false_r.
Qed.

Lemma cred_stays {Sec} (k : env Sec) (root : Z) (t : task Sec) (l : list (call * answers)) :
  HookSpec k root →
  (∀ cap, capable k (current_cred t) cap = false) → rootless root (current_cred t) →
  let c := current_cred t in
  let c' := current_cred (run k l t) in
  let users := [uid c; euid c; suid c] in
  let groups := [gid c; egid c; sgid c] in
  uid c' ∈ users ∧ euid c' ∈ users ∧ suid c' ∈ users ∧ fsuid c' ∈ fsuid c :: users ∧
  gid c' ∈ groups ∧ egid c' ∈ groups ∧ sgid c' ∈ groups ∧ fsgid c' ∈ fsgid c :: groups ∧
  ∀ cap, capable k c' cap = false.
Proof.
  intros Hk Hcap Hroot c c' users groups.
  assert (unprivileged k (λ v, v ∈ users) (λ v, v ∈ fsuid c :: users)
    (λ v, v ∈ groups) (λ v, v ∈ fsgid c :: groups) c') as []; [|done].
  apply (run_up k root); [done| |intros; by right..|].
  - unfold users. destruct Hroot as (? & ? & ?). rewrite !elem_of_cons, elem_of_nil. unfold c. naive_solver.
  - constructor; unfold users, groups; rewrite ?elem_of_cons; auto.
Qed.

(** C15. No escalation: a task without capabilities, none of whose user identities is
    root, can never obtain an identity that it did not have, whatever sequence of these
    calls it makes and whatever the rest of the kernel answers; the identities for file
    access may also keep their old value.  It stays without capabilities. *)
Theorem cred_no_escalation {Sec} (k : env Sec) (root : Z) (t : task Sec) (l : list (call * answers)) :
  HookSpec k root →
  (∀ cap, capable k (current_cred t) cap = false) → rootless root (current_cred t) →
  let c := current_cred t in
  let c' := current_cred (run k l t) in
  let users := [uid c; euid c; suid c] in
  let groups := [gid c; egid c; sgid c] in
  uid c' ∈ users ∧ euid c' ∈ users ∧ suid c' ∈ users ∧ fsuid c' ∈ fsuid c :: users ∧
  gid c' ∈ groups ∧ egid c' ∈ groups ∧ sgid c' ∈ groups ∧ fsgid c' ∈ fsgid c :: groups ∧
  ∀ cap, capable k c' cap = false.
Proof. apply cred_stays. Qed.

Lemma cred_no_escalation_witness :
  let c' := current_cred (run plain_env [(SETRESUID 7 NOID NOID, plain_answers); (SETUID 0, plain_answers)]
                            (mkTask (mkCred 5 7 9 7 5 5 5 5 5 (false, false, false)) 0)) in
  uid c' = 7 ∧ uid c' ∈ [5; 7; 9].
Proof.
  split; [done|].
  apply (cred_no_escalation plain_env 0 (mkTask (mkCred 5 7 9 7 5 5 5 5 5 (false, false, false)) 0)); [apply _|done|done].
Defined.

(** A call that fails installs nothing: the credentials are those from before. *)
Theorem cred_error_keeps {Sec} (k : env Sec) (a : answers) (cl : call) (t : task Sec) :
  returns_old_value cl = false → (exec k cl a t).1 ≠ 0 →
  current_cred (exec k cl a t).2 = current_cred t.
Proof. apply exec_atomic. Qed.

Lemma cred_error_keeps_witness :
  (exec plain_env (SETREUID 5 0) plain_answers (plain_task 5 false)).1 = -1 ∧
  current_cred (exec plain_env (SETREUID 5 0) plain_answers (plain_task 5 false)).2
  = current_cred (plain_task 5 false).
Proof. split; [done|]. by apply cred_error_keeps. Defined.

(** What [setuid] does for a task that may change its identity. *)
Lemma setuid_privileged {Sec} (k : env Sec) (root : Z) (keeps : cred Sec → bool) (a : answers) (u : Z) (t : task Sec) :
  DropSpec k root keeps → keeps (current_cred t) = false →
  capable k (current_cred t) CAP_SETUID = true → ¬ rootless root (current_cred t) →
  make_kuid k u ≠ root →
  kwp (setuid k a u) t
    (λ _ t', let c := current_cred t' in
       uid c = make_kuid k u ∧ euid c = make_kuid k u ∧ suid c = make_kuid k u ∧
       fsuid c = make_kuid k u ∧ ∀ cap, capable k c cap = false)
    (λ e _, e < 0).
Proof.
  intros Hk Hkeep Hcap Hroot Hu. unfold setuid, prepare_creds, commit_creds. k_run; try done;
    match goal with
    | E : task_fix_setuid _ _ _ _ = (_, _), Hr : 0 ≤ _ |- _ =>
        pose proof (hook_ids _ _ _ _ _ E Hr) as (-> & -> & -> & -> & _); simpl;
        split_and!; try done; intros cap; apply (hook_drop _ _ _ _ _ cap E Hr); done
    end.
Qed.

(** C35. Dropping root for good: when a task that is root in some way, may change its
    identity and does not keep its capabilities (neither PR_SET_KEEPCAPS nor the securebit
    SECBIT_NO_SETUID_FIXUP) has called [setuid] with another user and got 0, then after any
    sequence of these calls all its user identities are that user and it has no
    capability. *)
Theorem cred_drop_permanent {Sec} (k : env Sec) (root : Z) (keeps : cred Sec → bool) (a : answers) (u : Z)
    (t t1 : task Sec) (l : list (call * answers)) :
  DropSpec k root keeps → keeps (current_cred t) = false →
  capable k (current_cred t) CAP_SETUID = true → ¬ rootless root (current_cred t) →
  make_kuid k u ≠ root → sysret (setuid k a u) t = (0, t1) →
  let c' := current_cred (run k l t1) in
  uid c' = make_kuid k u ∧ euid c' = make_kuid k u ∧ suid c' = make_kuid k u ∧
  fsuid c' = make_kuid k u ∧ ∀ cap, capable k c' cap = false.
Proof.
  intros Hk Hkeep Hcap Hroot Hu E. pose proof (setuid_privileged k root keeps a u t Hk Hkeep Hcap Hroot Hu) as Hs.
  unfold kwp in Hs. unfold sysret in E. destruct (setuid k a u t) as [[r|e] t2]; simplify_eq.
  destruct Hs as (E1 & E2 & E3 & E4 & Hc).
  assert (rootless root (current_cred t1)) as Hr1 by (unfold rootless; split_and!; congruence).
  pose proof (cred_stays k root t1 l drop_hook Hc Hr1) as H. cbv zeta in H. rewrite E1, E2, E3, E4 in H.
  rewrite !elem_of_cons, !elem_of_nil in H. destruct H as (H1 & H2 & H3 & H4 & _ & _ & _ & _ & H5).
  split_and!; [tauto..|done].
Qed.

Lemma cred_drop_permanent_witness :
  uid (current_cred (run plain_env [(SETRESUID 0 0 0, plain_answers)]
    (sysret (setuid plain_env plain_answers 5) (plain_task 0 true)).2)) = 5.
Proof.
  assert (¬ rootless 0 (current_cred (plain_task 0 true))) as Hr by by intros [? _].
  exact (proj1 (cred_drop_permanent plain_env 0 (λ c, (security c).2) plain_answers 5 (plain_task 0 true)
    (sysret (setuid plain_env plain_answers 5) (plain_task 0 true)).2 [(SETRESUID 0 0 0, plain_answers)]
    plain_drop eq_refl eq_refl Hr ltac:(done) eq_refl)).
Defined.

(** Whether [setresuid] may set an identity to [v]. *)
Definition granted {Sec} (k : env Sec) (c : cred Sec) (v : Z) : Prop :=
  v = NOID ∨ make_kuid k v ∈ [uid c; euid c; suid c] ∨ capable k c CAP_SETUID = true.

#[global] Instance granted_dec {Sec} (k : env Sec) c v : Decision (granted k c v).
Proof. unfold granted. apply _. Defined.

(** The new value of an identity. *)
Definition pick {Sec} (k : env Sec) (v old : Z) : Z := if v =? NOID then old else make_kuid k v.

Lemma refused_iff {Sec} (k : env Sec) (c : cred Sec) (v : Z) :
  capable k c CAP_SETUID = false →
  (v ≠? NOID) && (make_kuid k v ≠? uid c) && (make_kuid k v ≠? euid c) && (make_kuid k v ≠? suid c) = true
  ↔ ¬ granted k c v.
Proof.
  intros Hc. unfold granted. rewrite !andb_true_iff, !neqb_true, Hc, !elem_of_cons, elem_of_nil. naive_solver.
Qed.

Section setresuid.
Context {Sec : Type} (k : env Sec) (root : Z) (a : answers) (t : task Sec).
Hypothesis Hk : HookSpec k root.
Hypothesis Hmem : memory a = true.
Hypothesis Hall : ∀ v, is_Some (alloc_uid a v).
Hypothesis Hok : ∀ new old fl, 0 ≤ (task_fix_setuid k new old fl).1.
Let c := current_cred t.

Lemma set_user_ok new t' (Q : cred Sec → task Sec → Prop) R :
  (∀ u t'', current_cred t'' = current_cred t' → Q (set_user_struct u new) t'') →
  kwp (set_user k a new) t' Q R.
Proof using Hall.
  intros H. unfold set_user. destruct (Hall (uid new)) as [u ->]. repeat (k_step; simpl); by apply H.
Qed.

(** The new credentials of [setresuid] before the security hook, from the copy with
    its real user set. *)
Lemma finish_ok r e s new t' :
  (uid new, euid new, suid new) = (pick k r (uid c), euid c, suid c) →
  (gid new, egid new, sgid new, fsgid new) = (gid c, egid c, sgid c, fsgid c) →
  kwp (let new := if e ≠? NOID then set_euid (make_kuid k e) new else new in
       let new := if s ≠? NOID then set_suid (make_kuid k s) new else new in
       let new := set_fsuid (euid new) new in
       new ← security_task_fix_setuid k new c LSM_SETID_RES; commit_creds new) t'
    (λ ret t'', ret = 0 ∧ let c' := current_cred t'' in
       uid c' = pick k r (uid c) ∧ euid c' = pick k e (euid c) ∧ suid c' = pick k s (suid c) ∧
       fsuid c' = euid c' ∧ gid c' = gid c ∧ egid c' = egid c ∧ sgid c' = sgid c ∧ fsgid c' = fsgid c)
    (λ _ _, False).
Proof using Hk Hok.
  intros Hu Hg. simplify_eq. cbv zeta. unfold security_task_fix_setuid, commit_creds. k_step.
  destruct (task_fix_setuid _ _ _ _) as [z new'] eqn:E.
  assert (0 ≤ z) as Hz by (match type of E with ?f = _ => replace z with f.1 by by rewrite E end; apply Hok).
  rewrite (proj2 (Z.ltb_ge z 0)) by done. repeat k_step. split; [done|]. simpl.
  destruct (hook_ids _ _ _ _ _ E Hz) as (-> & -> & -> & -> & -> & -> & -> & ->).
  unfold pick at 2 3. destruct (e =? NOID), (s =? NOID); simpl; split_and!; congruence.
Qed.

Lemma setresuid_ok r e s :
  (∀ v, v ∈ [r; e; s] → v ≠ NOID → uid_valid k (make_kuid k v) = true) →
  kwp (setresuid k a r e s) t
    (λ ret t'', (ret = 0 ∧ let c' := current_cred t'' in
       uid c' = pick k r (uid c) ∧ euid c' = pick k e (euid c) ∧ suid c' = pick k s (suid c) ∧
       fsuid c' = euid c' ∧ gid c' = gid c ∧ egid c' = egid c ∧ sgid c' = sgid c ∧ fsgid c' = fsgid c) ∧
       granted k c r ∧ granted k c e ∧ granted k c s)
    (λ z _, z < 0 ∧ ¬ (granted k c r ∧ granted k c e ∧ granted k c s)).
Proof using Hk Hmem Hall Hok.
  intros Hv. assert (∀ v, v ∈ [r; e; s] → (v ≠? NOID) && negb (uid_valid k (make_kuid k v)) = false) as Hv'.
  { intros v Hin. destruct (Z.eqb_spec v NOID); [done|]. by rewrite Hv. }
  unfold setresuid, prepare_creds.
  rewrite !Hv' by set_solver. rewrite Hmem. do 12 (k_step; simpl). fold c.
  k_step. apply kwp_mono with (λ _ t', t' = t ∧ granted k c r ∧ granted k c e ∧ granted k c s)
    (λ z _, z < 0 ∧ ¬ (granted k c r ∧ granted k c e ∧ granted k c s)); [| |done].
  { k_step; [|rewrite negb_false_iff in *; k_step; unfold granted; by auto 10].
    rewrite negb_true_iff in *. repeat k_step; simpl;
      repeat match goal with
      | E : _ && _ && _ && _ = true |- _ => apply (refused_iff k c) in E; [|done]
      | E : _ && _ && _ && _ = false |- _ =>
          rewrite <-not_true_iff_false, (refused_iff k c) in E by done; apply dec_stable in E
      end; naive_solver. }
  intros _ t' [-> Hg]. simpl.
  k_step. apply kwp_mono with (λ new t', (uid new, euid new, suid new) = (pick k r (uid c), euid c, suid c) ∧
    (gid new, egid new, sgid new, fsgid new) = (gid c, egid c, sgid c, fsgid c)) (λ _ _, False); [| |done].
  { unfold pick. destruct (r =? NOID); simpl; [by k_step|]. k_step; [|by k_step]. by apply set_user_ok. }
  intros new t' [H1 H2]. eapply kwp_mono; [by apply (finish_ok r e s)| |done]. done.
Qed.
End setresuid.

(** C36. [setresuid] succeeds exactly if every identity asked for is one of the three the
    task has or it may change identities freely, and then sets exactly those asked for;
    the identity for file access follows the effective one.  (There is memory, the
    identities are valid and the security modules do not object.) *)
Theorem cred_setresuid {Sec} (k : env Sec) (root : Z) (a : answers) (r e s : Z) (t : task Sec) :
  HookSpec k root → memory a = true → (∀ v, is_Some (alloc_uid a v)) →
  (∀ v, v ∈ [r; e; s] → v ≠ NOID → uid_valid k (make_kuid k v) = true) →
  (∀ new old fl, 0 ≤ (task_fix_setuid k new old fl).1) →
  let c := current_cred t in
  let '(ret, t') := sysret (setresuid k a r e s) t in
  let c' := current_cred t' in
  (ret = 0 ↔ granted k c r ∧ granted k c e ∧ granted k c s) ∧
  (ret = 0 → uid c' = pick k r (uid c) ∧ euid c' = pick k e (euid c) ∧ suid c' = pick k s (suid c) ∧
             fsuid c' = euid c' ∧ gid c' = gid c ∧ egid c' = egid c ∧ sgid c' = sgid c ∧ fsgid c' = fsgid c).
Proof.
  intros Hk Hm Ha Hv Hh. pose proof (setresuid_ok k root a t Hk Hm Ha Hh r e s Hv) as H.
  unfold kwp in H. unfold sysret. destruct (setresuid k a r e s t) as [[ret|z] t']; cbv zeta in *.
  - destruct H as [[-> H] Hg]. done.
  - destruct H as [Hz Hg]. split; [|lia]. split; [lia|done].
Qed.

Lemma cred_setresuid_witness :
  sysret (setresuid plain_env plain_answers NOID 0 NOID) (mkTask (mkCred 5 5 0 5 1 1 1 1 5 (true, false, false)) 0) =
    (0, mkTask (mkCred 5 0 0 0 1 1 1 1 5 (true, true, false)) 0) ∧
  granted plain_env (mkCred 5 5 0 5 1 1 1 1 5 (true, false, false)) 0.
Proof.
  split; [done|].
  pose proof (cred_setresuid plain_env 0 plain_answers NOID 0 NOID
    (mkTask (mkCred 5 5 0 5 1 1 1 1 5 (true, false, false)) 0)) as H.
  apply H; [apply _|done|by eexists| | |done].
  - intros v Hv Hn. by apply neqb_true.
  - intros new old []; cbn; by destruct (security new) as [[? ?] ?].
Defined.
