(* ===== verification/SysPrio.v ===== *)
(** * Priorities (Project0/submission/sys.c)

    [setpriority] and [getpriority].  The state is the nice value of every task; the
    table of tasks, credentials and the checks of other kernel files are an argument. *)

From S2P Require Import Prelude SysBase.

Definition PRIO_PROCESS : Z := 0.
Definition PRIO_PGRP : Z := 1.
Definition PRIO_USER : Z := 2.
Definition MIN_NICE : Z := -20.
Definition MAX_NICE : Z := 19.

(** Tasks, process groups and users are numbers; a pointer that may be NULL is an
    [option]. *)
Record env : Type := mkEnv {
  current : Z;
  find_task_by_vpid : Z → option Z;
  find_vpid : Z → option Z;
  task_pgrp : Z → option Z;
  pid_threads : option Z → list Z;     (* do_each_pid_thread(pgrp, PIDTYPE_PGID, p) *)
  all_threads : list Z;                (* do_each_thread(g, p) *)
  task_uid : Z → Z;
  task_euid : Z → Z;
  task_pid_vnr : Z → Z;
  make_kuid : Z → Z;
  find_user : Z → bool;
  nice_capable : Z → bool;             (* ns_capable(pcred->user_ns, CAP_SYS_NICE) *)
  can_nice : Z → Z → bool;
  security_task_setnice : Z → Z → Z;
  nice_to_rlimit : Z → Z;
}.

(** The nice values of the tasks; [task_nice] reads and [set_user_nice] sets one. *)
Abbreviation nices := (Z → Z).

Section calls.
Context (k : env).

Definition set_one_prio_perm (p : Z) : bool :=
  if (task_uid k p =? task_euid k (current k)) || (task_euid k p =? task_euid k (current k)) then true
  else if nice_capable k p then true else false.

Definition set_one_prio (p niceval error : Z) (w : nices) : Z * nices :=
  if negb (set_one_prio_perm p) then (- EPERM, w)
  else if (niceval <? w p) && negb (can_nice k p niceval) then (- EACCES, w)
  else
    let no_nice := security_task_setnice k p niceval in
    if no_nice ≠? 0 then (no_nice, w)
    else (if error =? - ESRCH then 0 else error, <[p := niceval]> w).

(** The loops over tasks: [error] goes from one to the next. *)
Fixpoint set_each (l : list Z) (niceval error : Z) (w : nices) : Z * nices :=
  match l with
  | [] => (error, w)
  | p :: l' => let '(error', w') := set_one_prio p niceval error w in set_each l' niceval error' w'
  end.

(** The group the call means. *)
Definition the_group (who : Z) : option Z :=
  if who ≠? 0 then find_vpid k who else task_pgrp k (current k).

(** The user the call means; [None]: that user has no processes. *)
Definition the_user (who : Z) : option Z :=
  let uid := make_kuid k who in
  if who =? 0 then Some (task_uid k (current k))
  else if uid ≠? task_uid k (current k) then if find_user k uid then Some uid else None
  else Some uid.

Definition belongs (uid p : Z) : bool := (task_uid k p =? uid) && (task_pid_vnr k p ≠? 0).

Definition setpriority (which who niceval : Z) (w : nices) : Z * nices :=
  if (PRIO_USER <? which) || (which <? PRIO_PROCESS) then (- EINVAL, w)
  else
    let error := - ESRCH in
    let niceval := if niceval <? MIN_NICE then MIN_NICE else niceval in
    let niceval := if MAX_NICE <? niceval then MAX_NICE else niceval in
    if which =? PRIO_PROCESS then
      match (if who ≠? 0 then find_task_by_vpid k who else Some (current k)) with
      | Some p => set_one_prio p niceval error w
      | None => (error, w)
      end
    else if which =? PRIO_PGRP then
      set_each (pid_threads k (the_group who)) niceval error w
    else
      match the_user who with
      | None => (error, w)
      | Some uid => set_each (filter (λ p, belongs uid p = true) (all_threads k)) niceval error w
      end.

(** The loops of [getpriority]: the largest value so far. *)
Definition get_each (l : list Z) (retval : Z) (w : nices) : Z :=
  foldl (λ retval p, let niceval := nice_to_rlimit k (w p) in if retval <? niceval then niceval else retval)
    retval l.

Definition getpriority (which who : Z) (w : nices) : Z :=
  if (PRIO_USER <? which) || (which <? PRIO_PROCESS) then - EINVAL
  else
    let retval := - ESRCH in
    if which =? PRIO_PROCESS then
      match (if who ≠? 0 then find_task_by_vpid k who else Some (current k)) with
      | Some p => get_each [p] retval w
      | None => retval
      end
    else if which =? PRIO_PGRP then get_each (pid_threads k (the_group who)) retval w
    else
      match the_user who with
      | None => retval
      | Some uid => get_each (filter (λ p, belongs uid p = true) (all_threads k)) retval w
      end.

(** ** The tasks a call means *)

Definition targets (which who : Z) : list Z :=
  if which =? PRIO_PROCESS then
    match (if who ≠? 0 then find_task_by_vpid k who else Some (current k)) with
    | Some p => [p] | None => [] end
  else if which =? PRIO_PGRP then pid_threads k (the_group who)
  else match the_user who with
       | None => [] | Some uid => filter (λ p, belongs uid p = true) (all_threads k) end.

Definition clamp (n : Z) : Z := MIN_NICE `max` (n `min` MAX_NICE).
End calls.
