(* ===== verification/SysPrioProps.v ===== *)
(** * Priorities: properties *)

From S2P Require Import Prelude SysBase SysPrio.

Section loops.
Context (k : env).
Implicit Types (w : nices) (l : list Z).

(** [p] may be given the nice value [n] when it has [v]. *)
Definition may_set (p n v : Z) : Prop :=
  set_one_prio_perm k p = true ∧ (v ≤ n ∨ can_nice k p n = true) ∧ security_task_setnice k p n = 0.

Lemma set_one_prio_cases p n e w :
  (may_set p n (w p) ∧ set_one_prio k p n e w = (if e =? - ESRCH then 0 else e, <[p := n]> w)) ∨
  (∃ r, set_one_prio k p n e w = (r, w) ∧ (r = - EPERM ∨ r = - EACCES ∨ r = security_task_setnice k p n ∧ r ≠ 0)).
Proof.
  unfold set_one_prio, may_set. destruct (set_one_prio_perm k p); simpl; [|right; by eauto].
  destruct (Z.ltb_spec n (w p)), (can_nice k p n) eqn:Hn; simpl; try (right; by eauto);
    destruct (Z.eqb_spec (security_task_setnice k p n) 0) as [E|E]; simpl; try (right; by eauto 10); left;
    split_and!; auto with lia.
Qed.

Lemma set_each_effect l n e w p :
  (set_each k l n e w).2 p = w p ∨
  (p ∈ l ∧ may_set p n (w p) ∧ (set_each k l n e w).2 p = n).
Proof.
  revert e w. induction l as [|q l IH]; intros e w; simpl; [by left|].
  destruct (set_one_prio_cases q n e w) as [[Hm ->]|(r & -> & _)].
  - destruct (IH (if e =? - ESRCH then 0 else e) (<[q := n]> w)) as [E|(Hin & Hp & E)].
    + rewrite E. destruct (decide (q = p)) as [->|].
      * rewrite fn_lookup_insert. right. split; [left|done].
      * rewrite fn_lookup_insert_ne by done. by left.
    + rewrite E. destruct (decide (q = p)) as [->|].
      * right. split; [left|done].
      * rewrite fn_lookup_insert_ne in Hp by done. right. split; [by right|done].
  - destruct (IH r w) as [E|(Hin & Hp & E)]; [by left|]. right. split; [by right|done].
Qed.

(** A task that has the value already keeps it. *)
Lemma set_each_stays l n e w p : w p = n → (set_each k l n e w).2 p = n.
Proof. intros E. destruct (set_each_effect l n e w p) as [->|(_ & _ & ?)]; done. Qed.

(** The loop reports success only if every task was set, at least from the last one on
    that a security module refused with [-ESRCH]: the next success clears that error, and
    with it whatever failed before. *)
Lemma set_each_success l n e w :
  (set_each k l n e w).1 = 0 →
  ((e = 0 ∨ e = - ESRCH ∧ l ≠ []) ∧ ∀ p, p ∈ l → (set_each k l n e w).2 p = n) ∨
  (∃ l1 p l2, l = l1 ++ p :: l2 ∧ security_task_setnice k p n = - ESRCH ∧ l2 ≠ [] ∧
     ∀ q, q ∈ l2 → (set_each k l n e w).2 q = n).
Proof.
  revert e w. induction l as [|q l IH]; intros e w; simpl.
  - intros ->. left. split; [by left|]. intros p Hp. by apply elem_of_nil in Hp.
  - destruct (set_one_prio_cases q n e w) as [[_ ->]|(r & -> & Hr)];
      intros [[He Hl]|(l1 & p & l2 & -> & Hp & Hne & Hl)]%IH.
    + left. split.
      * destruct (Z.eqb_spec e (- ESRCH)); [by right|left]. destruct He as [?|[? _]]; done.
      * intros p [->|Hp]%elem_of_cons; [|by apply Hl]. apply set_each_stays. by rewrite fn_lookup_insert.
    + right. by exists (q :: l1), p, l2.
    + destruct He as [->|[-> Hne]]; [by destruct Hr as [?|[?|[? ?]]]|]. destruct Hr as [?|[?|[Hr _]]]; [done..|].
      right. by exists [], q, l.
    + right. by exists (q :: l1), p, l2.
Qed.
End loops.

Lemma clamp_code n :
  (let n1 := if n <? MIN_NICE then MIN_NICE else n in if MAX_NICE <? n1 then MAX_NICE else n1) = clamp n.
Proof.
  unfold clamp, MIN_NICE, MAX_NICE. cbv zeta. destruct (Z.ltb_spec n (-20));
    [rewrite (proj2 (Z.ltb_ge 19 (-20))) by lia; lia|]. destruct (Z.ltb_spec 19 n); lia.
Qed.

(** Both calls are loops over the targets. *)
Lemma setpriority_targets k which who n w :
  PRIO_PROCESS ≤ which ≤ PRIO_USER →
  setpriority k which who n w = set_each k (targets k which who) (clamp n) (- ESRCH) w.
Proof.
  intros Hw. unfold setpriority, targets. rewrite clamp_code.
  rewrite (proj2 (Z.ltb_ge PRIO_USER which)), (proj2 (Z.ltb_ge which PRIO_PROCESS)) by lia. simpl.
  destruct (which =? PRIO_PROCESS).
  - destruct (if who ≠? 0 then _ else _) as [p|]; simpl; [|done]. by destruct (set_one_prio k p _ _ w).
  - destruct (which =? PRIO_PGRP); [done|]. by destruct (the_user k who).
Qed.

Lemma getpriority_targets k which who w :
  PRIO_PROCESS ≤ which ≤ PRIO_USER →
  getpriority k which who w = get_each k (targets k which who) (- ESRCH) w.
Proof.
  intros Hw. unfold getpriority, targets.
  rewrite (proj2 (Z.ltb_ge PRIO_USER which)), (proj2 (Z.ltb_ge which PRIO_PROCESS)) by lia. simpl.
  destruct (which =? PRIO_PROCESS).
  - by destruct (if who ≠? 0 then _ else _) as [p|].
  - destruct (which =? PRIO_PGRP); [done|]. by destruct (the_user k who).
Qed.

(** [get_each] is the maximum. *)
Lemma get_each_max k l r w :
  r ≤ get_each k l r w ∧ (∀ p, p ∈ l → nice_to_rlimit k (w p) ≤ get_each k l r w) ∧
  (get_each k l r w = r ∨ ∃ p, p ∈ l ∧ get_each k l r w = nice_to_rlimit k (w p)).
Proof.
  revert r. induction l as [|q l IH]; intros r; simpl.
  - split; [lia|]. split; [intros p Hp; by apply elem_of_nil in Hp|by left].
  - destruct (IH (if r <? nice_to_rlimit k (w q) then nice_to_rlimit k (w q) else r)) as (H1 & H2 & H3).
    fold (get_each k l (if r <? nice_to_rlimit k (w q) then nice_to_rlimit k (w q) else r) w).
    destruct (Z.ltb_spec r (nice_to_rlimit k (w q))); split_and!; try lia.
    + intros p [->|Hp]%elem_of_cons; [done|by apply H2].
    + right. destruct H3 as [->|(p & Hp & ->)]; [exists q|exists p]; split; [left|done|by right|done].
    + intros p [->|Hp]%elem_of_cons; [lia|by apply H2].
    + destruct H3 as [->|(p & Hp & ->)]; [by left|right]. exists p. split; [by right|done].
Qed.

(** ** The claims *)

(** Only allowed changes: [setpriority] leaves a task alone, or gives it the nice
    value asked for, brought into -20..19; then the call meant this task, the caller's
    effective user owns it or has the capability, the security modules agree, and the
    value is not lower than before unless the task may lower it. *)
Theorem prio_only_allowed (k : env) (which who n p : Z) (w : nices) :
  let w' := (setpriority k which who n w).2 in
  w' p = w p ∨
  (w' p = clamp n ∧ MIN_NICE ≤ w' p ≤ MAX_NICE ∧ p ∈ targets k which who ∧
   set_one_prio_perm k p = true ∧ security_task_setnice k p (clamp n) = 0 ∧
   (w p ≤ clamp n ∨ can_nice k p (clamp n) = true)).
Proof.
  cbv zeta. destruct (decide (PRIO_PROCESS ≤ which ≤ PRIO_USER)) as [Hw|Hw].
  - rewrite setpriority_targets by done.
    destruct (set_each_effect k (targets k which who) (clamp n) (- ESRCH) w p) as [->|(Hin & Hm & ->)];
      [by left|right]. destruct Hm as (? & ? & ?). split_and!; try done;
      unfold clamp, MIN_NICE, MAX_NICE; lia.
  - left. unfold setpriority.
    destruct (Z.ltb_spec PRIO_USER which); [done|]. destruct (Z.ltb_spec which PRIO_PROCESS); [done|]. lia.
Qed.

(** C37. Setting and reading back: if [setpriority] returns 0, the tasks it means have the
    value asked for, brought into -20..19: all of them, and then [getpriority] for the same
    tasks returns that value in its positive coding 40..1, unless a security module
    refused one of them with [-ESRCH]; in that case all after the last task refused in
    this way, of which there is at least one, since the loop takes [-ESRCH] for "no task
    yet" and forgets it, with whatever failed before, at the next success. *)
Theorem prio_roundtrip (k : env) (which who n : Z) (w w' : nices) :
  (∀ m, MIN_NICE ≤ m ≤ MAX_NICE → nice_to_rlimit k m = MAX_NICE - m + 1) →
  setpriority k which who n w = (0, w') →
  ((∀ p, p ∈ targets k which who → w' p = clamp n) ∧ getpriority k which who w' = 20 - clamp n) ∨
  (∃ l1 p l2, targets k which who = l1 ++ p :: l2 ∧ security_task_setnice k p (clamp n) = - ESRCH ∧
     l2 ≠ [] ∧ ∀ q, q ∈ l2 → w' q = clamp n).
Proof.
  intros Hr E.
  assert (PRIO_PROCESS ≤ which ≤ PRIO_USER) as Hw.
  { unfold setpriority in E. destruct (Z.ltb_spec PRIO_USER which); [done|].
    destruct (Z.ltb_spec which PRIO_PROCESS); [done|]. lia. }
  rewrite setpriority_targets in E by done. rewrite getpriority_targets by done.
  assert ((set_each k (targets k which who) (clamp n) (- ESRCH) w).1 = 0) as E0 by by rewrite E.
  apply set_each_success in E0. rewrite E in E0. simpl in E0. destruct E0 as [[[?|[_ Hne]] Hall]|H]; [done| |by right].
  left. split; [done|].
  assert (nice_to_rlimit k (clamp n) = 20 - clamp n) as Hc.
  { rewrite Hr; unfold clamp, MIN_NICE, MAX_NICE; lia. }
  destruct (get_each_max k (targets k which who) (- ESRCH) w') as (_ & H2 & [H3|(p & Hp & ->)]).
  - destruct (targets k which who) as [|p l]; [done|]. specialize (H2 p ltac:(left)).
    rewrite H3, Hall, Hc in H2 by left. unfold clamp, MIN_NICE, MAX_NICE, ESRCH in *. lia.
  - by rewrite Hall.
Qed.

Definition small_env : env :=
  mkEnv 1 (λ v, if v =? 2 then Some 2 else if v =? 1 then Some 1 else None) Some (λ p, Some 1)
    (λ g, if decide (g = Some 1) then [1; 2] else []) [1; 2] (λ _, 1000) (λ _, 1000) id id (λ _, false)
    (λ _, false) (λ _ _, false) (λ _ _, 0) (λ m, 20 - m).

Lemma prio_roundtrip_witness :
  (setpriority small_env PRIO_PGRP 0 100 (λ _, 0)).1 = 0 ∧
  getpriority small_env PRIO_PGRP 0 (setpriority small_env PRIO_PGRP 0 100 (λ _, 0)).2 = 1.
Proof.
  split; [done|].
  destruct (prio_roundtrip small_env PRIO_PGRP 0 100 (λ _, 0) (setpriority small_env PRIO_PGRP 0 100 (λ _, 0)).2)
    as [[_ H]|(l1 & p & l2 & _ & H & _)]; [|done|exact H|done].
  intros m Hm. unfold small_env, MAX_NICE. simpl. lia.
Defined.
