(* ===== verification/SysPgrp.v ===== *)
(** * Process groups and sessions (Project0/submission/sys.c)

    [setpgid], [getpgid], [getsid], [setsid] and the calls that give a process its own
    numbers.  The state holds what the calls change;
    the tables of tasks and process numbers are an argument.  A task and a [struct pid]
    are numbers of their own kind, a number a program sees is a third kind; NULL is
    [None].  A task that is found has not been released yet, so that it has a group and a
    session. *)

From S2P Require Import Prelude SysBase.

(** By process (thread group leader): the group, the session, whether it leads its
    session, whether it has a terminal. *)
Record procs : Type := mkProcs {
  pgrp : Z → Z;
  session : Z → Z;
  leader : Z → bool;
  tty : Z → bool;
}.

(** [change_pid(p, PIDTYPE_PGID, pid)] and the like. *)
Definition set_pgrp (p g : Z) (w : procs) : procs := mkProcs (<[p := g]> (pgrp w)) (session w) (leader w) (tty w).
Definition set_session (p g : Z) (w : procs) : procs := mkProcs (pgrp w) (<[p := g]> (session w)) (leader w) (tty w).
Definition set_leader (p : Z) (w : procs) : procs := mkProcs (pgrp w) (session w) (<[p := true]> (leader w)) (tty w).
Definition proc_clear_tty (p : Z) (w : procs) : procs := mkProcs (pgrp w) (session w) (leader w) (<[p := false]> (tty w)).

Record env : Type := mkEnv {
  group_leader : Z → Z;
  real_parent : Z → Z;
  tgid : Z → Z;
  forknoexec : Z → bool;               (* p->flags & PF_FORKNOEXEC *)
  task_pid : Z → Z;
  pid_vnr : Z → Z;
  find_vpid : Z → option Z;
  find_task_by_vpid : Z → option Z;
  pid_task_pgid : procs → option Z → option Z;   (* pid_task(pid, PIDTYPE_PGID) *)
  security_task_setpgid : Z → Z → Z;
  security_task_getpgid : Z → Z;
  security_task_getsid : Z → Z;
}.

Section calls.
Context (k : env) (current : Z).

Definition task_pgrp (p : Z) (w : procs) : Z := pgrp w (group_leader k p).
Definition task_session (p : Z) (w : procs) : Z := session w (group_leader k p).
Definition thread_group_leader (p : Z) : bool := group_leader k p =? p.
Definition same_thread_group (p q : Z) : bool := tgid k p =? tgid k q.

(** The checks of [setpgid] on the process; [None]: they passed. *)
Definition setpgid_refused (p : Z) (w : procs) : option Z :=
  let gl := group_leader k current in
  if negb (thread_group_leader p) then Some (- EINVAL)
  else
    let refused :=
      if same_thread_group (real_parent k p) gl then
        if task_session p w ≠? task_session gl w then Some (- EPERM)
        else if negb (forknoexec k p) then Some (- EACCES) else None
      else if p ≠? gl then Some (- ESRCH) else None in
    match refused with
    | Some e => Some e
    | None => if leader w (group_leader k p) then Some (- EPERM) else None
    end.

(** The group [pgid] names; [None]: it is not a group of the caller's session. *)
Definition setpgid_group (p pid pgid : Z) (w : procs) : option Z :=
  if pgid ≠? pid then
    let pgrp := find_vpid k pgid in
    match pid_task_pgid k w pgrp with
    | None => None
    | Some g => if task_session g w ≠? task_session (group_leader k current) w then None else pgrp
    end
  else Some (task_pid k p).

Definition setpgid (pid pgid : Z) (w : procs) : Z * procs :=
  let gl := group_leader k current in
  let pid := if pid =? 0 then pid_vnr k (task_pid k gl) else pid in
  let pgid := if pgid =? 0 then pid else pgid in
  if pgid <? 0 then (- EINVAL, w)
  else
    match find_task_by_vpid k pid with
    | None => (- ESRCH, w)
    | Some p =>
        match setpgid_refused p w with
        | Some e => (e, w)
        | None =>
            match setpgid_group p pid pgid w with
            | None => (- EPERM, w)
            | Some g =>
                let err := security_task_setpgid k p pgid in
                if err ≠? 0 then (err, w)
                else (0, if task_pgrp p w ≠? g then set_pgrp p g w else w)
            end
        end
    end.

Definition getpgid (pid : Z) (w : procs) : Z :=
  if pid =? 0 then pid_vnr k (task_pgrp current w)
  else
    match find_task_by_vpid k pid with
    | None => - ESRCH
    | Some p =>
        let retval := security_task_getpgid k p in
        if retval ≠? 0 then retval else pid_vnr k (task_pgrp p w)
    end.

Definition getsid (pid : Z) (w : procs) : Z :=
  if pid =? 0 then pid_vnr k (task_session current w)
  else
    match find_task_by_vpid k pid with
    | None => - ESRCH
    | Some p =>
        let retval := security_task_getsid k p in
        if retval ≠? 0 then retval else pid_vnr k (task_session p w)
    end.

#[local] Notation task_pid_vnr p := (pid_vnr k (task_pid k p)).
#[local] Notation task_tgid_vnr p := (task_pid_vnr (group_leader k p)).

Definition getpid : Z := task_tgid_vnr current.
Definition gettid : Z := task_pid_vnr current.
Definition getppid : Z := task_tgid_vnr (real_parent k current).
Definition getpgrp (w : procs) : Z := getpgid 0 w.

Definition set_special_pids (pid : Z) (w : procs) : procs :=
  let curr := group_leader k current in
  let w := if task_session curr w ≠? pid then set_session curr pid w else w in
  if task_pgrp curr w ≠? pid then set_pgrp curr pid w else w.

Definition setsid (w : procs) : Z * procs :=
  let gl := group_leader k current in
  let sid := task_pid k gl in
  let session := pid_vnr k sid in
  if leader w (group_leader k gl) then (- EPERM, w)
  else
    match pid_task_pgid k w (Some sid) with
    | Some _ => (- EPERM, w)
    | None => (session, proc_clear_tty gl (set_special_pids sid (set_leader gl w)))
    end.
End calls.

Inductive call : Type := SETPGID (pid pgid : Z) | SETSID.

Definition exec (k : env) (current : Z) (c : call) (w : procs) : Z * procs :=
  match c with SETPGID pid pgid => setpgid k current pid pgid w | SETSID => setsid k current w end.

(** A sequence of calls by various tasks. *)
Fixpoint run (k : env) (l : list (Z * call)) (w : procs) : procs :=
  match l with [] => w | (cur, c) :: l' => run k l' (exec k cur c w).2 end.
