(* ===== verification/SysPgrpProps.v ===== *)
(** * Process groups and sessions: properties *)

From S2P Require Import Prelude SysBase SysPgrp.

(** ** What the tables of tasks and numbers promise

    [proc] are the processes, that is the thread group leaders. *)

Class PidSpec (k : env) (proc : Z → Prop) : Prop := {
  leader_proc p : proc (group_leader k p);
  proc_leader p : proc p → group_leader k p = p;
  task_pid_inj p q : proc p → proc q → task_pid k p = task_pid k q → p = q;
  pid_task_member w o x :
    pid_task_pgid k w o = Some x → proc x ∧ o = Some (pgrp w x);
  pid_task_empty w g p : pid_task_pgid k w (Some g) = None → proc p → pgrp w p ≠ g;
}.

(** ** The invariant *)

Record groups_ok (k : env) (proc : Z → Prop) (w : procs) : Prop := mkGroupsOk {
  (* a group lies in one session *)
  g_group p q : proc p → proc q → pgrp w p = pgrp w q → session w p = session w q;
  (* also together with the process that gave the group its number *)
  g_number p q : proc p → proc q → pgrp w q = task_pid k p → session w q = session w p;
  (* a session leader leads its group *)
  g_leader p : proc p → leader w p = true → pgrp w p = task_pid k p ∧ session w p = task_pid k p;
}.

Section calls.
Context (k : env) (proc : Z → Prop) `{!PidSpec k proc}.
Implicit Types (w : procs) (p q : Z).
Abbreviation ok := (groups_ok k proc).

Lemma thread_group_leader_proc p : thread_group_leader k p = true → proc p ∧ group_leader k p = p.
Proof using All.
  unfold thread_group_leader. rewrite Z.eqb_eq. intros E. split; [|done]. rewrite <-E. apply leader_proc.
Qed.

(** A process that may be moved is in the caller's session and does not lead it. *)
Lemma setpgid_allowed cur p w :
  setpgid_refused k cur p w = None →
  proc p ∧ group_leader k p = p ∧ leader w p = false ∧ session w p = session w (group_leader k cur).
Proof using All.
  unfold setpgid_refused. destruct (thread_group_leader k p) eqn:Ht; [|done].
  apply thread_group_leader_proc in Ht as [Hp El]. simpl. unfold task_session.
  rewrite (proc_leader (group_leader k cur)) by apply leader_proc. rewrite El.
  destruct (same_thread_group k _ _).
  - destruct (Z.eqb_spec (session w p) (session w (group_leader k cur))); [|done]. simpl.
    destruct (forknoexec k p); [|done]. simpl. by destruct (leader w p).
  - destruct (Z.eqb_spec p (group_leader k cur)) as [->|]; [|done]. simpl. by destruct (leader w _).
Qed.

Lemma setpgid_refused_neg cur p w e : setpgid_refused k cur p w = Some e → e < 0.
Proof using.
  unfold setpgid_refused. intros H. repeat case_match; simplify_eq; done.
Qed.

(** The group it may join is its own or has a member in the caller's session. *)
Lemma setpgid_group_cases cur p pid pgid w g :
  setpgid_group k cur p pid pgid w = Some g →
  g = task_pid k p ∨ ∃ x, proc x ∧ pgrp w x = g ∧ session w x = session w (group_leader k cur).
Proof using All.
  unfold setpgid_group. destruct (pgid =? pid); simpl; [by intros [= ->]; left|].
  destruct (pid_task_pgid k w _) as [x|] eqn:E; [|done].
  apply pid_task_member in E as [Hx ->]. unfold task_session.
  rewrite (proc_leader (group_leader k cur)) by apply leader_proc. rewrite (proc_leader x) by done.
  destruct (Z.eqb_spec (session w x) (session w (group_leader k cur))); [|done]. intros [= <-]. right. eauto.
Qed.

(** Moving a process that leads no session to a group of its session. *)
Lemma set_pgrp_ok w p g :
  ok w → proc p → leader w p = false →
  (∀ q, proc q → q ≠ p → pgrp w q = g → session w q = session w p) →
  (∀ q, proc q → g = task_pid k q → session w p = session w q) →
  ok (set_pgrp p g w).
Proof using All.
  intros [H1 H2 H3] Hp Hl Hg Hn. split; simpl.
  - intros x y Hx Hy. destruct (decide (p = x)) as [<-|Hnx], (decide (p = y)) as [<-|Hny];
      rewrite ?fn_lookup_insert, ?fn_lookup_insert_ne by done; [done| | |by apply H1].
    + intros E. symmetry. by apply Hg.
    + intros E. by apply Hg.
  - intros x y Hx Hy. destruct (decide (p = y)) as [<-|Hny];
      rewrite ?fn_lookup_insert, ?fn_lookup_insert_ne by done; [|by apply H2]. intros E. by apply Hn.
  - intros x Hx Hlx. rewrite fn_lookup_insert_ne by congruence. by apply H3.
Qed.

Lemma setpgid_ok cur pid pgid w : ok w → ok (setpgid k cur pid pgid w).2.
Proof using All.
  intros Hok. unfold setpgid.
  destruct (_ <? 0); [done|]. destruct (find_task_by_vpid k _) as [p|]; [|done].
  destruct (setpgid_refused k cur p w) eqn:Er; [done|].
  apply setpgid_allowed in Er as (Hp & El & Hl & Hs).
  destruct (setpgid_group k cur p _ _ w) as [g|] eqn:Eg; [|done].
  destruct (_ ≠? 0); [done|]. simpl. destruct (_ ≠? g); [|done].
  pose proof Hok as [H1 H2 H3].
  apply setpgid_group_cases in Eg as [->|(x & Hx & <- & Hsx)].
  - apply set_pgrp_ok; [done..| |]. { intros q Hq _ E. by apply H2. }
    intros q Hq E. by rewrite (task_pid_inj p q).
  - apply set_pgrp_ok; [done..| |].
    + intros q Hq _ E. rewrite Hs, <-Hsx. by apply H1.
    + intros q Hq E. rewrite Hs, <-Hsx. by apply H2.
Qed.

(** What [setsid] does when it succeeds. *)
Lemma setsid_result cur w w' r :
  setsid k cur w = (r, w') →
  let gl := group_leader k cur in
  (r = - EPERM ∧ w' = w ∧ (leader w gl = true ∨ ∃ p, proc p ∧ pgrp w p = task_pid k gl)) ∨
  (r = pid_vnr k (task_pid k gl) ∧ leader w gl = false ∧ (∀ p, proc p → pgrp w p ≠ task_pid k gl) ∧
   (∀ p, pgrp w' p = (<[gl := task_pid k gl]> (pgrp w)) p) ∧
   (∀ p, session w' p = (<[gl := task_pid k gl]> (session w)) p) ∧
   leader w' = <[gl := true]> (leader w) ∧ tty w' gl = false).
Proof using All.
  cbv zeta. set (gl := group_leader k cur). unfold setsid. fold gl.
  assert (group_leader k gl = gl) as El by (apply proc_leader, leader_proc). rewrite El.
  destruct (leader w gl); [intros [= <- <-]; by left; auto|].
  destruct (pid_task_pgid k w _) as [p|] eqn:Ep; intros [= <- <-].
  - left. apply pid_task_member in Ep as [Hp E]. split_and!; [done..|]. right. exists p. split; [done|congruence].
  - right. split_and!; try done; [intros p; by apply pid_task_empty|..];
      unfold set_special_pids, task_session, task_pgrp; fold gl; rewrite ?El; simpl.
    + intros p. destruct (Z.eqb_spec (session w gl) (task_pid k gl)); simpl; rewrite ?El; simpl;
        (destruct (Z.eqb_spec (pgrp w gl) (task_pid k gl)) as [E|]; simpl; [|done]; rewrite <-E;
         destruct (decide (gl = p)) as [<-|]; by rewrite ?fn_lookup_insert, ?fn_lookup_insert_ne).
    + intros p. destruct (Z.eqb_spec (session w gl) (task_pid k gl)) as [E|]; simpl;
        case_match; simpl; try done; rewrite <-E;
        destruct (decide (gl = p)) as [<-|]; by rewrite ?fn_lookup_insert, ?fn_lookup_insert_ne.
    + by repeat case_match.
    + by rewrite fn_lookup_insert.
Qed.

Lemma setsid_ok cur w : ok w → ok (setsid k cur w).2.
Proof using All.
  intros Hok. destruct (setsid k cur w) as [r w'] eqn:E. simpl.
  destruct (setsid_result cur w w' r E) as [(_ & -> & _)|(_ & Hl & Hno & Hg & Hs & Hld & _)]; [done|].
  set (gl := group_leader k cur) in *. destruct Hok as [H1 H2 H3].
  assert (proc gl) as Hgl by apply leader_proc. split.
  - intros p q Hp Hq. rewrite !Hg, !Hs. specialize (H1 p q). pose proof (Hno p Hp). pose proof (Hno q Hq).
    destruct (decide (gl = p)) as [<-|], (decide (gl = q)) as [<-|];
      rewrite ?fn_lookup_insert, ?fn_lookup_insert_ne by done; auto; congruence.
  - intros p q Hp Hq. rewrite Hg, !Hs. specialize (H2 p q Hp Hq). pose proof (Hno q Hq).
    destruct (decide (gl = p)) as [<-|], (decide (gl = q)) as [<-|];
      rewrite ?fn_lookup_insert, ?fn_lookup_insert_ne by done; auto; try congruence.
    intros E'%task_pid_inj; done.
  - intros p Hp. rewrite Hld, Hg, Hs.
    destruct (decide (gl = p)) as [<-|]; rewrite ?fn_lookup_insert, ?fn_lookup_insert_ne by done; [done|].
    by apply H3.
Qed.

Lemma run_ok l w : ok w → ok (run k l w).
Proof using All.
  revert w. induction l as [|[cur c] l IH]; intros w Hw; [done|]. apply IH.
  destruct c; [by apply setpgid_ok|by apply setsid_ok].
Qed.
End calls.

(** ** The claims *)

(** C18. Groups and sessions fit together: from a state in which every process group lies
    in one session and session leaders lead their group, every sequence of [setpgid] and
    [setsid] calls by any tasks leads to such a state.  ([setsid] checks that no group
    has the number of the caller; without it the session of that group would split.) *)
Theorem pgrp_sessions (k : env) (proc : Z → Prop) (l : list (Z * call)) (w : procs) :
  PidSpec k proc → groups_ok k proc w → groups_ok k proc (run k l w).
Proof. intros Hk. apply (run_ok k proc). Qed.

(** Three processes 1, 2, 3; process 1 is the parent of the others. *)
Definition three_env : env :=
  mkEnv (λ p, if (1 <=? p) && (p <=? 3) then p else 1) (λ p, if p =? 1 then 0 else 1) id (λ _, true)
    (λ p, p + 10) (λ g, g - 10) (λ v, if (1 <=? v) && (v <=? 3) then Some (v + 10) else None)
    (λ v, if (1 <=? v) && (v <=? 3) then Some v else None)
    (λ w o, g ← o; head (filter (λ p, pgrp w p = g) [1; 2; 3])) (λ _ _, 0) (λ _, 0) (λ _, 0).

Definition three_procs : procs := mkProcs (λ _, 11) (λ _, 11) (λ p, p =? 1) (λ _, true).

#[global] Instance three_spec : PidSpec three_env (λ p, 1 ≤ p ≤ 3).
Proof.
  split; simpl.
  - intros p. destruct (Z.leb_spec 1 p), (Z.leb_spec p 3); simpl; lia.
  - intros p Hp. destruct (Z.leb_spec 1 p), (Z.leb_spec p 3); simpl; lia.
  - lia.
  - intros w o x Hx. destruct o as [g|]; [|done]. simpl in Hx. apply list.head_Some_elem_of in Hx.
    apply list_elem_of_filter in Hx as [<- Hx]. rewrite !elem_of_cons, elem_of_nil in Hx. split; [lia|done].
  - intros w g p Hnone Hp E. simpl in Hnone. apply head_None in Hnone.
    assert (p ∈ filter (λ p, pgrp w p = g) [1; 2; 3]) as Hin.
    { apply list_elem_of_filter. split; [done|]. rewrite !elem_of_cons. lia. }
    rewrite Hnone in Hin. by apply elem_of_nil in Hin.
Qed.

Lemma pgrp_sessions_witness :
  groups_ok three_env (λ p, 1 ≤ p ≤ 3) (run three_env [(1, SETPGID 2 2); (1, SETPGID 3 2); (3, SETSID)] three_procs).
Proof.
  apply (pgrp_sessions three_env); [apply _|]. split; simpl; [done|done|].
  intros p Hp E. apply Z.eqb_eq in E as ->. done.
Defined.

(** [setsid] fails exactly if the caller's process leads a session or a group has its
    number; otherwise the process alone is moved to a new session and a new group with its
    number, leads them, loses its terminal, and the number is returned. *)
Theorem pgrp_setsid (k : env) (proc : Z → Prop) (cur : Z) (w : procs) :
  PidSpec k proc →
  let gl := group_leader k cur in
  let '(r, w') := setsid k cur w in
  (r = - EPERM ∧ w' = w ∧ (leader w gl = true ∨ ∃ p, proc p ∧ pgrp w p = task_pid k gl)) ∨
  (r = pid_vnr k (task_pid k gl) ∧ leader w gl = false ∧ (∀ p, proc p → pgrp w p ≠ task_pid k gl) ∧
   (∀ p, pgrp w' p = (<[gl := task_pid k gl]> (pgrp w)) p) ∧
   (∀ p, session w' p = (<[gl := task_pid k gl]> (session w)) p) ∧
   leader w' = <[gl := true]> (leader w) ∧ tty w' gl = false).
Proof.
  intros Hk gl. destruct (setsid k cur w) as [r w'] eqn:E. by apply (setsid_result k proc cur w w' r).
Qed.

Lemma pgrp_setsid_witness :
  (setsid three_env 2 three_procs).1 = 2 ∧
  leader (setsid three_env 2 three_procs).2 = <[2 := true]> (leader three_procs).
Proof.
  split; [done|].
  destruct (pgrp_setsid three_env (λ p, 1 ≤ p ≤ 3) 2 three_procs _) as [(? & _)|(_ & _ & _ & _ & _ & E & _)];
    [done|exact E].
Defined.

(** [setpgid] and [getpgid]: when [setpgid] returns 0 it has changed the group of the
    process named and nothing else, and [getpgid] returns the group asked for; when it
    fails, nothing has changed. *)
Theorem pgrp_setpgid (k : env) (proc : Z → Prop) (cur pid pgid : Z) (w : procs) :
  PidSpec k proc →
  (∀ v g, find_vpid k v = Some g → pid_vnr k g = v) →
  (∀ v p, find_task_by_vpid k v = Some p → pid_vnr k (task_pid k p) = v) →
  (∀ p, security_task_getpgid k p = 0) →
  pid ≠ 0 →
  let '(r, w') := setpgid k cur pid pgid w in
  (r = 0 →
   getpgid k cur pid w' = (if pgid =? 0 then pid else pgid) ∧ session w' = session w ∧ leader w' = leader w ∧
   ∀ p, find_task_by_vpid k pid ≠ Some p → pgrp w' p = pgrp w p) ∧
  (r ≠ 0 → w' = w).
Proof.
  intros Hk Hv Ht Hs Hpid. unfold setpgid, getpgid. rewrite (proj2 (Z.eqb_neq pid 0)) by done.
  set (pg := if pgid =? 0 then pid else pgid).
  destruct (pg <? 0); [done|]. destruct (find_task_by_vpid k pid) as [p|] eqn:Ep; [|done].
  destruct (setpgid_refused k cur p w) as [e|] eqn:Er.
  { split; [|done]. intros ->. exfalso. by apply (setpgid_refused_neg k cur p w 0) in Er. }
  apply (setpgid_allowed k proc) in Er as (Hp & El & Hl & _).
  destruct (setpgid_group k cur p pid pg w) as [g|] eqn:Eg; [|done].
  assert (pid_vnr k g = pg) as Hg.
  { unfold setpgid_group in Eg. destruct (Z.eqb_spec pg pid) as [->|]; simpl in Eg.
    - injection Eg as <-. by apply Ht.
    - destruct (pid_task_pgid k w _); [|done]. destruct (_ ≠? _); [done|]. by apply Hv. }
  destruct (Z.eqb_spec (security_task_setpgid k p pg) 0) as [->|]; [|done]. split; [|done]. intros _. rewrite Hs. simpl.
  unfold task_pgrp. rewrite El. destruct (Z.eqb_spec (pgrp w p) g) as [E|]; simpl.
  - by rewrite E.
  - rewrite fn_lookup_insert. split_and!; [done..|]. intros q Hq. apply fn_lookup_insert_ne. congruence.
Qed.

Lemma pgrp_setpgid_witness : getpgid three_env 1 2 (setpgid three_env 1 2 0 three_procs).2 = 2.
Proof.
  refine (proj1 (proj1 (pgrp_setpgid three_env (λ p, 1 ≤ p ≤ 3) 1 2 0 three_procs _ _ _ _ _) eq_refl)); simpl.
  - intros v g. destruct ((1 <=? v) && (v <=? 3)); intros [= <-]. lia.
  - intros v g. destruct ((1 <=? v) && (v <=? 3)); intros [= <-]. lia.
  - done.
  - done.
Defined.

(** ** A process and its own numbers *)

(** In [setpgid] a process may name itself, and the group named after it, by 0 or by what
    [getpid] returns. *)
Theorem pgrp_self_names (k : env) (cur pgid : Z) (w : procs) :
  let me := getpid k cur in
  setpgid k cur 0 pgid w = setpgid k cur me pgid w ∧ setpgid k cur me 0 w = setpgid k cur me me w.
Proof.
  cbv zeta. unfold setpgid, getpid. rewrite Z.eqb_refl. set (me := pid_vnr k _).
  destruct (Z.eqb_spec me 0) as [->|E]; by rewrite ?Z.eqb_refl.
Qed.

(** After a [setsid] that succeeds every thread of the process finds itself in the session
    and the group that [getpid] names; for the thread that leads the process, [gettid]
    names them too. *)
Theorem pgrp_setsid_names (k : env) (proc : Z → Prop) (cur cur' r : Z) (w w' : procs) :
  PidSpec k proc → setsid k cur w = (r, w') → r ≠ - EPERM →
  group_leader k cur' = group_leader k cur →
  r = getpid k cur' ∧ getsid k cur' 0 w' = r ∧ getpgrp k cur' w' = r ∧
  (thread_group_leader k cur' = true → gettid k cur' = r).
Proof.
  intros Hk E Hr Hc. destruct (setsid_result k proc cur w w' r E) as [(-> & _)|(-> & _ & _ & Hg & Hs & _)]; [done|].
  unfold getpid, getpgrp, getpgid, getsid, task_session, task_pgrp, gettid, thread_group_leader.
  rewrite Hc, Hg, Hs, !fn_lookup_insert. split_and!; try done.
  intros <-%Z.eqb_eq. done.
Qed.

Lemma pgrp_setsid_names_witness :
  getpgrp three_env 2 (setsid three_env 2 three_procs).2 = getpid three_env 2.
Proof.
  destruct (pgrp_setsid_names three_env (λ p, 1 ≤ p ≤ 3) 2 2 2 three_procs (setsid three_env 2 three_procs).2)
    as (H1 & _ & H3 & _); [apply _|reflexivity|done|done|]. rewrite H3. exact H1.
Defined.
