(* ===== verification/SysRlimit.v ===== *)
(** * Resource limits (Project0/submission/sys.c)

    [do_prlimit] and the system calls on top of it, on a machine whose [unsigned long]
    has [width] bits.  The limits belong to [tsk->signal], which the threads of a process
    share.  A pointer of the caller is NULL, or copying fails, or it gives a value. *)

From S2P Require Import Prelude SysBase.

Class Bitwidth (width : Z) : Prop := width_cases : width = 32 ∨ width = 64.
#[global] Instance width_32 : Bitwidth 32.
Proof. by left. Qed.
#[global] Instance width_64 : Bitwidth 64.
Proof. by right. Qed.

Definition RLIM_NLIMITS : Z := 16.
Definition RLIMIT_CPU : Z := 0.
Definition RLIMIT_NOFILE : Z := 7.

Record rlimit : Type := mkRlimit { rlim_cur : Z; rlim_max : Z }.

(** The limits by process and resource, and what [update_rlimit_cpu] was last told. *)
Record lims : Type := mkLims {
  rlims : Z → Z → rlimit;
  cpu_timer : Z → option Z;
}.

Record env : Type := mkEnv {
  signal : Z → Z;
  sighand : Z → bool;
  find_task_by_vpid : Z → option Z;
  uid : Z → Z; euid : Z → Z; suid : Z → Z;
  gid : Z → Z; egid : Z → Z; sgid : Z → Z;
  capable_resource : Z → bool;         (* the task has CAP_SYS_RESOURCE *)
  ns_capable_resource : Z → Z → bool;  (* the task has it towards the namespace of another *)
  security_task_setrlimit : Z → Z → rlimit → Z;
  sysctl_nr_open : Z;
}.

Inductive user_ptr (A : Type) : Type := NULL | Fault | User (a : A).
Arguments NULL {A}. Arguments Fault {A}. Arguments User {A} a.

Section calls.
Context (width : Z) (k : env) (current : Z).

Definition RLIM_INFINITY : Z := 2 ^ width - 1.
Definition ULONG_MAX : Z := 2 ^ width - 1.
Definition RLIM64_INFINITY : Z := 2 ^ 64 - 1.

Definition rlim64_is_infinity (v : Z) : bool :=
  if width <? 64 then ULONG_MAX <=? v else v =? RLIM64_INFINITY.

Definition rlim_to_rlim64 (r : rlimit) : rlimit :=
  mkRlimit (if rlim_cur r =? RLIM_INFINITY then RLIM64_INFINITY else rlim_cur r)
           (if rlim_max r =? RLIM_INFINITY then RLIM64_INFINITY else rlim_max r).

Definition rlim64_to_rlim (r : rlimit) : rlimit :=
  mkRlimit (if rlim64_is_infinity (rlim_cur r) then RLIM_INFINITY else rlim_cur r mod 2 ^ width)
           (if rlim64_is_infinity (rlim_max r) then RLIM_INFINITY else rlim_max r mod 2 ^ width).

(** An [unsigned int]. *)
Definition uint (v : Z) : Z := v mod 2 ^ 32.

(** [*rlim = *new_rlim] *)
Definition set_rlim (p resource : Z) (r : rlimit) (w : lims) : lims :=
  mkLims (<[p := <[resource := r]> (rlims w p)]> (rlims w)) (cpu_timer w).
Definition update_rlimit_cpu (p v : Z) (w : lims) : lims :=
  mkLims (rlims w) (<[p := Some v]> (cpu_timer w)).

(** The checks before any lock is taken; [None]: they passed. *)
Definition prlimit_refused (resource : Z) (new_rlim : option rlimit) : option Z :=
  if RLIM_NLIMITS <=? resource then Some (- EINVAL)
  else
    match new_rlim with
    | None => None
    | Some n =>
        if rlim_max n <? rlim_cur n then Some (- EINVAL)
        else if (resource =? RLIMIT_NOFILE) && (sysctl_nr_open k <? rlim_max n) then Some (- EPERM)
        else None
    end.

(** The result, what is stored through [old_rlim] (if it is not NULL), and the new
    state. *)
Definition do_prlimit (tsk resource : Z) (new_rlim : option rlimit) (w : lims) : Z * option rlimit * lims :=
  let resource := uint resource in
  match prlimit_refused resource new_rlim with
  | Some e => (e, None, w)
  | None =>
      if negb (sighand k tsk) then (- ESRCH, None, w)
      else
        let p := signal k tsk in
        let rlim := rlims w p resource in
        match new_rlim with
        | None => (0, Some rlim, w)
        | Some n =>
            let retval := if (rlim_max rlim <? rlim_max n) && negb (capable_resource k current)
                          then - EPERM else 0 in
            let retval := if retval =? 0 then security_task_setrlimit k tsk resource n else retval in
            let n := if (resource =? RLIMIT_CPU) && (rlim_cur n =? 0) then mkRlimit 1 (rlim_max n) else n in
            if retval =? 0 then
              let w := set_rlim p resource n w in
              let w := if (resource =? RLIMIT_CPU) && (rlim_cur n ≠? RLIM_INFINITY)
                       then update_rlimit_cpu p (rlim_cur n) w else w in
              (0, Some rlim, w)
            else (retval, None, w)
        end
  end.

(** [copied]: copying to the caller works.  The value is what the caller gets. *)
Definition getrlimit (resource : Z) (copied : bool) (w : lims) : Z * option rlimit :=
  let '(ret, value, _) := do_prlimit current resource None w in
  if ret =? 0 then if copied then (0, value) else (- EFAULT, None) else (ret, None).

Definition old_getrlimit (resource : Z) (copied : bool) (w : lims) : Z * option rlimit :=
  let resource := uint resource in
  if RLIM_NLIMITS <=? resource then (- EINVAL, None)
  else
    let x := rlims w (signal k current) resource in
    let cap v := if 2147483647 <? v then 2147483647 else v in
    if copied then (0, Some (mkRlimit (cap (rlim_cur x)) (cap (rlim_max x)))) else (- EFAULT, None).

Definition check_prlimit_permission (task : Z) : Z :=
  if current =? task then 0
  else if (uid k current =? euid k task) && (uid k current =? suid k task) && (uid k current =? uid k task) &&
          (gid k current =? egid k task) && (gid k current =? sgid k task) && (gid k current =? gid k task) then 0
  else if ns_capable_resource k current task then 0
  else - EPERM.

(** [old_rlim]: NULL, or whether copying to it works. *)
Definition prlimit64 (pid resource : Z) (new_rlim : user_ptr rlimit) (old_rlim : user_ptr unit) (w : lims) :
    Z * option rlimit * lims :=
  let go (new : option rlimit) :=
    match (if pid ≠? 0 then find_task_by_vpid k pid else Some current) with
    | None => (- ESRCH, None, w)
    | Some tsk =>
        let ret := check_prlimit_permission tsk in
        if ret ≠? 0 then (ret, None, w)
        else
          let '(ret, old, w') := do_prlimit tsk resource new w in
          match old_rlim, old with
          | Fault, Some _ => (- EFAULT, None, w')
          | User _, Some o => (ret, Some (rlim_to_rlim64 o), w')
          | _, _ => (ret, None, w')
          end
    end in
  match new_rlim with
  | Fault => (- EFAULT, None, w)
  | NULL => go None
  | User new64 => go (Some (rlim64_to_rlim new64))
  end.

Definition setrlimit (resource : Z) (rlim : user_ptr rlimit) (w : lims) : Z * lims :=
  match rlim with
  | User new_rlim => let '(ret, _, w') := do_prlimit current resource (Some new_rlim) w in (ret, w')
  | _ => (- EFAULT, w)
  end.
End calls.

(** ** Sequences of calls by various tasks *)

Inductive call : Type :=
  | SETRLIMIT (resource : Z) (rlim : user_ptr rlimit)
  | PRLIMIT64 (pid resource : Z) (new_rlim : user_ptr rlimit) (old_rlim : user_ptr unit).

Definition exec (width : Z) (k : env) (current : Z) (c : call) (w : lims) : Z * lims :=
  match c with
  | SETRLIMIT resource rlim => setrlimit width k current resource rlim w
  | PRLIMIT64 pid resource n o =>
      let '(ret, _, w') := prlimit64 width k current pid resource n o w in (ret, w')
  end.

Fixpoint run (width : Z) (k : env) (l : list (Z * call)) (w : lims) : lims :=
  match l with [] => w | (cur, c) :: l' => run width k l' (exec width k cur c w).2 end.
