(* ===== verification/SysRlimitProps.v ===== *)
(** * Resource limits: properties *)

From S2P Require Import Prelude SysBase SysRlimit.

Section do_prlimit.
Context (width : Z) (k : env) (cur : Z).
Implicit Types (w : lims) (r n : rlimit).

(** What is stored for a request: the kernel keeps 0 for "no CPU limit". *)
Definition stored (resource : Z) n : rlimit :=
  if (resource =? RLIMIT_CPU) && (rlim_cur n =? 0) then mkRlimit 1 (rlim_max n) else n.

(** The task [cur] may give [tsk] the limit [n]. *)
Definition may_limit (tsk resource : Z) n r : Prop :=
  rlim_cur n ≤ rlim_max n ∧ resource < RLIM_NLIMITS ∧
  (resource = RLIMIT_NOFILE → rlim_max n ≤ sysctl_nr_open k) ∧ sighand k tsk = true ∧
  (rlim_max n ≤ rlim_max r ∨ capable_resource k cur = true) ∧ security_task_setrlimit k tsk resource n = 0.

Lemma prlimit_refused_None resource n :
  prlimit_refused k resource (Some n) = None →
  rlim_cur n ≤ rlim_max n ∧ resource < RLIM_NLIMITS ∧
  (resource = RLIMIT_NOFILE → rlim_max n ≤ sysctl_nr_open k).
Proof.
  unfold prlimit_refused. destruct (Z.leb_spec RLIM_NLIMITS resource); [done|].
  destruct (Z.ltb_spec (rlim_max n) (rlim_cur n)); [done|].
  destruct (Z.eqb_spec resource RLIMIT_NOFILE), (Z.ltb_spec (sysctl_nr_open k) (rlim_max n)); simpl; try done;
    intros _; split_and!; try lia; done.
Qed.

Lemma prlimit_refused_neg resource o e : prlimit_refused k resource o = Some e → e < 0.
Proof. unfold prlimit_refused. intros H. repeat case_match; simplify_eq; done. Qed.

(** The call stores the request with the permissions it needs, or changes no limit. *)
Lemma do_prlimit_set tsk resource n w :
  let p := signal k tsk in
  let '(ret, old, w') := do_prlimit width k cur tsk resource (Some n) w in
  let resource := uint resource in
  (ret = 0 ∧ old = Some (rlims w p resource) ∧ may_limit tsk resource n (rlims w p resource) ∧
   rlims w' = rlims (set_rlim p resource (stored resource n) w)) ∨
  (ret ≠ 0 ∧ old = None ∧ w' = w).
Proof.
  cbv zeta. unfold do_prlimit. generalize (uint resource). clear resource. intros resource.
  destruct (prlimit_refused k resource (Some n)) as [e|] eqn:E.
  { right. split_and!; [|done..]. apply prlimit_refused_neg in E. lia. }
  apply prlimit_refused_None in E as (H1 & H2 & H3).
  destruct (sighand k tsk) eqn:Hs; [|by right]. simpl.
  set (old := rlims w (signal k tsk) resource). fold (stored resource n).
  destruct ((rlim_max old <? rlim_max n) && negb (capable_resource k cur)) eqn:Hc; [by right|]. simpl.
  destruct (Z.eqb_spec (security_task_setrlimit k tsk resource n) 0) as [Hh|Hh]; [left|by right].
  split_and!; [done..| |by case_match]. split_and!; try done.
  destruct (Z.ltb_spec (rlim_max old) (rlim_max n)); [|by left]. right. by destruct (capable_resource k cur).
Qed.

Lemma do_prlimit_get tsk resource w : (do_prlimit width k cur tsk resource None w).2 = w.
Proof. unfold do_prlimit. by repeat case_match; simplify_eq. Qed.
End do_prlimit.

(** Looking up what was stored. *)
Lemma rlims_set p resource n w q res :
  rlims (set_rlim p resource n w) q res = if decide (p = q ∧ resource = res) then n else rlims w q res.
Proof.
  simpl. destruct (decide (p = q)) as [<-|]; rewrite ?fn_lookup_insert, ?fn_lookup_insert_ne by done.
  - destruct (decide (resource = res)) as [<-|]; rewrite ?fn_lookup_insert, ?fn_lookup_insert_ne by done;
      case_decide; naive_solver.
  - case_decide; naive_solver.
Qed.

(** ** One call *)

(** What a call of task [cur] did to the limit of process [q]. *)
Definition limit_change (k : env) (cur q res : Z) (r r' : rlimit) : Prop :=
  r' = r ∨
  ∃ tsk n, q = signal k tsk ∧ check_prlimit_permission k cur tsk = 0 ∧
    may_limit k cur tsk res n r ∧ r' = stored res n.

Lemma do_prlimit_change width k cur tsk resource o w q res :
  check_prlimit_permission k cur tsk = 0 →
  limit_change k cur q res (rlims w q res) (rlims (do_prlimit width k cur tsk resource o w).2 q res).
Proof.
  intros Hp. destruct o as [n|]; [|left; by rewrite do_prlimit_get].
  pose proof (do_prlimit_set width k cur tsk resource n w) as H. cbv zeta in H.
  destruct (do_prlimit _ _ _ _ _ _ _) as [[ret old] w']. simpl.
  destruct H as [(_ & _ & Hm & ->)|(_ & _ & ->)]; [|by left].
  rewrite rlims_set. case_decide as Hd; [|by left]. destruct Hd as [<- <-]. right. by exists tsk, n.
Qed.

Lemma exec_change width k cur c w q res :
  limit_change k cur q res (rlims w q res) (rlims (exec width k cur c w).2 q res).
Proof.
  assert (check_prlimit_permission k cur cur = 0) as Hcur
    by (unfold check_prlimit_permission; by rewrite Z.eqb_refl).
  destruct c as [resource rlim|pid resource n o]; simpl.
  - unfold setrlimit. destruct rlim as [| |n]; [by left..|].
    pose proof (do_prlimit_change width k cur cur resource (Some n) w q res Hcur) as H.
    by destruct (do_prlimit _ _ _ _ _ _ _) as [[ret old] w'].
  - unfold prlimit64.
    destruct n as [| |n]; [|by left|]; (destruct (if pid ≠? 0 then _ else _) as [tsk|]; [|by left]);
      (destruct (Z.eqb_spec (check_prlimit_permission k cur tsk) 0) as [E|]; [|by left]); simpl;
      match goal with |- context [do_prlimit _ _ _ _ _ ?x _] =>
        pose proof (do_prlimit_change width k cur tsk resource x w q res E) as H end;
      destruct (do_prlimit _ _ _ _ _ _ _) as [[ret old] w']; destruct o, old; done.
Qed.

(** ** The claims *)

(** The soft limit does not exceed the hard one, apart from the CPU limit, where a
    request for 0 stores 1. *)
Definition limit_ok (res : Z) (r : rlimit) : Prop :=
  rlim_cur r ≤ rlim_max r ∨ (res = RLIMIT_CPU ∧ r = mkRlimit 1 0).

Lemma stored_ok res n : rlim_cur n ≤ rlim_max n → limit_ok res (stored res n).
Proof.
  intros H. unfold limit_ok, stored. destruct (Z.eqb_spec res RLIMIT_CPU) as [->|]; [|by left].
  destruct (Z.eqb_spec (rlim_cur n) 0) as [E|]; [|by left]. simpl.
  destruct (decide (rlim_max n = 0)) as [->|]; [by right|left; lia].
Qed.

Lemma stored_max res n : rlim_max (stored res n) = rlim_max n.
Proof. unfold stored. by destruct (_ && _). Qed.

(** C19. Limits stay consistent and hard limits are not raised without the capability:
    through any sequence of calls by any tasks every limit stays consistent, and no hard
    limit grows if none of the callers has CAP_SYS_RESOURCE. *)
Theorem rlimit_sequence (width : Z) (k : env) (l : list (Z * call)) (w : lims) (q res : Z) :
  limit_ok res (rlims w q res) →
  let r' := rlims (run width k l w) q res in
  limit_ok res r' ∧
  ((∀ cur c, (cur, c) ∈ l → capable_resource k cur = false) → rlim_max r' ≤ rlim_max (rlims w q res)).
Proof.
  cbv zeta. revert w. induction l as [|[cur c] l IH]; intros w Hw; [done|]. simpl.
  destruct (IH (exec width k cur c w).2) as [IH1 IH2];
    destruct (exec_change width k cur c w q res) as [E|(tsk & n & _ & _ & Hm & E)]; rewrite E in *.
  - done.
  - apply stored_ok, Hm.
  - split; [done|]. intros Hc. apply IH2. intros cur' c' Hin. apply (Hc cur' c'). by right.
  - split; [done|]. intros Hc. etrans; [apply IH2; intros cur' c' Hin; apply (Hc cur' c'); by right|].
    rewrite stored_max. destruct Hm as (_ & _ & _ & _ & [?|Hcap] & _); [done|].
    by rewrite (Hc cur c ltac:(left)) in Hcap.
Qed.

(** One process with two threads, and another one, all of user 1000. *)
Definition two_env : env :=
  mkEnv (λ t, if t <=? 2 then 1 else 2) (λ _, true) (λ v, if v =? 3 then Some 3 else None)
    (λ _, 1000) (λ _, 1000) (λ _, 1000) (λ _, 100) (λ _, 100) (λ _, 100) (λ t, t =? 9) (λ t _, t =? 9)
    (λ _ _ _, 0) 1024.
Definition two_lims : lims := mkLims (λ _ _, mkRlimit 10 20) (λ _, None).

Lemma rlimit_sequence_witness :
  limit_ok 7 (rlims (run 64 two_env
    [(1, SETRLIMIT 7 (User (mkRlimit 5 8))); (2, PRLIMIT64 0 7 (User (mkRlimit 5 30)) NULL)] two_lims) 1 7).
Proof. apply (rlimit_sequence 64 two_env). by left. Defined.

(** Who may change what: a call leaves the limit of a process alone, or the caller is
    a task of that process, or all user and group identities of the process are the
    caller's, or the caller has the capability; and the new limit is what was asked for. *)
Theorem rlimit_permission (width : Z) (k : env) (cur q res : Z) (c : call) (w : lims) :
  let r := rlims w q res in
  let r' := rlims (exec width k cur c w).2 q res in
  r' = r ∨
  ∃ tsk n, q = signal k tsk ∧ r' = stored res n ∧ rlim_cur n ≤ rlim_max n ∧
    (rlim_max n ≤ rlim_max r ∨ capable_resource k cur = true) ∧
    (cur = tsk ∨ ns_capable_resource k cur tsk = true ∨
     (euid k tsk = uid k cur ∧ suid k tsk = uid k cur ∧ uid k tsk = uid k cur ∧
      egid k tsk = gid k cur ∧ sgid k tsk = gid k cur ∧ gid k tsk = gid k cur)).
Proof.
  cbv zeta. destruct (exec_change width k cur c w q res) as [->|(tsk & n & -> & Hp & Hm & ->)]; [by left|right].
  exists tsk, n. destruct Hm as (? & _ & _ & _ & ? & _). split_and!; try done.
  unfold check_prlimit_permission in Hp. destruct (Z.eqb_spec cur tsk); [by left|right].
  case_match eqn:E.
  - right. rewrite !andb_true_iff, !Z.eqb_eq in E. destruct E as [[[[[? ?] ?] ?] ?] ?]. by split_and!.
  - left. by destruct (ns_capable_resource k cur tsk).
Qed.

(** The CPU limit 0: setting both limits to 0 succeeds and stores a soft limit of 1
    above the hard limit 0; the task cannot even set again what it reads back. *)
Theorem rlimit_cpu_zero (width : Z) (k : env) (cur : Z) (w : lims) :
  sighand k cur = true → 0 ≤ rlim_max (rlims w (signal k cur) RLIMIT_CPU) →
  security_task_setrlimit k cur RLIMIT_CPU (mkRlimit 0 0) = 0 →
  let '(ret, w') := setrlimit width k cur RLIMIT_CPU (User (mkRlimit 0 0)) w in
  ret = 0 ∧ getrlimit width k cur RLIMIT_CPU true w' = (0, Some (mkRlimit 1 0)) ∧
  setrlimit width k cur RLIMIT_CPU (User (mkRlimit 1 0)) w' = (- EINVAL, w').
Proof.
  intros Hs Hm Hh. unfold setrlimit. assert (uint RLIMIT_CPU = RLIMIT_CPU) as Eu by done.
  pose proof (do_prlimit_set width k cur cur RLIMIT_CPU (mkRlimit 0 0) w) as H. cbv zeta in H.
  unfold do_prlimit in H |- *. rewrite Eu in H |- *. simpl in H |- *. rewrite Hs, Hh in H |- *. simpl in H |- *.
  rewrite (proj2 (Z.ltb_ge _ _)) in H |- * by done. simpl in H |- *.
  split; [done|]. split; [|done].
  unfold getrlimit, do_prlimit. rewrite Eu. simpl. rewrite Hs. simpl. by case_match; simpl; rewrite !fn_lookup_insert.
Qed.

Lemma rlimit_cpu_zero_witness :
  getrlimit 64 two_env 1 RLIMIT_CPU true (setrlimit 64 two_env 1 RLIMIT_CPU (User (mkRlimit 0 0)) two_lims).2
  = (0, Some (mkRlimit 1 0)).
Proof. by apply (rlimit_cpu_zero 64 two_env 1 two_lims). Defined.

Section translation.
Context (width : Z) `{!Bitwidth width}.

Lemma width_bounds : 2 ^ 32 ≤ 2 ^ width ≤ 2 ^ 64.
Proof using All. destruct width_cases as [-> | ->]; done. Qed.

Lemma infinite_spec v : 0 ≤ v < 2 ^ 64 → rlim64_is_infinity width v = bool_decide (2 ^ width - 1 ≤ v).
Proof using All.
  intros Hv. unfold rlim64_is_infinity, ULONG_MAX, RLIM64_INFINITY.
  destruct width_cases as [-> | ->]; simpl Z.ltb; cbv iota.
  - case_bool_decide; [by apply Z.leb_le|by apply Z.leb_gt, Z.nle_gt].
  - case_bool_decide; [apply Z.eqb_eq; lia|apply Z.eqb_neq; lia].
Qed.

Lemma to64_from64 v : 0 ≤ v < 2 ^ width →
  let v64 := if v =? RLIM_INFINITY width then RLIM64_INFINITY else v in
  (if rlim64_is_infinity width v64 then RLIM_INFINITY width else v64 mod 2 ^ width) = v.
Proof using All.
  intros Hv. cbv zeta. pose proof width_bounds as Hw. unfold RLIM_INFINITY, RLIM64_INFINITY.
  destruct (Z.eqb_spec v (2 ^ width - 1)) as [->|Hn]; rewrite infinite_spec by lia.
  - by rewrite bool_decide_eq_true_2 by lia.
  - rewrite bool_decide_eq_false_2 by lia. by apply Z.mod_small.
Qed.

Lemma from64_to64 v : 0 ≤ v < 2 ^ width - 1 →
  let v' := if rlim64_is_infinity width v then RLIM_INFINITY width else v mod 2 ^ width in
  (if v' =? RLIM_INFINITY width then RLIM64_INFINITY else v') = v.
Proof using All.
  intros Hv. cbv zeta. pose proof width_bounds as Hw. unfold RLIM_INFINITY, RLIM64_INFINITY.
  rewrite infinite_spec by lia. rewrite bool_decide_eq_false_2 by lia. rewrite Z.mod_small by lia.
  destruct (Z.eqb_spec v (2 ^ width - 1)); [lia|done].
Qed.
End translation.

(** The 64-bit form: a limit of the machine's width survives the translation to 64
    bits and back, and so does a 64-bit limit that fits; one that does not fit becomes
    "no limit" instead of being cut off. *)
Theorem rlimit_roundtrip (width : Z) `{!Bitwidth width} (r : rlimit) :
  0 ≤ rlim_cur r < 2 ^ 64 → 0 ≤ rlim_max r < 2 ^ 64 →
  (rlim_cur r < 2 ^ width → rlim_max r < 2 ^ width → rlim64_to_rlim width (rlim_to_rlim64 width r) = r) ∧
  (rlim_cur r < 2 ^ width - 1 → rlim_max r < 2 ^ width - 1 → rlim_to_rlim64 width (rlim64_to_rlim width r) = r) ∧
  (2 ^ width - 1 ≤ rlim_cur r → rlim_cur (rlim64_to_rlim width r) = RLIM_INFINITY width) ∧
  (2 ^ width - 1 ≤ rlim_max r → rlim_max (rlim64_to_rlim width r) = RLIM_INFINITY width).
Proof.
  intros Hc Hm. destruct r as [c m]. simpl in *. unfold rlim64_to_rlim, rlim_to_rlim64. simpl.
  split_and!.
  - intros. f_equal; apply to64_from64; first [lia|done].
  - intros. f_equal; apply from64_to64; first [lia|done].
  - intros. by rewrite infinite_spec, bool_decide_eq_true_2.
  - intros. by rewrite infinite_spec, bool_decide_eq_true_2.
Qed.

Lemma rlimit_roundtrip_witness :
  rlim64_to_rlim 32 (rlim_to_rlim64 32 (mkRlimit 100 4294967295)) = mkRlimit 100 4294967295.
Proof. apply (rlimit_roundtrip 32 (mkRlimit 100 4294967295)); simpl; lia. Defined.
