(* ===== verification/SysUts.v ===== *)
(** * System names (Project0/submission/sys.c)

    [sethostname], [gethostname], [setdomainname] and the calls of the [uname] family.  A
    character array is a list of characters; memory of the caller is the list of the
    characters that may be read, or the number that may be written. *)

From S2P Require Import Prelude SysBase CString.
From Stdlib Require Import Ascii.

Definition NEW_UTS_LEN : Z := 64.
Definition OLD_UTS_LEN : Z := 8.

Definition NUL : ascii := "000"%char.

(** Each field has [NEW_UTS_LEN + 1] characters. *)
Record utsname : Type := mkUts {
  sysname : list ascii; nodename : list ascii; release : list ascii;
  version : list ascii; machine : list ascii; domainname : list ascii;
}.

Definition set_nodename v (u : utsname) :=
  mkUts (sysname u) v (release u) (version u) (machine u) (domainname u).
Definition set_release v (u : utsname) :=
  mkUts (sysname u) (nodename u) v (version u) (machine u) (domainname u).
Definition set_machine v (u : utsname) :=
  mkUts (sysname u) (nodename u) (release u) (version u) v (domainname u).
Definition set_domainname v (u : utsname) :=
  mkUts (sysname u) (nodename u) (release u) (version u) (machine u) v.

(** Overwrite the beginning of an array. *)
Definition overwrite (bs l : list ascii) : list ascii := bs ++ drop (length bs) l.

(** [memcpy(to, tmp, len); memset(to + len, 0, sizeof(to) - len);] *)
Definition copy_padded (tmp l : list ascii) : list ascii :=
  overwrite (tmp ++ replicate (length l - length tmp) NUL) l.

(** [len] characters from the caller; [None]: they cannot all be read. *)
Definition copy_from_user (name : list ascii) (len : Z) : option (list ascii) :=
  if Z.of_nat (length name) <? len then None else Some (take (Z.to_nat len) name).

Definition sethostname (capable : bool) (name : list ascii) (len : Z) (u : utsname) : Z * utsname :=
  if negb capable then (- EPERM, u)
  else if (len <? 0) || (NEW_UTS_LEN <? len) then (- EINVAL, u)
  else
    match copy_from_user name len with
    | None => (- EFAULT, u)
    | Some tmp => (0, set_nodename (copy_padded tmp (nodename u)) u)
    end.

Definition setdomainname (capable : bool) (name : list ascii) (len : Z) (u : utsname) : Z * utsname :=
  if negb capable then (- EPERM, u)
  else if (len <? 0) || (NEW_UTS_LEN <? len) then (- EINVAL, u)
  else
    match copy_from_user name len with
    | None => (- EFAULT, u)
    | Some tmp => (0, set_domainname (copy_padded tmp (domainname u)) u)
    end.

(** [None]: no NUL in the array, the read leaves it. *)
Fixpoint strlen (l : list ascii) : option Z :=
  match l with
  | [] => None
  | c :: l' => if decide (c = NUL) then Some 0 else n ← strlen l'; Some (n + 1)
  end.

(** [room] characters of the caller may be written; the second component is what was
    written.  [None]: the code reads or writes outside an array. *)
Definition gethostname (room len : Z) (u : utsname) : option (Z * list ascii) :=
  if len <? 0 then Some (- EINVAL, [])
  else
    n ← strlen (nodename u);
    let i := 1 + n in
    let i := if len <? i then len else i in
    if NEW_UTS_LEN + 1 <? i then None
    else
      let tmp := take (Z.to_nat i) (nodename u) in
      if room <? i then Some (- EFAULT, []) else Some (0, tmp).

(** ** [uname] *)

(** [strncpy(dst, src, n)]: the string [src] (without its NUL) is cut off after [n]
    characters or padded with NUL up to [n]. *)
Definition strncpy (dst src : list ascii) (n : nat) : list ascii :=
  let s := take n src in overwrite (s ++ replicate (n - length s) NUL) dst.

(** The boot parameter [compat_uts_machine]: the array after it is read; [arg] is the
    string without its NUL. *)
Definition parse_compat_uts_machine (arg compat_uts_machine : list ascii) : Z * list ascii :=
  let m := strncpy compat_uts_machine arg (Z.to_nat OLD_UTS_LEN) in
  (0, <[Z.to_nat OLD_UTS_LEN := NUL]> m).

Definition PER_MASK : Z := 255.
Definition PER_LINUX32 : Z := 8.

(** The characters the macro copies to the caller's [machine], if it does. *)
Definition override_architecture (personality : Z) (compat_uts_machine : list ascii) : option (list ascii) :=
  if Z.land personality PER_MASK =? PER_LINUX32 then Some compat_uts_machine else None.

Record env : Type := mkEnv {
  uname26 : bool;                      (* current->personality & UNAME26 *)
  UTS_RELEASE : string;
  LINUX_VERSION_CODE : Z;
  compat_machine : option (list ascii);  (* [override_architecture] of the task, if the kernel has it *)
}.

Section uname.
Context (k : env).

(** The loop over [UTS_RELEASE]: up to the third dot or the first other character. *)
Fixpoint skip_version (rest : string) (ndots : Z) : string :=
  match rest with
  | EmptyString => EmptyString
  | String c rest' =>
      let dot := bool_decide (c = "."%char) in
      let ndots := if dot then ndots + 1 else ndots in
      if dot && (3 <=? ndots) then rest
      else if negb (isdigit c) && negb dot then rest
      else skip_version rest' ndots
  end.

(** [scnprintf]: at most [size - 1] characters and a NUL, the number of characters. *)
Definition scnprintf (size : Z) (s : string) : list ascii * Z :=
  let t := take (Z.to_nat (size - 1)) (String.list_ascii_of_string s) in
  (t ++ [NUL], Z.of_nat (length t)).

Definition sizeof_buf : Z := 65.

(** The characters [override_release] writes to the [len] characters of the caller. *)
Definition override_release (len : Z) : list ascii :=
  if uname26 k then
    let rest := skip_version (UTS_RELEASE k) 0 in
    let v := Z.land (Z.shiftr (LINUX_VERSION_CODE k) 8) 255 + 60 in
    let copy := 1 `max` (len `min` sizeof_buf) in
    let '(buf, copy) := scnprintf copy ("2.6." +:+ pretty v +:+ rest) in
    take (Z.to_nat (copy + 1)) buf
  else [].

(** The three copies to the caller may each fail; [name] is the caller's structure. *)
Definition newuname (ok1 ok2 ok3 : bool) (u name : utsname) : Z * utsname :=
  if negb ok1 then (- EFAULT, name)
  else
    let name := u in
    if uname26 k && negb ok2 then (- EFAULT, name)
    else
      let name := set_release (overwrite (override_release (NEW_UTS_LEN + 1)) (release name)) name in
      match compat_machine k with
      | None => (0, name)
      | Some m => if ok3 then (0, set_machine (overwrite m (machine name)) name) else (- EFAULT, name)
      end.

(** [struct old_utsname] has the first five fields only. *)
Definition uname (null ok1 ok2 ok3 : bool) (u name : utsname) : Z * utsname :=
  if null then (- EFAULT, name)
  else newuname ok1 ok2 ok3 (set_domainname (domainname name) u) name.

(** Nine characters per field, the last one NUL. *)
Definition old_field (l : list ascii) : list ascii := take (Z.to_nat OLD_UTS_LEN) l ++ [NUL].

Definition olduname (null ok1 ok2 ok3 : bool) (u name : utsname) : Z * utsname :=
  if null then (- EFAULT, name)
  else if negb ok1 then (- EFAULT, name)
  else
    let name := mkUts (old_field (sysname u)) (old_field (nodename u)) (old_field (release u))
                  (old_field (version u)) (old_field (machine u)) (domainname name) in
    let finish (name : utsname) :=
      if uname26 k && negb ok2 then (- EFAULT, name)
      else (0, set_release (overwrite (override_release (OLD_UTS_LEN + 1)) (release name)) name) in
    match compat_machine k with
    | None => finish name
    | Some m => if ok3 then finish (set_machine (overwrite m (machine name)) name) else (- EFAULT, name)
    end.
End uname.
