(* ===== verification/SysUtsProps.v ===== *)
(** * System names: properties *)

From S2P Require Import Prelude SysBase CString SysUts.
From Stdlib Require Import Ascii.

(** ** Host names *)

(** A name field: full length, NUL at the end. *)
Definition name_ok (l : list ascii) : Prop := length l = 65%nat ∧ last l = Some NUL.

Lemma strlen_app_nul l r : NUL ∉ l → strlen (l ++ NUL :: r) = Some (Z.of_nat (length l)).
Proof.
  induction l as [|c l IH]; simpl; [done|]. intros [Hc Hl]%not_elem_of_cons.
  rewrite decide_False by congruence. rewrite IH by done. simpl. f_equal. lia.
Qed.

Lemma strlen_bound l n : strlen l = Some n → 0 ≤ n < Z.of_nat (length l).
Proof.
  revert n. induction l as [|c l IH]; intros n; simpl; [done|].
  case_decide; [intros [= <-]; lia|]. destruct (strlen l) as [m|]; [|done]. intros [= <-].
  specialize (IH m eq_refl). lia.
Qed.

Lemma strlen_ok l : last l = Some NUL → is_Some (strlen l).
Proof.
  induction l as [|c l IH]; [done|]. simpl. case_decide; [by eauto|]. destruct l as [|d l].
  - simpl. intros [= ->]. done.
  - intros Hlast. destruct (IH Hlast) as [n ->]. simpl. eauto.
Qed.

Lemma copy_padded_eq tmp l : (length tmp ≤ length l)%nat →
  copy_padded tmp l = tmp ++ replicate (length l - length tmp) NUL.
Proof.
  intros H. unfold copy_padded, overwrite. rewrite drop_ge; [by rewrite app_nil_r|].
  rewrite length_app, length_replicate. lia.
Qed.

Lemma copy_padded_ok tmp l : (length tmp ≤ 64)%nat → length l = 65%nat → name_ok (copy_padded tmp l).
Proof.
  intros Ht Hl. rewrite copy_padded_eq by lia. split.
  - rewrite length_app, length_replicate. lia.
  - rewrite last_app. replace (length l - length tmp)%nat with (S (64 - length tmp))%nat by lia.
    by rewrite replicate_S_end, last_snoc.
Qed.

Lemma copy_from_user_length name len tmp :
  0 ≤ len → copy_from_user name len = Some tmp → Z.of_nat (length tmp) = len.
Proof.
  unfold copy_from_user. destruct (Z.ltb_spec (Z.of_nat (length name)) len); [done|].
  intros Hl [= <-]. rewrite length_take. lia.
Qed.

(** The host name array: whatever [sethostname] is given, the array keeps its size and
    ends in a NUL, nothing is changed when an error is returned, and [gethostname] then
    never reads or writes outside an array and gives out at most [len] characters. *)
Theorem uts_hostname_safe (capable : bool) (name : list ascii) (len room len' : Z) (u : utsname) :
  name_ok (nodename u) →
  let '(r, u') := sethostname capable name len u in
  name_ok (nodename u') ∧ (r ≠ 0 → u' = u) ∧ (r = 0 → capable = true) ∧
  ∃ r' out, gethostname room len' u' = Some (r', out) ∧ Z.of_nat (length out) ≤ 0 `max` len'.
Proof.
  intros Hok. assert (∀ v, name_ok (nodename v) →
    ∃ r' out, gethostname room len' v = Some (r', out) ∧ Z.of_nat (length out) ≤ 0 `max` len') as Hget.
  { intros v [Hlen Hlast]. unfold gethostname. destruct (Z.ltb_spec len' 0); [eexists _, _; split; [done|simpl; lia]|].
    destruct (strlen_ok _ Hlast) as [n Hn]. rewrite Hn. simpl. apply strlen_bound in Hn. rewrite Hlen in Hn.
    change (NEW_UTS_LEN + 1) with 65. destruct (Z.ltb_spec len' (1 + n)).
    - rewrite (proj2 (Z.ltb_ge 65 len')) by lia. destruct (room <? len'); eexists _, _; (split; [done|]);
        rewrite ?length_take; simpl; lia.
    - rewrite (proj2 (Z.ltb_ge 65 (1 + n))) by lia. destruct (room <? 1 + n); eexists _, _; (split; [done|]);
        rewrite ?length_take; simpl; lia. }
  unfold sethostname. destruct capable; simpl; [|by split_and!; auto].
  destruct (Z.ltb_spec len 0), (Z.ltb_spec NEW_UTS_LEN len); simpl; try (by split_and!; auto).
  destruct (copy_from_user name len) as [tmp|] eqn:E; [|by split_and!; auto].
  apply copy_from_user_length in E; [|done]. unfold NEW_UTS_LEN in *.
  assert (name_ok (copy_padded tmp (nodename u))) as Hn by (apply copy_padded_ok; [lia|apply Hok]).
  split_and!; auto; done.
Qed.

Definition some_uts : utsname :=
  let f := replicate 65 NUL in mkUts f f f f f f.

Lemma uts_hostname_safe_witness :
  name_ok (nodename (sethostname true ["a"; "b"]%char 2 some_uts).2).
Proof. refine (proj1 (uts_hostname_safe true ["a"; "b"]%char 2 10 10 some_uts _)). by split. Defined.

(** Setting and reading the host name: a name of at most 64 characters without NUL
    that was set is read back with its NUL when the caller gives enough room, and cut off
    to the room asked for otherwise. *)
Theorem uts_hostname_roundtrip (name rest : list ascii) (len' room : Z) (u : utsname) :
  name_ok (nodename u) → (length name ≤ 64)%nat → NUL ∉ name → 0 ≤ len' → len' ≤ room →
  let '(r, u') := sethostname true (name ++ rest) (Z.of_nat (length name)) u in
  r = 0 ∧ gethostname room len' u' = Some (0, take (Z.to_nat len') (name ++ [NUL])).
Proof.
  intros [Hlen _] Hn Hnul Hl Hr. unfold sethostname. simpl.
  rewrite (proj2 (Z.ltb_ge _ 0)), (proj2 (Z.ltb_ge NEW_UTS_LEN _)) by (unfold NEW_UTS_LEN; lia). simpl.
  unfold copy_from_user. rewrite length_app. rewrite (proj2 (Z.ltb_ge _ _)) by lia.
  rewrite Nat2Z.id, take_app_length. split; [done|].
  unfold gethostname. rewrite (proj2 (Z.ltb_ge len' 0)) by done. simpl.
  rewrite copy_padded_eq by lia.
  replace (length (nodename u) - length name)%nat with (S (64 - length name))%nat by lia. simpl.
  rewrite strlen_app_nul by done. simpl. change (NEW_UTS_LEN + 1) with 65. set (n := Z.of_nat (length name)).
  destruct (Z.ltb_spec len' (1 + n)).
  - rewrite (proj2 (Z.ltb_ge 65 len')), (proj2 (Z.ltb_ge room len')) by lia. do 2 f_equal.
    rewrite cons_middle, app_assoc, take_app_le; [done|]. rewrite length_app. simpl. lia.
  - rewrite (proj2 (Z.ltb_ge 65 (1 + n))), (proj2 (Z.ltb_ge room (1 + n))) by lia. do 2 f_equal.
    rewrite cons_middle, app_assoc. rewrite (take_ge (name ++ [NUL])) by (rewrite length_app; simpl; lia).
    rewrite take_app_length'; [done|]. rewrite length_app. simpl. lia.
Qed.

Lemma uts_hostname_roundtrip_witness :
  gethostname 10 10 (sethostname true ["p"; "c"; "!"]%char 2 some_uts).2 = Some (0, ["p"; "c"; NUL]%char).
Proof.
  refine (proj2 (uts_hostname_roundtrip ["p"; "c"]%char ["!"]%char 10 10 some_uts _ _ _ _ _)); [by split|simpl; lia| |lia|lia].
  apply (bool_decide_unpack _). by vm_compute.
Defined.

(** ** [override_release] *)

Lemma skip_version_go x s n : skip_version (pretty_N_go x s) n = skip_version s n.
Proof.
  revert s. induction (N.lt_wf_0 x) as [x _ IH]; intros s.
  destruct (decide (0 < x)%N).
  - rewrite pretty_N_go_step by done. rewrite IH by (by apply N.div_lt). simpl.
    destruct (pretty_N_char_spec (x `mod` 10)) as [Hd _]; [by apply N.mod_lt|].
    rewrite bool_decide_eq_false_2; [by rewrite Hd|]. intros E. by rewrite E in Hd.
  - assert (x = 0%N) as -> by lia. done.
Qed.

Lemma skip_version_pretty (x : N) r n : skip_version (pretty x +:+ r) n = skip_version r n.
Proof.
  unfold pretty, pretty_N. case_decide; [done|]. by rewrite pretty_N_go_app, skip_version_go.
Qed.

(** Text that ends a version number. *)
Definition suffix_ok (r : string) : Prop :=
  match r with String c _ => isdigit c = false | EmptyString => True end.

Lemma skip_version_suffix r : suffix_ok r → skip_version r 2 = r.
Proof.
  destruct r as [|c r]; [done|]. simpl. intros Hd. rewrite Hd. case_bool_decide; simpl; [done|done].
Qed.

(** The release a program with the UNAME26 personality sees: for release
    [a.b.c<suffix>] it is [2.6.(b+60)<suffix>], cut off to the [len] characters of the
    caller, always with a NUL and never more than [len] characters.  The number does not
    depend on [a], although the comment promises 40 instead of 60 for [a = 3]. *)
Theorem uts_release (k : env) (a b c : N) (suffix : string) (len : Z) :
  uname26 k = true → (b < 256)%N → (c < 256)%N → 1 ≤ len →
  UTS_RELEASE k = pretty a +:+ "." +:+ pretty b +:+ "." +:+ pretty c +:+ suffix → suffix_ok suffix →
  LINUX_VERSION_CODE k = Z.of_N a * 65536 + Z.of_N b * 256 + Z.of_N c →
  override_release k len =
    take (Z.to_nat (len `min` 65 - 1))
      (String.list_ascii_of_string ("2.6." +:+ pretty (Z.of_N b + 60) +:+ suffix)) ++ [NUL] ∧
  Z.of_nat (length (override_release k len)) ≤ len.
Proof.
  intros Hu Hb Hc Hlen Hrel Hs Hv. unfold override_release. rewrite Hu, Hrel, Hv.
  assert (∀ s n, n < 2 → skip_version ("." +:+ s) n = skip_version s (n + 1)) as Hdot.
  { intros s n Hn. change ("." +:+ s) with (String "."%char s). simpl.
    by rewrite (proj2 (Z.leb_gt 3 (n + 1))) by lia. }
  rewrite skip_version_pretty, Hdot, skip_version_pretty, Hdot, skip_version_pretty by lia.
  rewrite skip_version_suffix by done.
  assert (Z.land (Z.shiftr (Z.of_N a * 65536 + Z.of_N b * 256 + Z.of_N c) 8) 255 = Z.of_N b) as ->.
  { rewrite Z.shiftr_div_pow2 by lia. change 255 with (Z.ones 8). rewrite Z.land_ones by lia.
    change (2 ^ 8) with 256. rewrite <-(Z.mod_small (Z.of_N b) 256) at 2 by lia.
    replace (_ `div` 256) with (Z.of_N b + Z.of_N a * 256); [apply Z_mod_plus_full|].
    apply Z.div_unique with (Z.of_N c); lia. }
  unfold scnprintf. replace (1 `max` (len `min` sizeof_buf)) with (len `min` 65) by (unfold sizeof_buf; lia).
  set (s := String.list_ascii_of_string _). rewrite take_ge.
  - split; [done|]. rewrite length_app, length_take. simpl. lia.
  - rewrite length_app. simpl. lia.
Qed.

Definition linux (v : string) (code : Z) : env := mkEnv true v code None.

Lemma uts_release_witness :
  override_release (linux "3.2.1-9-generic" (3 * 65536 + 2 * 256 + 1)) 65
  = String.list_ascii_of_string "2.6.62-9-generic" ++ [NUL].
Proof.
  refine (proj1 (uts_release (linux "3.2.1-9-generic" (3 * 65536 + 2 * 256 + 1)) 3 2 1 "-9-generic" 65
    eq_refl _ _ _ eq_refl eq_refl eq_refl)); lia.
Defined.

(** ** The machine name of 32-bit programs *)

Lemma strlen_cut l n r : NUL ∉ l → strlen (take n l ++ NUL :: r) = Some (Z.of_nat (n `min` length l)).
Proof.
  intros Hl. rewrite strlen_app_nul; [by rewrite length_take|]. intros (i & H & _)%elem_of_take.
  by apply Hl, (list_elem_of_lookup_2 _ i).
Qed.

Lemma parse_compat_eq arg m : length m = 9%nat →
  parse_compat_uts_machine arg m = (0, take 8 arg ++ NUL :: replicate (8 - length (take 8 arg)) NUL).
Proof.
  intros Hm. unfold parse_compat_uts_machine, strncpy, overwrite. change (Z.to_nat OLD_UTS_LEN) with 8%nat. f_equal.
  set (s := take 8 arg). assert (length s ≤ 8)%nat as Hs by (subst s; rewrite length_take; lia).
  rewrite (length_app s), length_replicate. replace (length s + (8 - length s))%nat with 8%nat by lia.
  destruct (drop 8 m) as [|c r] eqn:E; pose proof (f_equal length E) as El; rewrite length_drop in El; simpl in El; [lia|].
  destruct r; simpl in El; [|lia]. rewrite insert_app_r_alt by (rewrite length_app, length_replicate; lia).
  rewrite length_app, length_replicate. replace (8 - (length s + (8 - length s)))%nat with 0%nat by lia. simpl.
  rewrite <-app_assoc. f_equal. by rewrite <-replicate_cons_app.
Qed.

Lemma compat_field arg l : name_ok l → NUL ∉ arg →
  let l' := overwrite (take 8 arg ++ NUL :: replicate (8 - length (take 8 arg)) NUL) l in
  name_ok l' ∧ take (8 `min` length arg) l' = take 8 arg ∧ strlen l' = Some (Z.of_nat (8 `min` length arg)).
Proof.
  intros [Hl1 Hl2] Hn. cbv zeta. assert (length (take 8 arg) = 8 `min` length arg)%nat as Hs by (by rewrite length_take).
  unfold overwrite. rewrite length_app, length_cons, length_replicate.
  replace (length (take 8 arg) + S (8 - length (take 8 arg)))%nat with 9%nat by lia.
  rewrite <-app_assoc, <-app_comm_cons. split_and!; [split|rewrite take_app_le, take_ge by lia; done|by apply strlen_cut].
  - rewrite length_app, length_cons, length_app, length_replicate, length_drop. lia.
  - rewrite app_comm_cons, app_assoc, last_app. rewrite <-(take_drop 9 l), last_app in Hl2.
    destruct (last (drop 9 l)) eqn:El; [done|]. apply last_None, (f_equal length) in El. rewrite length_drop, Hl1 in El. done.
Qed.

(** With the boot parameter [compat_uts_machine=arg] a program with the PER_LINUX32
    personality reads the first eight characters of [arg] as the machine, a string inside
    its field whatever the length of [arg]; other programs read the kernel's own name. *)
Theorem uts_compat_machine (personality : Z) (arg m0 : list ascii) (k : env) (u name : utsname) :
  let m := (parse_compat_uts_machine arg m0).2 in
  length m0 = 9%nat → NUL ∉ arg → name_ok (machine u) →
  compat_machine k = override_architecture personality m →
  let '(r, name') := newuname k true true true u name in
  r = 0 ∧ name_ok (machine name') ∧
  (Z.land personality 255 = 8 →
     take (8 `min` length arg) (machine name') = take 8 arg ∧
     strlen (machine name') = Some (Z.of_nat (8 `min` length arg))) ∧
  (Z.land personality 255 ≠ 8 → machine name' = machine u).
Proof.
  intros m Hm Hn Hu Hk. unfold newuname. rewrite Hk. unfold override_architecture, PER_MASK, PER_LINUX32. cbn [negb].
  rewrite andb_false_r. destruct (Z.eqb_spec (Z.land personality 255) 8) as [E|E]; [|by split_and!].
  subst m. rewrite parse_compat_eq by done. cbn [machine set_machine set_release snd].
  destruct (compat_field arg (machine u) Hu Hn) as (H1 & H2 & H3). by split_and!.
Qed.

Lemma uts_compat_machine_witness :
  let k := mkEnv false "4.4.0" 263168 (override_architecture 8 (parse_compat_uts_machine ["i"; "6"; "8"; "6"]%char
    (replicate 9 NUL)).2) in
  strlen (machine (newuname k true true true some_uts some_uts).2) = Some 4.
Proof.
  refine (proj2 (proj1 (proj2 (proj2 (uts_compat_machine 8 ["i"; "6"; "8"; "6"]%char (replicate 9 NUL)
    (mkEnv false "4.4.0" 263168 _) some_uts some_uts eq_refl _ _ eq_refl))) eq_refl)).
  - apply (bool_decide_unpack _). by vm_compute.
  - by split.
Defined.
