(* ===== verification/SysInfo.v ===== *)
(** * System information (Project0/submission/sys.c)

    [do_sysinfo] with its change of unit, [sysinfo] and its 32-bit form, [getrusage] and
    its 32-bit form, [times], [getcpu], [umask] and the three calls the course added.  An [unsigned long] has [width] bits. *)

From stdpp Require Import gmap.
From S2P Require Import Prelude SysBase SysRlimit.

Record sysinfo_t : Type := mkInfo {
  uptime : Z; loads : list Z;
  totalram : Z; freeram : Z; sharedram : Z; bufferram : Z;
  totalswap : Z; freeswap : Z; procs : Z; totalhigh : Z; freehigh : Z;
  mem_unit : Z;
}.

(** Apply [f] to the memory values and set the unit. *)
Definition rescale (f : Z → Z) (unit_ : Z) (i : sysinfo_t) : sysinfo_t :=
  mkInfo (uptime i) (loads i) (f (totalram i)) (f (freeram i)) (f (sharedram i)) (f (bufferram i))
    (f (totalswap i)) (f (freeswap i)) (procs i) (f (totalhigh i)) (f (freehigh i)) unit_.

Section sysinfo.
Context (width : Z).

Definition ulong (v : Z) : Z := v mod 2 ^ width.

(** The loop that multiplies [mem_total] by the unit: [Some (Some n)]: it ended after
    [n] doublings; [Some None]: [mem_total] overflowed; [None]: more fuel is needed. *)
Fixpoint scale (fuel : nat) (unit_ bitcount mem_total : Z) : option (option Z) :=
  match fuel with
  | O => None
  | S fuel' =>
      if 1 <? unit_ then
        let bitcount := bitcount + 1 in
        let unit_ := Z.shiftr unit_ 1 in
        let sav_total := mem_total in
        let mem_total := ulong (Z.shiftl mem_total 1) in
        if mem_total <? sav_total then Some None else scale fuel' unit_ bitcount mem_total
      else Some (Some bitcount)
  end.

(** An [unsigned int] is 0 or 1 after at most 32 shifts. *)
Definition scale_fuel : nat := 33.

(** [info]: what [get_monotonic_boottime], [get_avenrun], [nr_threads], [si_meminfo] and
    [si_swapinfo] give; [tv_sec] and [tv_nsec] the uptime. *)
Definition do_sysinfo (tv_sec tv_nsec : Z) (info : sysinfo_t) : option sysinfo_t :=
  let info := mkInfo (tv_sec + (if tv_nsec ≠? 0 then 1 else 0)) (loads info) (totalram info) (freeram info)
                (sharedram info) (bufferram info) (totalswap info) (freeswap info) (procs info)
                (totalhigh info) (freehigh info) (mem_unit info) in
  let mem_total := ulong (totalram info + totalswap info) in
  if (mem_total <? totalram info) || (mem_total <? totalswap info) then Some info
  else
    r ← scale scale_fuel (mem_unit info) 0 mem_total;
    match r with
    | None => Some info
    | Some bitcount => Some (rescale (λ v, ulong (Z.shiftl v bitcount)) 1 info)
    end.

(** [copied]: copying to the caller works. *)
Definition sysinfo (tv_sec tv_nsec : Z) (info : sysinfo_t) (copied : bool) : option (Z * option sysinfo_t) :=
  val ← do_sysinfo tv_sec tv_nsec info;
  Some (if copied then (0, Some val) else (- EFAULT, None)).

(** ** The call for 32-bit programs *)

Definition u32 (v : Z) : Z := v mod 2 ^ 32.
Definition upper_32_bits (v : Z) : Z := u32 (Z.shiftr v 32).

Context (PAGE_SIZE : Z).

Fixpoint scale_down (fuel : nat) (unit_ bitcount : Z) : option (Z * Z) :=
  match fuel with
  | O => None
  | S fuel' =>
      if unit_ <? PAGE_SIZE then scale_down fuel' (u32 (Z.shiftl unit_ 1)) (bitcount + 1)
      else Some (unit_, bitcount)
  end.

Definition compat_sysinfo (tv_sec tv_nsec : Z) (info : sysinfo_t) (copied : bool) :
    option (Z * option sysinfo_t) :=
  s ← do_sysinfo tv_sec tv_nsec info;
  s ← (if truthy (upper_32_bits (totalram s)) || truthy (upper_32_bits (totalswap s)) then
         '(unit_, bitcount) ← scale_down scale_fuel (mem_unit s) 0;
         Some (rescale (λ v, Z.shiftr v bitcount) unit_ s)
       else Some s);
  Some (if copied then (0, Some (rescale u32 (mem_unit s) s)) else (- EFAULT, None)).
End sysinfo.

(** ** [getrusage] *)

Definition RUSAGE_SELF : Z := 0.
Definition RUSAGE_CHILDREN : Z := -1.
Definition RUSAGE_BOTH : Z := -2.
Definition RUSAGE_THREAD : Z := 1.

(** The counters of a thread, of the threads of a process that have ended, or of its
    children, and the times in [cputime_t]. *)
Record usage : Type := mkUsage {
  utime : Z; stime : Z; nvcsw : Z; nivcsw : Z; min_flt : Z; maj_flt : Z; inblock : Z; oublock : Z;
  maxrss : Z;
}.

Record process : Type := mkProcess {
  threads : list usage;                (* the live threads, the current one first *)
  ended : usage;                       (* p->signal, with maxrss *)
  children : usage;                    (* the c* fields of p->signal *)
  group_times : Z * Z;                 (* thread_group_cputime_adjusted *)
  thread_times : Z * Z;                (* task_cputime_adjusted of the current thread *)
  hiwater : option Z;                  (* get_mm_hiwater_rss, if the task has memory *)
}.

Definition no_usage : usage := mkUsage 0 0 0 0 0 0 0 0 0.

Section rusage.
Context (width PAGE_SIZE : Z).

(** [r->f += u->f] for the counters. *)
Definition accumulate (u r : usage) : usage :=
  mkUsage (utime r) (stime r) (ulong width (nvcsw r + nvcsw u)) (ulong width (nivcsw r + nivcsw u))
    (ulong width (min_flt r + min_flt u)) (ulong width (maj_flt r + maj_flt u))
    (ulong width (inblock r + inblock u)) (ulong width (oublock r + oublock u)) (maxrss r).

Definition with_times (t : Z * Z) (r : usage) : usage :=
  mkUsage t.1 t.2 (nvcsw r) (nivcsw r) (min_flt r) (maj_flt r) (inblock r) (oublock r) (maxrss r).
Definition with_maxrss (v : Z) (r : usage) : usage :=
  mkUsage (utime r) (stime r) (nvcsw r) (nivcsw r) (min_flt r) (maj_flt r) (inblock r) (oublock r) v.

(** The case [RUSAGE_SELF], on top of what is in [r]. *)
Definition add_self (p : process) (r : usage) : usage :=
  let r := with_times (utime r + (group_times p).1, stime r + (group_times p).2) r in
  let r := accumulate (ended p) r in
  let r := with_maxrss (if maxrss r <? maxrss (ended p) then maxrss (ended p) else maxrss r) r in
  foldl (λ r t, accumulate t r) r (threads p).

(** [None]: [BUG()]. *)
Definition k_getrusage (p : process) (who : Z) (locked : bool) : option usage :=
  let finish (r : usage) :=
    let m := if who ≠? RUSAGE_CHILDREN then
               match hiwater p with Some h => if maxrss r <? h then h else maxrss r | None => maxrss r end
             else maxrss r in
    with_maxrss (ulong width (m * (PAGE_SIZE `div` 1024))) r in
  if who =? RUSAGE_THREAD then
    match threads p with
    | t :: _ => Some (finish (with_maxrss (maxrss (ended p)) (with_times (thread_times p) (accumulate t no_usage))))
    | [] => None
    end
  else if negb locked then Some no_usage
  else if who =? RUSAGE_BOTH then Some (finish (add_self p (children p)))
  else if who =? RUSAGE_CHILDREN then Some (finish (children p))
  else if who =? RUSAGE_SELF then Some (finish (add_self p no_usage))
  else None.

Definition getrusage (p : process) (who : Z) (locked copied : bool) : option (Z * option usage) :=
  if (who ≠? RUSAGE_SELF) && (who ≠? RUSAGE_CHILDREN) && (who ≠? RUSAGE_THREAD) then Some (- EINVAL, None)
  else r ← k_getrusage p who locked; Some (if copied then (0, Some r) else (- EFAULT, None)).

(** [put_compat_rusage] is another file's: it copies the 32-bit form and returns 0 or an
    error. *)
Definition compat_getrusage (put_compat_rusage : usage → Z) (p : process) (who : Z) (locked : bool) : option Z :=
  if (who ≠? RUSAGE_SELF) && (who ≠? RUSAGE_CHILDREN) && (who ≠? RUSAGE_THREAD) then Some (- EINVAL)
  else r ← k_getrusage p who locked; Some (put_compat_rusage r).
End rusage.

(** ** [times] *)

Record tms : Type := mkTms { tms_utime : Z; tms_stime : Z; tms_cutime : Z; tms_cstime : Z }.

Section times.
Context (width : Z) (cputime_to_clock_t jiffies_64_to_clock_t : Z → Z).

Definition do_sys_times (current : process) : tms :=
  let '(tgutime, tgstime) := group_times current in
  let cutime := utime (children current) in
  let cstime := stime (children current) in
  mkTms (cputime_to_clock_t tgutime) (cputime_to_clock_t tgstime) (cputime_to_clock_t cutime)
    (cputime_to_clock_t cstime).

(** The value of a [long] with the bits of [v]. *)
Definition to_long (v : Z) : Z := (v + 2 ^ (width - 1)) mod 2 ^ width - 2 ^ (width - 1).

(** [tbuf]: NULL, or whether copying there works. *)
Definition times (tbuf : option bool) (jiffies : Z) (current : process) : Z * option tms :=
  let now := to_long (jiffies_64_to_clock_t jiffies) in
  match tbuf with
  | Some copied =>
      let tmp := do_sys_times current in
      if copied then (now, Some tmp) else (- EFAULT, None)
  | None => (now, None)
  end.
End times.

(** ** [getcpu] *)

(** Memory of the caller: the [unsigned int]s that may be written, by address. *)
Abbreviation umem := (gmap Z Z).

Definition put_user (v p : Z) (m : umem) : Z * umem :=
  match m !! p with Some _ => (0, <[p := v mod 2 ^ 32]> m) | None => (- EFAULT, m) end.

(** [raw_smp_processor_id] and [cpu_to_node] are arguments; address 0 is NULL. *)
Definition getcpu (cpu : Z) (cpu_to_node : Z → Z) (cpup nodep : Z) (m : umem) : Z * umem :=
  let err := 0 in
  let '(err, m) := if truthy cpup then let '(e, m') := put_user cpu cpup m in (Z.lor err e, m') else (err, m) in
  let '(err, m) :=
    if truthy nodep then let '(e, m') := put_user (cpu_to_node cpu) nodep m in (Z.lor err e, m') else (err, m) in
  (if truthy err then - EFAULT else 0, m).

(** ** [umask] *)

Definition S_IRWXUGO : Z := 511.

(** The old mask and the new one. *)
Definition umask (mask old : Z) : Z * Z := (old, Z.land mask S_IRWXUGO).

(** ** The calls of the course *)

Definition cs3013_syscall1 : Z * list string := (0, ["'Hello, world!' -- syscall1"])%string.
Definition cs3013_syscall2 : Z * list string := (0, ["'Hello, world!' -- syscall2"])%string.
Definition cs3013_syscall3 : Z * list string := (0, ["'Hello, world!' -- syscall3"])%string.

(** The entries of syscall_32.tbl for them. *)
Definition sys_call_table (nr : Z) : option (Z * list string) :=
  if nr =? 377 then Some cs3013_syscall1
  else if nr =? 378 then Some cs3013_syscall2
  else if nr =? 379 then Some cs3013_syscall3
  else None.

(** The program testcalls.c: its output and the kernel's log.  A number without an entry
    gives -1. *)
Definition syscall (nr : Z) : Z * list string := default (-1, []) (sys_call_table nr).
Definition testCall1 : Z * list string := syscall 377.
Definition testCall2 : Z * list string := syscall 378.
Definition testCall3 : Z * list string := syscall 379.

Definition tab : string := String (Ascii.ascii_of_nat 9) EmptyString.

Definition testcalls_main : list string * list string :=
  let '(r1, l1) := testCall1 in
  let '(r2, l2) := testCall2 in
  let '(r3, l3) := testCall3 in
  (["The return values of the system calls are:"; tab +:+ "cs3013_syscall1: " +:+ pretty r1;
    tab +:+ "cs3013_syscall2: " +:+ pretty r2; tab +:+ "cs3013_syscall3: " +:+ pretty r3]%string, l1 ++ l2 ++ l3).
