(* ===== verification/SysInfoProps.v ===== *)
(** * System information: properties *)

From stdpp Require Import gmap.
From S2P Require Import Prelude SysBase SysRlimit SysInfo.

(** ** The change of unit *)

Section scale.
Context (width : Z).
Hypothesis Hw : 0 < width.

Lemma ulong_small v : 0 ≤ v < 2 ^ width → ulong width v = v.
Proof using Hw. apply Z.mod_small. Qed.

(** Doubling overflows exactly when the result is smaller. *)
Lemma double_overflow t : 0 ≤ t < 2 ^ width →
  if ulong width (Z.shiftl t 1) <? t then 2 ^ width ≤ 2 * t
  else 2 * t < 2 ^ width ∧ ulong width (Z.shiftl t 1) = 2 * t.
Proof using Hw.
  intros Ht. unfold ulong. rewrite Z.shiftl_mul_pow2 by lia. change (2 ^ 1) with 2.
  destruct (decide (2 * t < 2 ^ width)) as [Hs|Hs].
  - rewrite Z.mod_small by lia. rewrite (proj2 (Z.ltb_ge _ _)) by lia. split; lia.
  - replace (t * 2) with (t * 2 - 2 ^ width + 1 * 2 ^ width) by lia. rewrite Z_mod_plus_full.
    rewrite Z.mod_small by lia. rewrite (proj2 (Z.ltb_lt _ _)) by lia. lia.
Qed.

(** With a power of two as the unit, the loop computes the product or sees that it does
    not fit. *)
Lemma scale_pow2 (j : nat) (fuel : nat) b t : (j < fuel)%nat → 0 ≤ t < 2 ^ width →
  scale width fuel (2 ^ Z.of_nat j) b t =
  Some (if t * 2 ^ Z.of_nat j <? 2 ^ width then Some (b + Z.of_nat j) else None).
Proof using Hw.
  revert fuel b t. induction j as [|j IH]; intros [|fuel] b t Hf Ht; try lia; simpl scale.
  - change (2 ^ Z.of_nat 0) with 1. simpl. rewrite Z.mul_1_r, (proj2 (Z.ltb_lt _ _)) by lia. do 2 f_equal. lia.
  - assert (2 ^ Z.of_nat (S j) = 2 * 2 ^ Z.of_nat j) as E
      by (rewrite Nat2Z.inj_succ, Z.pow_succ_r by lia; done).
    assert (0 < 2 ^ Z.of_nat j) as Hp by (apply Z.pow_pos_nonneg; lia).
    rewrite E. rewrite (proj2 (Z.ltb_lt 1 _)) by lia.
    replace (Z.shiftr (2 * 2 ^ Z.of_nat j) 1) with (2 ^ Z.of_nat j)
      by (rewrite Z.shiftr_div_pow2, Z.mul_comm by lia; change (2 ^ 1) with 2; by rewrite Z.div_mul).
    pose proof (double_overflow t Ht) as Hd. destruct (_ <? t).
    + rewrite (proj2 (Z.ltb_ge _ _)); [done|]. nia.
    + destruct Hd as [Hs ->]. rewrite IH by lia. f_equal.
      replace (t * (2 * 2 ^ Z.of_nat j)) with (2 * t * 2 ^ Z.of_nat j) by lia.
      case_match; [f_equal; lia|done].
Qed.
End scale.

(** The memory values of a structure. *)
Definition mem_values (i : sysinfo_t) : list Z :=
  [totalram i; freeram i; sharedram i; bufferram i; totalswap i; freeswap i; totalhigh i; freehigh i].

(** No part is larger than the whole. *)
Definition mem_ok (width : Z) (i : sysinfo_t) : Prop :=
  (0 ≤ totalram i < 2 ^ width ∧ 0 ≤ totalswap i < 2 ^ width) ∧
  ∀ v, v ∈ mem_values i → 0 ≤ v ≤ totalram i ∨ 0 ≤ v ≤ totalswap i.

Lemma mem_values_rescale f u i : mem_values (rescale f u i) = f <$> mem_values i.
Proof. done. Qed.

(** The first test of [do_sysinfo]: the sum fits. *)
Lemma sum_overflow width t s : 0 < width → 0 ≤ t < 2 ^ width → 0 ≤ s < 2 ^ width →
  ((ulong width (t + s) <? t) || (ulong width (t + s) <? s)) = negb (t + s <? 2 ^ width).
Proof.
  intros Hw Ht Hs. unfold ulong. destruct (Z.ltb_spec (t + s) (2 ^ width)).
  - rewrite Z.mod_small by lia. by rewrite (proj2 (Z.ltb_ge (t + s) t)), (proj2 (Z.ltb_ge (t + s) s)) by lia.
  - replace (t + s) with (t + s - 2 ^ width + 1 * 2 ^ width) by lia.
    rewrite Z_mod_plus_full, (Z.mod_small (t + s - 2 ^ width)) by lia.
    by rewrite (proj2 (Z.ltb_lt (t + s - 2 ^ width) t)) by lia.
Qed.

(** ** The claims *)

Lemma do_sysinfo_spec (width : Z) (j : nat) (tv_sec tv_nsec : Z) (i : sysinfo_t) :
  0 < width → (j < 32)%nat → mem_unit i = 2 ^ Z.of_nat j → mem_ok width i →
  ∃ i', do_sysinfo width tv_sec tv_nsec i = Some i' ∧
    mem_unit i' = (if (totalram i + totalswap i) * mem_unit i <? 2 ^ width then 1 else mem_unit i) ∧
    Forall2 (λ v v', v' * mem_unit i' = v * mem_unit i ∧ 0 ≤ v' < 2 ^ width) (mem_values i) (mem_values i').
Proof.
  intros Hw Hj Hu [[Ht Hs] Hv]. unfold do_sysinfo. cbv zeta. cbn [totalram totalswap mem_unit].
  rewrite sum_overflow by done.
  assert (0 < 2 ^ Z.of_nat j) as Hp by (apply Z.pow_pos_nonneg; lia).
  assert (∀ v, v ∈ mem_values i → 0 ≤ v ≤ totalram i + totalswap i ∧ v < 2 ^ width) as Hvals.
  { intros v [?|?]%Hv; lia. }
  destruct (Z.ltb_spec (totalram i + totalswap i) (2 ^ width)) as [Hsum|Hsum]; cbn [negb].
  - rewrite ulong_small by lia. rewrite Hu, scale_pow2 by (unfold scale_fuel; lia). simpl.
    destruct (Z.ltb_spec ((totalram i + totalswap i) * 2 ^ Z.of_nat j) (2 ^ width)) as [Hf|Hf]; simpl.
    + eexists. split; [done|]. split; [done|]. rewrite mem_values_rescale. apply Forall2_fmap_r.
      apply Forall_Forall2_diag, Forall_forall. intros v Hin. apply Hvals in Hin as [Hin _]. simpl.
      rewrite Z.shiftl_mul_pow2 by lia. replace (0 + Z.of_nat j) with (Z.of_nat j) by lia.
      rewrite ulong_small by nia. nia.
    + eexists. split; [done|]. split; [done|]. apply Forall_Forall2_diag, Forall_forall.
      intros v Hin. apply Hvals in Hin. simpl. lia.
  - rewrite (proj2 (Z.ltb_ge _ _)) by nia. eexists. split; [done|]. split; [done|].
    apply Forall_Forall2_diag, Forall_forall. intros v Hin. apply Hvals in Hin. simpl. lia.
Qed.

(** C38. [sysinfo] reports the same amounts of memory in bytes whenever it can: with a unit
    of [2^j] bytes it ends, it switches to bytes exactly if RAM and swap together then fit
    into an [unsigned long], every value times the unit is what it was, and no value
    overflows. *)
Theorem sysinfo_units (width : Z) (j : nat) (tv_sec tv_nsec : Z) (i : sysinfo_t) :
  0 < width → (j < 32)%nat → mem_unit i = 2 ^ Z.of_nat j → mem_ok width i →
  ∃ i', do_sysinfo width tv_sec tv_nsec i = Some i' ∧
    mem_unit i' = (if (totalram i + totalswap i) * mem_unit i <? 2 ^ width then 1 else mem_unit i) ∧
    Forall2 (λ v v', v' * mem_unit i' = v * mem_unit i ∧ 0 ≤ v' < 2 ^ width) (mem_values i) (mem_values i').
Proof. apply do_sysinfo_spec. Qed.

Definition some_info : sysinfo_t := mkInfo 0 [0; 0; 0] 1000 600 0 50 200 200 80 0 0 4096.

Lemma sysinfo_units_witness :
  ∃ i', do_sysinfo 32 5 1 some_info = Some i' ∧ mem_unit i' = 1.
Proof.
  destruct (sysinfo_units 32 12 5 1 some_info) as (i' & E & Hu & _); [done|lia|done| |].
  - split; [by vm_compute|]. unfold mem_values. intros v Hv. rewrite !elem_of_cons, elem_of_nil in Hv. simpl in *. lia.
  - exists i'. split; [exact E|exact Hu].
Defined.

Lemma truthy_upper v : 0 ≤ v < 2 ^ 64 → truthy (upper_32_bits v) = negb (v <? 2 ^ 32).
Proof.
  intros Hv. unfold upper_32_bits, u32. rewrite Z.shiftr_div_pow2 by lia.
  assert (0 ≤ v `div` 2 ^ 32 < 2 ^ 32) as Hd.
  { split; [apply Z.div_pos; lia|]. apply Z.div_lt_upper_bound; lia. }
  rewrite Z.mod_small by done. unfold truthy. f_equal. destruct (Z.ltb_spec v (2 ^ 32)).
  - by rewrite Z.div_small by lia.
  - apply Z.eqb_neq. assert (1 ≤ v `div` 2 ^ 32); [|lia]. apply Z.div_le_lower_bound; lia.
Qed.

Lemma sysinfo_bytes width (j : nat) (tv_sec tv_nsec : Z) (i : sysinfo_t) :
  0 < width → (j < 32)%nat → mem_unit i = 2 ^ Z.of_nat j → mem_ok width i →
  (totalram i + totalswap i) * mem_unit i < 2 ^ width →
  ∃ i', do_sysinfo width tv_sec tv_nsec i = Some i' ∧ mem_unit i' = 1 ∧
    mem_values i' = (λ v, v * mem_unit i) <$> mem_values i.
Proof.
  intros Hw Hj Hu Hok Hb.
  destruct (do_sysinfo_spec width j tv_sec tv_nsec i Hw Hj Hu Hok) as (i' & E & Hu' & Hf).
  rewrite (proj2 (Z.ltb_lt _ _)) in Hu' by done. exists i'. split; [done|]. split; [done|].
  rewrite Hu' in Hf. clear -Hf. induction Hf as [|v v' l l' [H _] _ IH]; [done|]. simpl. rewrite IH. f_equal. lia.
Qed.

Lemma scale_down_page : scale_down 4096 scale_fuel 1 0 = Some (4096, 12).
Proof. done. Qed.

(** The 32-bit form of [sysinfo]: on a 64-bit machine with 4 KiB pages and less than
    16 TiB of RAM and swap, every reported value fits the 32-bit field and, times the
    reported unit, is the true amount rounded down by less than one unit. *)
Theorem sysinfo_compat (j : nat) (tv_sec tv_nsec : Z) (i : sysinfo_t) :
  (j < 32)%nat → mem_unit i = 2 ^ Z.of_nat j → mem_ok 64 i →
  (totalram i + totalswap i) * mem_unit i < 2 ^ 44 →
  ∃ r, compat_sysinfo 64 4096 tv_sec tv_nsec i true = Some (0, Some r) ∧
    Forall2 (λ v v', v' * mem_unit r ≤ v * mem_unit i < (v' + 1) * mem_unit r ∧ 0 ≤ v' < 2 ^ 32)
      (mem_values i) (mem_values r).
Proof.
  intros Hj Hu Hok Hb. destruct (sysinfo_bytes 64 j tv_sec tv_nsec i) as (i' & E & Hu' & Hvs); try done; [lia|].
  assert (0 < mem_unit i) as Hpos by (rewrite Hu; apply Z.pow_pos_nonneg; lia).
  assert (totalram i' = totalram i * mem_unit i ∧ totalswap i' = totalswap i * mem_unit i) as [Er Es]
    by (by injection Hvs).
  destruct Hok as [[Ht Hs] Hv].
  assert (∀ v, v ∈ mem_values i → 0 ≤ v * mem_unit i < 2 ^ 44 ∧
    (v * mem_unit i ≤ totalram i' ∨ v * mem_unit i ≤ totalswap i')) as Hv'.
  { intros v [?|?]%Hv; rewrite Er, Es; nia. }
  unfold compat_sysinfo. rewrite E. cbn [mbind option_bind].
  rewrite !truthy_upper by nia.
  destruct (Z.ltb_spec (totalram i') (2 ^ 32)), (Z.ltb_spec (totalswap i') (2 ^ 32)); cbn [negb orb];
    rewrite ?Hu', ?scale_down_page; cbn [mbind option_bind]; (eexists; split; [done|]);
    rewrite !mem_values_rescale, Hvs, <-?list_fmap_compose; apply Forall2_fmap_r; apply Forall_Forall2_diag, Forall_forall; intros v Hin;
    apply Hv' in Hin as [Hin Hmax]; simpl; unfold u32;
    try (rewrite Z.shiftr_div_pow2 by lia; change (2 ^ 12) with 4096;
         pose proof (Z.div_mod (v * mem_unit i) 4096); pose proof (Z.mod_pos_bound (v * mem_unit i) 4096));
    rewrite Z.mod_small; lia.
Qed.

Lemma sysinfo_compat_witness :
  ∃ r, compat_sysinfo 64 4096 5 1 (mkInfo 0 [0; 0; 0] 4000000 600 0 50 200 200 80 0 0 4096) true = Some (0, Some r).
Proof.
  destruct (sysinfo_compat 12 5 1 (mkInfo 0 [0; 0; 0] 4000000 600 0 50 200 200 80 0 0 4096)) as (r & E & _);
    [lia|done| |simpl; lia|by exists r].
  split; [by vm_compute|]. unfold mem_values. intros v Hv. rewrite !elem_of_cons, elem_of_nil in Hv. simpl in *. lia.
Defined.

(** ** Resource usage *)

(** The counters. *)
Definition counters : list (usage → Z) := [nvcsw; nivcsw; min_flt; maj_flt; inblock; oublock].

Section usage.
Context (width PAGE_SIZE : Z).
Hypothesis Hw : 0 < width.

Lemma counter_accumulate f u r : f ∈ counters → f (accumulate width u r) = ulong width (f r + f u).
Proof using.
  unfold counters. rewrite !elem_of_cons, elem_of_nil. intros H. by destruct_or! H; subst.
Qed.

Lemma counter_kept f t v r : f ∈ counters → f (with_times t r) = f r ∧ f (with_maxrss v r) = f r.
Proof using.
  unfold counters. rewrite !elem_of_cons, elem_of_nil. intros H. by destruct_or! H; subst.
Qed.

Lemma ulong_add a b : ulong width (ulong width a + b) = ulong width (a + b).
Proof using Hw. unfold ulong. rewrite Zplus_mod_idemp_l. done. Qed.

Lemma counter_threads f l r0 r : f ∈ counters →
  f (foldl (λ r t, accumulate width t r) (accumulate width r r0) l) = ulong width (f r0 + f r + zsum id (f <$> l)).
Proof using Hw.
  intros Hf. revert r0 r. induction l as [|t l IH]; intros r0 r; simpl.
  - rewrite counter_accumulate by done. f_equal. unfold zsum. simpl. lia.
  - rewrite IH, counter_accumulate by done. rewrite zsum_cons. unfold id at 2.
    rewrite <-Z.add_assoc, ulong_add. f_equal; lia.
Qed.

Lemma counter_self f p r : f ∈ counters →
  f (add_self width p r) = ulong width (f r + f (ended p) + zsum id (f <$> threads p)).
Proof using Hw.
  intros Hf. unfold add_self. cbv zeta.
  set (r1 := with_times _ r). set (r2 := accumulate width (ended p) r1).
  replace (with_maxrss _ r2) with (accumulate width (ended p)
    (with_maxrss (if maxrss r2 <? maxrss (ended p) then maxrss (ended p) else maxrss r2) r1)) by done.
  rewrite counter_threads by done. subst r1. rewrite !(proj2 (counter_kept f (0, 0) _ _ Hf)).
  by rewrite (proj1 (counter_kept f _ 0 _ Hf)).
Qed.
End usage.

Lemma no_usage_counter f : f ∈ counters → f no_usage = 0.
Proof. unfold counters. rewrite !elem_of_cons, elem_of_nil. intros H. by destruct_or! H; subst. Qed.

(** [getrusage] accounts for every thread once: the counters of a process are those of
    its ended threads plus those of all live ones, those of a thread are its own, and the
    internal sum of process and children is the sum of the two answers, all modulo the
    size of an [unsigned long]. *)
Theorem rusage_accounts (width PAGE_SIZE : Z) (p : process) (f : usage → Z) :
  0 < width → f ∈ counters → 0 ≤ f (children p) < 2 ^ width → threads p ≠ [] →
  ∃ self kids both thread,
    k_getrusage width PAGE_SIZE p RUSAGE_SELF true = Some self ∧
    k_getrusage width PAGE_SIZE p RUSAGE_CHILDREN true = Some kids ∧
    k_getrusage width PAGE_SIZE p RUSAGE_BOTH true = Some both ∧
    k_getrusage width PAGE_SIZE p RUSAGE_THREAD true = Some thread ∧
    f self = ulong width (f (ended p) + zsum id (f <$> threads p)) ∧
    f kids = f (children p) ∧
    f both = ulong width (f self + f kids) ∧
    Some (f thread) = (ulong width ∘ f) <$> head (threads p).
Proof.
  intros Hw Hf Hc Ht. unfold k_getrusage. simpl. destruct (threads p) as [|t l] eqn:El; [done|].
  do 4 eexists. do 4 (split; [done|]).
  rewrite !(proj2 (counter_kept f (0, 0) _ _ Hf)), !(proj1 (counter_kept f _ 0 _ Hf)), !counter_self by done.
  rewrite counter_accumulate, no_usage_counter, El by done. split_and!; [done|done| |done].
  rewrite ulong_add by done. f_equal. lia.
Qed.

Definition some_process : process :=
  mkProcess [mkUsage 0 0 1 2 3 4 5 6 0; mkUsage 0 0 10 0 0 0 0 0 0] (mkUsage 0 0 5 5 5 5 5 5 7)
    (mkUsage 1 1 100 1 1 1 1 1 9) (3, 4) (1, 2) (Some 20).

Lemma rusage_accounts_witness :
  ∃ self, k_getrusage 64 4096 some_process RUSAGE_SELF true = Some self ∧
    nvcsw self = ulong 64 (5 + zsum id (nvcsw <$> threads some_process)).
Proof.
  destruct (rusage_accounts 64 4096 some_process nvcsw) as (self & _ & _ & _ & E & _ & _ & _ & H & _).
  - done.
  - left.
  - by vm_compute.
  - done.
  - exists self. split; [exact E|exact H].
Defined.

(** The test program reaches the three calls of the course: each answers 0 and logs its
    line once, in order. *)
Lemma testcalls_run :
  testcalls_main =
  (["The return values of the system calls are:"; tab +:+ "cs3013_syscall1: 0"; tab +:+ "cs3013_syscall2: 0";
    tab +:+ "cs3013_syscall3: 0"],
   ["'Hello, world!' -- syscall1"; "'Hello, world!' -- syscall2"; "'Hello, world!' -- syscall3"])%string.
Proof. done. Qed.

(** ** [getrusage] and [times] *)

(** Whatever [who] a program passes, [getrusage] and its 32-bit form return (they do not
    reach [BUG()]): -EINVAL, the internal RUSAGE_BOTH included, or the usage that both take
    from the same place. *)
Theorem rusage_total (width PAGE_SIZE : Z) (put : usage → Z) (p : process) (who : Z) (locked : bool) :
  threads p ≠ [] →
  (who ∉ [RUSAGE_SELF; RUSAGE_CHILDREN; RUSAGE_THREAD] ∧
   getrusage width PAGE_SIZE p who locked true = Some (- EINVAL, None) ∧
   compat_getrusage width PAGE_SIZE put p who locked = Some (- EINVAL)) ∨
  (who ∈ [RUSAGE_SELF; RUSAGE_CHILDREN; RUSAGE_THREAD] ∧ ∃ r,
   k_getrusage width PAGE_SIZE p who locked = Some r ∧
   getrusage width PAGE_SIZE p who locked true = Some (0, Some r) ∧
   compat_getrusage width PAGE_SIZE put p who locked = Some (put r)).
Proof.
  intros Ht. rewrite !elem_of_cons, elem_of_nil. unfold getrusage, compat_getrusage.
  destruct (Z.eqb_spec who RUSAGE_SELF) as [->|]; [right|destruct (Z.eqb_spec who RUSAGE_CHILDREN) as [->|]; [right|
    destruct (Z.eqb_spec who RUSAGE_THREAD) as [->|]; [right|left; split; [tauto|done]]]]; (split; [tauto|]); simpl.
  - unfold k_getrusage. simpl. destruct locked; simpl; eauto.
  - unfold k_getrusage. simpl. destruct locked; simpl; eauto.
  - unfold k_getrusage. simpl. destruct (threads p); [done|]. eauto.
Qed.

Lemma rusage_total_witness : getrusage 64 4096 some_process RUSAGE_BOTH true true = Some (- EINVAL, None).
Proof.
  destruct (rusage_total 64 4096 maxrss some_process RUSAGE_BOTH true) as [(_ & E & _)|(H & _)]; [done|exact E|].
  exfalso. revert H. apply (bool_decide_unpack _). by vm_compute.
Defined.

(** [times] and [getrusage] tell the same times in different units; without a buffer
    [times] does not fail, but on a 32-bit machine its result then is the number of any
    error at some time (hence [force_successful_syscall_return]). *)
Theorem times_agree (width PAGE_SIZE : Z) (conv : Z → Z) (p : process) (j : Z) :
  (∃ self kids, k_getrusage width PAGE_SIZE p RUSAGE_SELF true = Some self ∧
     k_getrusage width PAGE_SIZE p RUSAGE_CHILDREN true = Some kids ∧
     times width conv id (Some true) j p =
       (to_long width j, Some (mkTms (conv (utime self)) (conv (stime self)) (conv (utime kids)) (conv (stime kids))))) ∧
  ∀ e, 0 < e < 2 ^ 31 → times 32 conv id None (2 ^ 32 - e) p = (- e, None).
Proof.
  split.
  - eexists _, _. do 2 (split; [done|]). unfold times, do_sys_times. simpl.
    assert (∀ l r, utime (foldl (λ r t, accumulate width t r) r l) = utime r ∧
      stime (foldl (λ r t, accumulate width t r) r l) = stime r) as Hl.
    { induction l as [|t l IH]; intros r; [done|]. simpl. by rewrite !(proj1 (IH _)), !(proj2 (IH _)). }
    unfold add_self. rewrite (proj1 (Hl _ _)), (proj2 (Hl _ _)). simpl. by destruct (group_times p).
  - intros e He. unfold times, to_long, id. change (32 - 1) with 31.
    assert ((2 ^ 32 - e + 2 ^ 31) mod 2 ^ 32 = 2 ^ 31 - e) as ->.
    { symmetry. apply Z.mod_unique_pos with 1; lia. }
    f_equal. lia.
Qed.

(** ** [getcpu] *)

(** A pointer that is not NULL and may not be written. *)
Definition bad (m : umem) (p : Z) : Prop := p ≠ 0 ∧ m !! p = None.

(** One [if (p) err |= put_user(v, p);] *)
Lemma put_step v p m err :
  let '(e, m') := if truthy p then let '(e, m') := put_user v p m in (Z.lor err e, m') else (err, m) in
  (e = err ∧ ¬ bad m p ∨ e = Z.lor err (- EFAULT) ∧ bad m p) ∧
  (p ≠ 0 → is_Some (m !! p) → m' !! p = Some (v mod 2 ^ 32)) ∧
  (∀ q, q ≠ p ∨ q = 0 → m' !! q = m !! q) ∧ ∀ q, bad m' q ↔ bad m q.
Proof.
  unfold put_user, truthy, bad. destruct (Z.eqb_spec p 0) as [->|Hp]; simpl; [split_and!; [left|..]; naive_solver|].
  destruct (m !! p) eqn:E.
  - rewrite Z.lor_0_r. split_and!; [left; naive_solver|intros; apply lookup_insert_eq| |].
    + intros q Hq. apply lookup_insert_ne. naive_solver.
    + intros q. rewrite lookup_insert_None. naive_solver.
  - split_and!; [right; naive_solver|intros _ [? ?]; congruence|done|done].
Qed.

(** [getcpu] is total: it succeeds exactly if every pointer that is not NULL may be
    written; also when it fails, the other pointer has been written; where both point to
    the same place the node wins, and nothing else is written. *)
Theorem getcpu_writes (cpu : Z) (node : Z → Z) (cpup nodep : Z) (m : umem) :
  let '(r, m') := getcpu cpu node cpup nodep m in
  (r = 0 ∧ ¬ bad m cpup ∧ ¬ bad m nodep ∨ r = - EFAULT ∧ (bad m cpup ∨ bad m nodep)) ∧
  (nodep ≠ 0 → is_Some (m !! nodep) → m' !! nodep = Some (node cpu mod 2 ^ 32)) ∧
  (cpup ≠ 0 → cpup ≠ nodep → is_Some (m !! cpup) → m' !! cpup = Some (cpu mod 2 ^ 32)) ∧
  (∀ p, p = 0 ∨ p ≠ cpup ∧ p ≠ nodep → m' !! p = m !! p).
Proof.
  unfold getcpu. pose proof (put_step cpu cpup m 0) as H1. destruct (if truthy cpup then _ else _) as [e1 m1].
  destruct H1 as (H1 & W1 & K1 & B1).
  pose proof (put_step (node cpu) nodep m1 e1) as H2. destruct (if truthy nodep then _ else _) as [e2 m2].
  destruct H2 as (H2 & W2 & K2 & B2). rewrite (B1 nodep) in H2. split_and!.
  - destruct H1 as [[-> ?]|[-> ?]], H2 as [[-> ?]|[-> ?]]; [by left|by right; auto..].
  - intros Hn Hs. apply W2; [done|]. destruct (decide (nodep = cpup)) as [<-|]; [rewrite W1; eauto|].
    rewrite K1 by auto. done.
  - intros Hc Hne Hs. rewrite K2 by auto. by apply W1.
  - intros p Hp. rewrite K2, K1 by tauto. done.
Qed.
