(* ===== verification/SysMm.v ===== *)
(** * Memory layout of a process (Project0/submission/sys.c)

    The [PR_SET_MM] family of [prctl]: the recorded addresses of code, data, heap, stack,
    arguments and environment, the auxiliary vector and the executable file.  An
    [unsigned long] has [width] bits, the fields of [struct prctl_mm_map] have 64. *)

From S2P Require Import Prelude SysBase SysRlimit SysInfo.

Definition EBADF : Z := 9.
Definition EBUSY : Z := 16.

(** The options of [PR_SET_MM]. *)
Definition PR_SET_MM_START_CODE : Z := 1.
Definition PR_SET_MM_END_CODE : Z := 2.
Definition PR_SET_MM_START_DATA : Z := 3.
Definition PR_SET_MM_END_DATA : Z := 4.
Definition PR_SET_MM_START_STACK : Z := 5.
Definition PR_SET_MM_START_BRK : Z := 6.
Definition PR_SET_MM_BRK : Z := 7.
Definition PR_SET_MM_ARG_START : Z := 8.
Definition PR_SET_MM_ARG_END : Z := 9.
Definition PR_SET_MM_ENV_START : Z := 10.
Definition PR_SET_MM_ENV_END : Z := 11.
Definition PR_SET_MM_AUXV : Z := 12.
Definition PR_SET_MM_EXE_FILE : Z := 13.
Definition PR_SET_MM_MAP : Z := 14.
Definition PR_SET_MM_MAP_SIZE : Z := 15.

Record layout : Type := mkLayout {
  start_code : Z; end_code : Z; start_data : Z; end_data : Z; start_brk : Z; brk : Z;
  start_stack : Z; arg_start : Z; arg_end : Z; env_start : Z; env_end : Z;
}.

Record prctl_mm_map : Type := mkMap {
  addrs : layout;
  auxv : Z;
  auxv_size : Z;
  exe_fd : Z;
}.

(** [(u32)-1] *)
Definition NOFD : Z := 4294967295.

(** The members whose offsets are checked. *)
Definition members (m : layout) : list Z :=
  [start_code m; end_code m; start_data m; end_data m; start_brk m; brk m; start_stack m;
   arg_start m; arg_end m; env_start m; env_end m].

Definition map_layout (f : Z → Z) (m : layout) : layout :=
  mkLayout (f (start_code m)) (f (end_code m)) (f (start_data m)) (f (end_data m)) (f (start_brk m)) (f (brk m))
    (f (start_stack m)) (f (arg_start m)) (f (arg_end m)) (f (env_start m)) (f (env_end m)).

(** A file: its path as a number, and what the checks of an executable say. *)
Record file : Type := mkFile {
  f_path : Z;
  is_reg : bool;
  noexec : bool;
  exec_permission : Z;                 (* inode_permission(inode, MAY_EXEC) *)
}.

(** [saved_auxv] as bytes. *)
Record mm_struct : Type := mkMm {
  mm : layout;
  saved_auxv : list Z;
  exe_file : option file;
  exe_changed : bool;                  (* MMF_EXE_FILE_CHANGED *)
}.

Definition set_mm v (s : mm_struct) := mkMm v (saved_auxv s) (exe_file s) (exe_changed s).
Definition set_auxv v (s : mm_struct) := mkMm (mm s) v (exe_file s) (exe_changed s).
Definition set_exe v (s : mm_struct) := mkMm (mm s) (saved_auxv s) v true.

Record env : Type := mkEnv {
  TASK_SIZE : Z;
  mmap_min_addr : Z;
  AT_VECTOR_SIZE : Z;
  check_data_rlimit : Z → Z → Z → Z → bool;  (* brk, start_brk, end_data, start_data *)
  local_root : bool;                   (* the real user and group are 0 in the namespace *)
  capable_resource : bool;
  fdget : Z → option file;
  vm_files : list file;                (* the files of the mapped areas *)
  find_vma : Z → bool;
  checkpoint_restore : bool;           (* CONFIG_CHECKPOINT_RESTORE *)
  sizeof_map : Z;
  put_user_size : Z → Z;               (* put_user(sizeof(prctl_map), addr) *)
}.

Section calls.
Context (width : Z) (k : env).

Definition word : Z := width `div` 8.
Definition sizeof_auxv : Z := AT_VECTOR_SIZE k * word.

(** ** The executable file *)

Definition prctl_set_mm_exe_file (fd : Z) (s : mm_struct) : Z * mm_struct :=
  match fdget k fd with
  | None => (- EBADF, s)
  | Some exe =>
      if negb (is_reg exe) || noexec exe then (- EACCES, s)
      else if exec_permission exe ≠? 0 then (exec_permission exe, s)
      else
        let mapped := match exe_file s with
                      | None => false
                      | Some old => existsb (λ f, f_path f =? f_path old) (vm_files k)
                      end in
        if mapped then (- EBUSY, s)
        else if exe_changed s then (- EPERM, s)
        else (0, set_exe (Some exe) s)
  end.

(** ** Validation *)

(** [__prctl_check_order] *)
Definition order (b : bool) : Z := if b then 0 else - EINVAL.

Definition validate_prctl_map (p : prctl_mm_map) : Z :=
  let m := addrs p in
  let ul := ulong width in
  if existsb (λ v, (TASK_SIZE k <=? ul v) || (ul v <? mmap_min_addr k)) (members m) then - EINVAL
  else
    let error := order (ul (start_code m) <? ul (end_code m)) in
    let error := Z.lor error (order (ul (start_data m) <? ul (end_data m))) in
    let error := Z.lor error (order (ul (start_brk m) <=? ul (brk m))) in
    let error := Z.lor error (order (ul (arg_start m) <=? ul (arg_end m))) in
    let error := Z.lor error (order (ul (env_start m) <=? ul (env_end m))) in
    if error ≠? 0 then error
    else if (start_brk m <=? end_data m) || (brk m <=? end_data m) then - EINVAL
    else if check_data_rlimit k (ul (brk m)) (ul (start_brk m)) (ul (end_data m)) (ul (start_data m)) then - EINVAL
    else if (auxv_size p ≠? 0) && ((auxv p =? 0) || (sizeof_auxv <? auxv_size p)) then - EINVAL
    else if (exe_fd p ≠? NOFD) && negb (local_root k) then - EINVAL
    else 0.

(** ** Setting everything at once *)

(** The last two entries must be AT_NULL. *)
Definition terminate (bs : list Z) : list Z :=
  take (Z.to_nat (sizeof_auxv - 2 * word)) bs ++ replicate (Z.to_nat (2 * word)) 0.

(** [data]: the caller's structure; [aux]: the bytes at its [auxv]. *)
Definition prctl_set_mm_map (opt addr data_size : Z) (data : user_ptr prctl_mm_map) (aux : user_ptr (list Z))
    (s : mm_struct) : Z * mm_struct :=
  if opt =? PR_SET_MM_MAP_SIZE then (put_user_size k addr, s)
  else if data_size ≠? sizeof_map k then (- EINVAL, s)
  else
    match data with
    | User p =>
        let error := validate_prctl_map p in
        if error ≠? 0 then (error, s)
        else
          match (if auxv_size p ≠? 0 then
                   match aux with
                   | User bs =>
                       Some (Some (terminate (take (Z.to_nat (auxv_size p)) bs ++
                         replicate (Z.to_nat (sizeof_auxv - auxv_size p)) 0)))
                   | _ => None
                   end
                 else Some None) with
          | None => (- EFAULT, s)
          | Some user_auxv =>
              let '(error, s) := if exe_fd p ≠? NOFD then prctl_set_mm_exe_file (exe_fd p) s else (0, s) in
              if error ≠? 0 then (error, s)
              else
                let s := set_mm (map_layout (ulong width) (addrs p)) s in
                (0, match user_auxv with Some bs => set_auxv bs s | None => s end)
          end
    | _ => (- EFAULT, s)
    end.

(** [garbage]: what the local array [user_auxv] holds before it is filled. *)
Definition prctl_set_auxv (garbage : list Z) (aux : user_ptr (list Z)) (len : Z) (s : mm_struct) : Z * mm_struct :=
  if sizeof_auxv <? len then (- EINVAL, s)
  else
    match aux with
    | User bs =>
        let user_auxv := terminate (take (Z.to_nat len) bs ++ drop (Z.to_nat len) garbage) in
        (0, set_auxv (take (Z.to_nat len) user_auxv ++ drop (Z.to_nat len) (saved_auxv s)) s)
    | _ => (- EFAULT, s)
    end.

(** ** Setting one address *)

Definition set_member (opt addr : Z) (m : layout) : option layout :=
  let '(mkLayout a b c d e f g h i j l) := m in
  if opt =? PR_SET_MM_START_CODE then Some (mkLayout addr b c d e f g h i j l)
  else if opt =? PR_SET_MM_END_CODE then Some (mkLayout a addr c d e f g h i j l)
  else if opt =? PR_SET_MM_START_DATA then Some (mkLayout a b addr d e f g h i j l)
  else if opt =? PR_SET_MM_END_DATA then Some (mkLayout a b c addr e f g h i j l)
  else if opt =? PR_SET_MM_START_STACK then Some (mkLayout a b c d e f addr h i j l)
  else if opt =? PR_SET_MM_START_BRK then Some (mkLayout a b c d addr f g h i j l)
  else if opt =? PR_SET_MM_BRK then Some (mkLayout a b c d e addr g h i j l)
  else if opt =? PR_SET_MM_ARG_START then Some (mkLayout a b c d e f g addr i j l)
  else if opt =? PR_SET_MM_ARG_END then Some (mkLayout a b c d e f g h addr j l)
  else if opt =? PR_SET_MM_ENV_START then Some (mkLayout a b c d e f g h i addr l)
  else if opt =? PR_SET_MM_ENV_END then Some (mkLayout a b c d e f g h i j addr)
  else None.

(** Options that need a mapped area at the address. *)
Definition needs_vma (opt : Z) : bool :=
  (opt =? PR_SET_MM_START_STACK) || (opt =? PR_SET_MM_ARG_START) || (opt =? PR_SET_MM_ARG_END) ||
  (opt =? PR_SET_MM_ENV_START) || (opt =? PR_SET_MM_ENV_END).

Definition prctl_set_mm (opt addr arg4 arg5 : Z) (data : user_ptr prctl_mm_map) (garbage : list Z)
    (aux : user_ptr (list Z)) (s : mm_struct) : Z * mm_struct :=
  if (arg5 ≠? 0) || ((arg4 ≠? 0) && ((opt ≠? PR_SET_MM_AUXV) && (opt ≠? PR_SET_MM_MAP) &&
                                     (opt ≠? PR_SET_MM_MAP_SIZE))) then (- EINVAL, s)
  else if checkpoint_restore k && ((opt =? PR_SET_MM_MAP) || (opt =? PR_SET_MM_MAP_SIZE)) then
    prctl_set_mm_map opt addr arg4 data aux s
  else if negb (capable_resource k) then (- EPERM, s)
  else if opt =? PR_SET_MM_EXE_FILE then prctl_set_mm_exe_file (addr mod 2 ^ 32) s
  else if opt =? PR_SET_MM_AUXV then prctl_set_auxv garbage aux arg4 s
  else if (TASK_SIZE k <=? addr) || (addr <? mmap_min_addr k) then (- EINVAL, s)
  else
    match set_member opt addr (mm s) with
    | None => (- EINVAL, s)
    | Some m =>
        let error := validate_prctl_map (mkMap m 0 0 NOFD) in
        if error ≠? 0 then (error, s)
        else if needs_vma opt && negb (find_vma k addr) then (- EFAULT, s)
        else (0, set_mm m s)
    end.
End calls.
