(* ===== verification/SysMmProps.v ===== *)
(** * Memory layout of a process: properties *)

From S2P Require Import Prelude SysBase SysRlimit SysInfo SysMm.

(** ** A layout the kernel accepts *)

Record layout_ok (k : env) (m : layout) : Prop := mkLayoutOk {
  lo_range v : v ∈ members m → mmap_min_addr k ≤ v < TASK_SIZE k;
  lo_code : start_code m < end_code m;
  lo_data : start_data m < end_data m;
  lo_brk : start_brk m ≤ brk m;
  lo_args : arg_start m ≤ arg_end m;
  lo_env : env_start m ≤ env_end m;
  lo_heap : end_data m < start_brk m;
}.

Section calls.
Context (width : Z) (k : env).
Implicit Types (m : layout) (s : mm_struct) (p : prctl_mm_map).

Lemma order_zero b : order b = 0 ↔ b = true.
Proof. by destruct b. Qed.

(** What acceptance says, in terms of the addresses cut off to the machine's width. *)
Lemma validate_zero p : validate_prctl_map width k p = 0 →
  (∀ v, v ∈ members (addrs p) → mmap_min_addr k ≤ ulong width v < TASK_SIZE k) ∧
  (let m := map_layout (ulong width) (addrs p) in
   start_code m < end_code m ∧ start_data m < end_data m ∧ start_brk m ≤ brk m ∧
   arg_start m ≤ arg_end m ∧ env_start m ≤ env_end m) ∧
  end_data (addrs p) < start_brk (addrs p) ∧
  (auxv_size p ≠ 0 → auxv_size p ≤ sizeof_auxv width k) ∧
  (exe_fd p ≠ NOFD → local_root k = true).
Proof.
  unfold validate_prctl_map. cbv zeta.
  destruct (existsb _ _) eqn:Ee; [done|].
  case_match eqn:Eo; [apply neqb_true in Eo; done|]. apply neqb_false in Eo.
  rewrite !Z.lor_eq_0_iff, !order_zero, !Z.ltb_lt, !Z.leb_le in Eo. destruct Eo as [[[[? ?] ?] ?] ?].
  case_match eqn:Eb; [done|]. apply orb_false_iff in Eb as [Eb%Z.leb_gt _].
  case_match; [done|]. case_match eqn:Ea; [done|]. case_match eqn:Er; [done|]. intros _.
  split; [|split; [done|split; [lia|split]]].
  - intros v Hv. rewrite <-not_true_iff_false, existsb_exists in Ee.
    assert ((TASK_SIZE k <=? ulong width v) || (ulong width v <? mmap_min_addr k) = false) as [Hx Hy]%orb_false_iff.
    { apply not_true_iff_false. intros E. apply Ee. exists v. split; [by apply list_elem_of_In|done]. }
    lia.
  - intros Hn. rewrite (proj2 (neqb_true _ _)) in Ea by done. simpl in Ea.
    apply orb_false_iff in Ea as [_ ?%Z.ltb_ge]. lia.
  - intros Hn. rewrite (proj2 (neqb_true _ _)) in Er by done. by destruct (local_root k).
Qed.

(** The addresses of a structure, as the processor has them. *)
Definition fits m : Prop := Forall (λ v, 0 ≤ v < 2 ^ width) (members m).

Lemma map_layout_fits m : fits m → map_layout (ulong width) m = m.
Proof.
  unfold fits, members. rewrite !Forall_cons. intros H. destruct m. unfold map_layout. simpl in *.
  f_equal; apply Z.mod_small; tauto.
Qed.

Lemma validate_layout p : fits (addrs p) → validate_prctl_map width k p = 0 → layout_ok k (addrs p).
Proof.
  intros Hf (H1 & H2 & H3 & _)%validate_zero. cbv zeta in H2. rewrite map_layout_fits in H2 by done.
  destruct H2 as (? & ? & ? & ? & ?). split; try done.
  intros v Hv. specialize (H1 v Hv). unfold ulong in H1. rewrite Z.mod_small in H1; [done|]. by apply (proj1 (Forall_forall _ _) Hf).
Qed.

Lemma set_member_fits opt addr m m' : fits m → 0 ≤ addr < 2 ^ width → set_member opt addr m = Some m' → fits m'.
Proof.
  intros Hf Ha E. unfold set_member, fits, members in *. rewrite !Forall_cons in Hf. destruct m. simpl in *.
  repeat case_match; simplify_eq; simpl; rewrite !Forall_cons; tauto.
Qed.

(** ** The auxiliary vector *)

(** It has its size and its last two words are AT_NULL. *)
Definition null_ended (bs : list Z) : Prop :=
  length bs = Z.to_nat (sizeof_auxv width k) ∧
  ∀ i : nat, (Z.to_nat (sizeof_auxv width k - 2 * word width) ≤ i < Z.to_nat (sizeof_auxv width k))%nat →
    bs !! i = Some 0.

Hypothesis Hword : 0 ≤ word width.
Hypothesis Hsize : 2 * word width ≤ sizeof_auxv width k.

Lemma terminate_null_ended bs : (Z.to_nat (sizeof_auxv width k - 2 * word width) ≤ length bs)%nat →
  null_ended (terminate width k bs).
Proof using Hword Hsize.
  intros Hl. unfold terminate. split.
  - rewrite length_app, length_take, length_replicate. lia.
  - intros i Hi. rewrite lookup_app_r by (rewrite length_take; lia).
    apply lookup_replicate. split; [done|]. rewrite length_take. lia.
Qed.

Lemma overlay_null_ended bs bs' (n : nat) :
  null_ended bs → null_ended bs' → null_ended (take n bs ++ drop n bs').
Proof using.
  intros [H1 H2] [H3 H4]. split.
  - rewrite length_app, length_take, length_drop. lia.
  - intros i Hi. destruct (decide (i < n)%nat).
    + rewrite lookup_app_l by (rewrite length_take; lia). rewrite lookup_take. case_decide; [by apply H2|lia].
    + rewrite lookup_app_r by (rewrite length_take; lia). rewrite lookup_drop, length_take.
      rewrite <-(H4 i Hi). f_equal. lia.
Qed.

(** ** The invariant *)

Record mm_ok s : Prop := mkMmOk {
  mo_fits : fits (mm s);
  mo_layout : layout_ok k (mm s);
  mo_auxv : null_ended (saved_auxv s);
}.

Lemma exe_file_ok fd s : mm_ok s → mm_ok (prctl_set_mm_exe_file k fd s).2.
Proof using. intros []. unfold prctl_set_mm_exe_file. repeat case_match; by split. Qed.
End calls.

(** ** Calls *)

Record call : Type := mkCall {
  c_opt : Z; c_addr : Z; c_arg4 : Z; c_arg5 : Z;
  c_data : user_ptr prctl_mm_map; c_garbage : list Z; c_aux : user_ptr (list Z);
}.

Definition exec (width : Z) (k : env) (c : call) : mm_struct → Z * mm_struct :=
  prctl_set_mm width k (c_opt c) (c_addr c) (c_arg4 c) (c_arg5 c) (c_data c) (c_garbage c) (c_aux c).

Definition run (width : Z) (k : env) (l : list call) (s : mm_struct) : mm_struct :=
  foldl (λ s c, (exec width k c s).2) s l.

(** The arguments have their C types, and memory that could be copied is long enough. *)
Record call_ok (width : Z) (k : env) (c : call) : Prop := mkCallOk {
  co_addr : 0 ≤ c_addr c < 2 ^ width;
  co_arg4 : 0 ≤ c_arg4 c;
  co_data p : c_data c = User p → fits 64 (addrs p) ∧ 0 ≤ auxv_size p;
  co_garbage : length (c_garbage c) = Z.to_nat (sizeof_auxv width k);
  co_aux bs : c_aux c = User bs →
    (∀ p, c_data c = User p → (Z.to_nat (auxv_size p) ≤ length bs)%nat) ∧ (Z.to_nat (c_arg4 c) ≤ length bs)%nat;
}.

Section exec.
Context (k : env).
Hypothesis Hsize : 2 * word 64 ≤ sizeof_auxv 64 k.

Lemma set_mm_map_ok opt addr size data aux s :
  (∀ p, data = User p → fits 64 (addrs p) ∧ 0 ≤ auxv_size p) →
  (∀ p bs, data = User p → aux = User bs → (Z.to_nat (auxv_size p) ≤ length bs)%nat) →
  mm_ok 64 k s → mm_ok 64 k (prctl_set_mm_map 64 k opt addr size data aux s).2.
Proof using Hsize.
  intros Hd Ha Hs. unfold prctl_set_mm_map. do 2 (case_match; [done|]). destruct data as [| |p]; try done.
  destruct (Hd p eq_refl) as [Hf Hz]. destruct (Z.eqb_spec (validate_prctl_map 64 k p) 0) as [Hv|]; [|done]. simpl.
  pose proof (validate_layout 64 k p Hf Hv) as Hl. rewrite map_layout_fits by done.
  assert (∀ s1, mm_ok 64 k s1 → mm_ok 64 k (set_mm (addrs p) s1)) as Hset by (intros s1 []; by split).
  pose proof (λ fd, exe_file_ok 64 k fd s Hs) as He.
  destruct (Z.eqb_spec (auxv_size p) 0) as [Ez|Ez]; simpl.
  - destruct (exe_fd p ≠? NOFD); simpl; [|by apply Hset].
    specialize (He (exe_fd p)). destruct (prctl_set_mm_exe_file k (exe_fd p) s) as [e s1]. simpl in He.
    case_match; simpl; auto.
  - destruct aux as [| |bs]; try done. specialize (Ha p bs eq_refl eq_refl).
    apply validate_zero in Hv as (_ & _ & _ & Hv & _). specialize (Hv Ez).
    assert (∀ s1, mm_ok 64 k s1 → mm_ok 64 k (set_auxv (terminate 64 k (take (Z.to_nat (auxv_size p)) bs ++
      replicate (Z.to_nat (sizeof_auxv 64 k - auxv_size p)) 0)) s1)) as Haux.
    { intros s1 []. split; try done. apply terminate_null_ended; [done..|].
      rewrite length_app, length_take, length_replicate. change (word 64) with 8 in *. lia. }
    destruct (exe_fd p ≠? NOFD); simpl; [|by apply Haux, Hset].
    specialize (He (exe_fd p)). destruct (prctl_set_mm_exe_file k (exe_fd p) s) as [e s1]. simpl in He.
    case_match; simpl; auto.
Qed.

Lemma set_auxv_ok garbage aux len s :
  0 ≤ len → length garbage = Z.to_nat (sizeof_auxv 64 k) →
  (∀ bs, aux = User bs → (Z.to_nat len ≤ length bs)%nat) →
  mm_ok 64 k s → mm_ok 64 k (prctl_set_auxv 64 k garbage aux len s).2.
Proof using Hsize.
  intros Hlen Hg Ha []. unfold prctl_set_auxv. destruct (Z.ltb_spec (sizeof_auxv 64 k) len); [by split|].
  destruct aux as [| |bs]; [by split..|]. specialize (Ha bs eq_refl). split; try done. simpl.
  apply overlay_null_ended; [|done]. apply terminate_null_ended; [done..|].
  rewrite length_app, length_take, length_drop, Hg. change (word 64) with 8 in *. lia.
Qed.

Lemma exec_ok c s : call_ok 64 k c → mm_ok 64 k s → mm_ok 64 k (exec 64 k c s).2.
Proof using Hsize.
  intros [Ha H4 Hd Hg Hx] Hs. unfold exec, prctl_set_mm. case_match; [done|]. case_match.
  { apply set_mm_map_ok; auto. intros p bs Hp Hb. by destruct (Hx bs Hb) as [? _]; auto. }
  do 2 (case_match; [first [done|by apply exe_file_ok]|]).
  case_match. { apply set_auxv_ok; auto. intros bs Hb. by destruct (Hx bs Hb). }
  case_match; [done|]. destruct (set_member _ _ _) as [m|] eqn:Em; [|done].
  destruct (Z.eqb_spec (validate_prctl_map 64 k (mkMap m 0 0 NOFD)) 0) as [Hv|]; [|done]. simpl.
  case_match; [done|]. destruct Hs as [Hf Hl Hn]. pose proof (set_member_fits _ _ _ _ _ Hf Ha Em) as Hf'.
  split; [done| |done]. by apply (validate_layout 64 k (mkMap m 0 0 NOFD)).
Qed.
End exec.

(** ** The executable file changes once *)

Definition exe_step (k : env) (s s' : mm_struct) : Prop :=
  (exe_file s' = exe_file s ∧ exe_changed s' = exe_changed s) ∨
  (exe_changed s = false ∧ exe_changed s' = true ∧
   ∃ f fd, exe_file s' = Some f ∧ fdget k fd = Some f ∧ is_reg f = true ∧ noexec f = false ∧ exec_permission f = 0).

Lemma exe_file_step k fd s : exe_step k s (prctl_set_mm_exe_file k fd s).2.
Proof.
  unfold prctl_set_mm_exe_file. destruct (fdget k fd) as [f|] eqn:Ef; [|by left].
  destruct (negb (is_reg f) || noexec f) eqn:Er; [by left|].
  destruct (Z.eqb_spec (exec_permission f) 0) as [E|]; [|by left]. simpl.
  case_match; [by left|]. destruct (exe_changed s) eqn:Ec; [by left|right]. split_and!; try done.
  exists f, fd. apply orb_false_iff in Er as [?%negb_false_iff ?]. by split_and!.
Qed.

Lemma exec_exe_step width k c s : exe_step k s (exec width k c s).2.
Proof.
  unfold exec, prctl_set_mm. case_match; [by left|]. case_match.
  - unfold prctl_set_mm_map. do 2 (case_match; [by left|]). destruct (c_data c) as [| |p]; [by left..|].
    case_match; [by left|]. destruct (if auxv_size p ≠? 0 then _ else _) as [ua|]; [|by left].
    destruct (exe_fd p ≠? NOFD); simpl; [|by left; destruct ua].
    pose proof (exe_file_step k (exe_fd p) s) as Hx. destruct (prctl_set_mm_exe_file k (exe_fd p) s) as [e s1].
    case_match; [done|]. by destruct ua.
  - case_match; [by left|]. case_match; [apply exe_file_step|]. case_match.
    { unfold prctl_set_auxv. case_match; [by left|]. by destruct (c_aux c); left. }
    case_match; [by left|]. destruct (set_member _ _ _); [|by left]. repeat case_match; by left.
Qed.

(** ** The claims *)

(** A small address space and a process in it. *)
Definition tiny_env : env :=
  mkEnv 1000000 4096 4 (λ _ _ _ _, false) true true
    (λ fd, if fd =? 3 then Some (mkFile 7 true false 0) else None) [] (λ _, true) true 100 (λ _, 0).
Definition sound : layout := mkLayout 5000 6000 7000 8000 9000 9000 9500 9600 9700 9800 9900.
Definition mm_start : mm_struct := mkMm sound (replicate 32 0) None false.

Lemma sound_ok : layout_ok tiny_env sound.
Proof.
  split; simpl; try lia. intros v Hv. unfold members in Hv. rewrite !elem_of_cons, elem_of_nil in Hv. simpl in *. lia.
Qed.

Lemma mm_start_ok : mm_ok 64 tiny_env mm_start.
Proof.
  split; [|apply sound_ok|].
  - unfold fits, members. rewrite !Forall_cons. simpl. split_and!; try lia. done.
  - split; [done|]. intros i Hi. apply lookup_replicate. split; [done|]. vm_compute in Hi. lia.
Qed.

(** On a 32-bit machine the check that the heap starts after the data can be evaded:
    the comparison uses all 64 bits of the caller's fields, the others and the stored
    addresses only the low 32.  A map with such a field is accepted, and the heap it
    records starts before the end of the data. *)
Theorem mm_truncation :
  ∃ (k : env) (p : prctl_mm_map) (s s' : mm_struct),
    layout_ok k (mm s) ∧
    exec 32 k (mkCall PR_SET_MM_MAP 0 (sizeof_map k) 0 (User p) [] NULL) s = (0, s') ∧
    start_brk (mm s') < end_data (mm s').
Proof.
  exists tiny_env, (mkMap (mkLayout 5000 6000 7000 8000 (4294967296 + 7500) (4294967296 + 7600) 9500 9600 9700 9800 9900)
    0 0 NOFD), mm_start. eexists. split; [apply sound_ok|by vm_compute].
Qed.

(** The executable of a process changes at most once: every call leaves it alone, or
    it is the first change, to a regular file that may be executed; after that no sequence
    of calls changes it. *)
Theorem mm_exe_once (width : Z) (k : env) (c : call) (l : list call) (s : mm_struct) :
  exe_step k s (exec width k c s).2 ∧
  (exe_file (exec width k c s).2 ≠ exe_file s →
   exe_file (run width k l (exec width k c s).2) = exe_file (exec width k c s).2).
Proof.
  split; [apply exec_exe_step|]. intros Hne.
  destruct (exec_exe_step width k c s) as [[? _]|(_ & Hch & _)]; [done|].
  revert Hch. generalize (exec width k c s).2. clear s Hne.
  induction l as [|c' l IH]; intros s Hch; [done|]. simpl.
  destruct (exec_exe_step width k c' s) as [[E1 E2]|(? & _)]; [|congruence].
  rewrite IH by congruence. done.
Qed.
