(* ===== verification/SysPrctl.v ===== *)
(** * [prctl] (Project0/submission/sys.c)

    The options that keep their state in the task are modelled with it, [PR_SET_MM] is
    [SysMm]; those that only call a function of another kernel file return what that
    function answers, which is an argument. *)

From S2P Require Import Prelude SysBase SysRlimit SysUts SysMm.
From Stdlib Require Import Ascii.

Definition ENOSYS : Z := 38.
Definition SUID_DUMP_DISABLE : Z := 0.
Definition SUID_DUMP_USER : Z := 1.
Definition PR_TIMING_STATISTICAL : Z := 0.
Definition PR_MCE_KILL_CLEAR : Z := 0.
Definition PR_MCE_KILL_SET : Z := 1.
Definition PR_MCE_KILL_LATE : Z := 0.
Definition PR_MCE_KILL_EARLY : Z := 1.
Definition PR_MCE_KILL_DEFAULT : Z := 2.
Definition sizeof_comm : Z := 16.

(** The values of [option] with a case of their own. *)
Inductive pr : Type :=
  | PR_SET_PDEATHSIG | PR_GET_PDEATHSIG | PR_GET_DUMPABLE | PR_SET_DUMPABLE
  | PR_SET_UNALIGN | PR_GET_UNALIGN | PR_SET_FPEMU | PR_GET_FPEMU | PR_SET_FPEXC | PR_GET_FPEXC
  | PR_GET_TIMING | PR_SET_TIMING | PR_SET_NAME | PR_GET_NAME | PR_GET_ENDIAN | PR_SET_ENDIAN
  | PR_GET_SECCOMP | PR_SET_SECCOMP | PR_GET_TSC | PR_SET_TSC
  | PR_TASK_PERF_EVENTS_DISABLE | PR_TASK_PERF_EVENTS_ENABLE
  | PR_GET_TIMERSLACK | PR_SET_TIMERSLACK | PR_MCE_KILL | PR_MCE_KILL_GET | PR_SET_MM
  | PR_GET_TID_ADDRESS | PR_SET_CHILD_SUBREAPER | PR_GET_CHILD_SUBREAPER
  | PR_SET_NO_NEW_PRIVS | PR_GET_NO_NEW_PRIVS | PR_GET_THP_DISABLE | PR_SET_THP_DISABLE
  | PR_MPX_ENABLE_MANAGEMENT | PR_MPX_DISABLE_MANAGEMENT | PR_SET_FP_MODE | PR_GET_FP_MODE
  | PR_GET_SPECULATION_CTRL | PR_SET_SPECULATION_CTRL | PR_OTHER.

Record task : Type := mkTask {
  pdeath_signal : Z;
  dumpable : Z;
  comm : list ascii;                   (* without the NUL *)
  timer_slack_ns : Z;
  default_timer_slack_ns : Z;
  mce_process : bool;                  (* PF_MCE_PROCESS *)
  mce_early : bool;                    (* PF_MCE_EARLY *)
  is_child_subreaper : Z;
  no_new_privs : bool;
  nohugepage : bool;                   (* VM_NOHUGEPAGE in mm->def_flags *)
  clear_child_tid : Z;
  task_mm : mm_struct;
}.

Definition set_pdeath v t := mkTask v (dumpable t) (comm t) (timer_slack_ns t) (default_timer_slack_ns t) (mce_process t) (mce_early t) (is_child_subreaper t) (no_new_privs t) (nohugepage t) (clear_child_tid t) (task_mm t).
Definition set_dumpable v t := mkTask (pdeath_signal t) v (comm t) (timer_slack_ns t) (default_timer_slack_ns t) (mce_process t) (mce_early t) (is_child_subreaper t) (no_new_privs t) (nohugepage t) (clear_child_tid t) (task_mm t).
Definition set_comm v t := mkTask (pdeath_signal t) (dumpable t) v (timer_slack_ns t) (default_timer_slack_ns t) (mce_process t) (mce_early t) (is_child_subreaper t) (no_new_privs t) (nohugepage t) (clear_child_tid t) (task_mm t).
Definition set_slack v t := mkTask (pdeath_signal t) (dumpable t) (comm t) v (default_timer_slack_ns t) (mce_process t) (mce_early t) (is_child_subreaper t) (no_new_privs t) (nohugepage t) (clear_child_tid t) (task_mm t).
Definition set_mce p e t := mkTask (pdeath_signal t) (dumpable t) (comm t) (timer_slack_ns t) (default_timer_slack_ns t) p e (is_child_subreaper t) (no_new_privs t) (nohugepage t) (clear_child_tid t) (task_mm t).
Definition set_subreaper v t := mkTask (pdeath_signal t) (dumpable t) (comm t) (timer_slack_ns t) (default_timer_slack_ns t) (mce_process t) (mce_early t) v (no_new_privs t) (nohugepage t) (clear_child_tid t) (task_mm t).
Definition set_nnp t := mkTask (pdeath_signal t) (dumpable t) (comm t) (timer_slack_ns t) (default_timer_slack_ns t) (mce_process t) (mce_early t) (is_child_subreaper t) true (nohugepage t) (clear_child_tid t) (task_mm t).
Definition set_thp v t := mkTask (pdeath_signal t) (dumpable t) (comm t) (timer_slack_ns t) (default_timer_slack_ns t) (mce_process t) (mce_early t) (is_child_subreaper t) (no_new_privs t) v (clear_child_tid t) (task_mm t).
Definition set_task_mm v t := mkTask (pdeath_signal t) (dumpable t) (comm t) (timer_slack_ns t) (default_timer_slack_ns t) (mce_process t) (mce_early t) (is_child_subreaper t) (no_new_privs t) (nohugepage t) (clear_child_tid t) v.

Record penv : Type := mkPenv {
  security_task_prctl : pr → Z → Z → Z → Z → Z;
  valid_signal : Z → bool;
  elsewhere : pr → Z → Z → Z;          (* the answer of another kernel file *)
  mm_env : env;
}.

(** What the caller's memory holds or takes: copying works or not, the characters at
    [arg2] (for [PR_SET_NAME]), and the arguments of [PR_SET_MM]. *)
Record user : Type := mkUser {
  copied : bool;
  name : user_ptr (list ascii);
  map_data : user_ptr prctl_mm_map;
  aux_data : user_ptr (list Z);
  garbage : list Z;
}.

(** What is written to the caller. *)
Inductive out : Type := Nothing | Int (v : Z) | Chars (l : list ascii).

Section prctl.
Context (width : Z) (k : penv) (u : user).

(** [put_user] *)
Definition put (v : Z) (t : task) : Z * out * task :=
  if copied u then (0, Int v, t) else (- EFAULT, Nothing, t).

Definition done_ (t : task) : Z * out * task := (0, Nothing, t).
Definition ret (e : Z) (t : task) : Z * out * task := (e, Nothing, t).

(** Up to the first NUL. *)
Fixpoint until_nul (l : list ascii) : list ascii :=
  match l with [] => [] | c :: l' => if decide (c = NUL) then [] else c :: until_nul l' end.

Definition prctl_mce_kill (arg2 arg3 arg4 arg5 : Z) (t : task) : Z * out * task :=
  if Z.lor arg4 arg5 ≠? 0 then ret (- EINVAL) t
  else if arg2 =? PR_MCE_KILL_CLEAR then
    if arg3 ≠? 0 then ret (- EINVAL) t else done_ (set_mce false (mce_early t) t)
  else if arg2 =? PR_MCE_KILL_SET then
    let t := set_mce true (mce_early t) t in
    if arg3 =? PR_MCE_KILL_EARLY then done_ (set_mce (mce_process t) true t)
    else if arg3 =? PR_MCE_KILL_LATE then done_ (set_mce (mce_process t) false t)
    else if arg3 =? PR_MCE_KILL_DEFAULT then done_ (set_mce false false t)
    else ret (- EINVAL) t
  else ret (- EINVAL) t.

Definition prctl_mce_kill_get (arg2 arg3 arg4 arg5 : Z) (t : task) : Z * out * task :=
  if Z.lor (Z.lor (Z.lor arg2 arg3) arg4) arg5 ≠? 0 then ret (- EINVAL) t
  else if mce_process t then ret (if mce_early t then PR_MCE_KILL_EARLY else PR_MCE_KILL_LATE) t
  else ret PR_MCE_KILL_DEFAULT t.

Definition prctl_set_name (t : task) : Z * out * task :=
  match name u with
  | User l => done_ (set_comm (until_nul (take (Z.to_nat (sizeof_comm - 1)) l)) t)
  | _ => ret (- EFAULT) t
  end.

(** [get_task_comm] fills the rest with NUL. *)
Definition prctl_get_name (t : task) : Z * out * task :=
  if copied u then (0, Chars (comm t ++ replicate (Z.to_nat sizeof_comm - length (comm t)) NUL), t)
  else ret (- EFAULT) t.

Definition prctl_get_tid_address (t : task) : Z * out * task :=
  if checkpoint_restore (mm_env k) then put (clear_child_tid t) t else ret (- EINVAL) t.

(** [if (arg.. || ..) return -EINVAL;] *)
Definition unused (l : list Z) (r : Z * out * task) (t : task) : Z * out * task :=
  if existsb (λ a, a ≠? 0) l then ret (- EINVAL) t else r.

(** The cases after the subreaper. *)
Definition prctl_late (o : pr) (arg2 arg3 arg4 arg5 : Z) (t : task) : Z * out * task :=
  match o with
  | PR_SET_NO_NEW_PRIVS =>
      if (arg2 ≠? 1) || existsb (λ a, a ≠? 0) [arg3; arg4; arg5] then ret (- EINVAL) t else done_ (set_nnp t)
  | PR_GET_NO_NEW_PRIVS => unused [arg2; arg3; arg4; arg5] (ret (if no_new_privs t then 1 else 0) t) t
  | PR_GET_THP_DISABLE => unused [arg2; arg3; arg4; arg5] (ret (if nohugepage t then 1 else 0) t) t
  | PR_SET_THP_DISABLE => unused [arg3; arg4; arg5] (done_ (set_thp (arg2 ≠? 0) t)) t
  | PR_MPX_ENABLE_MANAGEMENT | PR_MPX_DISABLE_MANAGEMENT =>
      unused [arg2; arg3; arg4; arg5] (ret (elsewhere k o 0 0) t) t
  | PR_GET_SPECULATION_CTRL => unused [arg3; arg4; arg5] (ret (elsewhere k o arg2 0) t) t
  | PR_SET_SPECULATION_CTRL => unused [arg4; arg5] (ret (elsewhere k o arg2 arg3) t) t
  | PR_SET_FP_MODE | PR_GET_FP_MODE => ret (elsewhere k o arg2 arg3) t
  | _ => ret (- EINVAL) t
  end.

Definition prctl (o : pr) (arg2 arg3 arg4 arg5 : Z) (t : task) : Z * out * task :=
  let error := security_task_prctl k o arg2 arg3 arg4 arg5 in
  if error ≠? - ENOSYS then ret error t
  else
    match o with
    | PR_SET_PDEATHSIG => if negb (valid_signal k arg2) then ret (- EINVAL) t else done_ (set_pdeath arg2 t)
    | PR_GET_PDEATHSIG => put (pdeath_signal t) t
    | PR_GET_DUMPABLE => ret (dumpable t) t
    | PR_SET_DUMPABLE =>
        if (arg2 ≠? SUID_DUMP_DISABLE) && (arg2 ≠? SUID_DUMP_USER) then ret (- EINVAL) t
        else done_ (set_dumpable arg2 t)
    | PR_SET_UNALIGN | PR_GET_UNALIGN | PR_SET_FPEMU | PR_GET_FPEMU | PR_SET_FPEXC | PR_GET_FPEXC
    | PR_GET_ENDIAN | PR_SET_ENDIAN | PR_GET_TSC | PR_SET_TSC
    | PR_GET_SECCOMP | PR_SET_SECCOMP | PR_TASK_PERF_EVENTS_DISABLE | PR_TASK_PERF_EVENTS_ENABLE =>
        ret (elsewhere k o arg2 arg3) t
    | PR_GET_TIMING => ret PR_TIMING_STATISTICAL t
    | PR_SET_TIMING => if arg2 ≠? PR_TIMING_STATISTICAL then ret (- EINVAL) t else done_ t
    | PR_SET_NAME => prctl_set_name t
    | PR_GET_NAME => prctl_get_name t
    | PR_GET_TIMERSLACK => ret (timer_slack_ns t) t
    | PR_SET_TIMERSLACK => done_ (set_slack (if arg2 <=? 0 then default_timer_slack_ns t else arg2) t)
    | PR_MCE_KILL => prctl_mce_kill arg2 arg3 arg4 arg5 t
    | PR_MCE_KILL_GET => prctl_mce_kill_get arg2 arg3 arg4 arg5 t
    | PR_SET_MM =>
        let '(e, m) := prctl_set_mm width (mm_env k) (to_int arg2) arg3 arg4 arg5 (map_data u) (garbage u) (aux_data u) (task_mm t) in
        ret e (set_task_mm m t)
    | PR_GET_TID_ADDRESS => prctl_get_tid_address t
    | PR_SET_CHILD_SUBREAPER => done_ (set_subreaper (if arg2 ≠? 0 then 1 else 0) t)
    | PR_GET_CHILD_SUBREAPER => put (is_child_subreaper t) t
    | _ => prctl_late o arg2 arg3 arg4 arg5 t
    end.
End prctl.

(** Without support of the architecture: what the macros at the top of the file and the
    weak functions stand for. *)
Definition no_arch (o : pr) : option Z :=
  match o with
  | PR_SET_UNALIGN | PR_GET_UNALIGN | PR_SET_FPEMU | PR_GET_FPEMU | PR_SET_FPEXC | PR_GET_FPEXC
  | PR_GET_ENDIAN | PR_SET_ENDIAN | PR_GET_TSC | PR_SET_TSC | PR_SET_FP_MODE | PR_GET_FP_MODE
  | PR_MPX_ENABLE_MANAGEMENT | PR_MPX_DISABLE_MANAGEMENT => Some (- EINVAL)
  | _ => None
  end.
Definition arch_prctl_spec_ctrl_get (which : Z) : Z := - EINVAL.
Definition arch_prctl_spec_ctrl_set (which ctrl : Z) : Z := - EINVAL.

(** A sequence of calls. *)
Record call : Type := mkCall {
  option_ : pr; a2 : Z; a3 : Z; a4 : Z; a5 : Z; memory : user;
}.

Definition exec (width : Z) (k : penv) (c : call) (t : task) : Z * out * task :=
  prctl width k (memory c) (option_ c) (a2 c) (a3 c) (a4 c) (a5 c) t.

Definition run (width : Z) (k : penv) (l : list call) (t : task) : task :=
  foldl (λ t c, (exec width k c t).2) t l.
