(* ===== verification/SysPrctlProps.v ===== *)
(** * [prctl]: properties *)

From S2P Require Import Prelude SysBase SysRlimit SysUts SysInfo SysMm SysMmProps SysPrctl.
From Stdlib Require Import Ascii.

(** ** One call *)

Section calls.
Context (width : Z) (k : penv).
Implicit Types (t : task) (c : call).

(** Only [PR_SET_MM] touches the memory layout. *)
Lemma exec_mm c t :
  task_mm (exec width k c t).2 = task_mm t ∨
  task_mm (exec width k c t).2 =
    (prctl_set_mm width (mm_env k) (to_int (a2 c)) (a3 c) (a4 c) (a5 c) (map_data (memory c))
       (garbage (memory c)) (aux_data (memory c)) (task_mm t)).2.
Proof.
  unfold exec, prctl, prctl_late, put, unused, done_, ret, prctl_set_name, prctl_get_name, prctl_mce_kill, prctl_mce_kill_get,
    prctl_get_tid_address, put.
  case_match; [by left|].
  destruct (option_ c); try (left; repeat case_match; done).
  right. by destruct (prctl_set_mm _ _ _ _ _ _ _ _ _ _).
Qed.

(** Nothing clears [no_new_privs]. *)
Lemma exec_nnp c t : no_new_privs t = true → no_new_privs (exec width k c t).2 = true.
Proof.
  intros Hn. unfold exec, prctl, prctl_late, put, unused, done_, ret, prctl_set_name, prctl_get_name, prctl_mce_kill,
    prctl_mce_kill_get, prctl_get_tid_address, put.
  case_match; [done|]. destruct (option_ c); repeat case_match; try done.
Qed.
End calls.

Lemma run_nnp width k l t : no_new_privs t = true → no_new_privs (run width k l t) = true.
Proof. revert t. induction l as [|c l IH]; intros t Hn; [done|]. apply IH. by apply exec_nnp. Qed.

(** ** The claims *)

(** The arguments of a [PR_SET_MM] call have their C types. *)
Definition typed (k : penv) (c : call) : Prop :=
  call_ok 64 (mm_env k) (SysMmProps.mkCall (to_int (a2 c)) (a3 c) (a4 c) (a5 c) (map_data (memory c))
                           (garbage (memory c)) (aux_data (memory c))).

(** C39. On a 64-bit machine the recorded layout stays sound: whatever sequence of [prctl]
    calls a process makes, its addresses stay inside its address space, code, data, heap,
    arguments and environment stay ordered, the heap starts after the data, and the
    auxiliary vector keeps its size and its two final AT_NULL words. *)
Theorem prctl_keeps_layout (k : penv) (l : list call) (t : task) :
  2 * word 64 ≤ sizeof_auxv 64 (mm_env k) → Forall (typed k) l →
  mm_ok 64 (mm_env k) (task_mm t) → mm_ok 64 (mm_env k) (task_mm (run 64 k l t)).
Proof.
  intros Hk Hl. revert t. induction Hl as [|c l Hc _ IH]; intros t Ht; [done|]. apply IH.
  destruct (exec_mm 64 k c t) as [-> | ->]; [done|]. by apply (exec_ok (mm_env k) Hk _ _ Hc).
Qed.

Definition tiny_penv : penv :=
  mkPenv (λ _ _ _ _ _, - ENOSYS) (λ s, (0 <=? s) && (s <=? 64)) (λ _ _ _, - EINVAL) tiny_env.
Definition no_memory : user := mkUser true NULL NULL NULL (replicate 32 1).
Definition some_task : task := mkTask 0 1 ["s"; "h"]%char 50000 50000 false false 0 false false 0 mm_start.

Lemma prctl_keeps_layout_witness :
  let t := run 64 tiny_penv [mkCall PR_SET_MM PR_SET_MM_BRK 9400 0 0 no_memory] some_task in
  mm_ok 64 tiny_env (task_mm t) ∧ brk (mm (task_mm t)) = 9400.
Proof.
  split; [|by vm_compute]. apply (prctl_keeps_layout tiny_penv); [by vm_compute| |apply mm_start_ok].
  repeat constructor; simpl; try done; lia.
Defined.

(** [no_new_privs] is forever: after a successful PR_SET_NO_NEW_PRIVS no sequence of
    [prctl] calls clears it, and PR_GET_NO_NEW_PRIVS answers 1. *)
Theorem prctl_no_new_privs (width : Z) (k : penv) (u : user) (a3_ a4_ a5_ : Z) (l : list call) (t t1 : task) (o : out) :
  (∀ op x y z v, security_task_prctl k op x y z v = - ENOSYS) →
  prctl width k u PR_SET_NO_NEW_PRIVS 1 a3_ a4_ a5_ t = (0, o, t1) →
  no_new_privs (run width k l t1) = true ∧
  prctl width k u PR_GET_NO_NEW_PRIVS 0 0 0 0 (run width k l t1) = (1, Nothing, run width k l t1).
Proof.
  intros Hs E. assert (no_new_privs t1 = true) as H1.
  { unfold prctl, prctl_late, done_, ret in E. rewrite Hs in E. simpl in E. case_match; by simplify_eq. }
  pose proof (run_nnp width k l t1 H1) as Hn. split; [done|].
  unfold prctl, prctl_late, unused, ret. rewrite Hs. simpl. by rewrite Hn.
Qed.

Lemma prctl_no_new_privs_witness :
  no_new_privs (run 64 tiny_penv [mkCall PR_SET_NO_NEW_PRIVS 0 0 0 0 no_memory]
    (prctl 64 tiny_penv no_memory PR_SET_NO_NEW_PRIVS 1 0 0 0 some_task).2) = true.
Proof.
  exact (proj1 (prctl_no_new_privs 64 tiny_penv no_memory 0 0 0 _ some_task _ Nothing (λ _ _ _ _ _, eq_refl) eq_refl)).
Defined.

(** A refused request that has an effect: PR_MCE_KILL with PR_MCE_KILL_SET and an
    unknown policy returns -EINVAL but has already marked the process; the policy that
    PR_MCE_KILL_GET reports is no longer the default one. *)
Theorem prctl_mce_partial (width : Z) (k : penv) (u : user) (policy : Z) (t : task) :
  (∀ op x y z v, security_task_prctl k op x y z v = - ENOSYS) →
  2 < policy → mce_process t = false →
  let '(r, _, t') := prctl width k u PR_MCE_KILL PR_MCE_KILL_SET policy 0 0 t in
  r = - EINVAL ∧
  prctl width k u PR_MCE_KILL_GET 0 0 0 0 t = (PR_MCE_KILL_DEFAULT, Nothing, t) ∧
  (prctl width k u PR_MCE_KILL_GET 0 0 0 0 t').1.1 =
    (if mce_early t then PR_MCE_KILL_EARLY else PR_MCE_KILL_LATE).
Proof.
  intros Hs Hp Hm. unfold prctl. rewrite !Hs. simpl. unfold prctl_mce_kill, prctl_mce_kill_get. simpl.
  unfold PR_MCE_KILL_EARLY, PR_MCE_KILL_LATE, PR_MCE_KILL_DEFAULT.
  rewrite !(proj2 (Z.eqb_neq policy _)) by lia. simpl. by rewrite Hm.
Qed.

Lemma prctl_mce_partial_witness :
  (prctl 64 tiny_penv no_memory PR_MCE_KILL PR_MCE_KILL_SET 7 0 0 some_task).1.1 = - EINVAL.
Proof. apply (prctl_mce_partial 64 tiny_penv no_memory 7 some_task); [done|lia|done]. Defined.

(** The name of a task: what PR_SET_NAME was given comes back from PR_GET_NAME, cut
    off after 15 characters and filled up with NUL to 16. *)
Theorem prctl_name (width : Z) (k : penv) (u u' : user) (l rest : list ascii) (b2 b2' : Z) (t : task) :
  (∀ op x y z v, security_task_prctl k op x y z v = - ENOSYS) →
  name u = User (l ++ NUL :: rest) → NUL ∉ l → copied u' = true →
  let '(r, _, t') := prctl width k u PR_SET_NAME b2 0 0 0 t in
  r = 0 ∧ prctl width k u' PR_GET_NAME b2' 0 0 0 t' =
    (0, Chars (take 15 l ++ replicate (16 - length (take 15 l)) NUL), t').
Proof.
  intros Hs Hn Hl Hc. unfold prctl. rewrite !Hs. simpl. unfold prctl_set_name, prctl_get_name, done_.
  rewrite Hn, Hc. split; [done|]. simpl.
  assert (until_nul (take 15 (l ++ NUL :: rest)) = take 15 l) as E.
  { clear Hn. generalize 15%nat. induction l as [|c l IH]; intros [|n]; simpl; try done.
    apply not_elem_of_cons in Hl as [Hc' Hl]. rewrite decide_False by congruence. by rewrite IH. }
  change (Z.to_nat (sizeof_comm - 1)) with 15%nat. rewrite E. done.
Qed.

Lemma prctl_name_witness :
  (prctl 64 tiny_penv no_memory PR_GET_NAME 0 0 0 0
    (prctl 64 tiny_penv (mkUser true (User ["a"; NUL]%char) NULL NULL []) PR_SET_NAME 0 0 0 0 some_task).2).1
  = (0, Chars ("a"%char :: replicate 15 NUL)).
Proof.
  pose proof (prctl_name 64 tiny_penv (mkUser true (User ["a"; NUL]%char) NULL NULL []) no_memory ["a"%char] [] 0 0
    some_task) as H.
  assert (NUL ∉ ["a"%char]) as Hn by (apply (bool_decide_unpack _); by vm_compute).
  exact (f_equal fst (proj2 (H (λ _ _ _ _ _, eq_refl) eq_refl Hn eq_refl))).
Defined.

(** ** Without support of the architecture *)

(** The other kernel files are the macros and weak functions of this one. *)
Class NoArch (k : penv) : Prop := {
  no_arch_macro o e x y : no_arch o = Some e → elsewhere k o x y = e;
  no_arch_get x y : elsewhere k PR_GET_SPECULATION_CTRL x y = arch_prctl_spec_ctrl_get x;
  no_arch_set x y : elsewhere k PR_SET_SPECULATION_CTRL x y = arch_prctl_spec_ctrl_set x y;
}.

(** On an architecture that supports none of them, each of its sixteen options is refused
    like an unknown one, whatever the arguments, and nothing changes. *)
Theorem prctl_no_arch (width : Z) (k : penv) (u : user) (o : pr) (b2 b3 b4 b5 : Z) (t : task) :
  NoArch k → (∀ op x y z v, security_task_prctl k op x y z v = - ENOSYS) →
  is_Some (no_arch o) ∨ o = PR_GET_SPECULATION_CTRL ∨ o = PR_SET_SPECULATION_CTRL →
  prctl width k u o b2 b3 b4 b5 t = (- EINVAL, Nothing, t) ∧
  prctl width k u PR_OTHER b2 b3 b4 b5 t = (- EINVAL, Nothing, t).
Proof.
  intros Hk Hs Ho. unfold prctl. rewrite !Hs. split; [|done].
  destruct Ho as [[e He]|[-> | ->]]; simpl; unfold unused, ret.
  - destruct o; try done; simpl; unfold unused, ret; by rewrite ?(no_arch_macro _ _ _ _ He); simplify_eq/=;
      repeat case_match.
  - rewrite no_arch_get. by case_match.
  - rewrite no_arch_set. by case_match.
Qed.

Lemma prctl_no_arch_witness :
  prctl 64 tiny_penv no_memory PR_SET_TSC 1 0 0 0 some_task = (- EINVAL, Nothing, some_task).
Proof.
  refine (proj1 (prctl_no_arch 64 tiny_penv no_memory PR_SET_TSC 1 0 0 0 some_task _ _ _)).
  - split; [intros o e x y; by destruct o; intros [= <-]|done..].
  - done.
  - left. by eexists.
Defined.
