(* ===== verification/SysEntry.v ===== *)
(** * How arguments reach a system call (Project0/submission/syscalls.h)

    The macro [SYSCALL_DEFINEx] makes two functions of a definition: [SyS_name], which is
    entered from user mode and takes every argument as a [long] (or [long long]), and the
    body [SYSC_name], which is called with the arguments cast to the declared types.  It
    also fails to compile when a type is wider than that, and describes the call for
    tracing.  The types that other headers name are an argument, [typedef]. *)

From S2P Require Import Prelude SysBase.

(** ** Types *)

Inductive rank : Type := Char | Short | Int | Long | LongLong | Int128 | Pointer.
Record layout : Type := mkLayout { signed : bool; rank_of : rank }.

(** A type as the declarations write it. *)
Inductive ctype : Type :=
  | T_int | T_unsigned_int | T_unsigned | T_long | T_unsigned_long
  | T_ptr (text : string)           (* anything that ends in [*] *)
  | T_name (text : string).         (* a name that another header defines *)

(** The stringification [#t]. *)
Definition type_text (t : ctype) : string :=
  match t with
  | T_int => "int" | T_unsigned_int => "unsigned int" | T_unsigned => "unsigned"
  | T_long => "long" | T_unsigned_long => "unsigned long" | T_ptr s | T_name s => s
  end%string.

#[global] Instance rank_eq_dec : EqDecision rank.
Proof. solve_decision. Defined.
#[global] Instance ctype_eq_dec : EqDecision ctype.
Proof. solve_decision. Defined.

Section abi.
Context (width : Z) (typedef : string → option layout).

Definition resolve (t : ctype) : option layout :=
  match t with
  | T_int => Some (mkLayout true Int)
  | T_unsigned_int | T_unsigned => Some (mkLayout false Int)
  | T_long => Some (mkLayout true Long)
  | T_unsigned_long => Some (mkLayout false Long)
  | T_ptr _ => Some (mkLayout false Pointer)
  | T_name s => typedef s
  end.

(** In bits.  The layouts are those of integers and pointers; no call of sys.c and no
    prototype has a parameter of a floating type. *)
Definition sizeof (l : layout) : Z :=
  match rank_of l with
  | Char => 8 | Short => 16 | Int => 32 | Long | Pointer => width | LongLong => 64 | Int128 => 128
  end.

(** The value of type [l] that [v] is converted to. *)
Definition convert (l : layout) (v : Z) : Z :=
  if signed l then (v + 2 ^ (sizeof l - 1)) mod 2 ^ sizeof l - 2 ^ (sizeof l - 1) else v mod 2 ^ sizeof l.

(** ** The macros *)

(** [__MAP(n, m, t1, a1, ...)]; there are macros for up to six pairs. *)
Definition MAP {A} (n : nat) (m : ctype → string → A) (l : list (ctype * string)) : option (list A) :=
  if decide (n = length l ∧ n ≤ 6)%nat then Some ((λ '(t, a), m t a) <$> l) else None.

Definition TYPE_IS_LL (l : layout) : bool := bool_decide (rank_of l = LongLong).

(** The type of the parameter of [SyS_name]. *)
Definition SC_LONG (l : layout) : layout := mkLayout true (if TYPE_IS_LL l then LongLong else Long).

Definition SC_CAST (l : layout) (a : Z) : Z := convert l a.

(** [BUILD_BUG_ON_ZERO]: [false] does not compile. *)
Definition SC_TEST (l : layout) : bool := negb (negb (TYPE_IS_LL l) && (width <? sizeof l)).

(** [SYSCALL_DEFINEx(x, _name, t1, a1, ...)] *)
Record sysdef : Type := mkDef { sys_name : string; nb : nat; params : list (ctype * string) }.

(** The types of a definition, if all of them are known and it compiles. *)
Definition checked_types (d : sysdef) : option (list layout) :=
  ts ← MAP (nb d) (λ t _, t) (params d);
  ls ← mapM resolve ts;
  if forallb SC_TEST ls then Some ls else None.

(** The entry [SyS_name], with what the caller left in its parameters. *)
Definition SyS {R} (d : sysdef) (SYSC : list Z → option R) (regs : list Z) : option R :=
  ls ← checked_types d;
  if decide (length regs = length ls) then SYSC (zip_with SC_CAST ls (zip_with (λ l r, convert (SC_LONG l) r) ls regs))
  else None.

(** *** Tracing *)

(** A [struct trace_event_call]; what is the address of an object of another file, or of
    the metadata, is the name of that object. *)
Record trace_event_call : Type := mkEvent {
  ev_class : string; ev_name : string; ev_funcs : string; ev_data : string; ev_flags : string;
}.

Definition SYSCALL_TRACE_ENTER_EVENT (sname : string) : trace_event_call :=
  mkEvent "event_class_syscall_enter" ("sys_enter" +:+ sname) "enter_syscall_print_funcs"
    ("__syscall_meta_" +:+ sname) "TRACE_EVENT_FL_CAP_ANY".

Definition SYSCALL_TRACE_EXIT_EVENT (sname : string) : trace_event_call :=
  mkEvent "event_class_syscall_exit" ("sys_exit" +:+ sname) "exit_syscall_print_funcs"
    ("__syscall_meta_" +:+ sname) "TRACE_EVENT_FL_CAP_ANY".

(** A [struct syscall_metadata]; [None] is NULL. *)
Record metadata : Type := mkMeta {
  m_name : string; syscall_nr : Z; nb_args : nat; m_types : option (list string); m_args : option (list string);
  enter_event : trace_event_call; exit_event : trace_event_call; enter_fields : list string;
}.

(** [None]: it does not expand.  [sname] is the name with a [_] before it. *)
Definition SYSCALL_METADATA (sname : string) (nb : nat) (l : list (ctype * string)) : option metadata :=
  types ← MAP nb (λ t _, type_text t) l;
  args ← MAP nb (λ _ a, a) l;
  let ptr (l : list string) := if (nb =? 0)%nat then None else Some l in
  Some (mkMeta ("sys" +:+ sname) (-1) nb (ptr types) (ptr args) (SYSCALL_TRACE_ENTER_EVENT sname)
    (SYSCALL_TRACE_EXIT_EVENT sname) []).

(** The metadata of a definition. *)
Definition metadata_of (d : sysdef) : option metadata := SYSCALL_METADATA ("_" +:+ sys_name d) (nb d) (params d).
End abi.

(** ** The definitions of sys.c *)

Definition def (nm : string) (l : list (ctype * string)) : sysdef := mkDef nm (length l) l.

Definition def_setpriority : sysdef := def "setpriority" [(T_int, "which"); (T_int, "who"); (T_int, "niceval")].
Definition def_getpriority : sysdef := def "getpriority" [(T_int, "which"); (T_int, "who")].
Definition def_setregid : sysdef := def "setregid" [(T_name "gid_t", "rgid"); (T_name "gid_t", "egid")].
Definition def_setgid : sysdef := def "setgid" [(T_name "gid_t", "gid")].
Definition def_setreuid : sysdef := def "setreuid" [(T_name "uid_t", "ruid"); (T_name "uid_t", "euid")].
Definition def_setuid : sysdef := def "setuid" [(T_name "uid_t", "uid")].
Definition def_setresuid : sysdef :=
  def "setresuid" [(T_name "uid_t", "ruid"); (T_name "uid_t", "euid"); (T_name "uid_t", "suid")].
Definition def_getresuid : sysdef :=
  def "getresuid" [(T_ptr "uid_t __user *", "ruidp"); (T_ptr "uid_t __user *", "euidp"); (T_ptr "uid_t __user *", "suidp")].
Definition def_setresgid : sysdef :=
  def "setresgid" [(T_name "gid_t", "rgid"); (T_name "gid_t", "egid"); (T_name "gid_t", "sgid")].
Definition def_getresgid : sysdef :=
  def "getresgid" [(T_ptr "gid_t __user *", "rgidp"); (T_ptr "gid_t __user *", "egidp"); (T_ptr "gid_t __user *", "sgidp")].
Definition def_setfsuid : sysdef := def "setfsuid" [(T_name "uid_t", "uid")].
Definition def_setfsgid : sysdef := def "setfsgid" [(T_name "gid_t", "gid")].
Definition def_getpid : sysdef := def "getpid" [].
Definition def_gettid : sysdef := def "gettid" [].
Definition def_getppid : sysdef := def "getppid" [].
Definition def_getuid : sysdef := def "getuid" [].
Definition def_geteuid : sysdef := def "geteuid" [].
Definition def_getgid : sysdef := def "getgid" [].
Definition def_getegid : sysdef := def "getegid" [].
Definition def_times : sysdef := def "times" [(T_ptr "struct tms __user *", "tbuf")].
Definition def_setpgid : sysdef := def "setpgid" [(T_name "pid_t", "pid"); (T_name "pid_t", "pgid")].
Definition def_getpgid : sysdef := def "getpgid" [(T_name "pid_t", "pid")].
Definition def_getpgrp : sysdef := def "getpgrp" [].
Definition def_getsid : sysdef := def "getsid" [(T_name "pid_t", "pid")].
Definition def_setsid : sysdef := def "setsid" [].
Definition def_newuname : sysdef := def "newuname" [(T_ptr "struct new_utsname __user *", "name")].
Definition def_uname : sysdef := def "uname" [(T_ptr "struct old_utsname __user *", "name")].
Definition def_olduname : sysdef := def "olduname" [(T_ptr "struct oldold_utsname __user *", "name")].
Definition def_sethostname : sysdef := def "sethostname" [(T_ptr "char __user *", "name"); (T_int, "len")].
Definition def_gethostname : sysdef := def "gethostname" [(T_ptr "char __user *", "name"); (T_int, "len")].
Definition def_setdomainname : sysdef := def "setdomainname" [(T_ptr "char __user *", "name"); (T_int, "len")].
Definition def_getrlimit : sysdef :=
  def "getrlimit" [(T_unsigned_int, "resource"); (T_ptr "struct rlimit __user *", "rlim")].
Definition def_old_getrlimit : sysdef :=
  def "old_getrlimit" [(T_unsigned_int, "resource"); (T_ptr "struct rlimit __user *", "rlim")].
Definition def_prlimit64 : sysdef :=
  def "prlimit64" [(T_name "pid_t", "pid"); (T_unsigned_int, "resource"); (T_ptr "const struct rlimit64 __user *", "new_rlim"); (T_ptr "struct rlimit64 __user *", "old_rlim")].
Definition def_setrlimit : sysdef :=
  def "setrlimit" [(T_unsigned_int, "resource"); (T_ptr "struct rlimit __user *", "rlim")].
Definition def_getrusage : sysdef := def "getrusage" [(T_int, "who"); (T_ptr "struct rusage __user *", "ru")].
Definition def_umask : sysdef := def "umask" [(T_int, "mask")].
Definition def_prctl : sysdef :=
  def "prctl" [(T_int, "option"); (T_unsigned_long, "arg2"); (T_unsigned_long, "arg3"); (T_unsigned_long, "arg4"); (T_unsigned_long, "arg5")].
Definition def_getcpu : sysdef :=
  def "getcpu" [(T_ptr "unsigned __user *", "cpup"); (T_ptr "unsigned __user *", "nodep"); (T_ptr "struct getcpu_cache __user *", "unused")].
Definition def_sysinfo : sysdef := def "sysinfo" [(T_ptr "struct sysinfo __user *", "info")].
Definition def_cs3013_syscall1 : sysdef := def "cs3013_syscall1" [].
Definition def_cs3013_syscall2 : sysdef := def "cs3013_syscall2" [].
Definition def_cs3013_syscall3 : sysdef := def "cs3013_syscall3" [].

(** Every call that sys.c defines. *)
Definition sys_defs : list sysdef :=
  [def_setpriority; def_getpriority; def_setregid; def_setgid; def_setreuid; def_setuid;
   def_setresuid; def_getresuid; def_setresgid; def_getresgid; def_setfsuid; def_setfsgid; def_getpid;
   def_gettid; def_getppid; def_getuid; def_geteuid; def_getgid; def_getegid; def_times; def_setpgid;
   def_getpgid; def_getpgrp; def_getsid; def_setsid; def_newuname; def_uname; def_olduname;
   def_sethostname; def_gethostname; def_setdomainname; def_getrlimit; def_old_getrlimit;
   def_prlimit64; def_setrlimit; def_getrusage; def_umask; def_prctl; def_getcpu; def_sysinfo;
   def_cs3013_syscall1; def_cs3013_syscall2; def_cs3013_syscall3].
