(* ===== verification/SysTable.v ===== *)
(** * The declarations of system calls (Project0/submission/syscalls.h)

    One entry per prototype, in the order of the header, with the condition of the
    preprocessor under which it is declared. *)

From S2P Require Import Prelude SysBase SysEntry.

Record prototype : Type := mkProto { p_name : string; p_when : option string; p_types : list ctype }.

Definition proto (nm : string) (ts : list ctype) : prototype := mkProto nm None ts.
Definition proto_if (c nm : string) (ts : list ctype) : prototype := mkProto nm (Some c) ts.

Definition proto_ids_times : list prototype :=
  [proto "sys32_quotactl" [T_unsigned_int; T_ptr "const char __user *"; T_name "qid_t"; T_ptr "void __user *"];
   proto "sys_time" [T_ptr "time_t __user *"];
   proto "sys_stime" [T_ptr "time_t __user *"];
   proto "sys_gettimeofday" [T_ptr "struct timeval __user *"; T_ptr "struct timezone __user *"];
   proto "sys_settimeofday" [T_ptr "struct timeval __user *"; T_ptr "struct timezone __user *"];
   proto "sys_adjtimex" [T_ptr "struct timex __user *"];
   proto "sys_times" [T_ptr "struct tms __user *"];
   proto "sys_gettid" [];
   proto "sys_nanosleep" [T_ptr "struct timespec __user *"; T_ptr "struct timespec __user *"];
   proto "sys_alarm" [T_unsigned_int];
   proto "sys_getpid" [];
   proto "sys_getppid" [];
   proto "sys_getuid" [];
   proto "sys_geteuid" [];
   proto "sys_getgid" [];
   proto "sys_getegid" [];
   proto "sys_getresuid" [T_ptr "uid_t __user *"; T_ptr "uid_t __user *"; T_ptr "uid_t __user *"];
   proto "sys_getresgid" [T_ptr "gid_t __user *"; T_ptr "gid_t __user *"; T_ptr "gid_t __user *"];
   proto "sys_getpgid" [T_name "pid_t"];
   proto "sys_getpgrp" [];
   proto "sys_getsid" [T_name "pid_t"];
   proto "sys_getgroups" [T_int; T_ptr "gid_t __user *"];
   proto "sys_setregid" [T_name "gid_t"; T_name "gid_t"];
   proto "sys_setgid" [T_name "gid_t"];
   proto "sys_setreuid" [T_name "uid_t"; T_name "uid_t"];
   proto "sys_setuid" [T_name "uid_t"];
   proto "sys_setresuid" [T_name "uid_t"; T_name "uid_t"; T_name "uid_t"];
   proto "sys_setresgid" [T_name "gid_t"; T_name "gid_t"; T_name "gid_t"];
   proto "sys_setfsuid" [T_name "uid_t"];
   proto "sys_setfsgid" [T_name "gid_t"];
   proto "sys_setpgid" [T_name "pid_t"; T_name "pid_t"];
   proto "sys_setsid" [];
   proto "sys_setgroups" [T_int; T_ptr "gid_t __user *"];
   proto "sys_acct" [T_ptr "const char __user *"];
   proto "sys_capget" [T_name "cap_user_header_t"; T_name "cap_user_data_t"];
   proto "sys_capset" [T_name "cap_user_header_t"; T_name "const cap_user_data_t"];
   proto "sys_personality" [T_unsigned_int];
   proto "sys_sigpending" [T_ptr "old_sigset_t __user *"];
   proto "sys_sigprocmask" [T_int; T_ptr "old_sigset_t __user *"; T_ptr "old_sigset_t __user *"];
   proto "sys_sigaltstack" [T_ptr "const struct sigaltstack __user *"; T_ptr "struct sigaltstack __user *"];
   proto "sys_getitimer" [T_int; T_ptr "struct itimerval __user *"];
   proto "sys_setitimer" [T_int; T_ptr "struct itimerval __user *"; T_ptr "struct itimerval __user *"];
   proto "sys_timer_create" [T_name "clockid_t"; T_ptr "struct sigevent __user *"; T_ptr "timer_t __user *"];
   proto "sys_timer_gettime" [T_name "timer_t"; T_ptr "struct itimerspec __user *"];
   proto "sys_timer_getoverrun" [T_name "timer_t"];
   proto "sys_timer_settime" [T_name "timer_t"; T_int; T_ptr "const struct itimerspec __user *"; T_ptr "struct itimerspec __user *"];
   proto "sys_timer_delete" [T_name "timer_t"];
   proto "sys_clock_settime" [T_name "clockid_t"; T_ptr "const struct timespec __user *"];
   proto "sys_clock_gettime" [T_name "clockid_t"; T_ptr "struct timespec __user *"];
   proto "sys_clock_adjtime" [T_name "clockid_t"; T_ptr "struct timex __user *"];
   proto "sys_clock_getres" [T_name "clockid_t"; T_ptr "struct timespec __user *"];
   proto "sys_clock_nanosleep" [T_name "clockid_t"; T_int; T_ptr "const struct timespec __user *"; T_ptr "struct timespec __user *"]].

Definition proto_sched_signals : list prototype :=
  [proto "sys_nice" [T_int];
   proto "sys_sched_setscheduler" [T_name "pid_t"; T_int; T_ptr "struct sched_param __user *"];
   proto "sys_sched_setparam" [T_name "pid_t"; T_ptr "struct sched_param __user *"];
   proto "sys_sched_setattr" [T_name "pid_t"; T_ptr "struct sched_attr __user *"; T_unsigned_int];
   proto "sys_sched_getscheduler" [T_name "pid_t"];
   proto "sys_sched_getparam" [T_name "pid_t"; T_ptr "struct sched_param __user *"];
   proto "sys_sched_getattr" [T_name "pid_t"; T_ptr "struct sched_attr __user *"; T_unsigned_int; T_unsigned_int];
   proto "sys_sched_setaffinity" [T_name "pid_t"; T_unsigned_int; T_ptr "unsigned long __user *"];
   proto "sys_sched_getaffinity" [T_name "pid_t"; T_unsigned_int; T_ptr "unsigned long __user *"];
   proto "sys_sched_yield" [];
   proto "sys_sched_get_priority_max" [T_int];
   proto "sys_sched_get_priority_min" [T_int];
   proto "sys_sched_rr_get_interval" [T_name "pid_t"; T_ptr "struct timespec __user *"];
   proto "sys_setpriority" [T_int; T_int; T_int];
   proto "sys_getpriority" [T_int; T_int];
   proto "sys_shutdown" [T_int; T_int];
   proto "sys_reboot" [T_int; T_int; T_unsigned_int; T_ptr "void __user *"];
   proto "sys_restart_syscall" [];
   proto "sys_kexec_load" [T_unsigned_long; T_unsigned_long; T_ptr "struct kexec_segment __user *"; T_unsigned_long];
   proto "sys_kexec_file_load" [T_int; T_int; T_unsigned_long; T_ptr "const char __user *"; T_unsigned_long];
   proto "sys_exit" [T_int];
   proto "sys_exit_group" [T_int];
   proto "sys_wait4" [T_name "pid_t"; T_ptr "int __user *"; T_int; T_ptr "struct rusage __user *"];
   proto "sys_waitid" [T_int; T_name "pid_t"; T_ptr "struct siginfo __user *"; T_int; T_ptr "struct rusage __user *"];
   proto "sys_waitpid" [T_name "pid_t"; T_ptr "int __user *"; T_int];
   proto "sys_set_tid_address" [T_ptr "int __user *"];
   proto "sys_futex" [T_ptr "u32 __user *"; T_int; T_name "u32"; T_ptr "struct timespec __user *"; T_ptr "u32 __user *"; T_name "u32"];
   proto "sys_init_module" [T_ptr "void __user *"; T_unsigned_long; T_ptr "const char __user *"];
   proto "sys_delete_module" [T_ptr "const char __user *"; T_unsigned_int];
   proto_if "CONFIG_OLD_SIGSUSPEND" "sys_sigsuspend" [T_name "old_sigset_t"];
   proto_if "CONFIG_OLD_SIGSUSPEND3" "sys_sigsuspend" [T_int; T_int; T_name "old_sigset_t"];
   proto "sys_rt_sigsuspend" [T_ptr "sigset_t __user *"; T_name "size_t"];
   proto_if "CONFIG_OLD_SIGACTION" "sys_sigaction" [T_int; T_ptr "const struct old_sigaction __user *"; T_ptr "struct old_sigaction __user *"];
   proto_if "!CONFIG_ODD_RT_SIGACTION" "sys_rt_sigaction" [T_int; T_ptr "const struct sigaction __user *"; T_ptr "struct sigaction __user *"; T_name "size_t"];
   proto "sys_rt_sigprocmask" [T_int; T_ptr "sigset_t __user *"; T_ptr "sigset_t __user *"; T_name "size_t"];
   proto "sys_rt_sigpending" [T_ptr "sigset_t __user *"; T_name "size_t"];
   proto "sys_rt_sigtimedwait" [T_ptr "const sigset_t __user *"; T_ptr "siginfo_t __user *"; T_ptr "const struct timespec __user *"; T_name "size_t"];
   proto "sys_rt_tgsigqueueinfo" [T_name "pid_t"; T_name "pid_t"; T_int; T_ptr "siginfo_t __user *"];
   proto "sys_kill" [T_int; T_int];
   proto "sys_tgkill" [T_int; T_int; T_int];
   proto "sys_tkill" [T_int; T_int];
   proto "sys_rt_sigqueueinfo" [T_int; T_int; T_ptr "siginfo_t __user *"];
   proto "sys_sgetmask" [];
   proto "sys_ssetmask" [T_int];
   proto "sys_signal" [T_int; T_name "__sighandler_t"];
   proto "sys_pause" []].

Definition proto_files : list prototype :=
  [proto "sys_sync" [];
   proto "sys_fsync" [T_unsigned_int];
   proto "sys_fdatasync" [T_unsigned_int];
   proto "sys_bdflush" [T_int; T_long];
   proto "sys_mount" [T_ptr "char __user *"; T_ptr "char __user *"; T_ptr "char __user *"; T_unsigned_long; T_ptr "void __user *"];
   proto "sys_umount" [T_ptr "char __user *"; T_int];
   proto "sys_oldumount" [T_ptr "char __user *"];
   proto "sys_truncate" [T_ptr "const char __user *"; T_long];
   proto "sys_ftruncate" [T_unsigned_int; T_unsigned_long];
   proto "sys_stat" [T_ptr "const char __user *"; T_ptr "struct __old_kernel_stat __user *"];
   proto "sys_statfs" [T_ptr "const char __user *"; T_ptr "struct statfs __user *"];
   proto "sys_statfs64" [T_ptr "const char __user *"; T_name "size_t"; T_ptr "struct statfs64 __user *"];
   proto "sys_fstatfs" [T_unsigned_int; T_ptr "struct statfs __user *"];
   proto "sys_fstatfs64" [T_unsigned_int; T_name "size_t"; T_ptr "struct statfs64 __user *"];
   proto "sys_lstat" [T_ptr "const char __user *"; T_ptr "struct __old_kernel_stat __user *"];
   proto "sys_fstat" [T_unsigned_int; T_ptr "struct __old_kernel_stat __user *"];
   proto "sys_newstat" [T_ptr "const char __user *"; T_ptr "struct stat __user *"];
   proto "sys_newlstat" [T_ptr "const char __user *"; T_ptr "struct stat __user *"];
   proto "sys_newfstat" [T_unsigned_int; T_ptr "struct stat __user *"];
   proto "sys_ustat" [T_unsigned; T_ptr "struct ustat __user *"];
   proto_if "defined(__ARCH_WANT_STAT64) || defined(__ARCH_WANT_COMPAT_STAT64)" "sys_stat64" [T_ptr "const char __user *"; T_ptr "struct stat64 __user *"];
   proto_if "defined(__ARCH_WANT_STAT64) || defined(__ARCH_WANT_COMPAT_STAT64)" "sys_fstat64" [T_unsigned_long; T_ptr "struct stat64 __user *"];
   proto_if "defined(__ARCH_WANT_STAT64) || defined(__ARCH_WANT_COMPAT_STAT64)" "sys_lstat64" [T_ptr "const char __user *"; T_ptr "struct stat64 __user *"];
   proto_if "defined(__ARCH_WANT_STAT64) || defined(__ARCH_WANT_COMPAT_STAT64)" "sys_fstatat64" [T_int; T_ptr "const char __user *"; T_ptr "struct stat64 __user *"; T_int];
   proto_if "BITS_PER_LONG == 32" "sys_truncate64" [T_ptr "const char __user *"; T_name "loff_t"];
   proto_if "BITS_PER_LONG == 32" "sys_ftruncate64" [T_unsigned_int; T_name "loff_t"];
   proto "sys_setxattr" [T_ptr "const char __user *"; T_ptr "const char __user *"; T_ptr "const void __user *"; T_name "size_t"; T_int];
   proto "sys_lsetxattr" [T_ptr "const char __user *"; T_ptr "const char __user *"; T_ptr "const void __user *"; T_name "size_t"; T_int];
   proto "sys_fsetxattr" [T_int; T_ptr "const char __user *"; T_ptr "const void __user *"; T_name "size_t"; T_int];
   proto "sys_getxattr" [T_ptr "const char __user *"; T_ptr "const char __user *"; T_ptr "void __user *"; T_name "size_t"];
   proto "sys_lgetxattr" [T_ptr "const char __user *"; T_ptr "const char __user *"; T_ptr "void __user *"; T_name "size_t"];
   proto "sys_fgetxattr" [T_int; T_ptr "const char __user *"; T_ptr "void __user *"; T_name "size_t"];
   proto "sys_listxattr" [T_ptr "const char __user *"; T_ptr "char __user *"; T_name "size_t"];
   proto "sys_llistxattr" [T_ptr "const char __user *"; T_ptr "char __user *"; T_name "size_t"];
   proto "sys_flistxattr" [T_int; T_ptr "char __user *"; T_name "size_t"];
   proto "sys_removexattr" [T_ptr "const char __user *"; T_ptr "const char __user *"];
   proto "sys_lremovexattr" [T_ptr "const char __user *"; T_ptr "const char __user *"];
   proto "sys_fremovexattr" [T_int; T_ptr "const char __user *"]].

Definition proto_memory_fds : list prototype :=
  [proto "sys_brk" [T_unsigned_long];
   proto "sys_mprotect" [T_unsigned_long; T_name "size_t"; T_unsigned_long];
   proto "sys_mremap" [T_unsigned_long; T_unsigned_long; T_unsigned_long; T_unsigned_long; T_unsigned_long];
   proto "sys_remap_file_pages" [T_unsigned_long; T_unsigned_long; T_unsigned_long; T_unsigned_long; T_unsigned_long];
   proto "sys_msync" [T_unsigned_long; T_name "size_t"; T_int];
   proto "sys_fadvise64" [T_int; T_name "loff_t"; T_name "size_t"; T_int];
   proto "sys_fadvise64_64" [T_int; T_name "loff_t"; T_name "loff_t"; T_int];
   proto "sys_munmap" [T_unsigned_long; T_name "size_t"];
   proto "sys_mlock" [T_unsigned_long; T_name "size_t"];
   proto "sys_munlock" [T_unsigned_long; T_name "size_t"];
   proto "sys_mlockall" [T_int];
   proto "sys_munlockall" [];
   proto "sys_madvise" [T_unsigned_long; T_name "size_t"; T_int];
   proto "sys_mincore" [T_unsigned_long; T_name "size_t"; T_ptr "unsigned char __user *"];
   proto "sys_pivot_root" [T_ptr "const char __user *"; T_ptr "const char __user *"];
   proto "sys_chroot" [T_ptr "const char __user *"];
   proto "sys_mknod" [T_ptr "const char __user *"; T_name "umode_t"; T_unsigned];
   proto "sys_link" [T_ptr "const char __user *"; T_ptr "const char __user *"];
   proto "sys_symlink" [T_ptr "const char __user *"; T_ptr "const char __user *"];
   proto "sys_unlink" [T_ptr "const char __user *"];
   proto "sys_rename" [T_ptr "const char __user *"; T_ptr "const char __user *"];
   proto "sys_chmod" [T_ptr "const char __user *"; T_name "umode_t"];
   proto "sys_fchmod" [T_unsigned_int; T_name "umode_t"];
   proto "sys_fcntl" [T_unsigned_int; T_unsigned_int; T_unsigned_long];
   proto_if "BITS_PER_LONG == 32" "sys_fcntl64" [T_unsigned_int; T_unsigned_int; T_unsigned_long];
   proto "sys_pipe" [T_ptr "int __user *"];
   proto "sys_pipe2" [T_ptr "int __user *"; T_int];
   proto "sys_dup" [T_unsigned_int];
   proto "sys_dup2" [T_unsigned_int; T_unsigned_int];
   proto "sys_dup3" [T_unsigned_int; T_unsigned_int; T_int];
   proto "sys_ioperm" [T_unsigned_long; T_unsigned_long; T_int];
   proto "sys_ioctl" [T_unsigned_int; T_unsigned_int; T_unsigned_long];
   proto "sys_flock" [T_unsigned_int; T_unsigned_int];
   proto "sys_io_setup" [T_unsigned; T_ptr "aio_context_t __user *"];
   proto "sys_io_destroy" [T_name "aio_context_t"];
   proto "sys_io_getevents" [T_name "aio_context_t"; T_long; T_long; T_ptr "struct io_event __user *"; T_ptr "struct timespec __user *"];
   proto "sys_io_submit" [T_name "aio_context_t"; T_long; T_ptr "struct iocb __user * __user *"];
   proto "sys_io_cancel" [T_name "aio_context_t"; T_ptr "struct iocb __user *"; T_ptr "struct io_event __user *"];
   proto "sys_sendfile" [T_int; T_int; T_ptr "off_t __user *"; T_name "size_t"];
   proto "sys_sendfile64" [T_int; T_int; T_ptr "loff_t __user *"; T_name "size_t"];
   proto "sys_readlink" [T_ptr "const char __user *"; T_ptr "char __user *"; T_int];
   proto "sys_creat" [T_ptr "const char __user *"; T_name "umode_t"];
   proto "sys_open" [T_ptr "const char __user *"; T_int; T_name "umode_t"];
   proto "sys_close" [T_unsigned_int];
   proto "sys_access" [T_ptr "const char __user *"; T_int];
   proto "sys_vhangup" [];
   proto "sys_chown" [T_ptr "const char __user *"; T_name "uid_t"; T_name "gid_t"];
   proto "sys_lchown" [T_ptr "const char __user *"; T_name "uid_t"; T_name "gid_t"];
   proto "sys_fchown" [T_unsigned_int; T_name "uid_t"; T_name "gid_t"];
   proto_if "CONFIG_HAVE_UID16" "sys_chown16" [T_ptr "const char __user *"; T_name "old_uid_t"; T_name "old_gid_t"];
   proto_if "CONFIG_HAVE_UID16" "sys_lchown16" [T_ptr "const char __user *"; T_name "old_uid_t"; T_name "old_gid_t"];
   proto_if "CONFIG_HAVE_UID16" "sys_fchown16" [T_unsigned_int; T_name "old_uid_t"; T_name "old_gid_t"];
   proto_if "CONFIG_HAVE_UID16" "sys_setregid16" [T_name "old_gid_t"; T_name "old_gid_t"];
   proto_if "CONFIG_HAVE_UID16" "sys_setgid16" [T_name "old_gid_t"];
   proto_if "CONFIG_HAVE_UID16" "sys_setreuid16" [T_name "old_uid_t"; T_name "old_uid_t"];
   proto_if "CONFIG_HAVE_UID16" "sys_setuid16" [T_name "old_uid_t"];
   proto_if "CONFIG_HAVE_UID16" "sys_setresuid16" [T_name "old_uid_t"; T_name "old_uid_t"; T_name "old_uid_t"];
   proto_if "CONFIG_HAVE_UID16" "sys_getresuid16" [T_ptr "old_uid_t __user *"; T_ptr "old_uid_t __user *"; T_ptr "old_uid_t __user *"];
   proto_if "CONFIG_HAVE_UID16" "sys_setresgid16" [T_name "old_gid_t"; T_name "old_gid_t"; T_name "old_gid_t"];
   proto_if "CONFIG_HAVE_UID16" "sys_getresgid16" [T_ptr "old_gid_t __user *"; T_ptr "old_gid_t __user *"; T_ptr "old_gid_t __user *"];
   proto_if "CONFIG_HAVE_UID16" "sys_setfsuid16" [T_name "old_uid_t"];
   proto_if "CONFIG_HAVE_UID16" "sys_setfsgid16" [T_name "old_gid_t"];
   proto_if "CONFIG_HAVE_UID16" "sys_getgroups16" [T_int; T_ptr "old_gid_t __user *"];
   proto_if "CONFIG_HAVE_UID16" "sys_setgroups16" [T_int; T_ptr "old_gid_t __user *"];
   proto_if "CONFIG_HAVE_UID16" "sys_getuid16" [];
   proto_if "CONFIG_HAVE_UID16" "sys_geteuid16" [];
   proto_if "CONFIG_HAVE_UID16" "sys_getgid16" [];
   proto_if "CONFIG_HAVE_UID16" "sys_getegid16" []].

Definition proto_io_sockets : list prototype :=
  [proto "sys_utime" [T_ptr "char __user *"; T_ptr "struct utimbuf __user *"];
   proto "sys_utimes" [T_ptr "char __user *"; T_ptr "struct timeval __user *"];
   proto "sys_lseek" [T_unsigned_int; T_name "off_t"; T_unsigned_int];
   proto "sys_llseek" [T_unsigned_int; T_unsigned_long; T_unsigned_long; T_ptr "loff_t __user *"; T_unsigned_int];
   proto "sys_read" [T_unsigned_int; T_ptr "char __user *"; T_name "size_t"];
   proto "sys_readahead" [T_int; T_name "loff_t"; T_name "size_t"];
   proto "sys_readv" [T_unsigned_long; T_ptr "const struct iovec __user *"; T_unsigned_long];
   proto "sys_write" [T_unsigned_int; T_ptr "const char __user *"; T_name "size_t"];
   proto "sys_writev" [T_unsigned_long; T_ptr "const struct iovec __user *"; T_unsigned_long];
   proto "sys_pread64" [T_unsigned_int; T_ptr "char __user *"; T_name "size_t"; T_name "loff_t"];
   proto "sys_pwrite64" [T_unsigned_int; T_ptr "const char __user *"; T_name "size_t"; T_name "loff_t"];
   proto "sys_preadv" [T_unsigned_long; T_ptr "const struct iovec __user *"; T_unsigned_long; T_unsigned_long; T_unsigned_long];
   proto "sys_pwritev" [T_unsigned_long; T_ptr "const struct iovec __user *"; T_unsigned_long; T_unsigned_long; T_unsigned_long];
   proto "sys_getcwd" [T_ptr "char __user *"; T_unsigned_long];
   proto "sys_mkdir" [T_ptr "const char __user *"; T_name "umode_t"];
   proto "sys_chdir" [T_ptr "const char __user *"];
   proto "sys_fchdir" [T_unsigned_int];
   proto "sys_rmdir" [T_ptr "const char __user *"];
   proto "sys_lookup_dcookie" [T_name "u64"; T_ptr "char __user *"; T_name "size_t"];
   proto "sys_quotactl" [T_unsigned_int; T_ptr "const char __user *"; T_name "qid_t"; T_ptr "void __user *"];
   proto "sys_getdents" [T_unsigned_int; T_ptr "struct linux_dirent __user *"; T_unsigned_int];
   proto "sys_getdents64" [T_unsigned_int; T_ptr "struct linux_dirent64 __user *"; T_unsigned_int];
   proto "sys_setsockopt" [T_int; T_int; T_int; T_ptr "char __user *"; T_int];
   proto "sys_getsockopt" [T_int; T_int; T_int; T_ptr "char __user *"; T_ptr "int __user *"];
   proto "sys_bind" [T_int; T_ptr "struct sockaddr __user *"; T_int];
   proto "sys_connect" [T_int; T_ptr "struct sockaddr __user *"; T_int];
   proto "sys_accept" [T_int; T_ptr "struct sockaddr __user *"; T_ptr "int __user *"];
   proto "sys_accept4" [T_int; T_ptr "struct sockaddr __user *"; T_ptr "int __user *"; T_int];
   proto "sys_getsockname" [T_int; T_ptr "struct sockaddr __user *"; T_ptr "int __user *"];
   proto "sys_getpeername" [T_int; T_ptr "struct sockaddr __user *"; T_ptr "int __user *"];
   proto "sys_send" [T_int; T_ptr "void __user *"; T_name "size_t"; T_unsigned];
   proto "sys_sendto" [T_int; T_ptr "void __user *"; T_name "size_t"; T_unsigned; T_ptr "struct sockaddr __user *"; T_int];
   proto "sys_sendmsg" [T_int; T_ptr "struct user_msghdr __user *"; T_unsigned];
   proto "sys_sendmmsg" [T_int; T_ptr "struct mmsghdr __user *"; T_unsigned_int; T_unsigned];
   proto "sys_recv" [T_int; T_ptr "void __user *"; T_name "size_t"; T_unsigned];
   proto "sys_recvfrom" [T_int; T_ptr "void __user *"; T_name "size_t"; T_unsigned; T_ptr "struct sockaddr __user *"; T_ptr "int __user *"];
   proto "sys_recvmsg" [T_int; T_ptr "struct user_msghdr __user *"; T_unsigned];
   proto "sys_recvmmsg" [T_int; T_ptr "struct mmsghdr __user *"; T_unsigned_int; T_unsigned; T_ptr "struct timespec __user *"];
   proto "sys_socket" [T_int; T_int; T_int];
   proto "sys_socketpair" [T_int; T_int; T_int; T_ptr "int __user *"];
   proto "sys_socketcall" [T_int; T_ptr "unsigned long __user *"];
   proto "sys_listen" [T_int; T_int];
   proto "sys_poll" [T_ptr "struct pollfd __user *"; T_unsigned_int; T_int];
   proto "sys_select" [T_int; T_ptr "fd_set __user *"; T_ptr "fd_set __user *"; T_ptr "fd_set __user *"; T_ptr "struct timeval __user *"];
   proto "sys_old_select" [T_ptr "struct sel_arg_struct __user *"];
   proto "sys_epoll_create" [T_int];
   proto "sys_epoll_create1" [T_int];
   proto "sys_epoll_ctl" [T_int; T_int; T_int; T_ptr "struct epoll_event __user *"];
   proto "sys_epoll_wait" [T_int; T_ptr "struct epoll_event __user *"; T_int; T_int];
   proto "sys_epoll_pwait" [T_int; T_ptr "struct epoll_event __user *"; T_int; T_int; T_ptr "const sigset_t __user *"; T_name "size_t"]].

Definition proto_names_ipc : list prototype :=
  [proto "sys_gethostname" [T_ptr "char __user *"; T_int];
   proto "sys_sethostname" [T_ptr "char __user *"; T_int];
   proto "sys_setdomainname" [T_ptr "char __user *"; T_int];
   proto "sys_newuname" [T_ptr "struct new_utsname __user *"];
   proto "sys_uname" [T_ptr "struct old_utsname __user *"];
   proto "sys_olduname" [T_ptr "struct oldold_utsname __user *"];
   proto "sys_getrlimit" [T_unsigned_int; T_ptr "struct rlimit __user *"];
   proto_if "defined(COMPAT_RLIM_OLD_INFINITY) || !(defined(CONFIG_IA64))" "sys_old_getrlimit" [T_unsigned_int; T_ptr "struct rlimit __user *"];
   proto "sys_setrlimit" [T_unsigned_int; T_ptr "struct rlimit __user *"];
   proto "sys_prlimit64" [T_name "pid_t"; T_unsigned_int; T_ptr "const struct rlimit64 __user *"; T_ptr "struct rlimit64 __user *"];
   proto "sys_getrusage" [T_int; T_ptr "struct rusage __user *"];
   proto "sys_umask" [T_int];
   proto "sys_msgget" [T_name "key_t"; T_int];
   proto "sys_msgsnd" [T_int; T_ptr "struct msgbuf __user *"; T_name "size_t"; T_int];
   proto "sys_msgrcv" [T_int; T_ptr "struct msgbuf __user *"; T_name "size_t"; T_long; T_int];
   proto "sys_msgctl" [T_int; T_int; T_ptr "struct msqid_ds __user *"];
   proto "sys_semget" [T_name "key_t"; T_int; T_int];
   proto "sys_semop" [T_int; T_ptr "struct sembuf __user *"; T_unsigned];
   proto "sys_semctl" [T_int; T_int; T_int; T_unsigned_long];
   proto "sys_semtimedop" [T_int; T_ptr "struct sembuf __user *"; T_unsigned; T_ptr "const struct timespec __user *"];
   proto "sys_shmat" [T_int; T_ptr "char __user *"; T_int];
   proto "sys_shmget" [T_name "key_t"; T_name "size_t"; T_int];
   proto "sys_shmdt" [T_ptr "char __user *"];
   proto "sys_shmctl" [T_int; T_int; T_ptr "struct shmid_ds __user *"];
   proto "sys_ipc" [T_unsigned_int; T_int; T_unsigned_long; T_unsigned_long; T_ptr "void __user *"; T_long];
   proto "sys_mq_open" [T_ptr "const char __user *"; T_int; T_name "umode_t"; T_ptr "struct mq_attr __user *"];
   proto "sys_mq_unlink" [T_ptr "const char __user *"];
   proto "sys_mq_timedsend" [T_name "mqd_t"; T_ptr "const char __user *"; T_name "size_t"; T_unsigned_int; T_ptr "const struct timespec __user *"];
   proto "sys_mq_timedreceive" [T_name "mqd_t"; T_ptr "char __user *"; T_name "size_t"; T_ptr "unsigned int __user *"; T_ptr "const struct timespec __user *"];
   proto "sys_mq_notify" [T_name "mqd_t"; T_ptr "const struct sigevent __user *"];
   proto "sys_mq_getsetattr" [T_name "mqd_t"; T_ptr "const struct mq_attr __user *"; T_ptr "struct mq_attr __user *"];
   proto "sys_pciconfig_iobase" [T_long; T_unsigned_long; T_unsigned_long];
   proto "sys_pciconfig_read" [T_unsigned_long; T_unsigned_long; T_unsigned_long; T_unsigned_long; T_ptr "void __user *"];
   proto "sys_pciconfig_write" [T_unsigned_long; T_unsigned_long; T_unsigned_long; T_unsigned_long; T_ptr "void __user *"];
   proto "sys_prctl" [T_int; T_unsigned_long; T_unsigned_long; T_unsigned_long; T_unsigned_long];
   proto "sys_swapon" [T_ptr "const char __user *"; T_int];
   proto "sys_swapoff" [T_ptr "const char __user *"];
   proto "sys_sysctl" [T_ptr "struct __sysctl_args __user *"];
   proto "sys_sysinfo" [T_ptr "struct sysinfo __user *"];
   proto "sys_sysfs" [T_int; T_unsigned_long; T_unsigned_long];
   proto "sys_syslog" [T_int; T_ptr "char __user *"; T_int];
   proto "sys_uselib" [T_ptr "const char __user *"];
   proto "sys_ni_syscall" [];
   proto "sys_ptrace" [T_long; T_long; T_unsigned_long; T_unsigned_long];
   proto "sys_add_key" [T_ptr "const char __user *"; T_ptr "const char __user *"; T_ptr "const void __user *"; T_name "size_t"; T_name "key_serial_t"];
   proto "sys_request_key" [T_ptr "const char __user *"; T_ptr "const char __user *"; T_ptr "const char __user *"; T_name "key_serial_t"];
   proto "sys_keyctl" [T_int; T_unsigned_long; T_unsigned_long; T_unsigned_long; T_unsigned_long]].

Definition proto_at_calls : list prototype :=
  [proto "sys_ioprio_set" [T_int; T_int; T_int];
   proto "sys_ioprio_get" [T_int; T_int];
   proto "sys_set_mempolicy" [T_int; T_ptr "const unsigned long __user *"; T_unsigned_long];
   proto "sys_migrate_pages" [T_name "pid_t"; T_unsigned_long; T_ptr "const unsigned long __user *"; T_ptr "const unsigned long __user *"];
   proto "sys_move_pages" [T_name "pid_t"; T_unsigned_long; T_ptr "const void __user * __user *"; T_ptr "const int __user *"; T_ptr "int __user *"; T_int];
   proto "sys_mbind" [T_unsigned_long; T_unsigned_long; T_unsigned_long; T_ptr "const unsigned long __user *"; T_unsigned_long; T_unsigned];
   proto "sys_get_mempolicy" [T_ptr "int __user *"; T_ptr "unsigned long __user *"; T_unsigned_long; T_unsigned_long; T_unsigned_long];
   proto "sys_inotify_init" [];
   proto "sys_inotify_init1" [T_int];
   proto "sys_inotify_add_watch" [T_int; T_ptr "const char __user *"; T_name "u32"];
   proto "sys_inotify_rm_watch" [T_int; T_name "__s32"];
   proto "sys_spu_run" [T_int; T_ptr "__u32 __user *"; T_ptr "__u32 __user *"];
   proto "sys_spu_create" [T_ptr "const char __user *"; T_unsigned_int; T_name "umode_t"; T_int];
   proto "sys_mknodat" [T_int; T_ptr "const char __user *"; T_name "umode_t"; T_unsigned];
   proto "sys_mkdirat" [T_int; T_ptr "const char __user *"; T_name "umode_t"];
   proto "sys_unlinkat" [T_int; T_ptr "const char __user *"; T_int];
   proto "sys_symlinkat" [T_ptr "const char __user *"; T_int; T_ptr "const char __user *"];
   proto "sys_linkat" [T_int; T_ptr "const char __user *"; T_int; T_ptr "const char __user *"; T_int];
   proto "sys_renameat" [T_int; T_ptr "const char __user *"; T_int; T_ptr "const char __user *"];
   proto "sys_renameat2" [T_int; T_ptr "const char __user *"; T_int; T_ptr "const char __user *"; T_unsigned_int];
   proto "sys_futimesat" [T_int; T_ptr "const char __user *"; T_ptr "struct timeval __user *"];
   proto "sys_faccessat" [T_int; T_ptr "const char __user *"; T_int];
   proto "sys_fchmodat" [T_int; T_ptr "const char __user *"; T_name "umode_t"];
   proto "sys_fchownat" [T_int; T_ptr "const char __user *"; T_name "uid_t"; T_name "gid_t"; T_int];
   proto "sys_openat" [T_int; T_ptr "const char __user *"; T_int; T_name "umode_t"];
   proto "sys_newfstatat" [T_int; T_ptr "const char __user *"; T_ptr "struct stat __user *"; T_int];
   proto "sys_readlinkat" [T_int; T_ptr "const char __user *"; T_ptr "char __user *"; T_int];
   proto "sys_utimensat" [T_int; T_ptr "const char __user *"; T_ptr "struct timespec __user *"; T_int];
   proto "sys_unshare" [T_unsigned_long];
   proto "sys_splice" [T_int; T_ptr "loff_t __user *"; T_int; T_ptr "loff_t __user *"; T_name "size_t"; T_unsigned_int];
   proto "sys_vmsplice" [T_int; T_ptr "const struct iovec __user *"; T_unsigned_long; T_unsigned_int];
   proto "sys_tee" [T_int; T_int; T_name "size_t"; T_unsigned_int];
   proto "sys_sync_file_range" [T_int; T_name "loff_t"; T_name "loff_t"; T_unsigned_int];
   proto "sys_sync_file_range2" [T_int; T_unsigned_int; T_name "loff_t"; T_name "loff_t"];
   proto "sys_get_robust_list" [T_int; T_ptr "struct robust_list_head __user * __user *"; T_ptr "size_t __user *"];
   proto "sys_set_robust_list" [T_ptr "struct robust_list_head __user *"; T_name "size_t"]].

Definition proto_recent : list prototype :=
  [proto "sys_getcpu" [T_ptr "unsigned __user *"; T_ptr "unsigned __user *"; T_ptr "struct getcpu_cache __user *"];
   proto "sys_signalfd" [T_int; T_ptr "sigset_t __user *"; T_name "size_t"];
   proto "sys_signalfd4" [T_int; T_ptr "sigset_t __user *"; T_name "size_t"; T_int];
   proto "sys_timerfd_create" [T_int; T_int];
   proto "sys_timerfd_settime" [T_int; T_int; T_ptr "const struct itimerspec __user *"; T_ptr "struct itimerspec __user *"];
   proto "sys_timerfd_gettime" [T_int; T_ptr "struct itimerspec __user *"];
   proto "sys_eventfd" [T_unsigned_int];
   proto "sys_eventfd2" [T_unsigned_int; T_int];
   proto "sys_memfd_create" [T_ptr "const char __user *"; T_unsigned_int];
   proto "sys_userfaultfd" [T_int];
   proto "sys_fallocate" [T_int; T_int; T_name "loff_t"; T_name "loff_t"];
   proto "sys_old_readdir" [T_unsigned_int; T_ptr "struct old_linux_dirent __user *"; T_unsigned_int];
   proto "sys_pselect6" [T_int; T_ptr "fd_set __user *"; T_ptr "fd_set __user *"; T_ptr "fd_set __user *"; T_ptr "struct timespec __user *"; T_ptr "void __user *"];
   proto "sys_ppoll" [T_ptr "struct pollfd __user *"; T_unsigned_int; T_ptr "struct timespec __user *"; T_ptr "const sigset_t __user *"; T_name "size_t"];
   proto "sys_fanotify_init" [T_unsigned_int; T_unsigned_int];
   proto "sys_fanotify_mark" [T_int; T_unsigned_int; T_name "u64"; T_int; T_ptr "const char __user *"];
   proto "sys_syncfs" [T_int];
   proto "sys_fork" [];
   proto "sys_vfork" [];
   proto_if "CONFIG_CLONE_BACKWARDS" "sys_clone" [T_unsigned_long; T_unsigned_long; T_ptr "int __user *"; T_unsigned_long; T_ptr "int __user *"];
   proto_if "!CONFIG_CLONE_BACKWARDS && CONFIG_CLONE_BACKWARDS3" "sys_clone" [T_unsigned_long; T_unsigned_long; T_int; T_ptr "int __user *"; T_ptr "int __user *"; T_unsigned_long];
   proto_if "!CONFIG_CLONE_BACKWARDS && !CONFIG_CLONE_BACKWARDS3" "sys_clone" [T_unsigned_long; T_unsigned_long; T_ptr "int __user *"; T_ptr "int __user *"; T_unsigned_long];
   proto "sys_execve" [T_ptr "const char __user *"; T_ptr "const char __user *const __user *"; T_ptr "const char __user *const __user *"];
   proto "sys_perf_event_open" [T_ptr "struct perf_event_attr __user *"; T_name "pid_t"; T_int; T_int; T_unsigned_long];
   proto "sys_mmap_pgoff" [T_unsigned_long; T_unsigned_long; T_unsigned_long; T_unsigned_long; T_unsigned_long; T_unsigned_long];
   proto "sys_old_mmap" [T_ptr "struct mmap_arg_struct __user *"];
   proto "sys_name_to_handle_at" [T_int; T_ptr "const char __user *"; T_ptr "struct file_handle __user *"; T_ptr "int __user *"; T_int];
   proto "sys_open_by_handle_at" [T_int; T_ptr "struct file_handle __user *"; T_int];
   proto "sys_setns" [T_int; T_int];
   proto "sys_process_vm_readv" [T_name "pid_t"; T_ptr "const struct iovec __user *"; T_unsigned_long; T_ptr "const struct iovec __user *"; T_unsigned_long; T_unsigned_long];
   proto "sys_process_vm_writev" [T_name "pid_t"; T_ptr "const struct iovec __user *"; T_unsigned_long; T_ptr "const struct iovec __user *"; T_unsigned_long; T_unsigned_long];
   proto "sys_kcmp" [T_name "pid_t"; T_name "pid_t"; T_int; T_unsigned_long; T_unsigned_long];
   proto "sys_finit_module" [T_int; T_ptr "const char __user *"; T_int];
   proto "sys_seccomp" [T_unsigned_int; T_unsigned_int; T_ptr "const char __user *"];
   proto "sys_getrandom" [T_ptr "char __user *"; T_name "size_t"; T_unsigned_int];
   proto "sys_bpf" [T_int; T_ptr "union bpf_attr *"; T_unsigned_int];
   proto "sys_execveat" [T_int; T_ptr "const char __user *"; T_ptr "const char __user *const __user *"; T_ptr "const char __user *const __user *"; T_int];
   proto "sys_membarrier" [T_int; T_int];
   proto "sys_mlock2" [T_unsigned_long; T_name "size_t"; T_int];
   proto "sys_cs3013_syscall1" [];
   proto "sys_cs3013_syscall2" [];
   proto "sys_cs3013_syscall3" []].

Definition prototypes : list prototype :=
  proto_ids_times ++ proto_sched_signals ++ proto_files ++ proto_memory_fds ++
  proto_io_sockets ++ proto_names_ipc ++ proto_at_calls ++ proto_recent.
