(* ===== verification/SysEntryProps.v ===== *)
(** * How arguments reach a system call: properties *)

From S2P Require Import Prelude SysBase SysRlimit SysCred SysCredProps SysEntry SysTable.

(** ** The types of other headers *)

(** What linux/types.h and its companions say of the names in the prototypes. *)
Definition known_typedefs (width : Z) : list (string * layout) :=
  let int_ := mkLayout true Int in
  let uint := mkLayout false Int in
  let ulong := mkLayout false Long in
  let ptr := mkLayout false Pointer in
  [("pid_t", int_); ("uid_t", uint); ("gid_t", uint); ("qid_t", uint); ("u32", uint); ("__s32", int_);
   ("u64", mkLayout false LongLong); ("loff_t", mkLayout true LongLong); ("off_t", mkLayout true Long);
   ("size_t", if (width =? 32)%Z then uint else ulong); ("umode_t", mkLayout false Short);
   ("old_uid_t", mkLayout false Short); ("old_gid_t", mkLayout false Short); ("clockid_t", int_);
   ("timer_t", int_); ("key_t", int_); ("mqd_t", int_); ("key_serial_t", int_); ("old_sigset_t", ulong);
   ("aio_context_t", ulong); ("__sighandler_t", ptr); ("cap_user_header_t", ptr); ("cap_user_data_t", ptr);
   ("const cap_user_data_t", ptr)]%string.

Class Typedefs (width : Z) (typedef : string → option layout) : Prop :=
  typedefs_known : ∀ s l, (s, l) ∈ known_typedefs width → typedef s = Some l.

(** The names by lookup in that list. *)
Fixpoint assoc (s : string) (l : list (string * layout)) : option layout :=
  match l with [] => None | (x, v) :: l' => if decide (x = s) then Some v else assoc s l' end.

Lemma assoc_elem s l v : assoc s l = Some v → (s, v) ∈ l.
Proof.
  induction l as [|[x u] l IH]; cbn; [done|]. case_decide as E; [intros [= ->]; subst; left|]. intros H. right. auto.
Qed.

#[global] Instance linux_typedefs `{!Bitwidth width} : Typedefs width (λ s, assoc s (known_typedefs width)).
Proof.
  intros s l H. destruct (width_cases (width := width)) as [-> | ->]; unfold known_typedefs in *; cbn in H |- *;
    repeat (apply elem_of_cons in H as [[= -> ->]|H]; [reflexivity|]); by apply elem_of_nil in H.
Qed.

(** ** Conversions *)

Section convert.
Context {width : Z} `{!Bitwidth width}.
Implicit Types (l : layout) (v : Z).

Definition in_range l v : Prop :=
  if signed l then - 2 ^ (sizeof width l - 1) ≤ v < 2 ^ (sizeof width l - 1) else 0 ≤ v < 2 ^ sizeof width l.

Lemma sizeof_pos l : 8 ≤ sizeof width l.
Proof using Type*. unfold sizeof. destruct (width_cases (width := width)) as [-> | ->]; case_match; lia. Qed.

Lemma pow_split l : 2 ^ sizeof width l = 2 * 2 ^ (sizeof width l - 1) ∧ 0 < 2 ^ (sizeof width l - 1).
Proof using Type*. pose proof (sizeof_pos l). rewrite <-Z.pow_succ_r by lia. split; [f_equal; lia|apply Z.pow_pos_nonneg; lia]. Qed.

Lemma convert_range l v : in_range l (convert width l v).
Proof using Type*.
  destruct (pow_split l) as [E ?]. unfold in_range, convert. case_match.
  - pose proof (Z.mod_pos_bound (v + 2 ^ (sizeof width l - 1)) (2 ^ sizeof width l)). lia.
  - apply Z.mod_pos_bound. lia.
Qed.

Lemma convert_id l v : in_range l v → convert width l v = v.
Proof using Type*.
  destruct (pow_split l) as [E ?]. unfold in_range, convert. case_match; intros Hv.
  - rewrite Z.mod_small by lia. lia.
  - by apply Z.mod_small.
Qed.

(** A conversion forgets the bits above the width of the type, and no others. *)
Lemma convert_mod l v : convert width l v mod 2 ^ sizeof width l = v mod 2 ^ sizeof width l.
Proof using Type*.
  destruct (pow_split l) as [E ?]. unfold convert. case_match; [|by rewrite Z.mod_mod by lia].
  rewrite Zminus_mod_idemp_l. f_equal. lia.
Qed.

Lemma convert_eq l v v' : v mod 2 ^ sizeof width l = v' mod 2 ^ sizeof width l → convert width l v = convert width l v'.
Proof using Type*.
  intros H. unfold convert. case_match; [|done]. f_equal.
  by rewrite Zplus_mod, H, <-Zplus_mod.
Qed.

(** Through a type that is at least as wide. *)
Lemma mod_mod_pow v a b : 0 ≤ a ≤ b → (v mod 2 ^ b) mod 2 ^ a = v mod 2 ^ a.
Proof using.
  intros H. apply Z.mod_mod_divide.
  exists (2 ^ (b - a)). rewrite <-Z.pow_add_r by lia. f_equal. lia.
Qed.

Lemma convert_through l l' v : sizeof width l ≤ sizeof width l' → convert width l (convert width l' v) = convert width l v.
Proof using Type*.
  intros H. pose proof (sizeof_pos l). apply convert_eq.
  rewrite <-(mod_mod_pow (convert width l' v) _ (sizeof width l')), convert_mod, mod_mod_pow by lia. done.
Qed.

Lemma test_wide l : SC_TEST width l = true ↔ sizeof width l ≤ sizeof width (SC_LONG l).
Proof using Type*.
  unfold SC_TEST, SC_LONG, TYPE_IS_LL. destruct l as [sg r]. cbn.
  destruct (decide (r = LongLong)) as [->|Hne]; [by rewrite bool_decide_eq_true_2|].
  rewrite bool_decide_eq_false_2 by done. cbn. rewrite negb_true_iff, Z.ltb_ge. by unfold sizeof.
Qed.
End convert.

(** C16. The test at build time is the right one: an argument of a type passes through the
    [long] parameter of [SyS_name] unchanged, whatever its value, exactly if the macro
    accepts the type. *)
Theorem entry_roundtrip {width : Z} `{!Bitwidth width} (l : layout) :
  SC_TEST width l = true ↔ ∀ v, in_range (width := width) l v → SC_CAST width l (convert width (SC_LONG l) v) = v.
Proof.
  rewrite test_wide. split.
  - intros H v Hv. unfold SC_CAST. rewrite convert_through by done. by apply convert_id.
  - intros H. destruct (decide (rank_of l = Int128)) as [E|E].
    + specialize (H (2 ^ 64)). exfalso. destruct l as [sg r]. cbn in E. subst r.
      assert (SC_CAST width (mkLayout sg Int128) (convert width (SC_LONG (mkLayout sg Int128)) (2 ^ 64)) = 0) as H0.
      { destruct (width_cases (width := width)) as [-> | ->]; by destruct sg. }
      rewrite H0 in H. assert (0 = 2 ^ 64); [|done]. apply H. unfold in_range, sizeof. cbn. by destruct sg.
    + unfold SC_LONG, TYPE_IS_LL. destruct l as [sg r]. cbn in *. unfold sizeof. cbn.
      destruct (width_cases (width := width)) as [-> | ->]; destruct r; cbn; try done; lia.
Qed.

Lemma entry_roundtrip_witness :
  SC_TEST 32 (mkLayout true LongLong) = true ∧
  SC_CAST 32 (mkLayout true LongLong) (convert 32 (SC_LONG (mkLayout true LongLong)) (- 2 ^ 40)) = - 2 ^ 40.
Proof.
  split; [done|]. apply (proj1 (entry_roundtrip (width := 32) (mkLayout true LongLong)) eq_refl). by vm_compute.
Defined.

(** ** Definitions *)

Section entry.
Context {width : Z} `{!Bitwidth width} {typedef : string → option layout}.

Lemma checked_tests d ls : checked_types width typedef d = Some ls → Forall (λ l, SC_TEST width l = true) ls.
Proof using Type.
  unfold checked_types. destruct (MAP _ _ _) as [ts|]; [|done]. cbn. destruct (mapM _ ts) as [ls'|]; [|done]. cbn.
  destruct (forallb _ ls') eqn:E; [|done]. intros [= <-]. apply Forall_forall. intros l Hl.
  rewrite forallb_forall in E. by apply E, list_elem_of_In.
Qed.

(** What the body of a call gets: the low bits of what the caller left. *)
Lemma entry_args {R} d (body : list Z → option R) ls regs : checked_types width typedef d = Some ls →
  length regs = length ls → SyS width typedef d body regs = body (zip_with (convert width) ls regs).
Proof using Type*.
  intros E Hlen. unfold SyS. rewrite E. cbn [mbind option_bind]. rewrite decide_True by done. f_equal.
  apply checked_tests in E. clear -E Bitwidth0. revert regs. induction E as [|l ls Hl _ IH]; intros [|r regs]; try done.
  cbn [zip_with]. rewrite IH. f_equal. unfold SC_CAST. apply convert_through. by apply test_wide.
Qed.

Lemma args_in_range ls regs : length regs = length ls →
  Forall2 (in_range (width := width)) ls (zip_with (convert width) ls regs).
Proof using Type*.
  revert regs. induction ls as [|l ls IH]; intros [|r regs] Hlen; try done; cbn; constructor.
  - apply convert_range.
  - apply IH. by injection Hlen.
Qed.

(** Registers that agree on the bits of the declared types. *)
Definition same_low (l : layout) (r r' : Z) : Prop := r mod 2 ^ sizeof width l = r' mod 2 ^ sizeof width l.

End entry.

(** ** The table of prototypes *)

Section table.
Context {width : Z} `{!Bitwidth width} {typedef : string → option layout} `{!Typedefs width typedef}.
Let known (s : string) : option layout := assoc s (known_typedefs width).

Lemma resolve_known t l : resolve known t = Some l → resolve typedef t = Some l.
Proof using Typedefs0. destruct t; cbn [resolve]; try done. intros H%assoc_elem. by apply typedefs_known. Qed.

Lemma mapM_known ts ls : mapM (resolve known) ts = Some ls → mapM (resolve typedef) ts = Some ls.
Proof using Typedefs0.
  rewrite !mapM_Some. induction 1; constructor; auto using resolve_known.
Qed.

Definition accepted (ts : list ctype) : bool :=
  bool_decide (length ts ≤ 6)%nat &&
  match mapM (resolve known) ts with Some ls => forallb (SC_TEST width) ls | None => false end.

Lemma accepted_spec ts : accepted ts = true →
  (length ts ≤ 6)%nat ∧ ∃ ls, mapM (resolve typedef) ts = Some ls ∧ forallb (SC_TEST width) ls = true.
Proof using Typedefs0.
  unfold accepted. rewrite andb_true_iff, bool_decide_eq_true. intros [Hl H]. split; [done|].
  destruct (mapM (resolve known) ts) as [ls|] eqn:E; [|done]. exists ls. split; [by apply mapM_known|done].
Qed.
End table.

(** The declaration of a call of sys.c. *)
Definition declared (d : sysdef) : bool :=
  existsb (λ p, bool_decide (p_name p = ("sys_" +:+ sys_name d)%string ∧ p_types p = (params d).*1)) prototypes.

Lemma all_accepted : forallb (λ p, accepted (width := 32) (p_types p) && accepted (width := 64) (p_types p)) prototypes = true.
Proof. vm_compute. reflexivity. Qed.
Lemma small_defs : forallb (λ d, length (params d) <=? 6)%nat sys_defs = true.
Proof. vm_compute. reflexivity. Qed.

Lemma all_declared : forallb (λ d, declared d && bool_decide (nb d = length (params d))) sys_defs = true.
Proof. vm_compute. reflexivity. Qed.

(** Every prototype is accepted, whatever the other headers say, as long as their types
    are the documented ones. *)
Lemma prototypes_accepted {width : Z} `{!Bitwidth width} typedef p : Typedefs width typedef → p ∈ prototypes →
  (length (p_types p) ≤ 6)%nat ∧
  ∃ ls, mapM (resolve typedef) (p_types p) = Some ls ∧ forallb (SC_TEST width) ls = true.
Proof.
  intros Htd Hp. pose proof all_accepted as H. rewrite forallb_forall in H. specialize (H p).
  rewrite andb_true_iff in H. destruct H as [H32 H64]; [by apply list_elem_of_In|].
  apply accepted_spec; destruct (width_cases (width := width)) as [-> | ->]; done.
Qed.

(** A definition of sys.c compiles, to the types of its prototype. *)
Lemma definition_types {width : Z} `{!Bitwidth width} typedef d : Typedefs width typedef → d ∈ sys_defs →
  ∃ p ls, p ∈ prototypes ∧ p_name p = ("sys_" +:+ sys_name d)%string ∧
    mapM (resolve typedef) (p_types p) = Some ls ∧ checked_types width typedef d = Some ls.
Proof.
  intros Htd Hd. pose proof all_declared as H. rewrite forallb_forall in H. specialize (H d).
  rewrite andb_true_iff, bool_decide_eq_true in H. destruct H as [H Hn]; [by apply list_elem_of_In|].
  apply existsb_exists in H as (p & Hin%list_elem_of_In & [Hname Ht]%bool_decide_eq_true).
  destruct (prototypes_accepted typedef p Htd Hin) as (Hlen & ls & Hr & Htest). exists p, ls. split_and!; [done..|].
  rewrite Ht in Hlen, Hr. rewrite length_fmap in Hlen.
  unfold checked_types, MAP. rewrite decide_True by (split; [done|lia]). cbn [mbind option_bind].
  assert ((λ '(t, _), t) <$> params d = (params d).*1) as -> by (apply list_fmap_ext; by intros ? []).
  rewrite Hr. cbn [mbind option_bind]. by rewrite Htest.
Qed.

(** C17. Arguments reach the bodies: every call that sys.c defines has a prototype in
    syscalls.h such that arguments in the range of the prototype's types, passed through
    the entry that the macro makes of the definition, reach the body unchanged, on 32 and
    on 64 bits; and whatever a caller leaves in the registers, the body gets values in the
    range of these types, with the low bits of the registers. *)
Theorem entry_delivers {width : Z} `{!Bitwidth width} (typedef : string → option layout) (d : sysdef) :
  Typedefs width typedef → d ∈ sys_defs →
  ∃ p ls, p ∈ prototypes ∧ p_name p = ("sys_" +:+ sys_name d)%string ∧ mapM (resolve typedef) (p_types p) = Some ls ∧
    ∀ R (SYSC : list Z → option R),
      (∀ vs, Forall2 (in_range (width := width)) ls vs → SyS width typedef d SYSC vs = SYSC vs) ∧
      (∀ regs, length regs = length ls → ∃ vs, SyS width typedef d SYSC regs = SYSC vs ∧
         Forall2 (in_range (width := width)) ls vs ∧ Forall3 (same_low (width := width)) ls vs regs).
Proof.
  intros Htd Hd. destruct (definition_types typedef d Htd Hd) as (p & ls & Hp & Hname & Hr & Hc).
  exists p, ls. split_and!; [done..|]. intros R SYSC. split.
  - intros vs Hvs. rewrite (entry_args d SYSC ls vs Hc) by (symmetry; by eapply Forall2_length).
    f_equal. clear -Hvs Bitwidth0. induction Hvs as [|l v ls vs Hv _ IH]; [done|]. cbn. by rewrite IH, convert_id.
  - intros regs Hlen. eexists. split; [by apply entry_args|]. split; [by apply args_in_range|].
    clear -Hlen Bitwidth0. revert regs Hlen. induction ls as [|l ls IH]; intros [|r regs] Hlen; try done; cbn; constructor.
    + apply convert_mod.
    + apply IH. by injection Hlen.
Qed.

Lemma entry_delivers_witness :
  ∃ p ls, p ∈ prototypes ∧ p_name p = "sys_setuid"%string ∧
    mapM (resolve (λ s, assoc s (known_typedefs 64))) (p_types p) = Some ls ∧
    ∀ R (SYSC : list Z → option R),
      (∀ vs, Forall2 (in_range (width := 64)) ls vs → SyS 64 (λ s, assoc s (known_typedefs 64)) def_setuid SYSC vs = SYSC vs) ∧
      (∀ regs, length regs = length ls → ∃ vs, SyS 64 (λ s, assoc s (known_typedefs 64)) def_setuid SYSC regs = SYSC vs ∧
         Forall2 (in_range (width := 64)) ls vs ∧ Forall3 (same_low (width := 64)) ls vs regs).
Proof.
  apply (entry_delivers (width := 64) (λ s, assoc s (known_typedefs 64)) def_setuid); [apply linux_typedefs|].
  do 5 right. left.
Defined.

(** ** Identities through the entries *)

(** The call that the body of an entry makes. *)
Definition cred_body (nm : string) (args : list Z) : option call :=
  match args with
  | [x] =>
      if decide (nm = "setuid"%string) then Some (SETUID x) else if decide (nm = "setgid"%string) then Some (SETGID x)
      else if decide (nm = "setfsuid"%string) then Some (SETFSUID x)
      else if decide (nm = "setfsgid"%string) then Some (SETFSGID x) else None
  | [x; y] =>
      if decide (nm = "setreuid"%string) then Some (SETREUID x y)
      else if decide (nm = "setregid"%string) then Some (SETREGID x y) else None
  | [x; y; z] =>
      if decide (nm = "setresuid"%string) then Some (SETRESUID x y z)
      else if decide (nm = "setresgid"%string) then Some (SETRESGID x y z) else None
  | _ => None
  end.

Section raw.
Context (width : Z) (typedef : string → option layout).

Definition raw_call (d : sysdef) (regs : list Z) : option call := SyS width typedef d (cred_body (sys_name d)) regs.

End raw.

Definition cred_defs : list sysdef :=
  [def_setregid; def_setgid; def_setreuid; def_setuid; def_setresuid; def_setresgid; def_setfsuid; def_setfsgid].

(** Their parameters are all unsigned ints. *)
Lemma cred_types {width : Z} `{!Bitwidth width} typedef d : Typedefs width typedef → d ∈ cred_defs →
  checked_types width typedef d = Some (replicate (nb d) (mkLayout false Int)).
Proof.
  intros Htd Hd.
  assert (typedef "uid_t"%string = Some (mkLayout false Int) ∧ typedef "gid_t"%string = Some (mkLayout false Int)) as [Hu Hg].
  { split; apply typedefs_known; unfold known_typedefs; [right; left|right; right; left]. }
  assert (SC_TEST width (mkLayout false Int) = true) as Ht by (by destruct (width_cases (width := width)) as [-> | ->]).
  unfold cred_defs in Hd.
  repeat (apply elem_of_cons in Hd as [-> |Hd];
    [unfold checked_types, MAP; rewrite decide_True by (cbn; lia); cbn -[SC_TEST]; rewrite ?Hu, ?Hg; cbn -[SC_TEST];
     rewrite ?Hu, ?Hg; cbn -[SC_TEST]; rewrite ?Hu, ?Hg; cbn -[SC_TEST]; rewrite ?Hu, ?Hg; cbn -[SC_TEST]; by rewrite !Ht|]).
  by apply elem_of_nil in Hd.
Qed.

(** Only the declared bits count: for each of the calls on identities, registers that
    agree in their low 32 bits make the same call, with arguments in the range of
    [uid_t]; and a register of all ones, the -1 of a caller, is the [(uid_t) -1] that the
    bodies take for no change. *)
Theorem entry_low_bits {width : Z} `{!Bitwidth width} (typedef : string → option layout) (d : sysdef) (regs regs' : list Z) :
  Typedefs width typedef → d ∈ cred_defs → length regs = nb d →
  Forall2 (λ r r', r mod 2 ^ 32 = r' mod 2 ^ 32) regs regs' →
  raw_call width typedef d regs = raw_call width typedef d regs' ∧
  raw_call width typedef d regs = cred_body (sys_name d) ((λ r, r mod 2 ^ 32) <$> regs) ∧
  convert width (mkLayout false Int) (-1) = NOID.
Proof.
  intros Htd Hd Hlen H. pose proof (cred_types typedef d Htd Hd) as E.
  assert (∀ rs : list Z, length rs = nb d → zip_with (convert width) (replicate (nb d) (mkLayout false Int)) rs =
    (λ r, r mod 2 ^ 32) <$> rs) as Hz.
  { intros rs Hr. rewrite <-Hr. clear. induction rs as [|r rs IH]; [done|]. cbn [length replicate zip_with]. by rewrite IH. }
  assert (length regs' = nb d) as Hlen' by (by rewrite <-(Forall2_length _ _ _ H)).
  unfold raw_call. rewrite !(entry_args d _ _ _ E), !Hz by (by rewrite ?length_replicate). split; [|done].
  f_equal. clear -H. induction H as [|r r' rs rs' Hr _ IH]; [done|]. cbn. by rewrite Hr, IH.
Qed.

Lemma entry_low_bits_witness :
  raw_call 64 (λ s, assoc s (known_typedefs 64)) def_setreuid [-1; 2 ^ 40 + 1000] =
  raw_call 64 (λ s, assoc s (known_typedefs 64)) def_setreuid [2 ^ 32 - 1; 1000].
Proof.
  apply (entry_low_bits (width := 64) (λ s, assoc s (known_typedefs 64)) def_setreuid [-1; 2 ^ 40 + 1000] [2 ^ 32 - 1; 1000]);
    [apply linux_typedefs|do 2 right; left|done|repeat constructor].
Defined.

(** ** What tracing sees *)

Definition event_names (l : list sysdef) : list string :=
  d ← l; match metadata_of d with Some m => [ev_name (enter_event m); ev_name (exit_event m)] | None => [] end.

Lemma event_names_distinct : bool_decide (NoDup (event_names sys_defs)) = true.
Proof. vm_compute. reflexivity. Qed.

(** The description of a call for tracing is right: it exists for every call that sys.c
    defines, names the call and as many types and arguments as the definition has (the
    types as the prototype has them), both events lead back to it, and no two events of
    the file share a name. *)
Theorem metadata_sound :
  NoDup (event_names sys_defs) ∧
  ∀ d, d ∈ sys_defs → ∃ m, metadata_of d = Some m ∧
    m_name m = ("sys_" +:+ sys_name d)%string ∧ nb_args m = length (params d) ∧
    default [] (m_types m) = type_text <$> (params d).*1 ∧ default [] (m_args m) = (params d).*2 ∧
    (m_types m = None ↔ params d = []) ∧
    ev_data (enter_event m) = ev_data (exit_event m) ∧
    ∃ p, p ∈ prototypes ∧ p_name p = m_name m ∧ type_text <$> p_types p = default [] (m_types m).
Proof.
  split; [apply (bool_decide_unpack _), Is_true_true, event_names_distinct|]. intros d Hd.
  pose proof all_declared as H. rewrite forallb_forall in H. specialize (H d).
  rewrite andb_true_iff, bool_decide_eq_true in H. destruct H as [H Hn]; [by apply list_elem_of_In|].
  apply existsb_exists in H as (p & Hin%list_elem_of_In & [Hname Ht]%bool_decide_eq_true).
  assert (length (params d) ≤ 6)%nat as Hl.
  { pose proof small_defs as Hs. rewrite forallb_forall in Hs. apply Nat.leb_le, Hs. by apply list_elem_of_In. }
  unfold metadata_of, SYSCALL_METADATA, MAP. rewrite !decide_True by (split; [done|lia]). cbn [mbind option_bind].
  assert ((λ '(t, _), type_text t) <$> params d = type_text <$> (params d).*1) as ->.
  { rewrite <-list_fmap_compose. apply list_fmap_ext. by intros ? []. }
  assert ((λ '(_, a), a) <$> params d = (params d).*2) as -> by (apply list_fmap_ext; by intros ? []).
  eexists. split; [done|]. cbn. rewrite Hn. destruct (params d) as [|x l]; cbn.
  - split_and!; try done. exists p. rewrite Ht. done.
  - split_and!; try done. exists p. rewrite Ht. done.
Qed.
