(* ===== verification/Programs.v ===== *)
(** * The small programs

    The module hello.c of Project0, the programs seymour.c of Project1 and goodbye.c of
    Project2, and the two files of Project2/virusScan that are read with cat.  The system
    calls of goodbye.c go through the table that the interceptor changes, the reads of cat
    through its new [read]. *)

From S2P Require Import Prelude CString SysInfo Interceptor InterceptorProps.
From Stdlib Require Import Ascii.

(** ** hello.c *)

Definition hello_init : Z * list string := (0, ["Hello World!"]%string).
Definition hello_cleanup : list string := ["Cleaning up module."]%string.

(** insmod and rmmod: a module that does not load is not unloaded. *)
Definition hello_session : list string :=
  let '(r, o) := hello_init in if r =? 0 then o ++ hello_cleanup else o.

Lemma hello_log : hello_session = ["Hello World!"; "Cleaning up module."]%string.
Proof. done. Qed.

(** ** seymour.c *)

(** [for (long i = 0; i < n; i++);] on a machine whose [long] has [width] bits:
    [Some None]: [i++] overflows; [None]: more fuel is needed. *)
Fixpoint wait_loop (width : Z) (fuel : nat) (i n : Z) : option (option Z) :=
  match fuel with
  | O => None
  | S fuel' =>
      if i <? n then
        if i + 1 <? 2 ^ (width - 1) then wait_loop width fuel' (i + 1) n else Some None
      else Some (Some i)
  end.

Definition seymour_main (width : Z) (fuel : nat) : option (list string) :=
  r ← wait_loop width fuel 0 525600000;
  Some (match r with Some _ => ["Seymour waited for you."]%string | None => [] end).

Lemma wait_loop_ends width n fuel i : 0 ≤ i ≤ n → n < 2 ^ (width - 1) → n - i < Z.of_nat fuel →
  wait_loop width fuel i n = Some (Some n).
Proof.
  revert i. induction fuel as [|fuel IH]; intros i Hi Hn Hf; [lia|]. simpl.
  destruct (Z.ltb_spec i n); [|by assert (i = n) as -> by lia].
  rewrite (proj2 (Z.ltb_lt _ _)) by lia. apply IH; lia.
Qed.

(** The program ends and prints its line on every machine with a [long] of 31 bits or
    more: the counter does not overflow. *)
Theorem seymour_ends (width : Z) (fuel : nat) :
  31 ≤ width → 525600000 < Z.of_nat fuel → seymour_main width fuel = Some ["Seymour waited for you."]%string.
Proof.
  intros Hw Hf. unfold seymour_main. rewrite (wait_loop_ends width 525600000); [done|lia| |lia].
  apply (Z.lt_le_trans _ (2 ^ 30)); [lia|]. apply Z.pow_le_mono_r; lia.
Qed.

(** ** goodbye.c *)

(** A line of the kernel's log: from sys.c or from the interceptor. *)
Inductive line : Type := Sys (s : string) | Mod (m : msg).

Section goodbye.
Context (b : build).

(** The functions at the addresses of the table: [old1] is the address of the kernel's own
    [sys_cs3013_syscall1]. *)
Definition text (old1 a : Z) : option (Z * list line) :=
  if a =? new_syscall1 b then
    let '(r, o) := new_sys_cs3013_syscall1 in Some (r, Mod <$> o)
  else if a =? old1 then
    let '(r, o) := cs3013_syscall1 in Some (r, Sys <$> o)
  else None.

(** [syscall(n)]: the value it returns and the lines the kernel logs. *)
Context (syscall : kernel → Z → Z * list line).

Definition goodbye_testCall1 (k : kernel) : Z * list line := syscall k 377.

Definition goodbye_main (k : kernel) : list string * list line :=
  let '(r, o) := goodbye_testCall1 k in
  (["The return values of the system calls are:"; tab +:+ "cs3013_syscall1: " +:+ pretty r]%string, o).
End goodbye.

(** The kernel calls the function whose address is entry [n] of its table at [t]. *)
Definition through_table (b : build) (old1 t : Z) (syscall : kernel → Z → Z * list line) : Prop :=
  ∀ k n r, text b old1 (mem k (entry b t n)) = Some r → syscall k n = r.

(** What goodbye.c prints in any case. *)
Definition goodbye_out : list string :=
  ["The return values of the system calls are:"; tab +:+ "cs3013_syscall1: 0"]%string.

(** C40. The program goodbye.c before, while and after the module is loaded, when the kernel
    answers [syscall] with the function in its table: what the program prints is the same,
    the log has the line of the kernel's call, then the one of the module, then again the
    one of the kernel's call. *)
Theorem goodbye_module (b : build) (fuel : nat) (k : kernel) (t old1 : Z) (syscall : kernel → Z → Z * list line) :
  through_table b old1 t syscall →
  NoDup (numbers b) → 0 < word b → NR_syscall1 b = 377 →
  find_sys_call_table b fuel k = Done (Some t) k [Found t] →
  mem k (entry b t 377) = old1 → old1 ≠ new_syscall1 b →
  ∃ k1 k2, interceptor_start b fuel k = Done 0 k1 [Found t; Loaded] ∧
    interceptor_end b k1 = Done tt k2 [Unloaded] ∧
    goodbye_main syscall k = (goodbye_out, [Sys "'Hello, world!' -- syscall1"]) ∧
    goodbye_main syscall k1 = (goodbye_out, [Mod Goodbye]) ∧
    goodbye_main syscall k2 = goodbye_main syscall k.
Proof.
  intros Hsys Hnd Hw Hnr Hf Hold Hne. eexists _, _. rewrite (start_ok b fuel k t Hf). split; [done|].
  split; [by apply (end_ok b _ t)|]. unfold goodbye_main, goodbye_testCall1.
  pose proof (written_entries b Hnd Hw t (mem k) (new_syscall1 b) (new_syscall2 b) (new_open b) (new_close b)
    (new_read b)) as He.
  unfold numbers in He. rewrite !fmap_cons, Hnr in He. injection He as He _ _ _ _.
  assert (text b old1 old1 = Some (0, [Sys "'Hello, world!' -- syscall1"])) as Ht.
  { unfold text. by rewrite Z.eqb_refl, (proj2 (Z.eqb_neq old1 _)). }
  rewrite (Hsys k 377 _ ltac:(rewrite Hold; exact Ht)).
  split_and!; [done| |].
  - erewrite (Hsys _ 377); [|cbn [mem]; rewrite He; unfold text; by rewrite Z.eqb_refl]. done.
  - erewrite (Hsys _ 377); [|cbn [mem set_mem set_cr0 ref_syscall1 ref_syscall2 ref_open ref_close ref_read];
      rewrite written_back, Hold; exact Ht]. done.
Qed.

(** A kernel that does so; a number without a function gives -1. *)
Definition table_call (b : build) (old1 t : Z) (k : kernel) (n : Z) : Z * list line :=
  default (-1, []) (text b old1 (mem k (entry b t n))).

Lemma table_call_through b old1 t : through_table b old1 t (table_call b old1 t).
Proof. intros k n r E. unfold table_call. by rewrite E. Qed.

Lemma goodbye_module_witness :
  ∃ k1, interceptor_start demo_build 5 demo_kernel = Done 0 k1 [Found 1008; Loaded] ∧
    goodbye_main (table_call demo_build 4024 1008) k1 = (goodbye_out, [Mod Goodbye]).
Proof.
  destruct (goodbye_module demo_build 5 demo_kernel 1008 4024 (table_call demo_build 4024 1008))
    as (k1 & k2 & H1 & _ & _ & H2 & _);
    [apply table_call_through|apply (bool_decide_unpack _); by vm_compute|by vm_compute..|].
  exists k1. split; [exact H1|exact H2].
Defined.

(** ** virusScan *)

(** The original [read] on a file with contents [file] from position [pos] on. *)
Definition file_read (file : list ascii) (pos : Z) (buf : list ascii) (count : Z) : Z * list ascii :=
  let got := take (Z.to_nat count) (drop (Z.to_nat pos) file) in
  (zlen got, got ++ drop (length got) buf).

(** [cat]: read into the same buffer until nothing more comes; the log. *)
Fixpoint cat (fuel : nat) (uid fd : Z) (file : list ascii) (pos : Z) (buf : list ascii) (count : Z) :
    option (list msg) :=
  match fuel with
  | O => None
  | S fuel' =>
      '(code, buf', o) ← new_sys_read (λ _, file_read file pos) uid fd buf count;
      if code =? 0 then Some o
      else o' ← cat fuel' uid fd file (pos + code) buf' count; Some (o ++ o')
  end.

Definition aVirus : list ascii :=
  String.list_ascii_of_string "Gotta have a lot of text here I don't know. VIRUS. Yeah. Text. Woo." ++ [newline].
Definition notAVirus : list ascii := String.list_ascii_of_string "This isn't a vIrUs!" ++ [newline].

Lemma file_read_first file buf : zlen file ≤ zlen buf →
  file_read file 0 buf (zlen buf) = (zlen file, file ++ drop (length file) buf).
Proof. intros H. unfold file_read. rewrite drop_0, take_ge by (unfold zlen in *; lia). done. Qed.

Lemma file_read_end file buf count : file_read file (zlen file) buf count = (0, buf).
Proof. unfold file_read. rewrite drop_ge by (unfold zlen; lia). by rewrite take_nil. Qed.

Lemma user_read ref uid fd buf count code buf' (m : bool) :
  1000 ≤ uid → 0 ≤ code → ref fd buf count = (code, buf') → contstr buf' count VIRUS = Some m →
  new_sys_read ref uid fd buf count = Some (code, buf', if m then [Malicious uid fd] else []).
Proof.
  intros Hu Hc E Hm. unfold new_sys_read. rewrite E, Hm.
  by rewrite (proj2 (Z.leb_le 1000 uid)), (proj2 (Z.leb_le 0 code)) by done.
Qed.

(** [cat] of a file that fits into its buffer, by a user: if the buffer holds the word once
    the file has been read, it is reported twice, the second time by the read that finds
    the end of the file (as the recorded log shows for aVirus); otherwise never. *)
Theorem cat_reports (fuel : nat) (uid fd : Z) (file buf : list ascii) :
  1000 ≤ uid → file ≠ [] → zlen file ≤ zlen buf → (2 ≤ fuel)%nat →
  ∃ o, cat fuel uid fd file 0 buf (zlen buf) = Some o ∧
    ((∃ l1 l2, file ++ drop (length file) buf = l1 ++ VIRUS ++ l2) → o = [Malicious uid fd; Malicious uid fd]) ∧
    (¬ (∃ l1 l2, file ++ drop (length file) buf = l1 ++ VIRUS ++ l2) → o = []).
Proof.
  intros Hu Hne Hl Hf. destruct fuel as [|[|fuel]]; [lia..|]. set (buf' := file ++ _).
  assert (zlen buf' = zlen buf) as Hb by (subst buf'; unfold zlen in *; rewrite length_app, length_drop; lia).
  destruct (contstr_spec buf' VIRUS (zlen buf)) as (m & Em & Hm); [done|rewrite Hb; unfold zlen; lia|].
  rewrite take_ge in Hm by (rewrite <-Hb; unfold zlen; lia). cbn [cat].
  assert (0 ≤ zlen file) as Hz by (unfold zlen; lia).
  rewrite (user_read _ uid fd _ _ _ _ m Hu Hz (file_read_first file buf Hl) Em). cbn [mbind option_bind].
  rewrite (proj2 (Z.eqb_neq (zlen file) 0)) by (destruct file; [done|unfold zlen; simpl; lia]). rewrite Z.add_0_l.
  rewrite (user_read _ uid fd _ _ _ _ m Hu (Z.le_refl 0) (file_read_end file buf' (zlen buf)) Em). cbn [mbind option_bind].
  eexists. split; [done|]. destruct m; split; try done; intros H; exfalso; [by apply H, Hm|]. by apply Hm in H.
Qed.

Lemma cat_reports_witness :
  cat 2 1000 3 aVirus 0 (replicate 128 "000"%char) 128 = Some [Malicious 1000 3; Malicious 1000 3] ∧
  cat 2 1000 3 notAVirus 0 (replicate 128 "000"%char) 128 = Some [].
Proof.
  split; [|by vm_compute].
  destruct (cat_reports 2 1000 3 aVirus (replicate 128 "000"%char)) as (o & E & H & _); [done|done|by vm_compute|done|].
  rewrite <-H; [exact E|]. exists (take 44 aVirus), (drop 49 aVirus ++ replicate 60 "000"%char). by vm_compute.
Defined.
